(* ===== verification/_CoqProject ===== *)
-Q . S2P
Prelude.v
Fnv.v
LibString.v
Cpio.v
Printf.v
Probing.v
Heap.v
HashMap.v
Queue.v
Tasks.v
Cpu.v
FrameAlloc.v
Paging.v
Loader.v
LibAlloc.v
Realloc.v
KernelHeap.v
ListAlloc.v
Pci.v
Ahci.v
Acpi.v
Terminal.v
Kernel.v
Trace.v
Log.v
Input.v
Aml.v
AmlCorrect.v
Main.v
