(* ===== verification/Prelude.v ===== *)
(** * Lethe: a verification library for the kernel, its libc and its utilities

    Lethe is a hobby kernel for x86-64, started by Limine or by its own UEFI
    loader, with a small libc, a utility library and the front end of an AML
    interpreter.  This development models its core in Gallina, one file per
    component, and proves what the component promises to those above it.

    ** How the parts fit together

    The boot memory map feeds the frame allocator; the page tables take their
    frames from it; the page-run allocator grows the heap by mapping pages; the
    heap allocator liballoc cuts those pages into blocks; the containers, the
    tasks and the shell live in blocks.  Firmware tables and configuration
    space are read through the page tables, text goes to the terminal.

    - [Prelude]: machine integers as [Z] with explicit wrap-around, the outcomes
      [Ok] and [Err] (halted on purpose, undefined in C, out of fuel), loops
      ([iter]), byte memory, bit-fields; tactics and lemmas shared by all.
    - [Fnv]: lethe-utils/hash_32a.c, hash_64a.c, include/fnv.h.
    - [LibString], [Printf]: lethe-libc/string.c, stdio.c.
    - [Heap]: the allocator the utilities are linked against, its operations
      (class [Allocator]) apart from their laws (class [AllocatorLaws]);
      [Probing]: the theory of linear probing; [HashMap]:
      lethe-utils/hashmap.c over both; [KernelHeap]: the malloc, calloc and free
      of liballoc as instances of the two classes, for memory behind which the
      pages are (class [PageMemory] of [Realloc]), and the hash map in it.
    - [Queue]: lethe-utils/queue.c, linked_list.c; [Tasks]: lethe-kernel/cpu/task.c
      on that queue.
    - [FrameAlloc]: lethe-kernel/memory/initial_frame_allocator.c, the instance
      of the class [FrameSource]; [Paging]: memory/paging.c against the class.
    - [Loader]: lethe-bootloaders/loader (page_table.c, elf.c, bootinfo.c,
      bootx64.c) on the trees of [Paging] and the class [BootServices].
    - [LibAlloc], [Realloc]: memory/liballoc.c against the class [PageSource];
      [ListAlloc]: memory/list_allocator.c, alloc.c, on [Paging].
    - [Pci]: pci/pci.c, msi.c; [Acpi]: acpi/*.c, on [Paging] and [LibString];
      [Ahci]: pci/ahci.c over registers of the class [Mmio], on [Paging], [Pci]
      and the class [Allocator]; [Cpio]: memory/cpio.c.
    - [Cpu]: cpu/gdt.c, idt.c, isr.c, tss.c, pit.c, tsc.c, sleep.c and
      misc/config.c over the class [Machine]; [Kernel]: the start of kernel.c
      and kernel_limine.c, composed of [Cpu], [ListAlloc], [Terminal] and [Acpi];
      [Main]: kmain from [init_pci] to its end, and all of it, on one state
      composed of those of [Kernel], [Pci], [Ahci], [KernelHeap] and [Input],
      with the power-off of [Aml].
    - [Terminal]: terminal/tty.c, pixel.c.
    - [Trace]: misc/trace.c, include/elf.h; [Log]: terminal/log.c, misc/utils.c,
      lethe-libc/assert.c, stdlib.c, on [Printf] and [Trace]; [Input]:
      misc/keyboard.c, shell.c, include/scancodes.h, on [LibAlloc], [Realloc]
      and [Trace].
    - [Aml]: lethe-aml/aml (helpers.c, defs.c, name.c, namespace.c, interface.c
      and their headers) with finite maps for its hash maps; [AmlCorrect]: the
      reference encodings and what the parsers do with them.

    In every file a C function is the definition of its name; its arguments are
    the C arguments after the state it reads, its result is the new state with
    the C result.  C structures are records, file-level variables are fields of
    a state record, pointers are addresses.

    ** What the theorems show

    - Memory: the frame allocator hands out exactly the usable frames, each
      once ([allocate_frames_exact]); mapping and unmapping a page change
      exactly that translation ([map_page_maps], [unmap_page_unmaps]); malloc,
      free and realloc keep the heap invariant and refine a set of disjoint
      live blocks ([malloc_correct], [free_correct], [realloc_moves]), up to the
      cut of the size to 32 bits, for which a block is granted
      ([malloc_truncates]); growing the heap maps
      fresh frames only ([list_alloc_grows]), while splitting a run is wrong
      ([list_alloc_split_wrong]).
    - Containers: the hash map refines a finite map and fails only because
      calloc does ([hm_set_insert], [hm_get_lookup]), also in the heap of the
      kernel, where building one keeps the invariant of liballoc and calloc
      without pages clears through NULL ([kernel_hash_map]); the queue is a one-place buffer
      ([queue_one_place]), which starves all tasks but one
      ([tasks_first_only]); a task resumes with its registers
      ([switch_task_round_trip]).
    - Text: number formatting against a reference ([ntoa_long_correct],
      [vprintf_pieces]), and so the lines of the log and of panics (lemmas of
      [Log]); strings ([memmove_correct]); hashing; the screen
      ([tty_print_safe], [tty_putc_draws]); the line editor, against one with a
      keyboard layout of its own and with the growth of its buffer
      ([kb_line_edit]), and its commands ([execute_command_runs]); symbols.
    - Hardware: PCI scan and search, which do not see behind bridges
      ([scan_pci_space_bus0]), the programming of the I/O APIC; the request the
      AHCI driver issues, in the lowest free slot ([send_cmd_request]), for which
      it waits for ever ([send_cmd_never_returns]); the gates and handlers of
      interrupts ([load_idt_dispatch]); sleeping, tick by tick
      ([ksleep_wakes]); a CPIO archive is read
      up to its first ordinary file ([get_files_stops_at_file]).
    - Boot: the loader maps regions exactly ([map_pages_maps]), places the
      segments of the kernel that end on page borders inside the block it asks
      for ([load_places_segments]) but rounds the end of others down (lemma [load_end_rounded_down]), and takes the stack from a smallest
      region (lemma [choose_stack_smallest]); the kernel starts from the answers of
      Limine with a wrong frequency ([kernel_timer_frequency]), does not get to
      its shell when there is a disk ([disk_blocks_kmain]), and otherwise runs
      commands until kexit, after which it halts without turning the machine
      off ([kexit_command_halts]).
    - AML: data objects and integer terms in their standard coding are read
      back and evaluated ([parse_data_object_round_trip],
      [term_arg_to_int_evaluates]), a table of names fills the root
      ([parse_table_names]) and soft-off writes what such a table says
      ([execute_sleep_soft_off]); a true If stops the parser
      ([def_if_else_true_halts]).

    A theorem that states a flaw of the code says what the code does instead of
    what it means to do.  What a theorem leaves out because the code leaves its
    memory there has a lemma or a finding of its own: a backspace on an empty
    line ([del_char_empty]) and keys without a place in the status array
    ([kb_update_outside]).

    ** Bounds and fuel

    Loops bounded by a C variable run with that bound as fuel, plus one for the
    exit test, so fuel never ends them.  Loops over linked structures (free
    lists, page runs, capabilities, strings, MADT structures, frames) take fuel
    as an argument; the theorems give a bound that is enough, such as the
    number of tags or of structures, and so prove termination; the heap of
    [KernelHeap] carries its bound along ([rounds], two more with each request,
    which makes at most two tags).  The two
    theorems with [OutOfFuel] hold for every fuel: the loop does not end.  Waits
    for a device take fuel too: only the device can end them.
    Indices of type [int] overflow into [Undefined] where the code can reach
    it.

    ** Not modelled, and why

    - Inline assembly and the .asm files: interrupt entry, context switch and
      mode changes; their effect is an argument or a result where C code
      depends on it.  Port and device accesses are arguments (reads) and lists
      of writes.
    - Data races: the kernel runs on one processor; an interrupt is one call of
      its handler between two steps.
    - Printing of debug information, the serial debug port, and the constants
      of misc/cpuid.h and include/loaders/limine.h.
    - On the state of [Main], what the drivers share is shared: page tables,
      frames, memory, the heap.  The page source of liballoc stays a parameter:
      list_alloc, which splits runs wrongly, does not have its laws.  The heap
      [kmain] goes on with behind the start is an argument as well: what
      [init_tasks], [init_mcfg] and the PCI scan allocate is not followed there
      (their nodes are lists), so [disk_blocks_kmain] and [kexit_command_halts]
      hold for every heap they may leave.  Of the functions a command may call
      only [kexit] is followed.
    - Dead code: [test_usermode], the commands of shell.c that nothing calls,
      the printers of namespaces and of the heap. *)
From Stdlib Require Export ZArith Lia.
From stdpp Require Export base tactics numbers option list gmap.

#[global] Open Scope Z_scope.

(** ** Machine integers

    A C integer of width [w] is a [Z] in range; arithmetic on unsigned
    types wraps with [wrap w], conversion to a signed type re-reads the low
    [w] bits in two's complement with [swrap w]. *)

Definition wrap (w z : Z) : Z := z mod 2 ^ w.

Definition swrap (w z : Z) : Z :=
  let m := z mod 2 ^ w in if m <? 2 ^ (w - 1) then m else m - 2 ^ w.

Definition u8 : Z → Z := wrap 8.
Definition u16 : Z → Z := wrap 16.
Definition u32 : Z → Z := wrap 32.
Definition u64 : Z → Z := wrap 64.
Definition s8 : Z → Z := swrap 8.
Definition s32 : Z → Z := swrap 32.

Definition UINT64_MAX : Z := 2 ^ 64 - 1.
Definition UINT32_MAX : Z := 2 ^ 32 - 1.
Definition INT_MAX : Z := 2 ^ 31 - 1.

(** ** Outcomes

    [Halted]: the code stopped the machine on purpose ([panic], [abort],
    [halt], a failed [assert]).  [Undefined]: the C execution is undefined
    (access outside an object, null dereference, signed overflow, division by
    zero).  [OutOfFuel]: the model's bound on loop iterations was too small. *)

Inductive stop : Type := Halted | Undefined | OutOfFuel.

Inductive res (A : Type) : Type :=
| Ok (a : A)
| Err (e : stop).
Arguments Ok {A} _.
Arguments Err {A} _.

#[global] Instance stop_eq_dec : EqDecision stop.
Proof. solve_decision. Defined.

#[global] Instance res_eq_dec {A} `{EqDecision A} : EqDecision (res A).
Proof. solve_decision. Defined.

#[global] Instance res_ret : MRet res := λ A a, Ok a.
#[global] Instance res_bind : MBind res := λ A B f m,
  match m with Ok a => f a | Err e => Err e end.
#[global] Instance res_fmap : FMap res := λ A B f m,
  match m with Ok a => Ok (f a) | Err e => Err e end.

(** [of_option e o]: the value, or stop with [e]. *)
Definition of_option {A} (e : stop) (o : option A) : res A :=
  match o with Some a => Ok a | None => Err e end.

(** [guard_or e b]: go on when [b] holds, stop with [e] otherwise. *)
Definition guard_or (e : stop) (b : bool) : res unit :=
  if b then Ok tt else Err e.

(** An [int] result computed without wrap-around: overflow is undefined. *)
Definition int_ok (z : Z) : res Z :=
  if (- 2 ^ 31 <=? z) && (z <? 2 ^ 31) then Ok z else Err Undefined.

(** ** Loops

    [iter fuel body s] runs a C loop: one call of [body] is one iteration,
    [Next] goes round again, [Done] leaves the loop ([break], [return], or a
    false condition). *)

Inductive ctrl (S R : Type) : Type :=
| Next (s : S)
| Done (r : R).
Arguments Next {S R} _.
Arguments Done {S R} _.

Fixpoint iter {S R} (fuel : nat) (body : S → res (ctrl S R)) (s : S) : res R :=
  match fuel with
  | O => Err OutOfFuel
  | Datatypes.S fuel =>
      c ← body s;
      match c with Next s' => iter fuel body s' | Done r => Ok r end
  end.

(** ** Byte memory *)

Abbreviation mem := (gmap Z Z).

Definition load8 (m : mem) (a : Z) : res Z := of_option Undefined (m !! a).

Definition store8 (m : mem) (a v : Z) : res mem :=
  match m !! a with
  | Some _ => Ok (<[a := u8 v]> m)
  | None => Err Undefined
  end.

(** A little-endian load of [n] bytes. *)
Fixpoint load_le (n : nat) (m : mem) (a : Z) : res Z :=
  match n with
  | O => Ok 0
  | S n =>
      b ← load8 m a;
      r ← load_le n m (a + 1);
      Ok (Z.lor b (Z.shiftl r 8))
  end.

Definition load16 : mem → Z → res Z := load_le 2.
Definition load32 : mem → Z → res Z := load_le 4.
Definition load64 : mem → Z → res Z := load_le 8.

(** A little-endian store of [n] bytes. *)
Fixpoint store_le (n : nat) (m : mem) (a v : Z) : res mem :=
  match n with
  | O => Ok m
  | S n => m ← store8 m a v; store_le n m (a + 1) (Z.shiftr v 8)
  end.

Definition store32 : mem → Z → Z → res mem := store_le 4.

(** The number with the little-endian bytes [bs]. *)
Fixpoint le (bs : list Z) : Z :=
  match bs with [] => 0 | b :: bs => Z.lor b (Z.shiftl (le bs) 8) end.

(** [n] little-endian bytes. *)
Fixpoint le_bytes (n : nat) (v : Z) : list Z :=
  match n with O => [] | S n => v mod 256 :: le_bytes n (v / 256) end.

(** The bytes [bs] lie at [p]. *)
Definition bytes_at (m : mem) (p : Z) (bs : list Z) : Prop :=
  ∀ (i : nat) (b : Z), bs !! i = Some b → m !! (p + Z.of_nat i) = Some b.

Definition is_byte (b : Z) : Prop := 0 ≤ b < 256.

(** A NUL-terminated string with contents [bs] lies at [p]. *)
Definition cstring_at (m : mem) (p : Z) (bs : list Z) : Prop :=
  bytes_at m p (bs ++ [0]) ∧ Forall (λ b, b ≠ 0) bs.

(** [write_bytes m p bs]: the memory after [bs] has been stored at [p]. *)
Fixpoint write_bytes (m : mem) (p : Z) (bs : list Z) : mem :=
  match bs with
  | [] => m
  | b :: bs => write_bytes (<[p := b]> m) (p + 1) bs
  end.

(** The bytes of [n] addresses from [p], where all are mapped. *)
Fixpoint read_bytes (m : mem) (p : Z) (n : nat) : option (list Z) :=
  match n with
  | O => Some []
  | S n => b ← m !! p; bs ← read_bytes m (p + 1) n; Some (b :: bs)
  end.

(** ** Bit-fields

    A packed record is a list of (width, value) pairs, lowest bits first. *)
Fixpoint pack (fs : list (Z * Z)) : Z :=
  match fs with
  | [] => 0
  | (w, v) :: fs => v mod 2 ^ w + 2 ^ w * pack fs
  end.

Fixpoint unpack (ws : list Z) (z : Z) : list Z :=
  match ws with
  | [] => []
  | w :: ws => z mod 2 ^ w :: unpack ws (z / 2 ^ w)
  end.

(** The bits [[pos, pos + w)] of [z]. *)
Definition field (pos w z : Z) : Z := (z / 2 ^ pos) mod 2 ^ w.

(** * Shared lemmas and automation *)

Create HintDb lethe.
Create Rewrite HintDb lethe.

(** [simpl_res]: simplify the bind of a value or of an error. *)
Ltac simpl_res :=
  repeat (progress
    (cbn [mbind res_bind mret res_ret fmap res_fmap of_option guard_or option_bind
          option_ret option_fmap option_map] in *)).

(** [inv_res H]: turn [m ≫= f = Ok r] into the equations of its parts. *)
Ltac inv_res H :=
  lazymatch type of H with
  | mbind ?f ?m = Ok _ =>
      let E := fresh "E" in
      destruct m eqn:E; simpl_res; [|discriminate H]; try inv_res H
  | Ok _ = Ok _ => injection H; clear H; intros; subst
  | Err _ = Ok _ => discriminate H
  | _ => idtac
  end.

(** [solve_pow]: [lia] after computing the closed powers of two. *)
Ltac pow_compute :=
  repeat match goal with
  | |- context [2 ^ Zpos ?p] =>
      let v := eval vm_compute in (2 ^ Zpos p) in change (2 ^ Zpos p) with v
  | H : context [2 ^ Zpos ?p] |- _ =>
      let v := eval vm_compute in (2 ^ Zpos p) in change (2 ^ Zpos p) with v in H
  end.

Ltac unfold_ints :=
  unfold u8, u16, u32, u64, s8, s32, wrap, swrap, UINT64_MAX, UINT32_MAX, INT_MAX,
    is_byte in *.

Ltac int_lia := unfold_ints; pow_compute; lia.

(** [zbool]: evaluate the integer comparisons of the goal that [lia] decides. *)
Ltac zbool_one c yes no :=
  let E := fresh "E" in
  first [ assert (E : c = true) by (apply yes; int_lia)
        | assert (E : c = false) by (apply no; int_lia) ];
  rewrite ?E; clear E.

Lemma gtb_true a b : b < a → (a >? b) = true.
Proof. intros. rewrite Z.gtb_ltb. by apply Z.ltb_lt. Qed.
Lemma gtb_false a b : a ≤ b → (a >? b) = false.
Proof. intros. rewrite Z.gtb_ltb. by apply Z.ltb_ge. Qed.
Lemma geb_true a b : b ≤ a → (a >=? b) = true.
Proof. intros. rewrite Z.geb_leb. by apply Z.leb_le. Qed.
Lemma geb_false a b : a < b → (a >=? b) = false.
Proof. intros. rewrite Z.geb_leb. by apply Z.leb_gt. Qed.

Ltac zbool :=
  repeat match goal with
  | |- context [?a <? ?b] => zbool_one (a <? b) (proj2 (Z.ltb_lt a b)) (proj2 (Z.ltb_ge a b))
  | |- context [?a <=? ?b] => zbool_one (a <=? b) (proj2 (Z.leb_le a b)) (proj2 (Z.leb_gt a b))
  | |- context [?a >? ?b] => zbool_one (a >? b) (gtb_true a b) (gtb_false a b)
  | |- context [?a >=? ?b] => zbool_one (a >=? b) (geb_true a b) (geb_false a b)
  | |- context [?a =? ?b] => zbool_one (a =? b) (proj2 (Z.eqb_eq a b)) (proj2 (Z.eqb_neq a b))
  end.

(** [zcase]: split on the first undecided integer comparison of the goal. *)
Ltac zcase :=
  match goal with
  | |- context [?a <? ?b] => destruct (Z.ltb_spec a b)
  | |- context [?a <=? ?b] => destruct (Z.leb_spec a b)
  | |- context [?a =? ?b] => destruct (Z.eqb_spec a b)
  | |- context [?a >? ?b] => rewrite (Z.gtb_ltb a b); destruct (Z.ltb_spec b a)
  | |- context [?a >=? ?b] => rewrite (Z.geb_leb a b); destruct (Z.leb_spec b a)
  end.

Section wrap.
Lemma wrap_range w z : 0 ≤ w → 0 ≤ wrap w z < 2 ^ w.
Proof. intros. unfold wrap. apply Z.mod_pos_bound. lia. Qed.

Lemma wrap_small w z : 0 ≤ z < 2 ^ w → wrap w z = z.
Proof. intros. unfold wrap. by apply Z.mod_small. Qed.

Lemma wrap_wrap w z : wrap w (wrap w z) = wrap w z.
Proof. unfold wrap. apply Z.mod_mod_divide. reflexivity. Qed.

Lemma swrap_small w z : 0 < w → - 2 ^ (w - 1) ≤ z < 2 ^ (w - 1) → swrap w z = z.
Proof.
  intros Hw Hz. unfold swrap.
  assert (E : 2 ^ w = 2 * 2 ^ (w - 1)) by (rewrite <- Z.pow_succ_r by lia; f_equal; lia).
  destruct (decide (0 ≤ z)).
  - rewrite Z.mod_small by lia. case_match; lia.
  - replace (z mod 2 ^ w) with (z + 2 ^ w); [case_match; lia|].
    apply Z.mod_unique with (-1); lia.
Qed.

Lemma swrap_range w z : 0 < w → - 2 ^ (w - 1) ≤ swrap w z < 2 ^ (w - 1).
Proof.
  intros Hw. unfold swrap.
  assert (E : 2 ^ w = 2 * 2 ^ (w - 1)) by (rewrite <- Z.pow_succ_r by lia; f_equal; lia).
  pose proof (Z.mod_pos_bound z (2 ^ w)). case_match; lia.
Qed.

Lemma wrap_wrap_le w k z : 0 ≤ w ≤ k → wrap w (wrap k z) = wrap w z.
Proof.
  intros H. unfold wrap. apply Z.mod_mod_divide. exists (2 ^ (k - w)).
  rewrite <- Z.pow_add_r by lia. f_equal. lia.
Qed.

Lemma swrap_wrap w k z : 0 ≤ w ≤ k → swrap w (wrap k z) = swrap w z.
Proof. intros H. unfold swrap. fold (wrap w (wrap k z)). by rewrite wrap_wrap_le. Qed.

Lemma int_ok_Ok z : - 2 ^ 31 ≤ z < 2 ^ 31 → int_ok z = Ok z.
Proof. intros. unfold int_ok. case_match; [done|]. lia. Qed.
End wrap.

#[export] Hint Resolve wrap_range swrap_range : lethe.
#[export] Hint Rewrite wrap_wrap : lethe.

(** ** Bits *)

Section bits.
Lemma testbit_above w z i : 0 ≤ z < 2 ^ w → w ≤ i → Z.testbit z i = false.
Proof.
  intros Hz Hi. destruct (decide (0 ≤ w)).
  - rewrite <- (Z.mod_small z (2 ^ w)) by done. apply Z.mod_pow2_bits_high. lia.
  - rewrite Z.pow_neg_r in Hz; lia.
Qed.

Lemma bits_bound w z :
  0 ≤ w → 0 ≤ z → (∀ i, w ≤ i → Z.testbit z i = false) → z < 2 ^ w.
Proof.
  intros Hw Hz H. assert (z = z mod 2 ^ w) as ->; [|apply Z.mod_pos_bound; lia].
  apply Z.bits_inj'. intros i Hi. destruct (decide (i < w)).
  - by rewrite Z.mod_pow2_bits_low by lia.
  - rewrite Z.mod_pow2_bits_high by lia. apply H. lia.
Qed.

Lemma lor_range w x y : 0 ≤ w → 0 ≤ x < 2 ^ w → 0 ≤ y < 2 ^ w → 0 ≤ Z.lor x y < 2 ^ w.
Proof.
  intros Hw Hx Hy. assert (0 ≤ Z.lor x y) by (apply Z.lor_nonneg; lia).
  split; [done|]. apply bits_bound; [done..|]. intros i Hi.
  by rewrite Z.lor_spec, (testbit_above w x), (testbit_above w y).
Qed.

Lemma lxor_range w x y : 0 ≤ w → 0 ≤ x < 2 ^ w → 0 ≤ y < 2 ^ w → 0 ≤ Z.lxor x y < 2 ^ w.
Proof.
  intros Hw Hx Hy. assert (0 ≤ Z.lxor x y) by (apply Z.lxor_nonneg; lia).
  split; [done|]. apply bits_bound; [done..|]. intros i Hi.
  by rewrite Z.lxor_spec, (testbit_above w x), (testbit_above w y).
Qed.

Lemma land_range w x y : 0 ≤ w → 0 ≤ y < 2 ^ w → 0 ≤ Z.land x y < 2 ^ w.
Proof.
  intros Hw Hy. assert (0 ≤ Z.land x y) by (apply Z.land_nonneg; lia).
  split; [done|]. apply bits_bound; [done..|]. intros i Hi.
  rewrite Z.land_spec, (testbit_above w y) by done. apply andb_false_r.
Qed.

Lemma shiftr_range w k x : 0 ≤ k ≤ w → 0 ≤ x < 2 ^ w → 0 ≤ Z.shiftr x k < 2 ^ (w - k).
Proof.
  intros Hk Hx. rewrite Z.shiftr_div_pow2 by lia. split; [apply Z.div_pos; lia|].
  apply Z.div_lt_upper_bound; [lia|]. rewrite <- Z.pow_add_r by lia.
  replace (k + (w - k)) with w by lia. lia.
Qed.

Lemma land_mask w x : 0 ≤ w → Z.land x (2 ^ w - 1) = x mod 2 ^ w.
Proof.
  intros Hw. rewrite <- Z.land_ones by done. by rewrite Z.ones_equiv, Z.sub_1_r.
Qed.

(** A disjunction of a low part and a shifted high part is a sum. *)
Lemma lor_shiftl_add w x y : 0 ≤ w → 0 ≤ x < 2 ^ w → Z.lor x (Z.shiftl y w) = x + y * 2 ^ w.
Proof.
  intros Hw Hx. assert (E : Z.land x (Z.shiftl y w) = 0).
  { apply Z.bits_inj'. intros i Hi. rewrite Z.land_spec, Z.bits_0.
    destruct (decide (i < w)).
    - rewrite Z.shiftl_spec_low by done. apply andb_false_r.
    - by rewrite (testbit_above w) by lia. }
  rewrite <- Z.shiftl_mul_pow2 by done.
  rewrite Z.add_nocarry_lxor by done. by rewrite Z.lxor_lor.
Qed.
End bits.

Section fields.
Lemma unpack_pack fs :
  Forall (λ f, 0 ≤ f.1) fs → unpack fs.*1 (pack fs) = (λ f, f.2 mod 2 ^ f.1) <$> fs.
Proof.
  induction 1 as [|[w v] fs Hw Hfs IH]; [done|].
  rewrite !fmap_cons. cbn [pack unpack fst snd] in *.
  assert (0 < 2 ^ w) by (apply Z.pow_pos_nonneg; lia).
  rewrite (Z.mul_comm (2 ^ w)), Z_mod_plus_full, Z.mod_mod, Z.div_add by lia.
  rewrite (Z.div_small (v mod 2 ^ w)) by (apply Z.mod_pos_bound; lia). by rewrite Z.add_0_l, IH.
Qed.

Lemma pack_unpack ws z :
  Forall (λ w, 0 ≤ w) ws → 0 ≤ z < 2 ^ foldr Z.add 0 ws → pack (zip ws (unpack ws z)) = z.
Proof.
  intros H. revert z. induction H as [|w ws Hw Hws IH]; intros z Hz; cbn [pack unpack zip zip_with].
  - cbn in Hz. lia.
  - cbn [foldr] in Hz. assert (0 < 2 ^ w) by (apply Z.pow_pos_nonneg; lia).
    assert (0 ≤ foldr Z.add 0 ws) by (clear -Hws; induction Hws; cbn; lia).
    rewrite Z.pow_add_r in Hz by lia. rewrite Z.mod_mod by lia. unfold zip in IH. rewrite IH.
    + pose proof (Z.div_mod z (2 ^ w)). lia.
    + split; [apply Z.div_pos; lia|]. apply Z.div_lt_upper_bound; lia.
Qed.

Lemma pack_range fs :
  Forall (λ f, 0 ≤ f.1) fs → 0 ≤ pack fs < 2 ^ foldr Z.add 0 fs.*1.
Proof.
  induction 1 as [|[w v] fs Hw Hfs IH]; rewrite ?fmap_cons; cbn [pack foldr fst] in *; [cbn; lia|].
  assert (0 ≤ foldr Z.add 0 fs.*1)
    by (clear -Hfs; induction Hfs; rewrite ?fmap_cons; cbn [foldr]; [cbn|]; lia).
  assert (0 < 2 ^ w) by (apply Z.pow_pos_nonneg; lia).
  pose proof (Z.mod_pos_bound v (2 ^ w)). rewrite Z.pow_add_r by lia. nia.
Qed.

(** A field behind the first one is a field of what is behind. *)
Lemma field_pack_skip w v fs pos k :
  0 ≤ w ≤ pos → field pos k (pack ((w, v) :: fs)) = field (pos - w) k (pack fs).
Proof.
  intros Hw. unfold field. cbn [pack]. f_equal.
  assert (0 < 2 ^ w) by (apply Z.pow_pos_nonneg; lia).
  replace (2 ^ pos) with (2 ^ w * 2 ^ (pos - w)) by (rewrite <- Z.pow_add_r by lia; f_equal; lia).
  assert (0 < 2 ^ (pos - w)) by (apply Z.pow_pos_nonneg; lia).
  rewrite <- Z.div_div by lia. f_equal. rewrite (Z.mul_comm (2 ^ w)), Z.div_add by lia.
  rewrite Z.div_small by (apply Z.mod_pos_bound; lia). lia.
Qed.

Lemma field_pack_first w v fs : 0 ≤ w → field 0 w (pack ((w, v) :: fs)) = v mod 2 ^ w.
Proof.
  intros Hw. unfold field. cbn [pack]. rewrite Z.pow_0_r, Z.div_1_r.
  assert (0 < 2 ^ w) by (apply Z.pow_pos_nonneg; lia).
  by rewrite (Z.mul_comm (2 ^ w)), Z_mod_plus_full, Z.mod_mod by lia.
Qed.

Lemma field_range pos w z : 0 ≤ w → 0 ≤ field pos w z < 2 ^ w.
Proof. intros. unfold field. apply Z.mod_pos_bound, Z.pow_pos_nonneg; lia. Qed.
End fields.

(** [field_pack]: compute the fields of a packed record. *)
Ltac field_pack :=
  repeat match goal with
  | |- context [field (?a - ?b) ?k ?z] =>
      let v := eval vm_compute in (a - b) in change (a - b) with v
  | |- context [field 0 ?w (pack ((?w, ?v) :: ?fs))] =>
      rewrite (field_pack_first w v fs) by lia
  | |- context [field ?p ?k (pack ((?w, ?v) :: ?fs))] =>
      rewrite (field_pack_skip w v fs p k) by lia
  end.

#[export] Hint Resolve lor_range lxor_range land_range shiftr_range : lethe.

Section iter.
Context {S R : Type} (body : S → res (ctrl S R)).

(** Total-correctness rule: an invariant, a decreasing measure, and a
    postcondition established by every way out of the loop. *)
Lemma iter_total (I : S → Prop) (Q : R → Prop) (μ : S → nat) :
  (∀ s, I s → match body s with
              | Ok (Next s') => I s' ∧ (μ s' < μ s)%nat
              | Ok (Done r) => Q r
              | Err _ => False
              end) →
  ∀ fuel s, I s → (μ s < fuel)%nat → ∃ r, iter fuel body s = Ok r ∧ Q r.
Proof.
  intros Hb fuel. induction fuel as [|fuel IH]; intros s Hs Hμ; [lia|].
  specialize (Hb s Hs). cbn [iter].
  destruct (body s) as [[s'|r]|e]; simpl_res; [|eauto|done].
  destruct Hb as [Hs' Hlt]. apply IH; [done|lia].
Qed.

(** The same rule for a loop with a known result. *)
Lemma iter_ok (I : S → Prop) (μ : S → nat) (r : R) (fuel : nat) (s : S) :
  (∀ s, I s → match body s with
              | Ok (Next s') => I s' ∧ (μ s' < μ s)%nat
              | Ok (Done r') => r' = r
              | Err _ => False
              end) →
  I s → (μ s < fuel)%nat → iter fuel body s = Ok r.
Proof.
  intros Hb Hs Hμ. by destruct (iter_total I (λ r', r' = r) μ Hb fuel s) as (? & ? & ->).
Qed.

(** Partial rule: what holds of any result the loop returns. *)
Lemma iter_partial (I : S → Prop) (Q : R → Prop) :
  (∀ s c, I s → body s = Ok c →
     match c with Next s' => I s' | Done r => Q r end) →
  ∀ fuel s r, I s → iter fuel body s = Ok r → Q r.
Proof.
  intros Hb fuel. induction fuel as [|fuel IH]; intros s r Hs Hr; cbn [iter] in Hr; [done|].
  destruct (body s) as [c|e] eqn:E; simpl_res; [|done].
  specialize (Hb s c Hs E). destruct c; [eauto|by inv_res Hr].
Qed.

(** A result does not depend on spare fuel. *)
Lemma iter_mono fuel fuel' s r :
  iter fuel body s = Ok r → (fuel ≤ fuel')%nat → iter fuel' body s = Ok r.
Proof.
  revert fuel' s. induction fuel as [|fuel IH]; intros fuel' s; cbn [iter]; [done|].
  destruct fuel' as [|fuel']; [lia|]. cbn [iter].
  destruct (body s) as [[s'|r']|e]; simpl_res; [|done|done].
  intros H Hle. apply IH; [done|lia].
Qed.
End iter.

(** [r'] returns what [r] returns.  A computation that reads memory does so in
    every larger memory: [in_larger] goes through its binds, loops and
    branches. *)
Definition extends {A} (r r' : res A) : Prop := ∀ v, r = Ok v → r' = Ok v.

Lemma extends_refl {A} (r : res A) : extends r r.
Proof. by intros v. Qed.

Lemma extends_bind {A B} (r r' : res A) (f f' : A → res B) :
  extends r r' → (∀ a, extends (f a) (f' a)) → extends (r ≫= f) (r' ≫= f').
Proof.
  intros Hr Hf v. destruct r as [a|e]; cbn [mbind res_bind]; [|done]. intros E.
  rewrite (Hr a eq_refl). by apply Hf.
Qed.

Lemma extends_iter {S R} fuel (body body' : S → res (ctrl S R)) s :
  (∀ s, extends (body s) (body' s)) → extends (iter fuel body s) (iter fuel body' s).
Proof.
  intros Hb. revert s. induction fuel as [|fuel IH]; intros s; cbn [iter]; [apply extends_refl|].
  apply extends_bind; [apply Hb|]. intros [s'|r]; [apply IH|apply extends_refl].
Qed.

Lemma load8_larger m m' a : m ⊆ m' → extends (load8 m a) (load8 m' a).
Proof.
  intros Hm v. unfold load8. destruct (m !! a) as [b|] eqn:E; [|done].
  by rewrite (lookup_weaken _ _ _ _ E Hm).
Qed.

Lemma load_le_larger n m m' a : m ⊆ m' → extends (load_le n m a) (load_le n m' a).
Proof.
  intros Hm. revert a. induction n as [|n IH]; intros a; cbn [load_le]; [apply extends_refl|].
  apply extends_bind; [by apply load8_larger|]. intros b. apply extends_bind; [apply IH|]. intros r. apply extends_refl.
Qed.

Create HintDb larger.
#[export] Hint Resolve load8_larger load_le_larger extends_refl : larger.

Ltac in_larger :=
  repeat match goal with
  | |- extends (mbind _ _) (mbind _ _) => apply extends_bind; [|intros ?]
  | |- extends (iter _ _ _) (iter _ _ _) => apply extends_iter; intros ?
  | |- extends (match ?x with _ => _ end) _ => destruct x
  | |- _ => solve [auto with larger]
  end.

Section memory.
Implicit Types (m : mem) (p a b : Z) (bs : list Z).

Lemma bytes_at_nil m p : bytes_at m p [].
Proof. intros i b Hi. done. Qed.

Lemma bytes_at_cons m p b bs :
  bytes_at m p (b :: bs) ↔ m !! p = Some b ∧ bytes_at m (p + 1) bs.
Proof.
  split.
  - intros H. split.
    + specialize (H 0%nat b eq_refl). by rewrite Z.add_0_r in H.
    + intros i c Hi. specialize (H (S i) c Hi).
      by replace (p + 1 + Z.of_nat i) with (p + Z.of_nat (S i)) by lia.
  - intros [Hb H] [|i] c Hi; cbn in Hi.
    + injection Hi as <-. by rewrite Z.add_0_r.
    + specialize (H i c Hi). by replace (p + Z.of_nat (S i)) with (p + 1 + Z.of_nat i) by lia.
Qed.

Lemma bytes_at_app m p bs1 bs2 :
  bytes_at m p (bs1 ++ bs2) ↔
  bytes_at m p bs1 ∧ bytes_at m (p + Z.of_nat (length bs1)) bs2.
Proof.
  revert p. induction bs1 as [|b bs1 IH]; intros p; cbn [app length].
  - rewrite Z.add_0_r. split; [split; [apply bytes_at_nil|done]|by intros [_ ?]].
  - rewrite !bytes_at_cons, IH.
    replace (p + 1 + Z.of_nat (length bs1)) with (p + Z.of_nat (S (length bs1))) by lia. tauto.
Qed.

Lemma bytes_at_lookup m p bs i b :
  bytes_at m p bs → bs !! i = Some b → load8 m (p + Z.of_nat i) = Ok b.
Proof. intros H Hi. unfold load8. by rewrite (H i b Hi). Qed.

Lemma load_le_at m p bs : bytes_at m p bs → load_le (length bs) m p = Ok (le bs).
Proof.
  revert p. induction bs as [|b bs IH]; intros p H; [done|].
  cbn [length load_le le]. pose proof (bytes_at_lookup _ _ _ 0 b H eq_refl) as Hb.
  rewrite Z.add_0_r in Hb. rewrite Hb. simpl_res. rewrite IH; [done|].
  intros i c Hi. specialize (H (S i) c Hi).
  by replace (p + 1 + Z.of_nat i) with (p + Z.of_nat (S i)) by lia.
Qed.

Lemma le_cons b bs : is_byte b → le (b :: bs) = b + 256 * le bs.
Proof. intros Hb. cbn [le]. rewrite lor_shiftl_add by (unfold is_byte in Hb; lia). lia. Qed.

Lemma le_range bs : Forall is_byte bs → 0 ≤ le bs < 256 ^ Z.of_nat (length bs).
Proof.
  induction 1 as [|b bs Hb Hbs IH]; [done|]. rewrite le_cons by done.
  cbn [length]. rewrite Nat2Z.inj_succ, Z.pow_succ_r by lia. unfold is_byte in Hb. lia.
Qed.

Lemma le_bytes_length n v : length (le_bytes n v) = n.
Proof. revert v. induction n; intros v; cbn; [done|by f_equal]. Qed.

Lemma le_bytes_byte n v : Forall is_byte (le_bytes n v).
Proof.
  revert v. induction n as [|n IH]; intros v; cbn; [apply Forall_nil_2|].
  apply Forall_cons_2; [|done]. unfold is_byte. apply Z.mod_pos_bound. lia.
Qed.

Lemma le_le_bytes n v : 0 ≤ v < 256 ^ Z.of_nat n → le (le_bytes n v) = v.
Proof.
  revert v. induction n as [|n IH]; intros v Hv; [cbn in *; lia|].
  rewrite Nat2Z.inj_succ, Z.pow_succ_r in Hv by lia. cbn [le_bytes].
  rewrite le_cons by (unfold is_byte; apply Z.mod_pos_bound; lia).
  rewrite IH; [pose proof (Z.div_mod v 256); lia|].
  split; [apply Z.div_pos; lia|apply Z.div_lt_upper_bound; lia].
Qed.

(** A little-endian load of what [le_bytes] lays down. *)
Lemma load_le_bytes n m p v :
  bytes_at m p (le_bytes n v) → 0 ≤ v < 256 ^ Z.of_nat n → load_le n m p = Ok v.
Proof.
  intros Hb Hv. pose proof (load_le_at _ _ _ Hb) as E. by rewrite le_bytes_length, le_le_bytes in E.
Qed.

Lemma store_le_at m p bs :
  (∀ i : nat, (i < length bs)%nat → is_Some (m !! (p + Z.of_nat i))) → Forall is_byte bs →
  store_le (length bs) m p (le bs) = Ok (write_bytes m p bs).
Proof.
  revert m p. induction bs as [|b bs IH]; intros m p Hm Hb; [done|].
  apply Forall_cons in Hb as [Hb Hbs]. pose proof (le_range _ Hbs) as Hr.
  cbn [length store_le write_bytes]. unfold store8. destruct (Hm 0%nat) as [x Hx]; [cbn; lia|].
  rewrite Z.add_0_r in Hx. rewrite Hx. simpl_res. rewrite le_cons by done.
  assert (E1 : u8 (b + 256 * le bs) = b).
  { unfold u8, wrap. change (2 ^ 8) with 256. rewrite Z.mul_comm, Z_mod_plus_full.
    apply Z.mod_small. exact Hb. }
  assert (E2 : Z.shiftr (b + 256 * le bs) 8 = le bs).
  { rewrite Z.shiftr_div_pow2 by lia. change (2 ^ 8) with 256. unfold is_byte in Hb.
    rewrite Z.mul_comm, Z.div_add, Z.div_small by lia. lia. }
  rewrite E1, E2, IH; [done| |done].
  intros i Hi. replace (p + 1 + Z.of_nat i) with (p + Z.of_nat (S i)) by lia.
  destruct (decide (p + Z.of_nat (S i) = p)); [lia|]. rewrite lookup_insert_ne by lia.
  apply Hm. cbn. lia.
Qed.

Lemma load8_Ok m a b : load8 m a = Ok b ↔ m !! a = Some b.
Proof. unfold load8. destruct (m !! a); cbn; split; congruence. Qed.

Lemma read_bytes_at m p n bs :
  read_bytes m p n = Some bs ↔ length bs = n ∧ bytes_at m p bs.
Proof.
  revert p bs. induction n as [|n IH]; intros p bs; cbn [read_bytes].
  - split; [intros [= <-]; split; [done|apply bytes_at_nil]|].
    intros [Hl _]. by apply nil_length_inv in Hl as ->.
  - destruct (m !! p) as [b|] eqn:Hb; simpl_res.
    + destruct (read_bytes m (p + 1) n) as [bs'|] eqn:E; simpl_res.
      * apply IH in E as [El Eb]. split.
        -- intros [= <-]. cbn [length]. split; [lia|]. by apply bytes_at_cons.
        -- intros [Hl H]. destruct bs as [|c bs]; [done|].
           apply bytes_at_cons in H as [Hc H]. cbn in Hl.
           assert (E2 : read_bytes m (p + 1) n = Some bs) by (apply IH; split; [lia|done]).
           assert (E1 : read_bytes m (p + 1) n = Some bs') by (apply IH; done).
           congruence.
      * split; [done|]. intros [Hl H]. destruct bs as [|c bs]; [done|].
        apply bytes_at_cons in H as [Hc H]. cbn in Hl.
        assert (E2 : read_bytes m (p + 1) n = Some bs) by (apply IH; split; [lia|done]).
        congruence.
    + split; [done|]. intros [Hl H]. destruct bs as [|c bs]; [done|].
      apply bytes_at_cons in H as [Hc H]. congruence.
Qed.

(** A string in a memory that computes. *)
Lemma cstring_at_decide m p n bs :
  read_bytes m p n = Some (bs ++ [0]) → forallb (λ b, (0 <? b) && (b <? 256)) bs = true →
  cstring_at m p bs ∧ Forall is_byte bs.
Proof.
  intros H Hb. apply read_bytes_at in H as [_ H].
  assert (Hr : Forall (λ b, 0 < b < 256) bs).
  { apply Forall_forall. intros b Hin. rewrite forallb_forall in Hb.
    specialize (Hb b (proj1 (list_elem_of_In _ _) Hin)). lia. }
  split; [split; [done|]|]; eapply Forall_impl; try exact Hr; unfold is_byte; cbn; lia.
Qed.

Lemma write_bytes_lookup m p bs a :
  write_bytes m p bs !! a =
  if decide (p ≤ a < p + Z.of_nat (length bs)) then bs !! Z.to_nat (a - p) else m !! a.
Proof.
  revert m p. induction bs as [|b bs IH]; intros m p; cbn [write_bytes length].
  - case_decide; [lia|done].
  - rewrite IH. repeat case_decide; try lia.
    + replace (Z.to_nat (a - p)) with (S (Z.to_nat (a - (p + 1)))) by lia. done.
    + assert (a = p) as -> by lia. rewrite lookup_insert_eq.
      by replace (Z.to_nat (p - p)) with 0%nat by lia.
    + rewrite lookup_insert_ne by lia. done.
Qed.

Lemma write_bytes_at m p bs : bytes_at (write_bytes m p bs) p bs.
Proof.
  intros i b Hi. rewrite write_bytes_lookup. apply lookup_lt_Some in Hi as Hl.
  case_decide; [|lia]. by replace (Z.to_nat (p + Z.of_nat i - p)) with i by lia.
Qed.

Lemma write_bytes_app m p bs1 bs2 :
  write_bytes m p (bs1 ++ bs2) =
  write_bytes (write_bytes m p bs1) (p + Z.of_nat (length bs1)) bs2.
Proof.
  revert m p. induction bs1 as [|b bs1 IH]; intros m p; cbn [app write_bytes length].
  - by rewrite Z.add_0_r.
  - rewrite IH. f_equal. lia.
Qed.

(** [bytes_at] survives stores elsewhere. *)
Lemma bytes_at_write_disjoint m p bs q cs :
  bytes_at m p bs →
  p + Z.of_nat (length bs) ≤ q ∨ q + Z.of_nat (length cs) ≤ p →
  bytes_at (write_bytes m q cs) p bs.
Proof.
  intros H Hd i b Hi. apply lookup_lt_Some in Hi as Hl.
  rewrite write_bytes_lookup. case_decide; [lia|]. by apply H.
Qed.

Lemma bytes_at_unique m p bs cs :
  bytes_at m p bs → bytes_at m p cs → length bs = length cs → bs = cs.
Proof.
  intros H1 H2 Hl. apply list_eq. intros i.
  destruct (bs !! i) as [b|] eqn:E1, (cs !! i) as [c|] eqn:E2.
  - specialize (H1 _ _ E1). specialize (H2 _ _ E2). congruence.
  - apply lookup_lt_Some in E1. apply lookup_ge_None in E2. lia.
  - apply lookup_lt_Some in E2. apply lookup_ge_None in E1. lia.
  - done.
Qed.
End memory.

#[export] Hint Resolve bytes_at_nil write_bytes_at : lethe.
