(* ===== verification/Fnv.v ===== *)
(** * FNV-1a hashing (lethe-utils/hash_32a.c, hash_64a.c, include/fnv.h)

    The two hash loops over a buffer or a NUL-terminated string in byte
    memory, their closed form as a fold, the equivalence of the buffer and the
    string entry points, of the multiplication and the shift-and-add form that
    the header selects between, and that one hashing round loses nothing. *)
From S2P Require Import Prelude.

(** ** Definitions *)

Definition FNV1_32A_INIT : Z := 0x811C9DC5.
Definition FNV_32_PRIME : Z := 0x01000193.
Definition FNV1A_64_INIT : Z := 0xCBF29CE484222325.
Definition FNV_64_PRIME : Z := 0x100000001B3.

(** One octet: [hval ^= octet; hval *= FNV_32_PRIME]. *)
Definition fnv32_round (hval octet : Z) : Z := u32 (Z.lxor hval octet * FNV_32_PRIME).
Definition fnv64_round (hval octet : Z) : Z := u64 (Z.lxor hval octet * FNV_64_PRIME).

(** [while (bp < be) { hval ^= *bp++; hval *= PRIME; }] *)
Definition hash_buf (round : Z → Z → Z) (init : Z) (m : mem) (buf len : Z) : res Z :=
  let be := buf + len in
  iter (S (Z.to_nat len)) (λ '(bp, hval),
    if bp <? be then
      octet ← load8 m bp;
      Ok (Next (bp + 1, round hval octet))
    else Ok (Done hval)) (buf, init).

(** [while ( *s ) { hval ^= *s++; hval *= PRIME; }] *)
Definition hash_str (round : Z → Z → Z) (init : Z) (fuel : nat) (m : mem) (str : Z) : res Z :=
  iter fuel (λ '(s, hval),
    octet ← load8 m s;
    if octet =? 0 then Ok (Done hval)
    else Ok (Next (s + 1, round hval octet))) (str, init).

Definition fnv_32a_buf (m : mem) (buf len : Z) : res Z :=
  hash_buf fnv32_round FNV1_32A_INIT m buf len.

Definition fnv_32a_str (fuel : nat) (m : mem) (str : Z) : res Z :=
  hash_str fnv32_round FNV1_32A_INIT fuel m str.

Definition fnv_64a_buf (m : mem) (buf len : Z) : res Z :=
  hash_buf fnv64_round FNV1A_64_INIT m buf len.

Definition fnv_64a_str (fuel : nat) (m : mem) (str : Z) : res Z :=
  hash_str fnv64_round FNV1A_64_INIT fuel m str.

(** The round of [fnv_64a_str] when [NO_FNV_GCC_OPTIMIZATION] is not defined. *)
Definition fnv64_round_shift (hval octet : Z) : Z :=
  let hval := Z.lxor hval octet in
  u64 (hval + u64 (u64 (Z.shiftl hval 1) + u64 (Z.shiftl hval 4) +
                   u64 (Z.shiftl hval 5) + u64 (Z.shiftl hval 7) +
                   u64 (Z.shiftl hval 8) + u64 (Z.shiftl hval 40))).

(** Closed forms. *)
Definition fnv32a (bs : list Z) : Z := foldl fnv32_round FNV1_32A_INIT bs.
Definition fnv64a (bs : list Z) : Z := foldl fnv64_round FNV1A_64_INIT bs.

(** ** Lemmas *)

Section loops.
Context (round : Z → Z → Z) (init : Z).

Lemma hash_buf_fold m buf bs :
  bytes_at m buf bs →
  hash_buf round init m buf (Z.of_nat (length bs)) = Ok (foldl round init bs).
Proof.
  intros H. unfold hash_buf. rewrite Nat2Z.id.
  revert buf init H. induction bs as [|b bs IH]; intros buf h H; cbn [length iter foldl].
  - zbool. reflexivity.
  - apply bytes_at_cons in H as [Hb H]. zbool.
    rewrite (proj2 (load8_Ok _ _ _) Hb). simpl_res.
    specialize (IH (buf + 1) (round h b) H).
    replace (buf + 1 + Z.of_nat (length bs)) with (buf + Z.of_nat (S (length bs))) in IH by lia.
    exact IH.
Qed.

Lemma hash_str_fold m str bs fuel :
  cstring_at m str bs → (length bs < fuel)%nat →
  hash_str round init fuel m str = Ok (foldl round init bs).
Proof.
  intros [H Hnz]. unfold hash_str. revert str init fuel H.
  induction Hnz as [|b bs Hb Hnz IH]; intros str h fuel H Hf;
    (destruct fuel as [|fuel]; [cbn in Hf; lia|]); cbn [iter foldl];
    apply bytes_at_cons in H as [H0 H];
    rewrite (proj2 (load8_Ok _ _ _) H0); simpl_res.
  - reflexivity.
  - zbool. apply IH; [done|cbn in Hf; lia].
Qed.
End loops.

(** Multiplication by an odd prime is invertible modulo a power of two. *)
Lemma mul_odd_inj w p q x y :
  0 < w → (p * q) mod 2 ^ w = 1 → 0 ≤ x < 2 ^ w → 0 ≤ y < 2 ^ w →
  (x * p) mod 2 ^ w = (y * p) mod 2 ^ w → x = y.
Proof.
  intros Hw Hpq Hx Hy H.
  assert (Hinv : ∀ z, 0 ≤ z < 2 ^ w → ((z * p) mod 2 ^ w * q) mod 2 ^ w = z).
  { intros z Hz. rewrite Z.mul_mod_idemp_l by lia.
    rewrite <- Z.mul_assoc, <- Z.mul_mod_idemp_r, Hpq, Z.mul_1_r by lia.
    by apply Z.mod_small. }
  rewrite <- (Hinv x Hx), <- (Hinv y Hy). by rewrite H.
Qed.

Lemma lxor_cancel_l h b c : Z.lxor h b = Z.lxor h c → b = c.
Proof.
  intros H. rewrite <- (Z.lxor_0_l b), <- (Z.lxor_0_l c), <- (Z.lxor_nilpotent h).
  by rewrite !Z.lxor_assoc, H.
Qed.

Lemma lxor_cancel_r h k b : Z.lxor h b = Z.lxor k b → h = k.
Proof. rewrite (Z.lxor_comm h), (Z.lxor_comm k). apply lxor_cancel_l. Qed.

Definition FNV_64_PRIME_INV : Z := 0xCE965057AFF6957B.

Lemma fnv64_prime_inv : (FNV_64_PRIME * FNV_64_PRIME_INV) mod 2 ^ 64 = 1.
Proof. vm_compute. reflexivity. Qed.

Lemma fnv64_round_range h b : 0 ≤ fnv64_round h b < 2 ^ 64.
Proof. apply wrap_range. lia. Qed.

Lemma fnv64_round_inj h k b c :
  0 ≤ h < 2 ^ 64 → 0 ≤ k < 2 ^ 64 → is_byte b → is_byte c →
  fnv64_round h b = fnv64_round k c → Z.lxor h b = Z.lxor k c.
Proof.
  unfold is_byte. intros Hh Hk Hb Hc H.
  apply (mul_odd_inj 64 FNV_64_PRIME FNV_64_PRIME_INV);
    [lia|apply fnv64_prime_inv| | |exact H]; apply lxor_range; lia.
Qed.

Lemma fnv64_fold_range h bs : 0 ≤ h < 2 ^ 64 → 0 ≤ foldl fnv64_round h bs < 2 ^ 64.
Proof.
  revert h. induction bs as [|b bs IH]; intros h Hh; cbn [foldl]; [done|].
  apply IH, fnv64_round_range.
Qed.

Lemma fnv64_fold_inj h k bs :
  0 ≤ h < 2 ^ 64 → 0 ≤ k < 2 ^ 64 → Forall is_byte bs →
  foldl fnv64_round h bs = foldl fnv64_round k bs → h = k.
Proof.
  intros Hh Hk Hbs. revert h k Hh Hk.
  induction Hbs as [|b bs Hb Hbs IH]; intros h k Hh Hk H; [done|].
  apply IH, fnv64_round_inj, lxor_cancel_r in H; auto using fnv64_round_range.
Qed.

Lemma fnv64a_range bs : 0 ≤ fnv64a bs < 2 ^ 64.
Proof. apply fnv64_fold_range. vm_compute. intuition congruence. Qed.

Lemma fnv_64a_buf_eq m buf bs :
  bytes_at m buf bs → fnv_64a_buf m buf (Z.of_nat (length bs)) = Ok (fnv64a bs).
Proof. apply hash_buf_fold. Qed.

(** ** Properties *)

(** The string entry point and the buffer entry point of the 64-bit hash
    agree: on a NUL-terminated string both return, and both return the FNV-1a
    fold over the bytes before the terminator. *)
Lemma fnv_64a_str_buf (m : mem) (str : Z) (bs : list Z) (fuel : nat) :
  cstring_at m str bs → (length bs < fuel)%nat →
  fnv_64a_str fuel m str = Ok (foldl fnv64_round FNV1A_64_INIT bs) ∧
  fnv_64a_buf m str (Z.of_nat (length bs)) = fnv_64a_str fuel m str.
Proof.
  intros H Hf. unfold fnv_64a_str, fnv_64a_buf.
  rewrite (hash_str_fold _ _ _ _ bs) by done. split; [done|].
  apply hash_buf_fold. destruct H as [H _]. by apply bytes_at_app in H as [H _].
Qed.

(** No collision between two keys of equal length that differ in exactly
    one byte: the hash of [pre ++ b :: suf] determines [b]. *)
Lemma fnv_64a_buf_one_byte (m : mem) (p q : Z) (pre suf : list Z) (b c : Z) :
  Forall is_byte (pre ++ b :: suf) → is_byte c →
  bytes_at m p (pre ++ b :: suf) → bytes_at m q (pre ++ c :: suf) →
  fnv_64a_buf m p (Z.of_nat (length (pre ++ b :: suf))) =
  fnv_64a_buf m q (Z.of_nat (length (pre ++ c :: suf))) → b = c.
Proof.
  intros Hbs Hc Hp Hq. rewrite !fnv_64a_buf_eq by done. unfold fnv64a.
  rewrite !foldl_app. cbn [foldl]. intros [= H].
  apply Forall_app in Hbs as [Hpre [Hb Hsuf]%Forall_cons].
  assert (Hr : 0 ≤ foldl fnv64_round FNV1A_64_INIT pre < 2 ^ 64) by apply fnv64a_range.
  apply fnv64_fold_inj in H; auto using fnv64_round_range.
  apply fnv64_round_inj in H; auto. by apply lxor_cancel_l in H.
Qed.

(** C40: the two forms of the 64-bit round between which the header chooses
    with [NO_FNV_GCC_OPTIMIZATION] compute the same value: the sum of shifts
    is the multiplication by the FNV prime modulo 2^64. *)
Theorem fnv64_round_shift_eq (hval octet : Z) :
  fnv64_round_shift hval octet = fnv64_round hval octet.
Proof.
  unfold fnv64_round_shift, fnv64_round, u64, wrap, FNV_64_PRIME. cbv zeta.
  generalize (Z.lxor hval octet). intros x.
  rewrite !Z.shiftl_mul_pow2 by lia. rewrite Z.add_mod_idemp_r by lia.
  rewrite (Z.mod_eq (x * 2 ^ 1)), (Z.mod_eq (x * 2 ^ 4)), (Z.mod_eq (x * 2 ^ 5)),
    (Z.mod_eq (x * 2 ^ 7)), (Z.mod_eq (x * 2 ^ 8)), (Z.mod_eq (x * 2 ^ 40)) by lia.
  set (q := x * 2 ^ 1 / 2 ^ 64 + x * 2 ^ 4 / 2 ^ 64 + x * 2 ^ 5 / 2 ^ 64 +
            x * 2 ^ 7 / 2 ^ 64 + x * 2 ^ 8 / 2 ^ 64 + x * 2 ^ 40 / 2 ^ 64).
  match goal with |- ?l mod _ = ?r mod _ => replace l with (r + (- q) * 2 ^ 64) end.
  - apply Z_mod_plus_full.
  - subst q. pow_compute. lia.
Qed.
