(* ===== verification/LibString.v ===== *)
(** * Byte and string functions of the libc (lethe-libc/string.c)

    The eight functions over byte memory.  [char] is signed on this target, so
    [strncmp] compares sign-extended bytes while [memcmp] compares unsigned
    ones.  [memmove] is proved correct for every overlap of its operands. *)
From S2P Require Import Prelude.

(** ** Definitions *)

(** [for (i = 0; i < size; i++) { dest[i] = src[i]; }], where [incr] is the
    increment at the type of [i]. *)
Definition copy_up (incr : Z → res Z) (m : mem) (dest src size : Z) : res mem :=
  iter (S (Z.to_nat size)) (λ '(i, m),
    if i <? size then
      b ← load8 m (src + i);
      m ← store8 m (dest + i) b;
      i ← incr i;
      Ok (Next (i, m))
    else Ok (Done m)) (0, m).

(** [for (size_t i = size; i != 0; i--) { dest[i - 1] = src[i - 1]; }] *)
Definition copy_down (m : mem) (dest src size : Z) : res mem :=
  iter (S (Z.to_nat size)) (λ '(i, m),
    if i =? 0 then Ok (Done m)
    else
      b ← load8 m (src + (i - 1));
      m ← store8 m (dest + (i - 1)) b;
      Ok (Next (i - 1, m))) (size, m).

(** The index of [memcpy] is an [int]. *)
Definition memcpy (m : mem) (dest src size : Z) : res (Z * mem) :=
  m ← copy_up (λ i, int_ok (i + 1)) m dest src size;
  Ok (dest, m).

Definition memcmp (m : mem) (aptr bptr size : Z) : res Z :=
  iter (S (Z.to_nat size)) (λ i,
    if i <? size then
      a ← load8 m (aptr + i);
      b ← load8 m (bptr + i);
      if a <? b then Ok (Done (-1))
      else if b <? a then Ok (Done 1)
      else Ok (Next (i + 1))
    else Ok (Done 0)) 0.

Definition memmove (m : mem) (dst src size : Z) : res (Z * mem) :=
  m ← (if dst <? src then copy_up (λ i, Ok (i + 1)) m dst src size
       else copy_down m dst src size);
  Ok (dst, m).

Definition strlen (fuel : nat) (m : mem) (str : Z) : res Z :=
  iter fuel (λ s,
    c ← load8 m s;
    if c =? 0 then Ok (Done (s - str)) else Ok (Next (s + 1))) str.

(** The condition is [*s && maxlen--]: the byte is read before the count is
    tested, and the count is not decremented when the byte is NUL. *)
Definition strnlen (m : mem) (str maxlen : Z) : res Z :=
  iter (S (Z.to_nat maxlen)) (λ '(s, maxlen),
    c ← load8 m s;
    if c =? 0 then Ok (Done (s - str))
    else if maxlen =? 0 then Ok (Done (s - str))
    else Ok (Next (s + 1, maxlen - 1))) (str, maxlen).

Definition strncmp (m : mem) (s1 s2 n : Z) : res Z :=
  iter (S (Z.to_nat n)) (λ i,
    if i <? n then
      a ← load8 m (s1 + i);
      if a =? 0 then Ok (Done 0)
      else
        b ← load8 m (s2 + i);
        if b =? 0 then Ok (Done 0)
        else if s8 a <? s8 b then Ok (Done (-1))
        else if s8 b <? s8 a then Ok (Done 1)
        else Ok (Next (i + 1))
    else Ok (Done 0)) 0.

Definition strcmp (fuel : nat) (m : mem) (s1 s2 : Z) : res Z :=
  l1 ← strlen fuel m s1;
  l2 ← strlen fuel m s2;
  let s1_len := s32 l1 in
  let s2_len := s32 l2 in
  if negb (s1_len =? s2_len) then int_ok (s1_len - s2_len)
  else strncmp m s1 s2 (u64 s1_len).

Definition memset (m : mem) (p val size : Z) : res (Z * mem) :=
  m ← iter (S (Z.to_nat size)) (λ '(i, m),
        if i <? size then
          m ← store8 m (p + i) val;
          Ok (Next (i + 1, m))
        else Ok (Done m)) (0, m);
  Ok (p, m).

(** Reference: the first index at which the byte lists differ decides. *)
Fixpoint bytes_cmp (f : Z → Z) (xs ys : list Z) : Z :=
  match xs, ys with
  | x :: xs, y :: ys =>
      if f x <? f y then -1 else if f y <? f x then 1 else bytes_cmp f xs ys
  | _, _ => 0
  end.

(** All addresses of [\[p, p + n)] are mapped. *)
Definition mapped (m : mem) (p : Z) (n : nat) : Prop :=
  ∀ i : nat, (i < n)%nat → is_Some (m !! (p + Z.of_nat i)).

(** ** Lemmas *)

Lemma u8_byte b : is_byte b → u8 b = b.
Proof. intros. unfold u8. apply wrap_small. int_lia. Qed.

Lemma bytes_at_mapped m p bs : bytes_at m p bs → mapped m p (length bs).
Proof.
  intros H i Hi. apply lookup_lt_is_Some_2 in Hi as [b Hb]. exists b. by apply H.
Qed.

Lemma store8_Ok m a v : is_Some (m !! a) → is_byte v → store8 m a v = Ok (<[a := v]> m).
Proof. intros [x Hx] Hv. unfold store8. by rewrite Hx, u8_byte. Qed.

Lemma write_bytes_mapped m p bs a : is_Some (m !! a) → is_Some (write_bytes m p bs !! a).
Proof.
  intros H. rewrite write_bytes_lookup. case_decide; [|done].
  apply lookup_lt_is_Some_2. lia.
Qed.

Lemma write_bytes_snoc m p bs b :
  write_bytes m p (bs ++ [b]) = <[p + Z.of_nat (length bs) := b]> (write_bytes m p bs).
Proof. by rewrite write_bytes_app. Qed.

Lemma write_bytes_insert_below m p bs b :
  <[p := b]> (write_bytes m (p + 1) bs) = write_bytes m p (b :: bs).
Proof.
  apply map_eq. intros a. rewrite lookup_insert. rewrite !write_bytes_lookup.
  cbn [length]. repeat case_decide; try lia; subst.
  - by rewrite Z.sub_diag.
  - replace (Z.to_nat (a - p)) with (S (Z.to_nat (a - (p + 1)))) by lia. done.
  - done.
Qed.

Lemma is_byte_lookup bs i b : Forall is_byte bs → bs !! i = Some b → is_byte b.
Proof. intros H Hi. by eapply Forall_lookup_1. Qed.

(** Ascending copy is right when the destination does not start inside the
    source. *)
Lemma copy_up_correct incr m dest src bs :
  (∀ i, 0 ≤ i < Z.of_nat (length bs) → incr i = Ok (i + 1)) →
  bytes_at m src bs → Forall is_byte bs → mapped m dest (length bs) →
  dest ≤ src ∨ src + Z.of_nat (length bs) ≤ dest →
  copy_up incr m dest src (Z.of_nat (length bs)) = Ok (write_bytes m dest bs).
Proof.
  intros Hincr Hsrc Hbs Hdst Hd. unfold copy_up. rewrite Nat2Z.id.
  apply (iter_ok _
    (λ '(i, m'), ∃ k : nat, i = Z.of_nat k ∧ (k ≤ length bs)%nat ∧ m' = write_bytes m dest (take k bs))
    (λ '(i, _), (length bs - Z.to_nat i)%nat)).
  - intros [i m'] (k & -> & Hk & ->).
    destruct (decide (k = length bs)) as [->|Hne].
    { zbool. by rewrite firstn_all. }
    zbool. destruct (lookup_lt_is_Some_2 bs k) as [b Hb]; [lia|].
    rewrite (proj2 (load8_Ok _ _ b)); simpl_res.
    2:{ rewrite write_bytes_lookup, length_take. case_decide; [lia|]. by apply Hsrc. }
    rewrite store8_Ok; simpl_res; [|apply write_bytes_mapped, Hdst; lia|by eapply is_byte_lookup].
    rewrite Hincr by lia. simpl_res. split; [|lia].
    exists (S k). split; [lia|]. split; [lia|].
    rewrite (take_S_r _ _ b), write_bytes_snoc, length_take by done. do 2 f_equal. lia.
  - exists 0%nat. split; [done|]. split; [lia|done].
  - cbn; lia.
Qed.

(** Descending copy is right when the source does not start inside the
    destination. *)
Lemma copy_down_correct m dest src bs :
  bytes_at m src bs → Forall is_byte bs → mapped m dest (length bs) →
  src ≤ dest →
  copy_down m dest src (Z.of_nat (length bs)) = Ok (write_bytes m dest bs).
Proof.
  intros Hsrc Hbs Hdst Hd. unfold copy_down. rewrite Nat2Z.id.
  apply (iter_ok _
    (λ '(i, m'), ∃ k : nat, i = Z.of_nat k ∧ (k ≤ length bs)%nat ∧ m' = write_bytes m (dest + Z.of_nat k) (drop k bs))
    (λ '(i, _), Z.to_nat i)).
  - intros [i m'] (k & -> & Hk & ->). destruct k as [|k].
    { cbn. by rewrite Z.add_0_r. }
    zbool. destruct (lookup_lt_is_Some_2 bs k) as [b Hb]; [lia|].
    replace (Z.of_nat (S k) - 1) with (Z.of_nat k) by lia.
    rewrite (proj2 (load8_Ok _ _ b)); simpl_res.
    2:{ rewrite write_bytes_lookup, length_drop. case_decide; [lia|]. by apply Hsrc. }
    rewrite store8_Ok; simpl_res; [|apply write_bytes_mapped, Hdst; lia|by eapply is_byte_lookup].
    split; [|lia]. exists k. split; [done|]. split; [lia|].
    rewrite (drop_S bs b k Hb), <- write_bytes_insert_below. do 2 f_equal. lia.
  - exists (length bs). split; [done|]. split; [done|]. by rewrite drop_all.
  - cbn; lia.
Qed.

Lemma bytes_cmp_bounds f xs ys : -1 ≤ bytes_cmp f xs ys ≤ 1.
Proof.
  revert ys. induction xs as [|x xs IH]; intros [|y ys]; cbn; try lia.
  repeat case_match; lia || apply IH.
Qed.

Lemma memcmp_bytes m p q xs ys :
  bytes_at m p xs → bytes_at m q ys → length xs = length ys →
  memcmp m p q (Z.of_nat (length xs)) = Ok (bytes_cmp id xs ys).
Proof.
  intros Hx Hy Hl. unfold memcmp. rewrite Nat2Z.id.
  apply (iter_ok _
    (λ i, ∃ k : nat, i = Z.of_nat k ∧ (k ≤ length xs)%nat ∧ bytes_cmp id xs ys = bytes_cmp id (drop k xs) (drop k ys))
    (λ i, (length xs - Z.to_nat i)%nat)).
  - intros i (k & -> & Hk & E). destruct (decide (k = length xs)) as [->|Hne].
    { zbool. rewrite E, drop_all. done. }
    zbool. destruct (lookup_lt_is_Some_2 xs k) as [a Ha]; [lia|].
    destruct (lookup_lt_is_Some_2 ys k) as [b Hb]; [lia|].
    rewrite (bytes_at_lookup _ _ _ _ _ Hx Ha), (bytes_at_lookup _ _ _ _ _ Hy Hb). simpl_res.
    rewrite (drop_S xs a k Ha), (drop_S ys b k Hb) in E. cbn [bytes_cmp id] in E.
    destruct (a <? b); [done|]. destruct (b <? a); [done|]. split; [|lia].
    exists (S k). split; [lia|]. split; [lia|done].
  - exists 0%nat. split; [done|]. split; [lia|done].
  - cbn; lia.
Qed.

Lemma bytes_cmp_eq xs ys : length xs = length ys → bytes_cmp id xs ys = 0 ↔ xs = ys.
Proof.
  revert ys. induction xs as [|x xs IH]; intros [|y ys] Hl; cbn in *; try done.
  destruct (Z.ltb_spec x y); [split; [lia|intros [= ]; lia]|].
  destruct (Z.ltb_spec y x); [split; [lia|intros [= ]; lia]|].
  assert (x = y) as -> by lia. rewrite IH by lia. split; [by intros ->|by intros [=]].
Qed.

Lemma strlen_cstring fuel m str bs :
  cstring_at m str bs → (length bs < fuel)%nat →
  strlen fuel m str = Ok (Z.of_nat (length bs)).
Proof.
  intros [H Hnz] Hf. unfold strlen.
  apply (iter_ok _
    (λ s, ∃ k : nat, s = str + Z.of_nat k ∧ (k ≤ length bs)%nat)
    (λ s, (length bs - Z.to_nat (s - str))%nat)).
  - intros s (k & -> & Hk). destruct (decide (k = length bs)) as [->|Hne].
    + rewrite (bytes_at_lookup _ _ _ _ 0 H); [simpl_res; cbn; lia|].
      by rewrite lookup_app_r, Nat.sub_diag by lia.
    + destruct (lookup_lt_is_Some_2 bs k) as [b Hb]; [lia|].
      rewrite (bytes_at_lookup _ _ _ _ b H); [simpl_res|by apply lookup_app_l_Some].
      assert (b ≠ 0) by (by eapply (Forall_lookup_1 _ _ _ _ Hnz)). zbool.
      split; [exists (S k)|]; lia.
  - exists 0%nat. lia.
  - cbn; lia.
Qed.

Lemma s8_inj a b : is_byte a → is_byte b → s8 a = s8 b → a = b.
Proof.
  unfold is_byte, s8, swrap. intros Ha Hb.
  rewrite !Z.mod_small by lia. repeat case_match; lia.
Qed.

(** [strncmp] decides by the common prefix of the two strings, cut at [n]. *)
Lemma strncmp_cmp m s1 s2 xs ys n :
  cstring_at m s1 xs → cstring_at m s2 ys → 0 ≤ n →
  strncmp m s1 s2 n = Ok (bytes_cmp s8 (take (Z.to_nat n) xs) ys).
Proof.
  intros [H1 Hn1] [H2 Hn2] Hn. unfold strncmp.
  apply (iter_ok _
    (λ i, ∃ k : nat, i = Z.of_nat k ∧ i ≤ n ∧ (k ≤ length xs)%nat ∧ (k ≤ length ys)%nat ∧ bytes_cmp s8 (take (Z.to_nat n) xs) ys = bytes_cmp s8 (drop k (take (Z.to_nat n) xs)) (drop k ys))
    (λ i, Z.to_nat (n - i))).
  - intros i (k & -> & Hkn & Hk1 & Hk2 & E).
    destruct (decide (Z.of_nat k = n)) as [Heq|Hne].
    { zbool. rewrite E, drop_ge; [done|]. rewrite length_take. lia. }
    zbool. destruct (decide (k = length xs)) as [->|].
    { rewrite (bytes_at_lookup _ _ _ _ 0 H1); [simpl_res; cbn|].
      - rewrite E, drop_ge; [done|]. rewrite length_take. lia.
      - by rewrite lookup_app_r, Nat.sub_diag by lia. }
    destruct (lookup_lt_is_Some_2 xs k) as [a Ha]; [lia|].
    rewrite (bytes_at_lookup _ _ _ _ a H1); [simpl_res|by apply lookup_app_l_Some].
    assert (a ≠ 0) by (by eapply (Forall_lookup_1 _ _ _ _ Hn1)). zbool.
    destruct (decide (k = length ys)) as [->|].
    { rewrite (bytes_at_lookup _ _ _ _ 0 H2); [simpl_res; cbn|].
      - rewrite E, (drop_ge ys) by lia. by destruct (drop _ (take _ xs)).
      - by rewrite lookup_app_r, Nat.sub_diag by lia. }
    destruct (lookup_lt_is_Some_2 ys k) as [b Hb]; [lia|].
    rewrite (bytes_at_lookup _ _ _ _ b H2); [simpl_res|by apply lookup_app_l_Some].
    assert (b ≠ 0) by (by eapply (Forall_lookup_1 _ _ _ _ Hn2)). zbool.
    rewrite (drop_S _ a k), (drop_S ys b k Hb) in E by (rewrite lookup_take_lt by lia; done).
    cbn [bytes_cmp] in E.
    destruct (s8 a <? s8 b); [done|]. destruct (s8 b <? s8 a); [done|].
    split; [|lia]. exists (S k). repeat split; [lia..|done].
  - exists 0%nat. repeat split; lia || done.
  - cbn; lia.
Qed.

Lemma bytes_cmp_s8_zero xs ys :
  Forall is_byte xs → Forall is_byte ys →
  bytes_cmp s8 xs ys = 0 ↔ ∃ zs, xs = ys ++ zs ∨ ys = xs ++ zs.
Proof.
  intros Hx. revert ys. induction Hx as [|x xs Hx Hxs IH]; intros ys Hys.
  { cbn. split; [exists ys; by right|done]. }
  destruct Hys as [|y ys Hy Hys]; cbn; [split; [exists (x :: xs); by left|done]|].
  assert (Hd : (∃ zs, x :: xs = (y :: ys) ++ zs ∨ y :: ys = (x :: xs) ++ zs) ↔
               x = y ∧ ∃ zs, xs = ys ++ zs ∨ ys = xs ++ zs).
  { split.
    - intros [zs [E|E]]; injection E as -> ->; (split; [done|]); exists zs; by (left + right).
    - intros [-> [zs [->| ->]]]; exists zs; by (left + right). }
  cbn [app] in Hd. rewrite Hd.
  destruct (Z.ltb_spec (s8 x) (s8 y)); [split; [lia|intros [-> _]; lia]|].
  destruct (Z.ltb_spec (s8 y) (s8 x)); [split; [lia|intros [-> _]; lia]|].
  assert (x = y) as -> by (apply s8_inj; [done..|lia]). rewrite IH by done. tauto.
Qed.

(** ** Properties *)

(** C39: [memmove] copies [size] bytes whatever the overlap of source and
    destination: it terminates, returns [dst], and the resulting memory is the
    old memory with the old source bytes stored at [dst] and no other byte
    changed. *)
Theorem memmove_correct (m : mem) (dst src : Z) (bs : list Z) :
  bytes_at m src bs → Forall is_byte bs → mapped m dst (length bs) →
  memmove m dst src (Z.of_nat (length bs)) = Ok (dst, write_bytes m dst bs).
Proof.
  intros Hs Hb Hd. unfold memmove. destruct (Z.ltb_spec dst src).
  - rewrite copy_up_correct by (done || lia). done.
  - rewrite copy_down_correct by (done || lia). done.
Qed.

Lemma memmove_correct_witness :
  let m := write_bytes ∅ 10 [1; 2; 3; 4] in
  memmove m 11 10 3 = Ok (11, write_bytes m 11 [1; 2; 3]).
Proof.
  intros m. apply (memmove_correct m 11 10 [1; 2; 3]).
  - apply (bytes_at_app m 10 [1; 2; 3] [4]). apply write_bytes_at.
  - repeat constructor; unfold is_byte; lia.
  - intros i Hi. cbn in Hi. destruct i as [|[|[|i]]]; [vm_compute; eauto..|lia].
Defined.

(** [memcmp] returns the sign of the first difference of the two buffers
    read as unsigned bytes, and 0 exactly when they are equal. *)
Lemma memcmp_correct (m : mem) (p q : Z) (xs ys : list Z) :
  bytes_at m p xs → bytes_at m q ys → length xs = length ys →
  memcmp m p q (Z.of_nat (length xs)) = Ok (bytes_cmp id xs ys) ∧
  (memcmp m p q (Z.of_nat (length xs)) = Ok 0 ↔ xs = ys).
Proof.
  intros Hx Hy Hl. rewrite (memcmp_bytes _ _ _ xs ys) by done. split; [done|].
  rewrite <- (bytes_cmp_eq xs ys) by done. split; [by intros [=]|by intros ->].
Qed.

(** [strncmp] with any bound returns 0 on two strings exactly when, after
    cutting the first at [n], one is a prefix of the other: a string compares
    equal to each of its extensions. *)
Lemma strncmp_zero_iff (m : mem) (s1 s2 n : Z) (xs ys : list Z) :
  cstring_at m s1 xs → cstring_at m s2 ys → Forall is_byte xs → Forall is_byte ys →
  0 ≤ n →
  strncmp m s1 s2 n = Ok 0 ↔
  ∃ zs, take (Z.to_nat n) xs = ys ++ zs ∨ ys = take (Z.to_nat n) xs ++ zs.
Proof.
  intros H1 H2 B1 B2 Hn. rewrite (strncmp_cmp _ _ _ xs ys) by done.
  rewrite <- bytes_cmp_s8_zero by (done || by apply Forall_take).
  split; [by intros [=]|by intros ->].
Qed.

Lemma strncmp_larger m m' s1 s2 n : m ⊆ m' → extends (strncmp m s1 s2 n) (strncmp m' s1 s2 n).
Proof. intros Hm. unfold strncmp. in_larger. Qed.

(** [strcmp] decides string equality: for strings shorter than 2^31 it
    returns 0 exactly when the contents are equal. *)
Lemma strcmp_zero_iff (fuel : nat) (m : mem) (s1 s2 : Z) (xs ys : list Z) :
  cstring_at m s1 xs → cstring_at m s2 ys → Forall is_byte xs → Forall is_byte ys →
  (length xs < fuel)%nat → (length ys < fuel)%nat →
  Z.of_nat (length xs) < 2 ^ 31 → Z.of_nat (length ys) < 2 ^ 31 →
  ∃ r, strcmp fuel m s1 s2 = Ok r ∧ (r = 0 ↔ xs = ys).
Proof.
  intros H1 H2 B1 B2 F1 F2 L1 L2. unfold strcmp.
  rewrite (strlen_cstring fuel m s1 xs), (strlen_cstring fuel m s2 ys) by done. simpl_res.
  unfold s32. rewrite !swrap_small by lia.
  destruct (Z.eqb_spec (Z.of_nat (length xs)) (Z.of_nat (length ys))) as [El|El]; cbn [negb].
  - unfold u64. rewrite wrap_small by lia. rewrite (strncmp_cmp _ _ _ xs ys) by (done || lia).
    eexists. split; [done|]. rewrite Nat2Z.id, firstn_all.
    rewrite bytes_cmp_s8_zero by done. split.
    + intros [zs [E|E]]; apply (f_equal length) in E as El'; rewrite length_app in El';
        assert (zs = []) as -> by (apply nil_length_inv; lia); by rewrite app_nil_r in E.
    + intros ->. exists []. left. by rewrite app_nil_r.
  - rewrite int_ok_Ok by lia. eexists. split; [done|]. split; [lia|].
    intros ->. lia.
Qed.

