(* ===== verification/Cpio.v ===== *)
(** * The CPIO archive (lethe-kernel/memory/cpio.c)

    The archive lies in byte memory; the two statics of the file are the state.
    A header has 26 bytes, behind it the name, one byte of padding and the
    data.  The trailer entry is named TRAILER!!! and has no data. *)
From S2P Require Import Prelude LibString.

(** ** Definitions *)

Definition CPIO_HEADER_SIZE : Z := 26.

(** The fields the code uses; [c_filesize] has its upper half first. *)
Record cpio_header_t := Header { c_magic : Z; c_namesize : Z; c_filesize_0 : Z; c_filesize_1 : Z }.

Record cpio_state := Cpio { cpio_address : Z; cpio_eof : bool }.

Definition read_header (m : mem) (p : Z) : res cpio_header_t :=
  magic ← load16 m p;
  namesize ← load16 m (p + 20);
  filesize_0 ← load16 m (p + 22);
  filesize_1 ← load16 m (p + 24);
  Ok (Header magic namesize filesize_0 filesize_1).

Section cpio.
Context (m : mem) (lit_trailer : Z).

Definition check_header (st : cpio_state) : res bool :=
  h ← read_header m (cpio_address st);
  Ok (c_magic h =? 0x71C7).

(** The flag of the earlier archive is kept. *)
Definition init_cpio (st : cpio_state) (addr : Z) : res cpio_state :=
  let st := Cpio addr (cpio_eof st) in
  ok ← check_header st;
  if ok : bool then Ok st else Err Halted.

(** The upper half is shifted as an [int], into its sign bit; the sum has no carry into it. *)
Definition file_size (st : cpio_state) : res Z :=
  h ← read_header m (cpio_address st);
  Ok (u32 (s32 (Z.shiftl (c_filesize_0 h) 16) + c_filesize_1 h)).

Definition check_eof (st : cpio_state) : res cpio_state :=
  let filename := cpio_address st + CPIO_HEADER_SIZE in
  n ← file_size st;
  c ← strncmp m filename lit_trailer n;
  Ok (if negb (c =? 0) then Cpio (cpio_address st) true else st).

Definition next_header (st : cpio_state) : res (bool * cpio_state) :=
  if cpio_eof st then Ok (false, st)
  else
    h ← read_header m (cpio_address st);
    size ← file_size st;
    let st := Cpio (u64 (cpio_address st + CPIO_HEADER_SIZE + c_namesize h + 1 + size)) (cpio_eof st) in
    st ← check_eof st;
    ok ← check_header st;
    Ok (ok, st).

Definition get_file (st : cpio_state) : res (Z * cpio_state) :=
  let header := cpio_address st in
  ok ← check_header st;
  if negb ok then Err Halted
  else
    '(_, st) ← next_header st;
    h ← read_header m header;
    Ok (header + CPIO_HEADER_SIZE + c_namesize h + 1, st).

(** *** The reference view *)

(** An entry with a name and [size] bytes of data, in front of the next one. *)
Record cpio_entry (p : Z) (name : list Z) (size : Z) : Prop := CpioEntry {
  entry_magic : load16 m p = Ok 0x71C7;
  entry_namesize : load16 m (p + 20) = Ok (Z.of_nat (length name) + 1);
  entry_size_hi : load16 m (p + 22) = Ok (size / 2 ^ 16);
  entry_size_lo : load16 m (p + 24) = Ok (size mod 2 ^ 16);
  entry_name : cstring_at m (p + CPIO_HEADER_SIZE) name;
  entry_name_bytes : Forall is_byte name;
  entry_size : 0 ≤ size < 2 ^ 32
}.

Definition entry_data (p : Z) (name : list Z) : Z := p + CPIO_HEADER_SIZE + (Z.of_nat (length name) + 1) + 1.
Definition TRAILER : list Z := [84; 82; 65; 73; 76; 69; 82; 33; 33; 33].


(** The entries of [es] from address [p] on, each right behind the data of the one before. *)
Fixpoint archive_at (p : Z) (es : list (list Z * Z)) : Prop :=
  match es with
  | [] => True
  | (name, size) :: es => cpio_entry p name size ∧ 0 ≤ p < 2 ^ 64 ∧ archive_at (entry_data p name + size) es
  end.

Fixpoint data_addresses (p : Z) (es : list (list Z * Z)) : list Z :=
  match es with
  | [] => []
  | (name, size) :: es => entry_data p name :: data_addresses (entry_data p name + size) es
  end.

(** The name differs from the trailer's within as many bytes as the file has. *)
Definition sets_eof (e : list Z * Z) : bool := negb (bytes_cmp s8 (take (Z.to_nat e.2) e.1) TRAILER =? 0).

(** [k] calls of [get_file], as a client that reads the archive makes them. *)
Fixpoint get_files (k : nat) (st : cpio_state) : res (list Z) :=
  match k with
  | O => Ok []
  | S k => '(a, st) ← get_file st; rest ← get_files k st; Ok (a :: rest)
  end.

(** ** Lemmas *)

Lemma entry_header p name size :
  cpio_entry p name size →
  read_header m p = Ok (Header 0x71C7 (Z.of_nat (length name) + 1) (size / 2 ^ 16) (size mod 2 ^ 16)).
Proof.
  intros He. unfold read_header. rewrite (entry_magic _ _ _ He). simpl_res.
  rewrite (entry_namesize _ _ _ He). simpl_res. rewrite (entry_size_hi _ _ _ He). simpl_res.
  by rewrite (entry_size_lo _ _ _ He).
Qed.

Lemma entry_file_size p name size eof : cpio_entry p name size → file_size (Cpio p eof) = Ok size.
Proof.
  intros He. unfold file_size. cbn [cpio_address]. rewrite (entry_header _ _ _ He). simpl_res. cbn [c_filesize_0 c_filesize_1].
  pose proof (entry_size _ _ _ He). pose proof (Z.div_mod size (2 ^ 16)). pose proof (Z.mod_pos_bound size (2 ^ 16)).
  f_equal. rewrite Z.shiftl_mul_pow2 by lia. pose proof (Z.div_pos size (2 ^ 16)).
  pose proof (Z.div_lt_upper_bound size (2 ^ 16) (2 ^ 16)). unfold u32, s32, wrap, swrap.
  rewrite (Z.mod_small (size / 2 ^ 16 * 2 ^ 16)) by lia. case_match; [rewrite Z.mod_small; lia|].
  symmetry. apply Z.mod_unique_pos with (-1); lia.
Qed.

Lemma check_header_entry p name size eof : cpio_entry p name size → check_header (Cpio p eof) = Ok true.
Proof. intros He. unfold check_header. cbn [cpio_address]. by rewrite (entry_header _ _ _ He). Qed.

Lemma next_header_entry p name size name' size' :
  cstring_at m lit_trailer TRAILER → cpio_entry p name size → cpio_entry (entry_data p name + size) name' size' →
  0 ≤ p → entry_data p name + size < 2 ^ 64 →
  next_header (Cpio p false) = Ok (true, Cpio (entry_data p name + size) (sets_eof (name', size'))).
Proof.
  intros Ht He He' Hp Hlt. unfold next_header. cbn [cpio_eof cpio_address].
  rewrite (entry_header _ _ _ He). simpl_res. rewrite (entry_file_size _ _ _ _ He). simpl_res. cbn [c_namesize].
  pose proof (entry_size _ _ _ He). pose proof (entry_size _ _ _ He').
  fold (entry_data p name). unfold u64. rewrite wrap_small by (unfold entry_data, CPIO_HEADER_SIZE in *; lia).
  unfold check_eof. rewrite (entry_file_size _ _ _ _ He'). simpl_res. cbn [cpio_address].
  rewrite (strncmp_cmp _ _ _ name' TRAILER) by (apply He' || done || lia). simpl_res.
  unfold sets_eof. cbn [fst snd]. destruct (bytes_cmp s8 (take (Z.to_nat size') name') TRAILER =? 0); cbn [negb];
    by rewrite (check_header_entry _ _ _ _ He').
Qed.

Lemma get_file_entry p name size st ok eof :
  cpio_entry p name size → next_header (Cpio p eof) = Ok (ok, st) → get_file (Cpio p eof) = Ok (entry_data p name, st).
Proof.
  intros He En. unfold get_file. cbn [cpio_address]. rewrite (check_header_entry _ _ _ _ He). simpl_res. cbn [negb].
  rewrite En. simpl_res. by rewrite (entry_header _ _ _ He).
Qed.

(** At the entry that set the flag [get_file] stays. *)
Lemma get_files_stuck k p name size :
  cpio_entry p name size → get_files k (Cpio p true) = Ok (replicate k (entry_data p name)).
Proof.
  intros He. induction k as [|k IH]; [done|]. cbn [get_files replicate].
  rewrite (get_file_entry p name size (Cpio p true) false true He) by done. simpl_res. by rewrite IH.
Qed.

Lemma archive_at_app p es es' : archive_at p (es ++ es') → archive_at p es.
Proof.
  revert p. induction es as [|[name size] es IH]; intros p; [done|]. cbn [app archive_at]. intros (He & Hp & Ha).
  exact (conj He (conj Hp (IH _ Ha))).
Qed.

Lemma take_padded {A} k n (l : list A) x : (k ≤ n)%nat → take k (l ++ replicate n x) = take k (l ++ replicate k x).
Proof. intros Hk. rewrite !take_app, !take_replicate. do 2 f_equal. lia. Qed.

Lemma get_files_archive k es p name size name' size' :
  cstring_at m lit_trailer TRAILER → archive_at p ((name, size) :: es ++ [(name', size')]) →
  Forall (λ e, sets_eof e = false) es → sets_eof (name', size') = true →
  get_files k (Cpio p false) =
    let ds := data_addresses p ((name, size) :: es ++ [(name', size')]) in
    Ok (take k (ds ++ replicate k (default 0 (last ds)))).
Proof.
  intros Ht. revert k p name size. induction es as [|[n1 s1] es IH]; intros k p name size Ha Hes Hb; (destruct k as [|k]; [done|]).
  - destruct Ha as (He & Hp & He' & Hp' & _). cbn [get_files].
    rewrite (get_file_entry p name size _ _ _ He (next_header_entry p name size name' size' Ht He He' (proj1 Hp) (proj2 Hp'))).
    simpl_res. rewrite Hb, (get_files_stuck _ _ _ _ He'). simpl_res. cbn. do 2 f_equal.
    change (?d :: ?d :: replicate k ?d) with (replicate (S (S k)) d). rewrite take_replicate. f_equal. lia.
  - destruct Ha as (He & Hp & He' & Hp' & Ha). inversion Hes as [|? ? H1 H2]; subst. cbn [get_files].
    rewrite (get_file_entry p name size _ _ _ He (next_header_entry p name size n1 s1 Ht He He' (proj1 Hp) (proj2 Hp'))).
    simpl_res. rewrite H1, (IH k _ n1 s1) by done. simpl_res.
    cbn [app data_addresses take]. f_equal. f_equal. 
    symmetry. apply (take_padded k (S k) (_ :: _)). lia.
Qed.
End cpio.

(** ** Properties *)

(** C34: an archive whose entries lie one behind the other is read in order up to
    the first entry (behind the one it begins with) whose name differs from the
    trailer's within as many bytes as its file has: this one, an ordinary file,
    sets the end flag, and every later call returns its data again, however
    many entries follow.  The trailer itself, which has no bytes, never sets
    the flag. *)
Theorem get_files_stops_at_file m lit_trailer p name size es name' size' rest k :
  cstring_at m lit_trailer TRAILER →
  archive_at m p (((name, size) :: es ++ [(name', size')]) ++ rest) →
  Forall (λ e, sets_eof e = false) es → sets_eof (name', size') = true →
  let ds := data_addresses p ((name, size) :: es ++ [(name', size')]) in
  get_files m lit_trailer k (Cpio p false) = Ok (take k (ds ++ replicate k (default 0 (last ds)))) ∧
  sets_eof (TRAILER, 0) = false.
Proof.
  intros Ht Ha Hes Hb ds. split; [|done].
  apply get_files_archive; [done| |done..]. by apply archive_at_app in Ha.
Qed.

(** ** Witnesses *)

Definition demo_entry (name : list Z) (data : list Z) : list Z :=
  le_bytes 2 0x71C7 ++ replicate 18 0 ++ le_bytes 2 (Z.of_nat (length name) + 1) ++
  le_bytes 2 (Z.of_nat (length data) / 2 ^ 16) ++ le_bytes 2 (Z.of_nat (length data) mod 2 ^ 16) ++
  name ++ [0] ++ [0] ++ data.

Definition demo_archive : mem :=
  write_bytes (write_bytes ∅ 0x1000 (demo_entry [97] [1; 2; 3] ++ demo_entry [98] [4] ++ demo_entry [99] [5; 6] ++
    demo_entry TRAILER [])) 0x2000 (TRAILER ++ [0]).

Definition demo_entries : list (list Z * Z) := [([97], 3); ([98], 1); ([99], 2); (TRAILER, 0)].

(** An entry in a memory that computes. *)
Lemma cpio_entry_decide m p name size :
  read_header m p = Ok (Header 0x71C7 (Z.of_nat (length name) + 1) (size / 2 ^ 16) (size mod 2 ^ 16)) →
  cstring_at m (p + CPIO_HEADER_SIZE) name ∧ Forall is_byte name → 0 ≤ size < 2 ^ 32 → cpio_entry m p name size.
Proof.
  unfold read_header. intros H [Hn Hb] Hs.
  destruct (load16 m p) eqn:E1, (load16 m (p + 20)) eqn:E2, (load16 m (p + 22)) eqn:E3, (load16 m (p + 24)) eqn:E4;
    try discriminate H.
  injection H as -> -> -> ->. by split.
Qed.

Lemma demo_archive_at : archive_at demo_archive 0x1000 demo_entries.
Proof.
  unfold demo_entries. cbn [archive_at].
  repeat (split; [apply cpio_entry_decide; [by vm_compute| |lia]|split; [by vm_compute|]]); [..|done].
  1-3: apply (cstring_at_decide _ _ 2); by vm_compute.
  apply (cstring_at_decide _ _ 11); by vm_compute.
Qed.

(** Three files: the third is never returned. *)
Lemma get_files_stops_at_file_witness :
  get_files demo_archive 0x2000 4 (Cpio 0x1000 false) = Ok [0x101D; 0x103D; 0x103D; 0x103D].
Proof.
  pose proof (cstring_at_decide demo_archive 0x2000 11 TRAILER eq_refl eq_refl) as [Ht _].
  exact (proj1 (get_files_stops_at_file demo_archive 0x2000 0x1000 [97] 3 [] [98] 1 [([99], 2); (TRAILER, 0)] 4
    Ht demo_archive_at (Forall_nil_2 _) eq_refl)).
Defined.
