(* ===== verification/Printf.v ===== *)
(** * Formatted output of the libc (lethe-libc/stdio.c)

    [vprintf] over byte memory: the format pointer walks a NUL-terminated
    string, the variadic arguments are a list of 64-bit slots, the characters
    given to [putchar] are collected in order.  The digit buffer of the number
    conversions is an array of [NTOA_MAX] cells, uninitialised at first, so
    that reading a cell never written or leaving the array is [Undefined]. *)
From S2P Require Import Prelude LibString.

(** ** Definitions *)

Definition FLAGS_ZEROPAD : Z := 2 ^ 0.
Definition FLAGS_LEFT : Z := 2 ^ 1.
Definition FLAGS_PLUS : Z := 2 ^ 2.
Definition FLAGS_SPACE : Z := 2 ^ 3.
Definition FLAGS_HASH : Z := 2 ^ 4.
Definition FLAGS_UPPER : Z := 2 ^ 5.
Definition FLAGS_CHAR : Z := 2 ^ 6.
Definition FLAGS_SHORT : Z := 2 ^ 7.
Definition FLAGS_LONG : Z := 2 ^ 8.
Definition FLAGS_LONG_LONG : Z := 2 ^ 9.
Definition FLAGS_PRECISION : Z := 2 ^ 10.
Definition NTOA_MAX : Z := 48.

(** [flags & F] as a condition, [flags &= ~F]. *)
Definition has (flags F : Z) : bool := negb (Z.land flags F =? 0).
Definition clear (flags F : Z) : Z := Z.ldiff flags F.

(** A [char] loaded from memory, sign-extended. *)
Definition load_char (m : mem) (a : Z) : res Z := b ← load8 m a; Ok (s8 b).

Definition is_digit (c : Z) : bool := (0x30 <=? c) && (c <=? 0x39).

(** The output so far and the running count of characters. *)
Record sink := Sink { out : list Z; idx : Z }.

(** [putchar(c); idx++] where [idx] has [w] bits. *)
Definition emit (w : Z) (c : Z) (s : sink) : sink :=
  Sink (out s ++ [u8 c]) (wrap w (idx s + 1)).

(** [while (is_digit( **a)) i = i * 10 + *( *a)++ - '0';] *)
Definition atoi (fuel : nat) (m : mem) (a : Z) : res (Z * Z) :=
  iter fuel (λ '(i, a),
    c ← load_char m a;
    if is_digit c then Ok (Next (u32 (u32 (i * 10) + u32 (c - 0x30)), a + 1))
    else Ok (Done (i, a))) (0, a).

(** The digit buffer. *)
Abbreviation buffer := (list (option Z)).
Definition new_buffer : buffer := replicate (Z.to_nat NTOA_MAX) None.

Definition buf_set (buf : buffer) (i c : Z) : res buffer :=
  if (0 <=? i) && (i <? Z.of_nat (length buf)) then Ok (<[Z.to_nat i := Some c]> buf)
  else Err Undefined.

Definition buf_get (buf : buffer) (i : Z) : res Z :=
  if 0 <=? i then of_option Undefined (mjoin (buf !! Z.to_nat i)) else Err Undefined.

(** Print [n] times the same character. *)
Fixpoint emit_n (w : Z) (n : nat) (c : Z) (s : sink) : sink :=
  match n with O => s | S n => emit_n w n c (emit w c s) end.

Definition print_reverse (buf : buffer) (len flags width : Z) (s : sink) : res sink :=
  let start_idx := idx s in
  let s := if negb (has flags FLAGS_LEFT) && negb (has flags FLAGS_ZEROPAD)
           then emit_n 64 (Z.to_nat (width - len)) 0x20 s else s in
  s ← iter (S (Z.to_nat len)) (λ '(len, s),
        if len =? 0 then Ok (Done s)
        else c ← buf_get buf (len - 1); Ok (Next (len - 1, emit 64 c s))) (len, s);
  if has flags FLAGS_LEFT then
    iter (S (Z.to_nat width)) (λ s,
      if u64 (idx s - start_idx) <? width then Ok (Next (emit 64 0x20 s))
      else Ok (Done s)) s
  else Ok s.

(** [buf[len++] = c] *)
Definition push (c : Z) (b : buffer * Z) : res (buffer * Z) :=
  buf ← buf_set b.1 b.2 c; Ok (buf, b.2 + 1).

(** [while (cond && len < bound && len < NTOA_MAX) { buf[len++] = '0'; }] *)
Definition zero_fill (cond : bool) (bound : Z) (b : buffer * Z) : res (buffer * Z) :=
  iter (S (Z.to_nat NTOA_MAX)) (λ b,
    if cond && (b.2 <? bound) && (b.2 <? NTOA_MAX) then b ← push 0x30 b; Ok (Next b)
    else Ok (Done b)) b.

(** [if (len < NTOA_MAX) { buf[len++] = c; }] *)
Definition push_if_room (c : Z) (b : buffer * Z) : res (buffer * Z) :=
  if b.2 <? NTOA_MAX then push c b else Ok b.

Definition ntoa_pad (flags precision : Z) (negative : bool) (bw : buffer * Z * Z) :
    res (buffer * Z * Z) :=
  let '(b, width) := bw in
  if has flags FLAGS_LEFT then Ok (b, width)
  else
    let width :=
      if negb (width =? 0) && has flags FLAGS_ZEROPAD &&
         (negative || has flags (Z.lor FLAGS_PLUS FLAGS_SPACE))
      then width - 1 else width in
    b ← zero_fill true precision b;
    b ← zero_fill (has flags FLAGS_ZEROPAD) width b;
    Ok (b, width).

Definition ntoa_hash (flags precision width base : Z) (b : buffer * Z) : res (buffer * Z) :=
  if has flags FLAGS_HASH then
    let len := b.2 in
    let len :=
      if negb (has flags FLAGS_PRECISION) && negb (len =? 0) &&
         ((len =? precision) || (len =? width))
      then (let len := len - 1 in
            if negb (len =? 0) && (base =? 16) then len - 1 else len)
      else len in
    let b := (b.1, len) in
    b ← (if (base =? 16) && negb (has flags FLAGS_UPPER) && (len <? NTOA_MAX) then push 0x78 b
         else if (base =? 16) && has flags FLAGS_UPPER && (len <? NTOA_MAX) then push 0x78 b
         else if (base =? 2) && (len <? NTOA_MAX) then push 0x62 b
         else Ok b);
    push_if_room 0x30 b
  else Ok b.

Definition ntoa_sign (flags : Z) (negative : bool) (b : buffer * Z) : res (buffer * Z) :=
  if b.2 <? NTOA_MAX then
    if negative then push 0x2D b
    else if has flags FLAGS_PLUS then push 0x2B b
    else if has flags FLAGS_SPACE then push 0x20 b
    else Ok b
  else Ok b.

Definition __ntoa (buf : buffer) (len flags width precision base : Z) (negative : bool)
    (s : sink) : res sink :=
  '(b, width) ← ntoa_pad flags precision negative ((buf, len), width);
  b ← ntoa_hash flags precision width base b;
  b ← ntoa_sign flags negative b;
  print_reverse b.1 b.2 flags width s.

(** The character of a digit. *)
Definition digit_char (flags digit : Z) : Z :=
  if digit <? 10 then digit + 0x30
  else (if has flags FLAGS_UPPER then 0x41 else 0x61) + digit - 10.

(** [do { buf[len++] = digit; value /= base; } while (value && len < NTOA_MAX);] *)
Definition digit_loop (flags base value : Z) : res (buffer * Z) :=
  iter (Z.to_nat NTOA_MAX) (λ '(value, b),
    let digit := value mod base in
    b ← push (digit_char flags digit) b;
    let value := value / base in
    if negb (value =? 0) && (b.2 <? NTOA_MAX) then Ok (Next (value, b))
    else Ok (Done b)) (value, (new_buffer, 0)).

Definition ntoa_long (value flags base width precision : Z) (negative : bool) (s : sink) :
    res sink :=
  let flags := if value =? 0 then clear flags FLAGS_HASH else flags in
  b ← (if negb (has flags FLAGS_PRECISION) || negb (value =? 0)
       then digit_loop flags base value else Ok (new_buffer, 0));
  __ntoa b.1 b.2 flags width precision base negative s.

(** The same function at [unsigned long long], which is also 64 bits wide. *)
Definition ntoa_long_long (value flags base width precision : Z) (negative : bool)
    (s : sink) : res sink :=
  let flags := if value =? 0 then clear flags FLAGS_HASH else flags in
  b ← (if negb (has flags FLAGS_PRECISION) || negb (value =? 0)
       then digit_loop flags base value else Ok (new_buffer, 0));
  __ntoa b.1 b.2 flags width precision base negative s.

(** State of [vprintf] between two rounds of its main loop: the format
    pointer, the remaining arguments, the flags (one variable for the whole
    call) and the output. *)
Record pstate := PState { fmt : Z; va : list Z; flags : Z; snk : sink }.

Definition va_arg (va : list Z) : res (Z * list Z) :=
  match va with x :: va => Ok (x, va) | [] => Err Undefined end.

(** The flag characters: [do switch ( *fmt) ... while (n);] *)
Definition parse_flags (fuel : nat) (m : mem) (flags fmt : Z) : res (Z * Z) :=
  iter fuel (λ '(flags, fmt),
    c ← load_char m fmt;
    if c =? 0x30 then Ok (Next (Z.lor flags FLAGS_ZEROPAD, fmt + 1))
    else if c =? 0x2D then Ok (Next (Z.lor flags FLAGS_LEFT, fmt + 1))
    else if c =? 0x2B then Ok (Next (Z.lor flags FLAGS_PLUS, fmt + 1))
    else if c =? 0x20 then Ok (Next (Z.lor flags FLAGS_SPACE, fmt + 1))
    else if c =? 0x23 then Ok (Next (Z.lor flags FLAGS_HASH, fmt + 1))
    else Ok (Done (flags, fmt))) (flags, fmt).

(** Width: (width, flags, fmt, va). *)
Definition parse_width (fuel : nat) (m : mem) (flags fmt : Z) (va : list Z) :
    res (Z * Z * Z * list Z) :=
  c ← load_char m fmt;
  if is_digit c then '(width, fmt) ← atoi fuel m fmt; Ok (width, flags, fmt, va)
  else if c =? 0x2A then
    '(x, va) ← va_arg va;
    let width_specifier := s32 x in
    if width_specifier <? 0 then
      w ← int_ok (- width_specifier);
      Ok (u32 w, Z.lor flags FLAGS_LEFT, fmt + 1, va)
    else Ok (u32 width_specifier, flags, fmt + 1, va)
  else Ok (0, flags, fmt, va).

(** Precision: (precision, flags, fmt, va). *)
Definition parse_precision (fuel : nat) (m : mem) (flags fmt : Z) (va : list Z) :
    res (Z * Z * Z * list Z) :=
  c ← load_char m fmt;
  if c =? 0x2E then
    let flags := Z.lor flags FLAGS_PRECISION in
    let fmt := fmt + 1 in
    c ← load_char m fmt;
    if is_digit c then '(p, fmt) ← atoi fuel m fmt; Ok (p, flags, fmt, va)
    else if c =? 0x2A then
      '(x, va) ← va_arg va;
      let precision_specifier := s32 x in
      Ok (if 0 <? precision_specifier then precision_specifier else 0, flags, fmt + 1, va)
    else Ok (0, flags, fmt, va)
  else Ok (0, flags, fmt, va).

(** Length modifiers; [ptrdiff_t], [intmax_t] and [size_t] are as wide as
    [long]. *)
Definition parse_length (m : mem) (flags fmt : Z) : res (Z * Z) :=
  c ← load_char m fmt;
  if c =? 0x6C then
    let flags := Z.lor flags FLAGS_LONG in
    c ← load_char m (fmt + 1);
    if c =? 0x6C then Ok (Z.lor flags FLAGS_LONG_LONG, fmt + 2) else Ok (flags, fmt + 1)
  else if c =? 0x68 then
    let flags := Z.lor flags FLAGS_SHORT in
    c ← load_char m (fmt + 1);
    if c =? 0x68 then Ok (Z.lor flags FLAGS_CHAR, fmt + 2) else Ok (flags, fmt + 1)
  else if (c =? 0x74) || (c =? 0x6A) || (c =? 0x7A) then Ok (Z.lor flags FLAGS_LONG, fmt + 1)
  else Ok (flags, fmt).

(** [value > 0 ? value : 0 - value] at a signed type of [w] bits. *)
Definition magnitude (w value : Z) : res Z :=
  if 0 <? value then Ok value
  else if value =? - 2 ^ (w - 1) then Err Undefined else Ok (- value).

(** [%d %i %u %x %X %o %b] *)
Definition convert_int (c flags width precision : Z) (va : list Z) (s : sink) :
    res (Z * list Z * sink) :=
  let hex := (c =? 0x78) || (c =? 0x58) in
  let signed := (c =? 0x69) || (c =? 0x64) in
  let base := if hex then 16 else if c =? 0x6F then 8 else if c =? 0x62 then 2 else 10 in
  let flags := if base =? 10 then clear flags FLAGS_HASH else flags in
  let flags := if c =? 0x58 then Z.lor flags FLAGS_UPPER else flags in
  let flags := if signed then flags else clear flags (Z.lor FLAGS_PLUS FLAGS_SPACE) in
  let flags := if has flags FLAGS_PRECISION then clear flags FLAGS_ZEROPAD else flags in
  '(x, va) ← va_arg va;
  s ← (if signed then
         if has flags FLAGS_LONG_LONG then
           let value := swrap 64 x in
           v ← magnitude 64 value;
           ntoa_long_long v flags base width precision (value <? 0) s
         else if has flags FLAGS_LONG then
           let value := swrap 64 x in
           v ← magnitude 64 value;
           ntoa_long v flags base width precision (value <? 0) s
         else
           let value := if has flags FLAGS_CHAR then s8 x
                        else if has flags FLAGS_SHORT then swrap 16 x else s32 x in
           v ← magnitude 32 value;
           ntoa_long (u64 v) flags base width precision (value <? 0) s
       else
         if has flags FLAGS_LONG_LONG then
           ntoa_long_long (u64 x) flags base width precision false s
         else if has flags FLAGS_LONG then
           ntoa_long (u64 x) flags base width precision false s
         else
           let value := if has flags FLAGS_CHAR then u8 x
                        else if has flags FLAGS_SHORT then u16 x else u32 x in
           ntoa_long value flags base width precision false s);
  Ok (flags, va, Sink (out s) (u32 (idx s))).

(** [while (l++ < width) { putchar(' '); idx++; }]; returns the final [l]. *)
Definition pad_to (l width : Z) (s : sink) : res (Z * sink) :=
  iter (S (Z.to_nat (width - l))) (λ '(l, s),
    let l' := u32 (l + 1) in
    if l <? width then Ok (Next (l', emit 32 0x20 s)) else Ok (Done (l', s))) (l, s).

(** [%c] *)
Definition convert_char (flags width : Z) (va : list Z) (s : sink) : res (list Z * sink) :=
  '(l, s) ← (if has flags FLAGS_LEFT then Ok (1, s) else pad_to 1 width s);
  '(x, va) ← va_arg va;
  let s := emit 32 (s8 x) s in
  '(l, s) ← (if has flags FLAGS_LEFT then pad_to l width s else Ok (l, s));
  Ok (va, s).

(** [%s] *)
Definition convert_string (fuel : nat) (m : mem) (flags width precision : Z) (va : list Z)
    (s : sink) : res (list Z * sink) :=
  '(p, va) ← va_arg va;
  n ← strlen fuel m p;
  let l := u32 n in
  let l := if has flags FLAGS_PRECISION then (if l <? precision then l else precision) else l in
  '(l, s) ← (if has flags FLAGS_LEFT then Ok (l, s) else pad_to l width s);
  s ← iter fuel (λ '(p, precision, s),
        c ← load_char m p;
        if c =? 0 then Ok (Done s)
        else if has flags FLAGS_PRECISION then
          if precision =? 0 then Ok (Done s)
          else Ok (Next (p + 1, u32 (precision - 1), emit 32 c s))
        else Ok (Next (p + 1, precision, emit 32 c s))) (p, precision, s);
  '(l, s) ← (if has flags FLAGS_LEFT then pad_to l width s else Ok (l, s));
  Ok (va, s).

(** [%p] *)
Definition convert_pointer (flags precision : Z) (va : list Z) (s : sink) :
    res (Z * list Z * sink) :=
  let width := 16 in
  let flags := Z.lor flags (Z.lor FLAGS_ZEROPAD FLAGS_UPPER) in
  '(x, va) ← va_arg va;
  s ← ntoa_long_long (u64 x) flags 16 width precision false s;
  Ok (flags, va, Sink (out s) (u32 (idx s))).

(** A conversion: [fmt] points behind the percent sign. *)
Definition conversion (fuel : nat) (m : mem) (st : pstate) : res pstate :=
  '(flags, fmt) ← parse_flags fuel m (flags st) (fmt st);
  '(width, flags, fmt, va) ← parse_width fuel m flags fmt (va st);
  '(precision, flags, fmt, va) ← parse_precision fuel m flags fmt va;
  '(flags, fmt) ← parse_length m flags fmt;
  c ← load_char m fmt;
  let s := snk st in
  if (c =? 0x64) || (c =? 0x69) || (c =? 0x75) || (c =? 0x78) || (c =? 0x58) ||
     (c =? 0x6F) || (c =? 0x62) then
    '(flags, va, s) ← convert_int c flags width precision va s;
    Ok (PState (fmt + 1) va flags s)
  else if c =? 0x63 then
    '(va, s) ← convert_char flags width va s; Ok (PState (fmt + 1) va flags s)
  else if c =? 0x73 then
    '(va, s) ← convert_string fuel m flags width precision va s;
    Ok (PState (fmt + 1) va flags s)
  else if c =? 0x70 then
    '(flags, va, s) ← convert_pointer flags precision va s;
    Ok (PState (fmt + 1) va flags s)
  else if c =? 0x25 then Ok (PState (fmt + 1) va flags (emit 32 0x25 s))
  else Ok (PState (fmt + 1) va flags (emit 32 c s)).

(** One round of [while ( *fmt )]. *)
Definition vprintf_round (fuel : nat) (m : mem) (st : pstate) : res (ctrl pstate sink) :=
  c ← load_char m (fmt st);
  if c =? 0 then Ok (Done (snk st))
  else if negb (c =? 0x25) then
    Ok (Next (PState (fmt st + 1) (va st) (flags st) (emit 32 c (snk st))))
  else
    st ← conversion fuel m (PState (fmt st + 1) (va st) (flags st) (snk st));
    Ok (Next st).

(** Returns the printed characters and the returned count. *)
Definition vprintf (fuel : nat) (m : mem) (fmt : Z) (va : list Z) : res (list Z * Z) :=
  s ← iter fuel (vprintf_round fuel m) (PState fmt va 0 (Sink [] 0));
  Ok (out s, s32 (idx s)).

Definition printf : nat → mem → Z → list Z → res (list Z * Z) := vprintf.

(** [print] stops early when [putchar] returns [EOF], which it does not for
    an [unsigned char]; [puts] prints without a newline. *)
Definition print (m : mem) (data length : Z) : res (list Z * Z) :=
  o ← iter (S (Z.to_nat length)) (λ '(i, o),
        if i <? length then c ← load8 m (data + i); Ok (Next (i + 1, o ++ [c]))
        else Ok (Done o)) (0, []);
  Ok (o, s32 length).

Definition puts (fuel : nat) (m : mem) (str : Z) : res (list Z * Z) :=
  n ← strlen fuel m str; print m str n.

(** Reference: the value of a printed numeral. *)
Definition char_digit (c : Z) : Z :=
  if c <? 0x3A then c - 0x30 else if c <? 0x61 then c - 0x41 + 10 else c - 0x61 + 10.

Definition numeral (base : Z) (cs : list Z) : Z :=
  foldl (λ v c, v * base + char_digit c) 0 cs.

(** Reference digits, least significant first, at most [n] of them. *)
Fixpoint digits (flags base : Z) (n : nat) (value : Z) : list Z :=
  match n with
  | O => []
  | S n => digit_char flags (value mod base) ::
           (if value / base =? 0 then [] else digits flags base n (value / base))
  end.

(** Reference formatting of a number on lists: [cs] is the numeral so far,
    last character first. *)
Definition fill_spec (cond : bool) (bound : Z) (cs : list Z) : list Z :=
  cs ++ replicate (if cond then Z.to_nat (Z.min bound NTOA_MAX - Z.of_nat (length cs)) else 0)
                  0x30.

Definition room (c : Z) (cs : list Z) : list Z :=
  if Z.of_nat (length cs) <? NTOA_MAX then cs ++ [c] else cs.

Definition hash_spec (flags precision width base : Z) (cs : list Z) : list Z :=
  if has flags FLAGS_HASH then
    let n := Z.of_nat (length cs) in
    let n' := if negb (has flags FLAGS_PRECISION) && negb (n =? 0) &&
                 ((n =? precision) || (n =? width))
              then (if negb (n - 1 =? 0) && (base =? 16) then n - 2 else n - 1) else n in
    let cs := take (Z.to_nat n') cs in
    room 0x30 (if base =? 16 then room 0x78 cs else if base =? 2 then room 0x62 cs else cs)
  else cs.

Definition sign_spec (flags : Z) (negative : bool) (cs : list Z) : list Z :=
  if negative then room 0x2D cs
  else if has flags FLAGS_PLUS then room 0x2B cs
  else if has flags FLAGS_SPACE then room 0x20 cs
  else cs.

Definition ntoa_spec (flags width precision base : Z) (negative : bool) (cs : list Z) :
    list Z :=
  let '(cs, width) :=
    if has flags FLAGS_LEFT then (cs, width)
    else
      let width :=
        if negb (width =? 0) && has flags FLAGS_ZEROPAD &&
           (negative || has flags (Z.lor FLAGS_PLUS FLAGS_SPACE))
        then width - 1 else width in
      (fill_spec (has flags FLAGS_ZEROPAD) width (fill_spec true precision cs), width) in
  let cs := sign_spec flags negative (hash_spec flags precision width base cs) in
  let pad := replicate (Z.to_nat (width - Z.of_nat (length cs))) 0x20 in
  if has flags FLAGS_LEFT then rev cs ++ pad
  else if has flags FLAGS_ZEROPAD then rev cs
  else pad ++ rev cs.

Definition ntoa_long_spec (value flags base width precision : Z) (negative : bool) : list Z :=
  let flags := if value =? 0 then clear flags FLAGS_HASH else flags in
  ntoa_spec flags width precision base negative
    (if negb (has flags FLAGS_PRECISION) || negb (value =? 0)
     then digits flags base (Z.to_nat NTOA_MAX) value else []).

(** ** Lemmas *)

(** The first [b.2] cells of the buffer hold the characters [cs]. *)
Definition holds (b : buffer * Z) (cs : list Z) : Prop :=
  length b.1 = Z.to_nat NTOA_MAX ∧ b.2 = Z.of_nat (length cs) ∧
  take (length cs) b.1 = Some <$> cs ∧ Forall is_byte cs.

Lemma holds_new : holds (new_buffer, 0) [].
Proof. repeat split; done. Qed.

Lemma holds_length b cs : holds b cs → (length cs ≤ 48)%nat.
Proof.
  intros (H1 & _ & H & _). apply (f_equal length) in H.
  rewrite length_take, length_fmap in H. change (Z.to_nat NTOA_MAX) with 48%nat in H1. lia.
Qed.

Lemma push_holds b cs c :
  holds b cs → (length cs < 48)%nat → is_byte c →
  ∃ b', push c b = Ok b' ∧ holds b' (cs ++ [c]).
Proof.
  destruct b as [buf len]. intros (H1 & H2 & H3 & H4) Hl Hc. cbn in *. subst len.
  change (Z.to_nat NTOA_MAX) with 48%nat in H1.
  unfold push, buf_set. cbn [fst snd]. zbool. cbn [andb]. simpl_res. eexists. split; [done|].
  unfold holds. cbn [fst snd]. rewrite length_insert, length_app. cbn [length].
  repeat split; [done|lia| |apply Forall_app; auto].
  rewrite fmap_app, Nat2Z.id, Nat.add_1_r.
  rewrite (take_S_r _ _ (Some c)).
  - rewrite take_insert_ge by lia. by rewrite H3.
  - apply list_lookup_insert_eq. lia.
Qed.

Lemma push_if_room_holds b cs c :
  holds b cs → is_byte c → ∃ b', push_if_room c b = Ok b' ∧ holds b' (room c cs).
Proof.
  intros H Hc. pose proof (holds_length _ _ H) as Hl. pose proof H as (_ & E & _).
  unfold push_if_room, room, NTOA_MAX in *. rewrite E. zcase; [|eauto].
  apply push_holds; [done|lia|done].
Qed.

Lemma zero_fill_holds cond bound b cs :
  holds b cs → ∃ b', zero_fill cond bound b = Ok b' ∧ holds b' (fill_spec cond bound cs).
Proof.
  intros H. unfold zero_fill.
  apply (iter_total _ (λ b', ∃ k : nat, holds b' (cs ++ replicate k 0x30) ∧
           (k ≤ if cond then Z.to_nat (Z.min bound NTOA_MAX - Z.of_nat (length cs)) else 0)%nat)
         _ (λ b', Z.to_nat (NTOA_MAX - b'.2))).
  - intros b' (k & Hk & Hle). pose proof (holds_length _ _ Hk) as Hl.
    pose proof Hk as (_ & E & _). rewrite length_app, length_replicate in *. rewrite E.
    destruct cond; cbn [andb].
    2:{ unfold fill_spec. assert (k = 0%nat) as -> by lia. done. }
    unfold fill_spec, NTOA_MAX in *.
    destruct (Z.ltb_spec (Z.of_nat (length cs + k)) bound);
      destruct (Z.ltb_spec (Z.of_nat (length cs + k)) 48); cbn [andb].
    + destruct (push_holds _ _ 0x30 Hk) as (b'' & -> & Hb'').
      { rewrite length_app, length_replicate. lia. } { unfold is_byte. lia. }
      simpl_res. pose proof Hb'' as (_ & E' & _).
      rewrite !length_app, length_replicate in E'. cbn [length] in E'. split; [|lia].
      exists (S k). rewrite replicate_S_end, app_assoc. split; [done|]. lia.
    + replace (Z.to_nat _) with k by lia. done.
    + replace (Z.to_nat _) with k by lia. done.
    + replace (Z.to_nat _) with k by lia. done.
  - exists 0%nat. rewrite app_nil_r. split; [done|lia].
  - destruct H as (_ & -> & _). unfold NTOA_MAX. lia.
Qed.

Lemma holds_shorten buf len k cs :
  holds (buf, len) cs → 0 ≤ k ≤ len → holds (buf, k) (take (Z.to_nat k) cs).
Proof.
  intros (H1 & H2 & H3 & H4) Hk. cbn in *. subst len.
  repeat split; cbn; [done| | |by apply Forall_take].
  - rewrite length_take. lia.
  - rewrite length_take, Nat.min_l by lia.
    apply (f_equal (take (Z.to_nat k))) in H3.
    rewrite take_take, Nat.min_l in H3 by lia. by rewrite H3, fmap_take.
Qed.

Lemma ntoa_hash_holds flags precision width base b cs :
  holds b cs →
  ∃ b', ntoa_hash flags precision width base b = Ok b' ∧
        holds b' (hash_spec flags precision width base cs).
Proof.
  intros H. unfold ntoa_hash, hash_spec. destruct (has flags FLAGS_HASH); [|eauto].
  destruct b as [buf len]. pose proof H as (_ & E & _). cbn [fst snd] in *. subst len.
  set (n := Z.of_nat (length cs)) in *.
  set (n' := if negb (has flags FLAGS_PRECISION) && _ && _ then _ else _).
  set (n'' := if negb (has flags FLAGS_PRECISION) && _ && _ then _ else _).
  assert (n'' = n' ∧ 0 ≤ n'' ≤ n) as [-> Hn].
  { subst n' n''. destruct (negb _) in |- *; cbn [andb]; [|lia].
    destruct (Z.eqb_spec n 0); cbn [negb andb]; [lia|].
    destruct (_ || _); [|lia]. destruct (Z.eqb_spec (n - 1) 0); cbn [negb andb]; [lia|].
    destruct (base =? 16); lia. }
  assert (H' := holds_shorten _ _ n' _ H Hn).
  assert (Hx : ∀ c, is_byte c → ∃ b', push_if_room c (buf, n') = Ok b' ∧
                 holds b' (room c (take (Z.to_nat n') cs))).
  { intros. by apply push_if_room_holds. }
  assert (Hb : ∃ b', (if (base =? 16) && negb (has flags FLAGS_UPPER) && (n' <? NTOA_MAX)
         then push 0x78 (buf, n')
         else if (base =? 16) && has flags FLAGS_UPPER && (n' <? NTOA_MAX) then push 0x78 (buf, n')
         else if (base =? 2) && (n' <? NTOA_MAX) then push 0x62 (buf, n')
         else Ok (buf, n')) = Ok b' ∧
     holds b' (if base =? 16 then room 0x78 (take (Z.to_nat n') cs)
               else if base =? 2 then room 0x62 (take (Z.to_nat n') cs)
               else take (Z.to_nat n') cs)).
  { assert (B78 : is_byte 0x78) by int_lia. assert (B62 : is_byte 0x62) by int_lia.
    apply Hx in B78, B62. unfold push_if_room in B78, B62. cbn [snd] in B78, B62.
    destruct (Z.eqb_spec base 16) as [->|]; cbn [andb].
    - destruct (has flags FLAGS_UPPER), (n' <? NTOA_MAX); cbn [negb andb]; done.
    - destruct (Z.eqb_spec base 2); cbn [andb]; [|eauto].
      destruct (n' <? NTOA_MAX); done. }
  destruct Hb as (b' & -> & Hb'). simpl_res. apply push_if_room_holds; [done|int_lia].
Qed.

Lemma ntoa_sign_holds flags negative b cs :
  holds b cs → ∃ b', ntoa_sign flags negative b = Ok b' ∧ holds b' (sign_spec flags negative cs).
Proof.
  intros H. pose proof H as (_ & E & _). unfold ntoa_sign, sign_spec.
  assert (Hx : ∀ c, is_byte c → ∃ b', push_if_room c b = Ok b' ∧ holds b' (room c cs)).
  { intros. by apply push_if_room_holds. }
  assert (A := Hx 0x2D ltac:(int_lia)). assert (B := Hx 0x2B ltac:(int_lia)).
  assert (C := Hx 0x20 ltac:(int_lia)). unfold push_if_room in *.
  destruct (b.2 <? NTOA_MAX), negative, (has flags FLAGS_PLUS), (has flags FLAGS_SPACE); eauto.
Qed.

Lemma emit_n_eq w n c s :
  0 ≤ w → 0 ≤ idx s < 2 ^ w →
  emit_n w n c s = Sink (out s ++ replicate n (u8 c)) (wrap w (idx s + Z.of_nat n)).
Proof.
  intros Hw. revert s. induction n as [|n IH]; intros s Hs; cbn [emit_n].
  - rewrite app_nil_r, Z.add_0_r, wrap_small by done. by destruct s.
  - rewrite IH by (cbn; apply wrap_range; done). unfold emit. cbn [out idx].
    rewrite <- app_assoc. cbn [replicate app]. f_equal.
    unfold wrap. rewrite Z.add_mod_idemp_l by lia. f_equal. lia.
Qed.

Lemma buf_get_holds b cs i c :
  holds b cs → cs !! i = Some c → buf_get b.1 (Z.of_nat i) = Ok c.
Proof.
  intros (_ & _ & H & _) Hi. unfold buf_get. zbool. rewrite Nat2Z.id.
  apply lookup_lt_Some in Hi as Hl.
  rewrite <- (lookup_take_lt _ (length cs)) by done. rewrite H, list_lookup_fmap, Hi. done.
Qed.

(** Printing the buffer backwards. *)
Lemma print_digits b cs s :
  holds b cs → 0 ≤ idx s < 2 ^ 64 →
  iter (S (Z.to_nat b.2)) (λ '(len, s),
        if len =? 0 then Ok (Done s)
        else c ← buf_get b.1 (len - 1); Ok (Next (len - 1, emit 64 c s))) (b.2, s) =
  Ok (Sink (out s ++ rev cs) (u64 (idx s + Z.of_nat (length cs)))).
Proof.
  intros H Hs. apply (iter_ok _ (λ '(len, s'), ∃ k : nat,
      len = Z.of_nat k ∧ (k ≤ length cs)%nat ∧
      s' = Sink (out s ++ rev (drop k cs)) (u64 (idx s + Z.of_nat (length cs - k))))
    (λ '(len, _), Z.to_nat len)).
  - intros [len s'] (k & -> & Hk & ->). destruct k as [|k].
    { cbn. by rewrite drop_0, Nat.sub_0_r. }
    zbool. destruct (lookup_lt_is_Some_2 cs k) as [c Hc]; [lia|].
    replace (Z.of_nat (S k) - 1) with (Z.of_nat k) by lia.
    rewrite (buf_get_holds _ _ _ _ H Hc). simpl_res. split; [|lia].
    exists k. split; [done|]. split; [lia|]. unfold emit. cbn [out idx].
    rewrite (drop_S _ _ _ Hc). cbn [rev]. rewrite <- app_assoc.
    assert (is_byte c) by (destruct H as (_ & _ & _ & H); by eapply is_byte_lookup).
    rewrite u8_byte by done. f_equal. unfold u64, wrap.
    rewrite Z.add_mod_idemp_l by lia. f_equal. lia.
  - destruct H as (_ & -> & _). exists (length cs). split; [done|]. split; [done|].
    rewrite drop_all, app_nil_r, Nat.sub_diag, Z.add_0_r.
    unfold u64. rewrite wrap_small by done. by destruct s.
  - destruct H as (_ & -> & _). cbn. lia.
Qed.

Lemma idx_shift a n m : u64 (u64 (a + n) + m) = u64 (a + (n + m)).
Proof. unfold u64, wrap. rewrite Z.add_mod_idemp_l by lia. f_equal. lia. Qed.

(** The trailing spaces of a left-aligned field. *)
Lemma left_pad start o n width :
  0 ≤ start < 2 ^ 64 → 0 ≤ width < 2 ^ 32 → (n ≤ 48)%nat →
  iter (S (Z.to_nat width)) (λ s,
      if u64 (idx s - start) <? width then Ok (Next (emit 64 0x20 s)) else Ok (Done s))
    (Sink o (u64 (start + Z.of_nat n))) =
  Ok (Sink (o ++ replicate (Z.to_nat (width - Z.of_nat n)) 0x20)
           (u64 (start + Z.of_nat (n + Z.to_nat (width - Z.of_nat n))))).
Proof.
  intros Hs Hw Hn. apply (iter_ok _ (λ s', ∃ k : nat,
      (k ≤ Z.to_nat (width - Z.of_nat n))%nat ∧
      s' = Sink (o ++ replicate k 0x20) (u64 (start + Z.of_nat (n + k))))
    (λ s', Z.to_nat (width - u64 (idx s' - start)))).
  - intros s' (k & Hk & ->). cbn [idx out].
    assert (E : ∀ j : nat, (j ≤ Z.to_nat width)%nat →
              u64 (u64 (start + Z.of_nat (n + j)) - start) = Z.of_nat (n + j)).
    { intros j Hj. unfold u64, wrap. rewrite Zminus_mod_idemp_l.
      replace (start + _ - start) with (Z.of_nat (n + j)) by lia. apply Z.mod_small. lia. }
    rewrite E by lia. zcase.
    + split.
      * exists (S k). split; [lia|]. unfold emit. cbn [out idx].
        rewrite replicate_S_end, app_assoc. change (u8 0x20) with 0x20. f_equal.
        change (wrap 64) with u64. rewrite idx_shift. f_equal. lia.
      * cbn [idx emit]. change (wrap 64) with u64. rewrite idx_shift.
        replace (Z.of_nat (n + k) + 1) with (Z.of_nat (n + S k)) by lia. rewrite E by lia. lia.
    + by replace (Z.to_nat (width - Z.of_nat n)) with k by lia.
  - exists 0%nat. split; [lia|]. by rewrite app_nil_r, Nat.add_0_r.
  - cbn [idx]. unfold u64, wrap. pose proof (Z.mod_pos_bound ((start + Z.of_nat n) mod 2 ^ 64 - start) (2 ^ 64)). lia.
Qed.

Lemma print_reverse_holds b cs flags width s :
  holds b cs → 0 ≤ idx s < 2 ^ 64 → 0 ≤ width < 2 ^ 32 →
  let pad := replicate (Z.to_nat (width - Z.of_nat (length cs))) 0x20 in
  let o := if has flags FLAGS_LEFT then rev cs ++ pad
           else if has flags FLAGS_ZEROPAD then rev cs else pad ++ rev cs in
  print_reverse b.1 b.2 flags width s =
  Ok (Sink (out s ++ o) (u64 (idx s + Z.of_nat (length o)))).
Proof.
  intros H Hs Hw pad o. pose proof (holds_length _ _ H) as Hl.
  pose proof H as (_ & E & _). unfold print_reverse.
  destruct (has flags FLAGS_LEFT) eqn:HL; cbn [negb andb].
  - rewrite (print_digits _ cs) by done. simpl_res.
    rewrite left_pad by done. subst o pad.
    rewrite app_assoc, length_app, length_rev, length_replicate. done.
  - destruct (has flags FLAGS_ZEROPAD); cbn [negb].
    + rewrite (print_digits _ cs) by done. simpl_res. subst o. by rewrite length_rev.
    + rewrite emit_n_eq by done. rewrite E.
      change (u8 0x20) with 0x20. fold pad.
      pose proof (print_digits b cs (Sink (out s ++ pad)
        (wrap 64 (idx s + Z.of_nat (Z.to_nat (width - Z.of_nat (length cs))))))) as P.
      rewrite E in P. rewrite P by (done || (cbn; apply wrap_range; lia)). simpl_res.
      cbn [out idx]. subst o. rewrite <- app_assoc, length_app, length_rev. do 2 f_equal.
      change (wrap 64) with u64. rewrite idx_shift. subst pad. rewrite length_replicate.
      f_equal. lia.
Qed.

Lemma digit_char_byte flags d : 0 ≤ d < 36 → is_byte (digit_char flags d).
Proof. intros. unfold digit_char. repeat case_match; int_lia. Qed.

Lemma digits_length flags base n v : (length (digits flags base n v) ≤ n)%nat.
Proof.
  revert v. induction n as [|n IH]; intros v; cbn [digits length]; [lia|].
  case_match; cbn [length]; [lia|]. specialize (IH (v / base)). lia.
Qed.

Lemma digit_loop_holds flags base value :
  2 ≤ base ≤ 36 → 0 ≤ value →
  ∃ b, digit_loop flags base value = Ok b ∧
       holds b (digits flags base (Z.to_nat NTOA_MAX) value).
Proof.
  intros Hb Hv. unfold digit_loop.
  apply (iter_total _ (λ '(v, b), ∃ cs, holds b cs ∧ 0 ≤ v ∧ (length cs < 48)%nat ∧
      digits flags base (Z.to_nat NTOA_MAX) value =
      cs ++ digits flags base (48 - length cs) v)
    _ (λ '(v, b), Z.to_nat (NTOA_MAX - 1 - b.2))).
  - intros [v b] (cs & H & H0 & Hl & E).
    assert (Hd : 0 ≤ v mod base < 36) by (pose proof (Z.mod_pos_bound v base); lia).
    destruct (push_holds _ _ (digit_char flags (v mod base)) H) as (b' & -> & Hb');
      [lia|by apply digit_char_byte|].
    simpl_res. pose proof H as (_ & E0 & _). pose proof Hb' as (_ & E' & _).
    rewrite length_app in E'. cbn [length] in E'.
    destruct (48 - length cs)%nat as [|n] eqn:En; [lia|]. cbn [digits] in E.
    assert (0 ≤ v / base) by (apply Z.div_pos; lia).
    change (b'.2 <? NTOA_MAX) with (b'.2 <? 48). destruct (Z.eqb_spec (v / base) 0) as [Hz|Hz]; cbn [negb andb].
    + by rewrite E.
    + destruct (Z.ltb_spec b'.2 48).
      * split; [|unfold NTOA_MAX in *; lia]. exists (cs ++ [digit_char flags (v mod base)]).
        rewrite length_app. cbn [length]. split; [done|]. split; [done|]. split; [lia|].
        rewrite E. replace (48 - (length cs + 1))%nat with n by lia. by rewrite <- app_assoc.
      * rewrite E. assert (n = 0%nat) as -> by lia. done.
  - exists []. split; [apply holds_new|]. split; [done|]. split; [cbn; lia|]. done.
  - unfold NTOA_MAX. cbn [snd]. lia.
Qed.

Lemma ntoa_refines flags width precision base negative b cs s :
  holds b cs → 0 ≤ idx s < 2 ^ 64 → 0 ≤ width < 2 ^ 32 →
  let o := ntoa_spec flags width precision base negative cs in
  __ntoa b.1 b.2 flags width precision base negative s =
  Ok (Sink (out s ++ o) (u64 (idx s + Z.of_nat (length o)))).
Proof.
  intros H Hs Hw o. unfold __ntoa.
  assert (Hp : ∃ b' cs' width', ntoa_pad flags precision negative (b, width) = Ok (b', width') ∧
     holds b' cs' ∧ 0 ≤ width' < 2 ^ 32 ∧
     (if has flags FLAGS_LEFT then (cs, width) else
       let width := if negb (width =? 0) && has flags FLAGS_ZEROPAD &&
           (negative || has flags (Z.lor FLAGS_PLUS FLAGS_SPACE)) then width - 1 else width in
      (fill_spec (has flags FLAGS_ZEROPAD) width (fill_spec true precision cs), width))
     = (cs', width')).
  { unfold ntoa_pad. destruct (has flags FLAGS_LEFT).
    { exists b, cs, width. done. }
    set (w := if _ : bool then width - 1 else width).
    assert (0 ≤ w < 2 ^ 32).
    { subst w. destruct (Z.eqb_spec width 0); cbn [negb andb]; [lia|]. case_match; lia. }
    destruct (zero_fill_holds true precision b cs H) as (b1 & -> & H1). simpl_res.
    destruct (zero_fill_holds (has flags FLAGS_ZEROPAD) w b1 _ H1) as (b2 & -> & H2).
    simpl_res. eexists _, _, w. done. }
  destruct Hp as (b' & cs' & width' & E & H' & Hw' & Espec).
  destruct b as [buf len]. cbn [fst snd]. rewrite E. simpl_res.
  destruct (ntoa_hash_holds flags precision width' base b' cs' H') as (b2 & -> & H2). simpl_res.
  destruct (ntoa_sign_holds flags negative b2 _ H2) as (b3 & -> & H3). simpl_res.
  rewrite (print_reverse_holds _ _ _ _ _ H3 Hs Hw').
  subst o. unfold ntoa_spec. rewrite Espec. done.
Qed.

Lemma ntoa_long_refines value flags base width precision negative s :
  0 ≤ value → 2 ≤ base ≤ 36 → 0 ≤ idx s < 2 ^ 64 → 0 ≤ width < 2 ^ 32 →
  let o := ntoa_long_spec value flags base width precision negative in
  ntoa_long value flags base width precision negative s =
  Ok (Sink (out s ++ o) (u64 (idx s + Z.of_nat (length o)))).
Proof.
  intros Hv Hb Hs Hw o. unfold ntoa_long, o, ntoa_long_spec.
  set (fl := if value =? 0 then _ else _).
  destruct (negb (has fl FLAGS_PRECISION) || negb (value =? 0)).
  - destruct (digit_loop_holds fl base value) as (b & -> & H); [done..|]. simpl_res.
    by apply ntoa_refines.
  - simpl_res. apply (ntoa_refines fl width precision base negative (new_buffer, 0) []);
      auto using holds_new.
Qed.

Lemma char_digit_char flags d : 0 ≤ d < 36 → char_digit (digit_char flags d) = d.
Proof.
  intros Hd. unfold char_digit, digit_char.
  destruct (Z.ltb_spec d 10); [zbool; lia|].
  destruct (has flags FLAGS_UPPER); zbool; lia.
Qed.

Lemma numeral_snoc base cs c : numeral base (cs ++ [c]) = numeral base cs * base + char_digit c.
Proof. unfold numeral. by rewrite foldl_app. Qed.

(** Printed most significant digit first, the digits denote the value modulo
    [base ^ n]. *)
Lemma numeral_digits flags base n v :
  2 ≤ base ≤ 36 → 0 ≤ v →
  numeral base (rev (digits flags base n v)) = v mod base ^ Z.of_nat n.
Proof.
  intros Hb. revert v. induction n as [|n IH]; intros v Hv.
  - cbn. by rewrite Z.mod_1_r.
  - assert (Hd : 0 ≤ v mod base < 36) by (pose proof (Z.mod_pos_bound v base); lia).
    assert (Hp : 0 < base ^ Z.of_nat n) by (apply Z.pow_pos_nonneg; lia).
    assert (E : v mod base ^ Z.of_nat (S n) = v mod base + base * ((v / base) mod base ^ Z.of_nat n)).
    { rewrite Nat2Z.inj_succ, Z.pow_succ_r by lia.
      rewrite <- Z.rem_mul_r by lia. done. }
    cbn [digits rev]. rewrite numeral_snoc, char_digit_char, E by done.
    destruct (Z.eqb_spec (v / base) 0) as [->|].
    + rewrite Z.mod_0_l by lia. cbn. lia.
    + rewrite IH by (apply Z.div_pos; lia). lia.
Qed.

Lemma u8_s8 b : is_byte b → u8 (s8 b) = b.
Proof.
  intros Hb. unfold u8, s8, wrap, swrap, is_byte in *. rewrite (Z.mod_small b) by lia.
  zcase; [apply Z.mod_small; lia|]. symmetry. apply Z.mod_unique with (-1); lia.
Qed.

Lemma s8_small b : 0 ≤ b < 128 → s8 b = b.
Proof. intros. unfold s8. apply swrap_small; lia. Qed.

Lemma s8_eq_small b c : is_byte b → 0 ≤ c < 128 → s8 b = c ↔ b = c.
Proof.
  intros Hb Hc. split; [|intros ->; by apply s8_small].
  intros H. apply s8_inj; [done|int_lia|]. by rewrite H, s8_small.
Qed.

Lemma load_char_at m a b : m !! a = Some b → load_char m a = Ok (s8 b).
Proof. intros H. unfold load_char, load8. by rewrite H. Qed.

Lemma vprintf_round_end fuel m st :
  m !! fmt st = Some 0 → vprintf_round fuel m st = Ok (Done (snk st)).
Proof. intros H. unfold vprintf_round. by rewrite (load_char_at _ _ _ H). Qed.

Lemma vprintf_round_unmapped fuel m st :
  m !! fmt st = None → vprintf_round fuel m st = Err Undefined.
Proof. intros H. unfold vprintf_round, load_char, load8. by rewrite H. Qed.

Lemma vprintf_round_char fuel m st b :
  m !! fmt st = Some b → is_byte b → b ≠ 0 → b ≠ 0x25 →
  vprintf_round fuel m st =
  Ok (Next (PState (fmt st + 1) (va st) (flags st)
                   (Sink (out (snk st) ++ [b]) (u32 (idx (snk st) + 1))))).
Proof.
  intros H Hb H0 H25. unfold vprintf_round. rewrite (load_char_at _ _ _ H). simpl_res.
  rewrite (proj2 (Z.eqb_neq (s8 b) 0)) by (rewrite s8_eq_small; done || lia).
  rewrite (proj2 (Z.eqb_neq (s8 b) 0x25)) by (rewrite s8_eq_small; done || lia).
  unfold emit. by rewrite u8_s8.
Qed.

Lemma vprintf_round_percent fuel m st :
  m !! fmt st = Some 0x25 →
  vprintf_round fuel m st =
  (st ← conversion fuel m (PState (fmt st + 1) (va st) (flags st) (snk st)); Ok (Next st)).
Proof. intros H. unfold vprintf_round. by rewrite (load_char_at _ _ _ H). Qed.

(** A run of ordinary characters is copied to the output. *)
Lemma vprintf_plain fuel m k cs p args fl s :
  bytes_at m p cs → Forall (λ b, is_byte b ∧ b ≠ 0 ∧ b ≠ 0x25) cs → 0 ≤ idx s < 2 ^ 32 →
  iter (length cs + k) (vprintf_round fuel m) (PState p args fl s) =
  iter k (vprintf_round fuel m)
    (PState (p + Z.of_nat (length cs)) args fl
            (Sink (out s ++ cs) (u32 (idx s + Z.of_nat (length cs))))).
Proof.
  intros H Hcs. revert p s H. induction Hcs as [|b cs (Hb & Hn0 & Hn25) Hcs IH]; intros p s H Hs.
  - cbn [length Nat.add]. rewrite !Z.add_0_r, app_nil_r. unfold u32.
    rewrite wrap_small by done. by destruct s.
  - apply bytes_at_cons in H as [H0 H]. cbn [length Nat.add iter].
    rewrite (vprintf_round_char _ _ (PState p args fl s) b) by done. simpl_res.
    rewrite IH; [|done|cbn; apply wrap_range; lia]. cbn [out idx snk fmt va flags].
    rewrite <- app_assoc. cbn [app]. do 2 f_equal; [lia|].
    f_equal. unfold u32, wrap. rewrite Z.add_mod_idemp_l by lia. f_equal. lia.
Qed.

(** [at_char H]: load the character that [H] finds in memory. *)
Ltac at_char H :=
  rewrite ?(load_char_at _ _ _ H); simpl_res;
  repeat match goal with
  | |- context [s8 (Zpos ?c)] =>
      let v := eval vm_compute in (s8 (Zpos c)) in change (s8 (Zpos c)) with v
  end;
  cbn [Z.eqb Pos.eqb is_digit Z.leb Z.compare Pos.compare Pos.compare_cont andb orb negb].

(** No flag characters, width, precision or length modifier. *)
Lemma conversion_none fuel m st c :
  m !! fmt st = Some c → c ∈ [0x64; 0x75; 0; 0x78; 0x63; 0x73] →
  parse_flags (S fuel) m (flags st) (fmt st) = Ok (flags st, fmt st) ∧
  (∀ fl args, parse_width (S fuel) m fl (fmt st) args = Ok (0, fl, fmt st, args)) ∧
  (∀ fl args, parse_precision (S fuel) m fl (fmt st) args = Ok (0, fl, fmt st, args)) ∧
  (∀ fl, parse_length m fl (fmt st) = Ok (fl, fmt st)).
Proof.
  intros H Hc. unfold parse_flags, parse_width, parse_precision, parse_length. cbn [iter].
  rewrite !elem_of_cons, elem_of_nil in Hc.
  destruct Hc as [-> |[-> |[-> |[-> |[-> |[-> |[]]]]]]]; split_and!; intros; by at_char H.
Qed.

Lemma conversion_simple fuel m st c :
  m !! fmt st = Some c → c ∈ [0x64; 0x75; 0x78] →
  conversion (S fuel) m st =
  ('(fl, args, s) ← convert_int c (flags st) 0 0 (va st) (snk st);
   Ok (PState (fmt st + 1) args fl s)).
Proof.
  intros H Hc. destruct (conversion_none fuel m st c H) as (E1 & E2 & E3 & E4); [set_solver|].
  unfold conversion. rewrite E1. simpl_res. rewrite E2. simpl_res. rewrite E3. simpl_res.
  rewrite E4. simpl_res. rewrite !elem_of_cons, elem_of_nil in Hc.
  destruct Hc as [-> |[-> |[-> |[]]]]; by at_char H.
Qed.

(** A percent sign at the end of the format: the terminator is printed and
    the format pointer moves behind it. *)
Lemma conversion_end fuel m st :
  m !! fmt st = Some 0 →
  conversion (S fuel) m st =
  Ok (PState (fmt st + 1) (va st) (flags st) (emit 32 0 (snk st))).
Proof.
  intros H. destruct (conversion_none fuel m st 0 H) as (E1 & E2 & E3 & E4); [set_solver|].
  unfold conversion. rewrite E1. simpl_res. rewrite E2. simpl_res. rewrite E3. simpl_res.
  rewrite E4. simpl_res. by at_char H.
Qed.

(** The flag bits a conversion never clears. *)
Lemma sticky_lor k fl F : Z.testbit fl k = true → Z.testbit (Z.lor fl F) k = true.
Proof. intros H. by rewrite Z.lor_spec, H. Qed.

Lemma sticky_clear k fl F :
  Z.testbit F k = false → Z.testbit fl k = true → Z.testbit (clear fl F) k = true.
Proof. intros HF H. unfold clear. by rewrite Z.ldiff_spec, H, HF. Qed.

Section sticky.
(** The flags some conversion clears; [k] is any other bit. *)
Context (k : Z).
Context (Hk : Z.testbit (Z.lor (Z.lor FLAGS_ZEROPAD FLAGS_HASH)
                               (Z.lor FLAGS_PLUS FLAGS_SPACE)) k = false).

Lemma sticky_masks :
  Z.testbit FLAGS_ZEROPAD k = false ∧ Z.testbit FLAGS_HASH k = false ∧
  Z.testbit (Z.lor FLAGS_PLUS FLAGS_SPACE) k = false.
Proof using Hk. rewrite !Z.lor_spec, !orb_false_iff in *. tauto. Qed.

Lemma parse_flags_sticky fuel m fl p fl' p' :
  parse_flags fuel m fl p = Ok (fl', p') →
  Z.testbit fl k = true → Z.testbit fl' k = true.
Proof using Type.
  intros H Hb. unfold parse_flags in H.
  refine (iter_partial _ (λ '(fl, _), Z.testbit fl k = true)
            (λ '(fl, _), Z.testbit fl k = true) _ _ (fl, p) (fl', p') Hb H).
  clear. intros [fl p] c Hb Hc. inv_res Hc.
  repeat case_match; simplify_eq; auto using sticky_lor.
Qed.

Lemma parse_width_sticky fuel m fl p args w fl' p' args' :
  parse_width fuel m fl p args = Ok (w, fl', p', args') →
  Z.testbit fl k = true → Z.testbit fl' k = true.
Proof using Type.
  intros H Hb. unfold parse_width in H. inv_res H.
  repeat (case_match; simplify_eq; simpl_res); auto using sticky_lor;
    inv_res H; repeat (case_match; simplify_eq; simpl_res); auto using sticky_lor;
    inv_res H; auto using sticky_lor.
Qed.

Lemma parse_precision_sticky fuel m fl p args w fl' p' args' :
  parse_precision fuel m fl p args = Ok (w, fl', p', args') →
  Z.testbit fl k = true → Z.testbit fl' k = true.
Proof using Type.
  intros H Hb. unfold parse_precision in H. inv_res H.
  case_match; [|by simplify_eq]. inv_res H.
  repeat (case_match; simplify_eq; simpl_res); auto using sticky_lor;
    inv_res H; repeat (case_match; simplify_eq; simpl_res); auto using sticky_lor.
Qed.

Lemma parse_length_sticky m fl p fl' p' :
  parse_length m fl p = Ok (fl', p') →
  Z.testbit fl k = true → Z.testbit fl' k = true.
Proof using Type.
  intros H Hb. unfold parse_length in H. inv_res H.
  repeat (case_match; simplify_eq; simpl_res); auto using sticky_lor;
    inv_res H; repeat (case_match; simplify_eq; simpl_res); auto using sticky_lor.
Qed.

Lemma convert_int_sticky c fl w pr args s fl' args' s' :
  convert_int c fl w pr args s = Ok (fl', args', s') →
  Z.testbit fl k = true → Z.testbit fl' k = true.
Proof using Hk.
  intros H Hb. destruct sticky_masks as (Hz & Hh & Hps). unfold convert_int in H.
  destruct args as [|x args]; [done|]. cbn [va_arg] in H. simpl_res.
  match type of H with
  | mbind _ (if _ then _ else _) = _ => inv_res H
  end.
  repeat case_match; auto using sticky_lor, sticky_clear.
Qed.

Lemma conversion_sticky fuel m st st' :
  conversion fuel m st = Ok st' →
  Z.testbit (flags st) k = true → Z.testbit (flags st') k = true.
Proof using Hk.
  intros H Hb. unfold conversion in H.
  destruct (parse_flags _ _ _ _) as [[fl1 p1]|] eqn:E1; simpl_res; [|done].
  destruct (parse_width _ _ _ _ _) as [[[[w fl2] p2] a2]|] eqn:E2; simpl_res; [|done].
  destruct (parse_precision _ _ _ _ _) as [[[[pr fl3] p3] a3]|] eqn:E3; simpl_res; [|done].
  destruct (parse_length _ _ _) as [[fl4 p4]|] eqn:E4; simpl_res; [|done].
  assert (H4 : Z.testbit fl4 k = true)
    by eauto using parse_flags_sticky, parse_width_sticky, parse_precision_sticky,
         parse_length_sticky.
  destruct (load_char m p4) as [c|]; simpl_res; [|done].
  case_match.
  { destruct (convert_int _ _ _ _ _ _) as [[[fl5 a5] s5]|] eqn:E5; simpl_res; [|done].
    simplify_eq. cbn [flags]. eauto using convert_int_sticky. }
  case_match.
  { destruct (convert_char _ _ _ _) as [[a5 s5]|]; simpl_res; by simplify_eq. }
  case_match.
  { destruct (convert_string _ _ _ _ _ _ _) as [[a5 s5]|]; simpl_res; by simplify_eq. }
  case_match; [|case_match; by simplify_eq].
  unfold convert_pointer in H. destruct a3 as [|x a3]; [done|]. cbn [va_arg] in H. simpl_res.
  destruct (ntoa_long_long _ _ _ _ _ _ _) as [s5|]; simpl_res; [|done].
  simplify_eq. cbn [flags]. by apply sticky_lor.
Qed.
End sticky.

Lemma digits_short flags base n k v :
  2 ≤ base → 0 ≤ v < base ^ Z.of_nat (S k) → (length (digits flags base n v) ≤ S k)%nat.
Proof.
  intros Hb. revert k v. induction n as [|n IH]; intros k v Hv; cbn [digits length]; [lia|].
  destruct (Z.eqb_spec (v / base) 0) as [|Hn]; cbn [length]; [lia|].
  rewrite Nat2Z.inj_succ, Z.pow_succ_r in Hv by lia.
  destruct k as [|k]; [rewrite Z.div_small in Hn; lia|].
  enough (length (digits flags base n (v / base)) ≤ S k)%nat by lia.
  apply IH. split; [apply Z.div_pos; lia|]. apply Z.div_lt_upper_bound; lia.
Qed.

Lemma ntoa_long_spec_plain base value negative :
  base = 10 ∨ base = 16 → 0 ≤ value < 2 ^ 64 →
  ntoa_long_spec value 0 base 0 0 negative =
  (if negative then [0x2D] else []) ++ rev (digits 0 base (Z.to_nat NTOA_MAX) value).
Proof.
  intros Hbase Hv. unfold ntoa_long_spec.
  assert (E : (if value =? 0 then clear 0 FLAGS_HASH else 0) = 0) by (by case_match).
  rewrite E. change (negb (has 0 FLAGS_PRECISION)) with true. cbn [orb].
  unfold ntoa_spec. change (has 0 FLAGS_LEFT) with false.
  change (has 0 FLAGS_ZEROPAD) with false. cbn [negb Z.eqb andb].
  unfold hash_spec. change (has 0 FLAGS_HASH) with false. unfold fill_spec.
  set (ds := digits 0 base (Z.to_nat NTOA_MAX) value).
  assert (Hl : (length ds ≤ 20)%nat) by (destruct Hbase as [-> | ->]; apply digits_short; cbn; lia).
  replace (Z.to_nat (Z.min 0 NTOA_MAX - _)) with 0%nat by (unfold NTOA_MAX; lia).
  cbn [replicate]. rewrite !app_nil_r.
  unfold sign_spec. change (has 0 FLAGS_PLUS) with false.
  change (has 0 FLAGS_SPACE) with false. cbv iota.
  cbn [app]. destruct negative; [|done]. unfold room.
  rewrite (proj2 (Z.ltb_lt _ _)) by (unfold NTOA_MAX; lia). by rewrite rev_app_distr.
Qed.

Lemma has_0 F : has 0 F = false.
Proof. done. Qed.

(** A signed [int] argument with no flags prints in decimal. *)
Lemma convert_int_decimal v args s :
  - 2 ^ 31 < v < 2 ^ 31 → 0 ≤ idx s < 2 ^ 32 →
  let o := (if v <? 0 then [0x2D] else []) ++ rev (digits 0 10 (Z.to_nat NTOA_MAX) (Z.abs v)) in
  convert_int 0x64 0 0 0 (u64 v :: args) s =
  Ok (0, args, Sink (out s ++ o) (u32 (idx s + Z.of_nat (length o)))).
Proof.
  intros Hv Hs o. unfold convert_int. cbn [Z.eqb Pos.eqb orb va_arg]. simpl_res. cbv zeta.
  change (clear 0 FLAGS_HASH) with 0. rewrite !has_0.
  assert (E : s32 (u64 v) = v) by (unfold s32, u64; rewrite swrap_wrap, swrap_small; lia). rewrite E.
  assert (Em : magnitude 32 v = Ok (Z.abs v)).
  { unfold magnitude. destruct (Z.ltb_spec 0 v); [f_equal; lia|].
    rewrite (proj2 (Z.eqb_neq _ _)) by lia. f_equal. lia. }
  rewrite Em. simpl_res. unfold u64 at 1. rewrite wrap_small by lia.
  rewrite ntoa_long_refines by lia. simpl_res. cbn [out idx].
  rewrite ntoa_long_spec_plain by lia. fold o. do 3 f_equal.
  unfold u32, u64, wrap. apply Z.mod_mod_divide. by exists (2 ^ 32).
Qed.

(** *** Formats made of pieces *)

(** A run of text, or one of the conversions [%d], [%u], [%x], [%c] and [%s]
    with its argument; [Str] has the address and the bytes of its string. *)
Inductive piece :=
| Text (cs : list Z)
| Dec (v : Z)
| Uns (v : Z)
| Hex (v : Z)
| Chr (c : Z)
| Str (p : Z) (bs : list Z).

(** The numeral without leading zeros, [0] for zero. *)
Definition numeral_of (base v : Z) : list Z := rev (digits 0 base (Z.to_nat NTOA_MAX) v).

Definition piece_format (x : piece) : list Z :=
  match x with
  | Text cs => cs
  | Dec _ => [0x25; 0x64] | Uns _ => [0x25; 0x75] | Hex _ => [0x25; 0x78]
  | Chr _ => [0x25; 0x63] | Str _ _ => [0x25; 0x73]
  end.

Definition piece_args (x : piece) : list Z :=
  match x with
  | Text _ => []
  | Dec v => [u64 v]
  | Uns v | Hex v => [v]
  | Chr c => [c]
  | Str p _ => [p]
  end.

Definition piece_shown (x : piece) : list Z :=
  match x with
  | Text cs => cs
  | Dec v => (if v <? 0 then [0x2D] else []) ++ numeral_of 10 (Z.abs v)
  | Uns v => numeral_of 10 v
  | Hex v => numeral_of 16 v
  | Chr c => [c]
  | Str _ bs => bs
  end.

Definition piece_ok (fuel : nat) (m : mem) (x : piece) : Prop :=
  match x with
  | Text cs => Forall (λ b, is_byte b ∧ b ≠ 0 ∧ b ≠ 0x25) cs
  | Dec v => - 2 ^ 31 < v < 2 ^ 31
  | Uns v | Hex v => 0 ≤ v < 2 ^ 32
  | Chr c => is_byte c
  | Str p bs => cstring_at m p bs ∧ Forall is_byte bs ∧ (length bs < fuel)%nat ∧ Z.of_nat (length bs) < 2 ^ 32
  end.

(** The rounds of the loop of [vprintf]. *)
Definition piece_rounds (x : piece) : nat := if x is Text cs then length cs else 1.

Lemma numeral_numeral_of base v : base = 10 ∨ base = 16 → 0 ≤ v < 2 ^ 64 → numeral base (numeral_of base v) = v.
Proof.
  intros Hb Hv. unfold numeral_of. rewrite numeral_digits by (destruct Hb as [-> | ->]; lia).
  change (Z.of_nat (Z.to_nat NTOA_MAX)) with 48. apply Z.mod_small. destruct Hb as [-> | ->]; lia.
Qed.

Lemma convert_int_unsigned c v args s :
  c = 0x75 ∨ c = 0x78 → 0 ≤ v < 2 ^ 32 → 0 ≤ idx s < 2 ^ 32 →
  let o := numeral_of (if c =? 0x78 then 16 else 10) v in
  convert_int c 0 0 0 (v :: args) s = Ok (0, args, Sink (out s ++ o) (u32 (idx s + Z.of_nat (length o)))).
Proof.
  intros Hc Hv Hs o.
  assert (E : u32 v = v) by (apply wrap_small; lia).
  assert (Eo : ∀ base, base = 10 ∨ base = 16 → ntoa_long_spec v 0 base 0 0 false = numeral_of base v).
  { intros base Hb. by rewrite ntoa_long_spec_plain by (done || lia). }
  unfold convert_int. destruct Hc as [-> | ->]; cbn [Z.eqb Pos.eqb orb va_arg] in *; simpl_res; cbv zeta;
    change (clear 0 FLAGS_HASH) with 0; change (clear 0 (Z.lor FLAGS_PLUS FLAGS_SPACE)) with 0; rewrite !has_0, E;
    rewrite ntoa_long_refines by lia; simpl_res; cbn [out idx]; rewrite Eo by auto; fold o; do 3 f_equal;
    unfold u32, u64, wrap; apply Z.mod_mod_divide; by exists (2 ^ 32).
Qed.

Lemma pad_to_none l s : 0 ≤ l → pad_to l 0 s = Ok (u32 (l + 1), s).
Proof.
  intros Hl. unfold pad_to. cbn [iter]. by rewrite (proj2 (Z.ltb_ge _ _)) by lia.
Qed.

(** The loop of [%s]. *)
Lemma string_loop m bs p s k :
  cstring_at m p bs → Forall is_byte bs → 0 ≤ idx s < 2 ^ 32 →
  iter (length bs + S k) (λ '(p, precision, s),
    c ← load_char m p;
    if c =? 0 then Ok (Done s)
    else if has 0 FLAGS_PRECISION then
      if precision =? 0 then Ok (Done s)
      else Ok (Next (p + 1, u32 (precision - 1), emit 32 c s))
    else Ok (Next (p + 1, precision, emit 32 c s))) (p, 0, s) =
  Ok (Sink (out s ++ bs) (u32 (idx s + Z.of_nat (length bs)))).
Proof.
  intros [H Hnz] Hb Hs. revert p s H Hs.
  induction Hb as [|b bs Hb Hbs IH]; intros p s H Hs; cbn [length Nat.add app iter] in *.
  - apply bytes_at_cons in H as [H _]. rewrite (load_char_at _ _ _ H). simpl_res.
    change (s8 0 =? 0) with true. cbv iota. simpl_res. rewrite app_nil_r, Z.add_0_r. unfold u32.
    rewrite wrap_small by done. by destruct s.
  - apply Forall_cons in Hnz as [Hn Hnz]. apply bytes_at_cons in H as [H0 H].
    rewrite (load_char_at _ _ _ H0). simpl_res. rewrite (proj2 (Z.eqb_neq (s8 b) 0)) by (rewrite s8_eq_small; done || lia).
    rewrite has_0. simpl_res. rewrite IH; [|done|done|cbn; apply wrap_range; lia]. unfold emit. cbn [out idx].
    rewrite u8_s8, <- app_assoc by done. cbn [app]. do 2 f_equal. unfold u32, wrap. rewrite Z.add_mod_idemp_l by lia.
    f_equal. lia.
Qed.

Lemma convert_string_plain fuel m p bs args s :
  cstring_at m p bs → Forall is_byte bs → (length bs < fuel)%nat → Z.of_nat (length bs) < 2 ^ 32 →
  0 ≤ idx s < 2 ^ 32 →
  convert_string fuel m 0 0 0 (p :: args) s = Ok (args, Sink (out s ++ bs) (u32 (idx s + Z.of_nat (length bs)))).
Proof.
  intros Hc Hb Hf Hl Hs. unfold convert_string. cbn [va_arg]. simpl_res.
  rewrite (strlen_cstring fuel m p bs) by done. simpl_res. rewrite !(has_0 FLAGS_LEFT), has_0.
  assert (u32 (Z.of_nat (length bs)) = Z.of_nat (length bs)) as -> by (apply wrap_small; lia).
  rewrite pad_to_none by lia. simpl_res.
  replace fuel with (length bs + S (fuel - S (length bs)))%nat by lia.
  pose proof (string_loop m bs p s (fuel - S (length bs)) Hc Hb Hs) as E. rewrite has_0 in E. rewrite E. by simpl_res.
Qed.

Lemma convert_char_plain c args s :
  is_byte c → 0 ≤ idx s < 2 ^ 32 → convert_char 0 0 (c :: args) s = Ok (args, Sink (out s ++ [c]) (u32 (idx s + 1))).
Proof.
  intros Hc Hs. unfold convert_char. rewrite !has_0, pad_to_none by lia. simpl_res. cbn [va_arg]. simpl_res.
  unfold emit. by rewrite u8_s8.
Qed.

(** A conversion character with no flags: what follows the parsing. *)
Lemma conversion_char fuel m p c args s :
  m !! p = Some c → c = 0x63 ∨ c = 0x73 →
  conversion (S fuel) m (PState p args 0 s) =
  (if c =? 0x63 then '(va, s) ← convert_char 0 0 args s; Ok (PState (p + 1) va 0 s)
   else '(va, s) ← convert_string (S fuel) m 0 0 0 args s; Ok (PState (p + 1) va 0 s)).
Proof.
  intros H Hc. destruct (conversion_none fuel m (PState p args 0 s) c H) as (E1 & E2 & E3 & E4).
  { destruct Hc as [-> | ->]; rewrite !elem_of_cons; tauto. }
  cbn [flags fmt] in E1, E2, E3, E4. unfold conversion. cbn [flags fmt va snk].
  rewrite E1. simpl_res. rewrite E2. simpl_res. rewrite E3. simpl_res.
  rewrite E4. simpl_res. destruct Hc as [-> | ->]; by at_char H.
Qed.

(** What one piece does to the state of the loop. *)
Lemma vprintf_piece fuel m x k p args s :
  piece_ok (S fuel) m x → bytes_at m p (piece_format x) → 0 ≤ idx s < 2 ^ 32 →
  iter (piece_rounds x + k) (vprintf_round (S fuel) m) (PState p (piece_args x ++ args) 0 s) =
  iter k (vprintf_round (S fuel) m)
    (PState (p + Z.of_nat (length (piece_format x))) args 0
       (Sink (out s ++ piece_shown x) (u32 (idx s + Z.of_nat (length (piece_shown x)))))).
Proof.
  intros Hok Hb Hs.
  destruct x as [cs|v|v|v|c|q bs]; cbn [piece_rounds piece_format piece_args app Nat.add iter] in *;
    [by apply vprintf_plain|..].
  all: apply bytes_at_cons in Hb as [H0 Hb]; apply bytes_at_cons in Hb as [H1 _];
    rewrite vprintf_round_percent by done; cbn [fmt va flags snk].
  - rewrite (conversion_simple _ _ _ 0x64) by (done || by left). cbn [fmt va flags snk].
    rewrite convert_int_decimal by done. simpl_res. by rewrite <- Z.add_assoc.
  - rewrite (conversion_simple _ _ _ 0x75) by (done || (right; by left)). cbn [fmt va flags snk].
    rewrite convert_int_unsigned by (auto; done). simpl_res. by rewrite <- Z.add_assoc.
  - rewrite (conversion_simple _ _ _ 0x78) by (done || (right; right; by left)). cbn [fmt va flags snk].
    rewrite convert_int_unsigned by (auto; done). simpl_res. by rewrite <- Z.add_assoc.
  - rewrite (conversion_char _ _ _ 0x63) by auto. cbn [Z.eqb Pos.eqb].
    rewrite convert_char_plain by done. simpl_res. by rewrite <- Z.add_assoc.
  - rewrite (conversion_char _ _ _ 0x73) by auto. cbn [Z.eqb Pos.eqb]. destruct Hok as (Hc & Hby & Hl & Hn).
    rewrite (convert_string_plain _ m q bs) by done. simpl_res. by rewrite <- Z.add_assoc.
Qed.

Lemma vprintf_piece_list fuel m xs k p args s :
  Forall (piece_ok (S fuel) m) xs → bytes_at m p (concat (map piece_format xs)) → 0 ≤ idx s < 2 ^ 32 →
  iter (sum_list (map piece_rounds xs) + k) (vprintf_round (S fuel) m) (PState p (concat (map piece_args xs) ++ args) 0 s) =
  iter k (vprintf_round (S fuel) m)
    (PState (p + Z.of_nat (length (concat (map piece_format xs)))) args 0
       (Sink (out s ++ concat (map piece_shown xs)) (u32 (idx s + Z.of_nat (length (concat (map piece_shown xs))))))).
Proof.
  intros Hok. revert p s. induction Hok as [|x xs Hx _ IH]; intros p s Hb Hs; cbn [map concat sum_list_with id Nat.add app length] in *.
  - rewrite !Z.add_0_r, app_nil_r. unfold u32. rewrite wrap_small by done. by destruct s.
  - apply bytes_at_app in Hb as [Hb Hb']. rewrite <- Nat.add_assoc, <- app_assoc, vprintf_piece by done.
    rewrite IH; [|done|cbn; apply wrap_range; lia]. cbn [out idx]. rewrite <- app_assoc, !length_app. do 2 f_equal.
    + lia.
    + f_equal. unfold u32, wrap. rewrite Z.add_mod_idemp_l by lia. f_equal. lia.
Qed.

Lemma vprintf_pieces_shown fuel m p xs args :
  Forall (piece_ok (S fuel) m) xs → bytes_at m p (concat (map piece_format xs) ++ [0]) →
  (sum_list (map piece_rounds xs) ≤ fuel)%nat →
  vprintf (S fuel) m p (concat (map piece_args xs) ++ args) =
  Ok (concat (map piece_shown xs), s32 (Z.of_nat (length (concat (map piece_shown xs))))).
Proof.
  intros Hok Hb Hf. apply bytes_at_app in Hb as [Hb H0]. apply bytes_at_cons in H0 as [H0 _]. unfold vprintf.
  replace (S fuel) with (sum_list (map piece_rounds xs) + S (fuel - sum_list (map piece_rounds xs)))%nat at 1 by lia.
  rewrite vprintf_piece_list by (done || (cbn; lia)). cbn [iter]. rewrite vprintf_round_end by done. simpl_res.
  cbn [out idx snk app]. unfold s32, u32. by rewrite swrap_wrap.
Qed.

(** ** Properties *)

(** C37: number formatting refines its specification on lists, for every value,
    base, flag set, width and precision: the conversion terminates, never
    leaves the 48-cell digit buffer nor reads a cell it has not written, and
    prints exactly the specified characters, counting each of them. *)
Theorem ntoa_long_correct (value flags base width precision : Z) (negative : bool) (s : sink) :
  0 ≤ value < 2 ^ 64 → 2 ≤ base ≤ 16 → 0 ≤ width < 2 ^ 32 → 0 ≤ idx s < 2 ^ 64 →
  let o := ntoa_long_spec value flags base width precision negative in
  ntoa_long value flags base width precision negative s =
  Ok (Sink (out s ++ o) (u64 (idx s + Z.of_nat (length o)))).
Proof. intros. apply ntoa_long_refines; lia. Qed.

Lemma ntoa_long_correct_witness :
  ntoa_long 255 FLAGS_HASH 16 8 0 false (Sink [] 0) =
  Ok (Sink [32; 32; 32; 32; 0x30; 0x78; 0x66; 0x66] 8).
Proof. apply (ntoa_long_correct 255 FLAGS_HASH 16 8 0 false (Sink [] 0)); cbn; lia. Defined.

(** With no flags, a number prints as spaces up to the field width followed
    by its digits, and the digits read back as the value modulo [base ^ 48]
    (so exactly the value in bases 8, 10 and 16; base 2 keeps the low 48 bits). *)
Lemma ntoa_long_numeral (value base width : Z) (s : sink) :
  0 ≤ value < 2 ^ 64 → 2 ≤ base ≤ 16 → 0 ≤ width < 2 ^ 32 → 0 ≤ idx s < 2 ^ 64 →
  ∃ ds i, ntoa_long value 0 base width 0 false s =
    Ok (Sink (out s ++ replicate (Z.to_nat (width - Z.of_nat (length ds))) 0x20 ++ ds) i) ∧
    numeral base ds = value mod base ^ 48 ∧ (3 ≤ base → numeral base ds = value).
Proof.
  intros Hv Hb Hw Hs. rewrite ntoa_long_refines by lia.
  set (ds := rev (digits 0 base (Z.to_nat NTOA_MAX) value)).
  assert (Hn : numeral base ds = value mod base ^ 48) by (apply numeral_digits; lia).
  exists ds. eexists. split; [|split; [done|]].
  - do 3 f_equal. unfold ntoa_long_spec.
    assert (E : (if value =? 0 then clear 0 FLAGS_HASH else 0) = 0) by (by case_match).
    rewrite E, !has_0. cbn [negb orb]. unfold ntoa_spec, sign_spec, hash_spec, fill_spec.
    rewrite !has_0, andb_false_r. cbn [andb].
    replace (Z.to_nat (Z.min 0 NTOA_MAX - _)) with 0%nat by (unfold NTOA_MAX; lia).
    cbn [replicate]. rewrite !app_nil_r. subst ds. by rewrite length_rev.
  - intros H3. rewrite Hn. apply Z.mod_small.
    pose proof (Z.pow_le_mono_l 3 base 48). lia.
Qed.

(** A format string without a percent sign is printed verbatim, the
    arguments are not touched, and the returned count is its length. *)
Lemma vprintf_verbatim (fuel : nat) (m : mem) (p : Z) (cs args : list Z) :
  cstring_at m p cs → Forall (λ b, is_byte b ∧ b ≠ 0x25) cs →
  (length cs < fuel)%nat → Z.of_nat (length cs) < 2 ^ 31 →
  vprintf fuel m p args = Ok (cs, Z.of_nat (length cs)).
Proof.
  intros [H Hnz] Hcs Hf Hl. apply bytes_at_app in H as [H H0].
  apply bytes_at_cons in H0 as [H0 _]. unfold vprintf.
  replace fuel with (length cs + S (fuel - S (length cs)))%nat at 1 by lia.
  rewrite vprintf_plain; [|done| |cbn; lia].
  2:{ apply Forall_forall. intros b Hb. rewrite Forall_forall in Hcs, Hnz.
      destruct (Hcs b Hb). specialize (Hnz b Hb). done. }
  cbn [iter]. rewrite vprintf_round_end by done. simpl_res. cbn [out idx snk app].
  unfold u32, s32. rewrite (wrap_small 32), swrap_small by lia. done.
Qed.

(** [printf] of a format [text%d] prints the text and then the sign and
    the decimal numeral of the argument, for every [int] but [INT_MIN]: the
    printed digits read back as the absolute value. *)
Lemma vprintf_decimal (fuel : nat) (m : mem) (p v : Z) (cs args : list Z) :
  cstring_at m p (cs ++ [0x25; 0x64]) → Forall (λ b, is_byte b ∧ b ≠ 0x25) cs →
  (length cs + 2 < fuel)%nat → Z.of_nat (length cs) < 2 ^ 16 → - 2 ^ 31 < v < 2 ^ 31 →
  ∃ ds n, vprintf fuel m p (u64 v :: args) = Ok (cs ++ (if v <? 0 then [0x2D] else []) ++ ds, n) ∧
          numeral 10 ds = Z.abs v.
Proof.
  intros [H Hnz] Hcs Hf Hl Hv. rewrite <- app_assoc in H. cbn [app] in H.
  apply bytes_at_app in H as [H H0].
  apply bytes_at_cons in H0 as [H0 H1]. apply bytes_at_cons in H1 as [H1 H2].
  apply bytes_at_cons in H2 as [H2 _]. unfold vprintf.
  apply Forall_app in Hnz as [Hnz _].
  set (ds := rev (digits 0 10 (Z.to_nat NTOA_MAX) (Z.abs v))).
  exists ds. eexists. split; [|unfold ds; rewrite numeral_digits by lia;
    change (Z.of_nat (Z.to_nat NTOA_MAX)) with 48; apply Z.mod_small; lia].
  replace fuel with (length cs + S (S (fuel - S (S (length cs)))))%nat at 1 by lia.
  rewrite vprintf_plain; [|done| |cbn; lia].
  2:{ apply Forall_forall. intros b Hb. rewrite Forall_forall in Hcs, Hnz.
      destruct (Hcs b Hb). specialize (Hnz b Hb). done. }
  set (q := p + Z.of_nat (length cs)) in *. cbn [app out idx].
  destruct fuel as [|fuel]; [lia|]. cbn [iter].
  rewrite vprintf_round_percent by done. cbn [fmt va flags snk].
  rewrite (conversion_simple _ _ _ 0x64) by (done || by left). cbn [fmt va flags snk].
  rewrite convert_int_decimal by (done || (cbn; apply wrap_range; lia)). simpl_res.
  cbn [iter]. rewrite vprintf_round_end by (cbn [fmt]; done).
  simpl_res. cbn [out idx snk]. done.
Qed.

(** C38: [printf] of a format made of text and the conversions [%d], [%u], [%x],
    [%c] and [%s] without flags ends, and prints the concatenation of what the
    pieces stand for: the text, the sign and the numeral of every [int] but
    [INT_MIN], the numerals of unsigned integers, the character, the string; it
    returns the number of printed characters.  The numerals read back as the
    value. *)
Theorem vprintf_pieces (fuel : nat) (m : mem) (p : Z) (xs : list piece) (args : list Z) :
  Forall (piece_ok fuel m) xs → bytes_at m p (concat (map piece_format xs) ++ [0]) →
  (sum_list (map piece_rounds xs) < fuel)%nat →
  vprintf fuel m p (concat (map piece_args xs) ++ args) =
    Ok (concat (map piece_shown xs), s32 (Z.of_nat (length (concat (map piece_shown xs))))) ∧
  ∀ base v, base = 10 ∨ base = 16 → 0 ≤ v < 2 ^ 64 → numeral base (numeral_of base v) = v.
Proof.
  intros Hok Hb Hf. split; [|by apply numeral_numeral_of]. destruct fuel as [|fuel]; [lia|].
  apply vprintf_pieces_shown; [done..|lia].
Qed.

(** [x=%d %s], of -42 and the string "ab" at 200. *)
Lemma vprintf_pieces_witness :
  vprintf 9 (write_bytes (write_bytes ∅ 200 [97; 98; 0]) 100 [120; 61; 0x25; 0x64; 32; 0x25; 0x73; 0]) 100
    [u64 (-42); 200] = Ok ([120; 61; 45; 52; 50; 32; 97; 98], 8).
Proof.
  destruct (vprintf_pieces 9 (write_bytes (write_bytes ∅ 200 [97; 98; 0]) 100 [120; 61; 0x25; 0x64; 32; 0x25; 0x73; 0]) 100
    [Text [120; 61]; Dec (-42); Text [32]; Str 200 [97; 98]] []) as [E _].
  - constructor; [|constructor; [|constructor; [|constructor; [|constructor]]]].
    + repeat (apply Forall_cons_2; [unfold is_byte; lia|]). apply Forall_nil_2.
    + cbn. lia.
    + repeat (apply Forall_cons_2; [unfold is_byte; lia|]). apply Forall_nil_2.
    + cbn [piece_ok length]. destruct (cstring_at_decide (write_bytes (write_bytes ∅ 200 [97; 98; 0]) 100
        [120; 61; 0x25; 0x64; 32; 0x25; 0x73; 0]) 200 3 [97; 98]) as [H1 H2]; [by vm_compute|by vm_compute|].
      split_and!; [done|done|lia|lia].
  - apply write_bytes_at.
  - cbn. lia.
  - exact E.
Defined.

(** Within one call, no conversion ever resets a flag bit other than
    ZEROPAD, HASH, PLUS and SPACE: left-justification, the precision bit and
    every length modifier set by one conversion are in force in all the later
    ones. *)
Lemma vprintf_flags_sticky (fuel : nat) (m : mem) (st st' : pstate) (k : Z) :
  Z.testbit (Z.lor (Z.lor FLAGS_ZEROPAD FLAGS_HASH) (Z.lor FLAGS_PLUS FLAGS_SPACE)) k = false →
  rtc (λ st st', vprintf_round fuel m st = Ok (Next st')) st st' →
  Z.testbit (flags st) k = true → Z.testbit (flags st') k = true.
Proof.
  intros Hk. induction 1 as [|st st1 st' Hr _ IH]; [done|]. intros Hb. apply IH.
  unfold vprintf_round in Hr. destruct (load_char _ _) as [c|]; simpl_res; [|done].
  case_match; [done|]. case_match; [by simplify_eq|].
  destruct (conversion _ _ _) as [st2|] eqn:E; simpl_res; [|done]. simplify_eq.
  by apply (conversion_sticky k Hk) in E.
Qed.

(** A format that ends in a single percent sign makes [vprintf] print the
    NUL terminator and read the byte behind it: undefined when that byte is
    outside the string's object. *)
Lemma vprintf_trailing_percent (fuel : nat) (m : mem) (p : Z) (cs args : list Z) :
  cstring_at m p (cs ++ [0x25]) → Forall (λ b, is_byte b ∧ b ≠ 0x25) cs →
  m !! (p + Z.of_nat (length cs) + 2) = None → (length cs + 1 < fuel)%nat →
  vprintf fuel m p args = Err Undefined.
Proof.
  intros [H Hnz] Hcs Hend Hf. rewrite <- app_assoc in H. cbn [app] in H.
  apply bytes_at_app in H as [H H0].
  apply bytes_at_cons in H0 as [H0 H1]. apply bytes_at_cons in H1 as [H1 _].
  apply Forall_app in Hnz as [Hnz _]. unfold vprintf.
  replace fuel with (length cs + S (S (fuel - S (S (length cs)))))%nat at 1 by lia.
  rewrite vprintf_plain; [|done| |cbn; lia].
  2:{ apply Forall_forall. intros b Hb. rewrite Forall_forall in Hcs, Hnz.
      destruct (Hcs b Hb). specialize (Hnz b Hb). done. }
  destruct fuel as [|fuel]; [lia|]. cbn [iter].
  rewrite vprintf_round_percent by done. cbn [fmt va flags snk].
  rewrite conversion_end by done. simpl_res. cbn [iter fmt].
  rewrite vprintf_round_unmapped; [done|]. cbn [fmt]. rewrite <- Hend. f_equal. lia.
Qed.

