(* ===== verification/Probing.v ===== *)
(** * Linear probing, abstractly

    A table is a list of optional bindings; a key is looked for from its hash
    upwards, wrapping around, until it or an empty slot is met.  [tab_ok] is
    the invariant that makes this search complete.  The hash map of
    lethe-utils/hashmap.c is proved against this theory in HashMap.v. *)
From S2P Require Import Prelude.

(** ** Definitions *)

Section probing.
Context {K : Type} `{Countable K} (hash : K → Z).

Abbreviation table := (list (option (K * Z))).
Implicit Types (T : table) (k : K) (v : Z).

(** The slot [i] steps from the start, cyclically. *)
Definition slot (T : table) (i : Z) : option (K * Z) :=
  mjoin (T !! Z.to_nat (i mod Z.of_nat (length T))).

(** Every binding is met from its hash before any empty slot, and no key is
    bound twice. *)
Record tab_ok (T : table) : Prop := TabOk {
  tab_path : ∀ i k v, T !! i = Some (Some (k, v)) →
    ∃ d, 0 ≤ d < Z.of_nat (length T) ∧
         Z.of_nat i = (hash k + d) mod Z.of_nat (length T) ∧
         ∀ d', 0 ≤ d' < d → is_Some (slot T (hash k + d'));
  tab_uniq : ∀ i j k v w, T !! i = Some (Some (k, v)) → T !! j = Some (Some (k, w)) → i = j
}.

(** The search for [k] stops at slot [i]. *)
Definition stops (T : table) (k : K) (i : Z) : bool :=
  match slot T i with
  | None => true
  | Some (k', _) => bool_decide (k = k')
  end.

(** [d] is the number of steps the search for [k] takes. *)
Definition first_stop (T : table) (k : K) (d : Z) : Prop :=
  0 ≤ d < Z.of_nat (length T) ∧ stops T k (hash k + d) = true ∧
  ∀ d', 0 ≤ d' < d → stops T k (hash k + d') = false.

Definition tab_map (T : table) : gmap K Z := list_to_map (omap id T).

(** ** Lemmas *)

Lemma slot_index T i : 0 < Z.of_nat (length T) →
  (Z.to_nat (i mod Z.of_nat (length T)) < length T)%nat.
Proof. intros. pose proof (Z.mod_pos_bound i (Z.of_nat (length T))). lia. Qed.

Lemma slot_lookup T i o :
  0 < Z.of_nat (length T) →
  slot T i = o ↔ T !! Z.to_nat (i mod Z.of_nat (length T)) = Some o.
Proof.
  intros Hl. unfold slot. destruct (lookup_lt_is_Some_2 T _ (slot_index T i Hl)) as [o' E].
  rewrite E. cbn. split; congruence.
Qed.

Lemma slot_at T i o :
  T !! Z.to_nat (i mod Z.of_nat (length T)) = Some o → slot T i = o.
Proof. intros E. unfold slot. by rewrite E. Qed.

Lemma slot_mod T i : slot T (i mod Z.of_nat (length T)) = slot T i.
Proof.
  unfold slot. destruct (decide (Z.of_nat (length T) = 0)) as [E|].
  - by rewrite (nil_length_inv T) by lia.
  - by rewrite Z.mod_mod.
Qed.

(** The least stopping distance exists as soon as some slot is empty. *)
Lemma least_bool (f : Z → bool) (n : nat) (d : Z) :
  0 ≤ d < Z.of_nat n → f d = true →
  ∃ d, 0 ≤ d < Z.of_nat n ∧ f d = true ∧ ∀ d', 0 ≤ d' < d → f d' = false.
Proof.
  intros Hd. revert d Hd. induction n as [|n IH]; intros d Hd Hf; [lia|].
  destruct (decide (d = Z.of_nat n)) as [->|].
  - destruct (decide (Exists (λ i, f (Z.of_nat i) = true) (seq 0 n))) as [He|Hn].
    + apply Exists_exists in He as (i & Hi%elem_of_seq & Hfi).
      destruct (IH (Z.of_nat i)) as (d & ? & ? & ?); [lia|done|]. exists d. split_and!; [lia..|done|done].
    + exists (Z.of_nat n). split_and!; [lia..|done|]. intros d' Hd'.
      destruct (f d') eqn:E; [|done]. exfalso. apply Hn, Exists_exists.
      exists (Z.to_nat d'). rewrite Z2Nat.id by lia. split; [apply elem_of_seq; lia|done].
  - destruct (IH d) as (d0 & ? & ? & ?); [lia|done|]. exists d0. split_and!; [lia..|done|done].
Qed.

Lemma dist_mod n h i : 0 < n → 0 ≤ i < n → ∃ d, 0 ≤ d < n ∧ (h + d) mod n = i.
Proof.
  intros Hn Hi. exists ((i - h) mod n). split; [apply Z.mod_pos_bound; lia|].
  rewrite Z.add_mod_idemp_r by lia. replace (h + (i - h)) with i by lia. by apply Z.mod_small.
Qed.

Lemma first_stop_ex T k i :
  T !! i = Some None → ∃ d, first_stop T k d.
Proof.
  intros Hi. apply lookup_lt_Some in Hi as Hl.
  destruct (dist_mod (Z.of_nat (length T)) (hash k) (Z.of_nat i)) as (d & Hd & E); [lia..|].
  destruct (least_bool (λ d, stops T k (hash k + d)) (length T) d) as (d0 & ? & ? & ?);
    [done| |by exists d0].
  unfold stops. rewrite (slot_at T _ None); [done|]. by rewrite E, Nat2Z.id.
Qed.

(** A search that stops has found the key, or the key is absent. *)
Lemma first_stop_present T k d i v :
  tab_ok T → first_stop T k d → T !! i = Some (Some (k, v)) →
  Z.of_nat i = (hash k + d) mod Z.of_nat (length T).
Proof.
  intros HT (Hd & Hs & Hmin) Hi. destruct (tab_path T HT i k v Hi) as (d0 & Hd0 & Ei & Hocc).
  destruct (decide (d0 < d)) as [Hlt|Hge].
  { assert (Hf : stops T k (hash k + d0) = false) by (apply Hmin; lia).
    unfold stops in Hf. rewrite (slot_at T _ (Some (k, v))) in Hf.
    - by rewrite bool_decide_true in Hf.
    - by rewrite <- Ei, Nat2Z.id. }
  destruct (decide (d = d0)) as [->|]; [done|].
  destruct (Hocc d) as [[k' w] Hk]; [lia|].
  unfold stops in Hs. rewrite Hk in Hs. apply bool_decide_eq_true in Hs as <-.
  apply slot_lookup in Hk; [|lia].
  pose proof (tab_uniq T HT _ _ _ _ _ Hi Hk) as ->.
  rewrite Z2Nat.id; [done|]. apply Z.mod_pos_bound. lia.
Qed.

Lemma first_stop_slot T k d :
  tab_ok T → first_stop T k d →
  (slot T (hash k + d) = None ∧ ∀ i v, T !! i ≠ Some (Some (k, v))) ∨
  (∃ v, slot T (hash k + d) = Some (k, v)).
Proof.
  intros HT Hf. pose proof Hf as (Hd & Hs & Hmin). unfold stops in Hs.
  destruct (slot T (hash k + d)) as [[k' v]|] eqn:E.
  - apply bool_decide_eq_true in Hs as <-. eauto.
  - left. split; [done|]. intros i v Hi.
    pose proof (first_stop_present T k d i v HT Hf Hi) as Ei.
    apply slot_lookup in E; [|lia]. rewrite <- Ei, Nat2Z.id in E. congruence.
Qed.

Lemma omap_id_elem (T : table) kv : kv ∈ omap id T ↔ ∃ i, T !! i = Some (Some kv).
Proof.
  rewrite list_elem_of_omap. split.
  - intros (o & Ho & E). cbn in E. subst o. by apply list_elem_of_lookup.
  - intros [i Hi]. exists (Some kv). split; [|done]. by apply list_elem_of_lookup_2 in Hi.
Qed.

Lemma tab_ok_nodup T :
  (∀ i j k v w, T !! i = Some (Some (k, v)) → T !! j = Some (Some (k, w)) → i = j) →
  NoDup (omap id T).*1.
Proof.
  induction T as [|o T IH]; intros Hu; cbn; [constructor|].
  assert (NoDup (omap id T).*1) as Hnd.
  { apply IH. intros i j k v w Hi Hj. cut (S i = S j); [lia|]. by eapply (Hu (S i) (S j)). }
  destruct o as [[k v]|]; cbn; [|done]. constructor; [|done].
  intros ([k' w] & -> & Hkw)%list_elem_of_fmap. cbn in *.
  apply omap_id_elem in Hkw as [i Hi].
  specialize (Hu 0%nat (S i) k' v w eq_refl Hi). lia.
Qed.

Lemma tab_map_lookup T k v :
  tab_ok T → tab_map T !! k = Some v ↔ ∃ i, T !! i = Some (Some (k, v)).
Proof.
  intros HT. unfold tab_map. rewrite <- elem_of_list_to_map.
  - apply omap_id_elem.
  - apply tab_ok_nodup, HT.
Qed.

Lemma tab_map_to_list T :
  tab_ok T → map_to_list (tab_map T) ≡ₚ omap id T.
Proof. intros HT. apply map_to_list_to_map, tab_ok_nodup, HT. Qed.

Lemma tab_map_none T k :
  tab_ok T → (∀ i v, T !! i ≠ Some (Some (k, v))) → tab_map T !! k = None.
Proof.
  intros HT Hn. destruct (tab_map T !! k) as [v|] eqn:E; [|done].
  apply tab_map_lookup in E as [i Hi]; [|done]. by apply Hn in Hi.
Qed.

(** Search result, as a lookup in the abstract map. *)
Lemma first_stop_lookup T k d :
  tab_ok T → first_stop T k d → tab_map T !! k = snd <$> slot T (hash k + d).
Proof.
  intros HT Hf. destruct (first_stop_slot T k d HT Hf) as [[E Hn]|[v E]]; rewrite E; cbn.
  - by apply tab_map_none.
  - apply tab_map_lookup; [done|]. apply slot_lookup in E; [|destruct Hf; lia]. eauto.
Qed.

Lemma slot_insert T i j o :
  0 ≤ j < Z.of_nat (length T) →
  slot (<[Z.to_nat j := o]> T) i =
  if decide (i mod Z.of_nat (length T) = j) then o else slot T i.
Proof.
  intros Hj. unfold slot. rewrite length_insert.
  assert (0 ≤ i mod Z.of_nat (length T) < Z.of_nat (length T))
    by (apply Z.mod_pos_bound; lia).
  case_decide; subst.
  - by rewrite list_lookup_insert_eq by lia.
  - by rewrite list_lookup_insert_ne by lia.
Qed.

(** Writing at the slot where the search stopped keeps the invariant and
    inserts into the abstract map. *)
Lemma tab_insert_ok T k v d :
  tab_ok T → first_stop T k d →
  let j := (hash k + d) mod Z.of_nat (length T) in
  tab_ok (<[Z.to_nat j := Some (k, v)]> T).
Proof.
  intros HT Hf j. pose proof Hf as (Hd & Hs & Hmin).
  assert (Hj : 0 ≤ j < Z.of_nat (length T)) by (apply Z.mod_pos_bound; lia).
  assert (Hmono : ∀ i, is_Some (slot T i) → is_Some (slot (<[Z.to_nat j := Some (k, v)]> T) i)).
  { intros i Hi. rewrite slot_insert by done. by case_decide. }
  split; rewrite ?length_insert.
  - intros i k' w Hi. destruct (decide (i = Z.to_nat j)) as [->|Hne].
    + rewrite list_lookup_insert_eq in Hi by lia. injection Hi as <- <-.
      exists d. split; [done|]. split; [rewrite Z2Nat.id by lia; done|].
      intros d' Hd'. apply Hmono. specialize (Hmin d' Hd'). unfold stops in Hmin.
      by destruct (slot T (hash k + d')).
    + rewrite list_lookup_insert_ne in Hi by done.
      destruct (tab_path T HT i k' w Hi) as (d0 & Hd0 & E & Hocc).
      exists d0. split_and!; [lia..|done|]. intros d' Hd'. auto.
  - assert (Hk : ∀ i w, T !! i = Some (Some (k, w)) → i = Z.to_nat j).
    { intros i w Hi. pose proof (first_stop_present T k d i w HT Hf Hi) as E.
      fold j in E. lia. }
    intros i1 i2 k' w1 w2 H1 H2.
    apply list_lookup_insert_Some in H1 as [(<- & E1 & _)|[Hne1 H1]],
      H2 as [(<- & E2 & _)|[Hne2 H2]]; simplify_eq; try done.
    + by apply Hk in H2.
    + by apply Hk in H1.
    + by eapply (tab_uniq T HT).
Qed.

Lemma tab_insert_map T k v d :
  tab_ok T → first_stop T k d →
  let j := (hash k + d) mod Z.of_nat (length T) in
  tab_map (<[Z.to_nat j := Some (k, v)]> T) = <[k := v]> (tab_map T).
Proof.
  intros HT Hf j. pose proof Hf as (Hd & _ & _).
  assert (Hj : 0 ≤ j < Z.of_nat (length T)) by (apply Z.mod_pos_bound; lia).
  pose proof (tab_insert_ok T k v d HT Hf) as HT'. fold j in HT'.
  apply map_eq. intros k'. apply option_eq. intros w.
  rewrite tab_map_lookup, lookup_insert by done. case_decide as E.
  - subst k'. split; [|intros [= <-]; exists (Z.to_nat j); by rewrite list_lookup_insert_eq by lia].
    intros [i Hi]. apply list_lookup_insert_Some in Hi as [(_ & E & _)|[Hne Hi]]; [congruence|].
    pose proof (first_stop_present T k d i w HT Hf Hi) as E. fold j in E. lia.
  - rewrite tab_map_lookup by done. split.
    + intros [i Hi]. apply list_lookup_insert_Some in Hi as [(_ & E' & _)|[Hne Hi]];
        [congruence|eauto].
    + intros [i Hi]. exists i. rewrite list_lookup_insert_ne; [done|]. intros <-.
      destruct (first_stop_slot T k d HT Hf) as [[Es _]|[u Es]];
        apply slot_lookup in Es; try lia; fold j in Es; congruence.
Qed.

Lemma tab_ok_empty n : tab_ok (replicate n None : table).
Proof. split; intros * Hi; apply lookup_replicate in Hi as [? _]; done. Qed.

Lemma tab_map_empty n : tab_map (replicate n None : table) = ∅.
Proof. unfold tab_map. induction n; [done|]. by cbn. Qed.

(** Number of bindings. *)
Lemma omap_insert_length T i (kv : K * Z) (o : option (K * Z)) :
  T !! i = Some o →
  length (omap id (<[i := Some kv]> T : table)) =
  (length (omap id T) + match o with Some _ => 0 | None => 1 end)%nat.
Proof.
  intros Hi. apply lookup_lt_Some in Hi as Hl.
  rewrite insert_take_drop by done. rewrite <- (take_drop_middle T i o Hi) at 3.
  rewrite !omap_app, !length_app. destruct o; cbn; lia.
Qed.

Lemma tab_size T : tab_ok T → length (omap id T) = size (tab_map T).
Proof. intros HT. by rewrite <- length_map_to_list, tab_map_to_list. Qed.

Lemma tab_insert_count T k v d :
  tab_ok T → first_stop T k d →
  let j := (hash k + d) mod Z.of_nat (length T) in
  length (omap id (<[Z.to_nat j := Some (k, v)]> T : table)) =
  (length (omap id T) + if slot T (hash k + d) is Some _ then 0 else 1)%nat.
Proof.
  intros HT Hf j. pose proof Hf as (Hd & _).
  destruct (first_stop_slot T k d HT Hf) as [[Es _]|[u Es]]; rewrite Es;
    apply slot_lookup in Es; try lia.
  - by rewrite (omap_insert_length T _ _ None).
  - by rewrite (omap_insert_length T _ _ (Some (k, u))).
Qed.

Lemma table_has_empty T :
  (length (omap id T) < length T)%nat → ∃ i, T !! i = Some None.
Proof.
  induction T as [|[kv|] T IH]; cbn; intros Hl; [lia| |by exists 0%nat].
  destruct IH as [i Hi]; [lia|]. by exists (S i).
Qed.

(** The search loop: starting at [hash k mod n], it ends at the first stop. *)
Lemma probe_loop {R} (T : table) (k : K) (d : Z) (body : Z → res (ctrl Z R)) (r : Z → R) (fuel : nat) :
  first_stop T k d →
  (∀ i, 0 ≤ i < Z.of_nat (length T) →
     body i = if stops T k i then Ok (Done (r i))
              else Ok (Next ((i + 1) mod Z.of_nat (length T)))) →
  (length T < fuel)%nat →
  iter fuel body (hash k mod Z.of_nat (length T)) =
  Ok (r ((hash k + d) mod Z.of_nat (length T))).
Proof.
  intros (Hd & Hs & Hmin) Hb Hf. set (n := Z.of_nat (length T)) in *.
  assert (Hm : ∀ i, 0 ≤ i mod n < n) by (intros; apply Z.mod_pos_bound; lia).
  assert (Hst : ∀ i, stops T k (i mod n) = stops T k i).
  { intros i. unfold stops, slot. fold n. by rewrite Z.mod_mod by lia. }
  assert (Hgo : ∀ (c : nat) e fuel, 0 ≤ e → e + Z.of_nat c = d → (c < fuel)%nat →
    iter fuel body ((hash k + e) mod n) = Ok (r ((hash k + d) mod n))).
  { induction c as [|c IH]; intros e [|f] He Hc Hfuel; try lia; cbn [iter]; rewrite Hb, Hst by apply Hm.
    - replace e with d by lia. by rewrite Hs.
    - rewrite Hmin by lia. simpl_res. rewrite Z.add_mod_idemp_l by lia.
      rewrite <- Z.add_assoc. apply IH; lia. }
  specialize (Hgo (Z.to_nat d) 0 fuel). rewrite Z.add_0_r in Hgo. apply Hgo; lia.
Qed.
End probing.
