(* ===== verification/Heap.v ===== *)
(** * The allocator interface of the utilities

    lethe-utils only declares [malloc], [calloc] and [free]; [Allocator] is
    those operations on a state, NULL being the pointer 0, and [AllocatorLaws]
    what the containers rely on.  [alloc_ok st m]: the state and the memory are
    ones the allocator can work on.  [live st p n]: the [n] bytes at [p] belong
    to an object that exists in allocator state [st] (a heap block or static
    data), so no later block overlaps them.  When there is no memory [calloc]
    may return NULL, as C asks, or be undefined, as the one of liballoc is.
    [bump] is an instance, and so is the heap of the kernel (KernelHeap.v). *)
From S2P Require Import Prelude LibString.

Class Allocator (A : Type) := {
  malloc : A → Z → res (Z * A);
  calloc : A → mem → Z → Z → res (Z * A * mem);
  free : A → Z → res A
}.

(** The same addresses are mapped in both memories. *)
Definition same_domain (m m' : mem) : Prop := ∀ a, is_Some (m !! a) ↔ is_Some (m' !! a).

(** A new object of [n] bytes at [p]. *)
Definition new_object {A : Type} (live : A → Z → Z → Prop) (st : A) (p n : Z) (st' : A) : Prop :=
  p ≠ 0 ∧ live st' p n ∧ ∀ q k, live st q k → q + k ≤ p ∨ p + n ≤ q.

Class AllocatorLaws (A : Type) `{Allocator A} := {
  alloc_ok : A → mem → Prop;
  live : A → Z → Z → Prop;
  (** The sizes up to which the laws hold. *)
  max_request : Z;
  small_request : 4096 ≤ max_request;
  live_range st p n : live st p n → 0 < p ∧ p + n ≤ 2 ^ 64;
  alloc_ok_domain st m m' : alloc_ok st m → same_domain m m' → alloc_ok st m';
  malloc_law st m n :
    alloc_ok st m → 0 ≤ n ≤ max_request →
    ∃ p st', malloc st n = Ok (p, st') ∧ alloc_ok st' m ∧ (∀ q k, live st q k → live st' q k) ∧
      (p = 0 ∨ new_object live st p n st');
  calloc_law st m nobj size p st' m' :
    alloc_ok st m → 0 ≤ nobj * size ≤ max_request → 0 ≤ nobj → 0 ≤ size →
    calloc st m nobj size = Ok (p, st', m') →
    alloc_ok st' m' ∧ (∀ q k, live st q k → live st' q k) ∧
    (p = 0 ∧ m' = m ∨
     new_object live st p (nobj * size) st' ∧ bytes_at m' p (replicate (Z.to_nat (nobj * size)) 0) ∧
     ∀ q bs, live st q (Z.of_nat (length bs)) → bytes_at m q bs → bytes_at m' q bs);
  free_law st m p n :
    alloc_ok st m → live st p n → 0 < n →
    ∃ st', free st p = Ok st' ∧ alloc_ok st' m ∧ ∀ q k, live st q k → q ≠ p → live st' q k
}.

Lemma same_domain_refl m : same_domain m m.
Proof. done. Qed.

Lemma same_domain_insert m a v : is_Some (m !! a) → same_domain m (<[a := v]> m).
Proof. intros Ha b. rewrite lookup_insert_is_Some. destruct (decide (a = b)) as [->|]; tauto. Qed.

Lemma same_domain_trans m1 m2 m3 : same_domain m1 m2 → same_domain m2 m3 → same_domain m1 m3.
Proof. intros H1 H2 a. by rewrite (H1 a), (H2 a). Qed.

Lemma same_domain_write m p bs : mapped m p (length bs) → same_domain m (write_bytes m p bs).
Proof.
  intros Hm a. rewrite write_bytes_lookup. case_decide as Ha; [|done]. split; intros _.
  - apply lookup_lt_is_Some_2. lia.
  - replace a with (p + Z.of_nat (Z.to_nat (a - p))) by lia. apply Hm. lia.
Qed.

(** What [malloc] does with a small request. *)
Lemma malloc_some {A : Type} `{AllocatorLaws A} (st : A) m n :
  alloc_ok st m → (0 <=? n) && (n <=? 4096) = true →
  ∃ p st', malloc st n = Ok (p, st') ∧ alloc_ok st' m ∧ (∀ q k, live st q k → live st' q k) ∧
    (p ≠ 0 → new_object live st p n st').
Proof.
  intros Hok Hn. pose proof small_request.
  destruct (malloc_law st m n Hok) as (p & st' & E & ? & ? & Hcase); [lia|].
  exists p, st'. split_and!; [done..|]. by destruct Hcase.
Qed.

(** A bump allocator: the state is the next free address. *)
Definition bump_malloc (st n : Z) : res (Z * Z) :=
  if st + n <=? 2 ^ 64 then Ok (st, st + n) else Ok (0, st).

Definition bump_calloc (st : Z) (m : mem) (nobj size : Z) : res (Z * Z * mem) :=
  '(p, st) ← bump_malloc st (nobj * size);
  Ok (p, st, if p =? 0 then m else write_bytes m p (replicate (Z.to_nat (nobj * size)) 0)).

#[export] Instance bump : Allocator Z := {|
  malloc := bump_malloc;
  calloc := bump_calloc;
  free st p := Ok st
|}.

#[export, refine] Instance bump_laws : AllocatorLaws Z := {|
  alloc_ok st m := 0 < st ≤ 2 ^ 64;
  live st p n := 0 < p ∧ p + n ≤ st ∧ st ≤ 2 ^ 64;
  max_request := 2 ^ 64
|}.
Proof.
  - done.
  - intros. lia.
  - done.
  - intros st m n Hok Hn. cbn. unfold bump_malloc, new_object. zcase; eexists _, _; (split; [done|]).
    + split_and!; [lia|lia|intros; lia|right]. split_and!; [lia..|]. intros. lia.
    + auto.
  - cbn. unfold bump_calloc, bump_malloc, new_object. intros st m n s p st' m' Hok Hn _ _.
    zcase; simpl_res.
    + rewrite (proj2 (Z.eqb_neq st 0)) by lia. intros [= <- <- <-].
      split; [lia|]. split; [intros; lia|right]. split; [split_and!; try lia; intros; lia|].
      split; [apply write_bytes_at|]. intros q bs Hq Hb. apply bytes_at_write_disjoint; [done|].
      rewrite length_replicate. lia.
    + intros [= <- <- <-]. auto.
  - intros st m p n Hok Hl Hn. exists st. auto.
Defined.
