(* ===== verification/HashMap.v ===== *)
(** * The hash map of lethe-utils/hashmap.c

    Open addressing with linear probing over an array of (key pointer, value)
    entries; keys are [KEY_LEN] bytes in memory, compared with [memcmp] and
    hashed with FNV-1a; NULL is the pointer 0.  The entries array is a block
    of its own, kept as a list beside its address.  The theorems refine every
    operation to a finite map from key bytes to values. *)
From S2P Require Import Prelude Fnv LibString Probing Heap.

(** ** Definitions *)

Definition KEY_LEN : Z := 4.
Definition RESIZE_VAL : Z := 2.
Definition INITIAL_CAPACITY : Z := 4.

Record hm_entry := HmEntry { e_key : Z; e_value : Z }.

Record hm := Hm {
  entries_ptr : Z;
  entries : list hm_entry;
  capacity : Z;
  count : Z
}.

(** Conversion of an unsigned integer to [float]: 24 significant bits, round
    to nearest, ties to even. *)
Definition f32_of (z : Z) : Z :=
  let e := Z.log2 z - 23 in
  if e <=? 0 then z
  else
    let q := z / 2 ^ e in
    let r := z mod 2 ^ e in
    (if (2 ^ (e - 1) <? r) || ((r =? 2 ^ (e - 1)) && Z.odd q) then q + 1 else q) * 2 ^ e.

(** [count >= capacity * 0.75F], both sides scaled by 4. *)
Definition load_reached (count capacity : Z) : bool :=
  f32_of (3 * f32_of capacity) <=? 4 * f32_of count.

Definition hash_value (m : mem) (key : Z) : res Z := fnv_64a_buf m key KEY_LEN.

(** [hash % capacity] *)
Definition modulo (a n : Z) : res Z := if n =? 0 then Err Undefined else Ok (a mod n).

Definition entry_at (es : list hm_entry) (index : Z) : res hm_entry :=
  of_option Undefined (es !! Z.to_nat index).

Section hashmap.
Context {A : Type} `{Allocator A}.

Definition hm_strdup (st : A) (m : mem) (str : Z) : res (Z * A * mem) :=
  '(new_str, st, m) ← calloc st m KEY_LEN 1;
  if new_str =? 0 then Ok (0, st, m)
  else
    '(_, m) ← memcpy m new_str str KEY_LEN;
    Ok (new_str, st, m).

(** [while (entries[index].key != NULL) ...]: the index where the search ends
    and whether the key was found there. *)
Definition find_entry (m : mem) (es : list hm_entry) (capacity key : Z) : res (Z * bool) :=
  hash ← hash_value m key;
  index ← modulo hash capacity;
  iter (S (Z.to_nat capacity)) (λ index,
    e ← entry_at es index;
    if e_key e =? 0 then Ok (Done (index, false))
    else
      c ← memcmp m key (e_key e) KEY_LEN;
      if c =? 0 then Ok (Done (index, true))
      else Ok (Next (u64 (index + 1) mod capacity))) index.

(** Returns the stored key pointer (0 on failure), the entries and the
    count behind [plength] (None: a NULL pointer). *)
Definition set_entry (st : A) (m : mem) (es : list hm_entry) (capacity key value : Z)
    (plength : option Z) : res (Z * A * mem * list hm_entry * option Z) :=
  '(index, found) ← find_entry m es capacity key;
  e ← entry_at es index;
  if found : bool then
    Ok (e_key e, st, m, <[Z.to_nat index := HmEntry (e_key e) value]> es, plength)
  else
    match plength with
    | Some length =>
        '(key, st, m) ← hm_strdup st m key;
        if key =? 0 then Ok (0, st, m, es, Some length)
        else Ok (key, st, m, <[Z.to_nat index := HmEntry key value]> es,
                 Some (u64 (length + 1)))
    | None => Ok (key, st, m, <[Z.to_nat index := HmEntry key value]> es, None)
    end.

(** The loop of [hm_expand]: re-insert every entry. *)
Fixpoint rehash (st : A) (m : mem) (old : list hm_entry) (es : list hm_entry) (capacity : Z) :
    res (A * mem * list hm_entry) :=
  match old with
  | [] => Ok (st, m, es)
  | e :: old =>
      if e_key e =? 0 then rehash st m old es capacity
      else
        '(_, st, m, es, _) ← set_entry st m es capacity (e_key e) (e_value e) None;
        rehash st m old es capacity
  end.

Definition hm_expand (st : A) (m : mem) (map : hm) : res (bool * A * mem * hm) :=
  let cap := u64 (capacity map * RESIZE_VAL) in
  if cap <? capacity map then Ok (false, st, m, map)
  else
    '(p, st, m) ← calloc st m cap 16;
    if p =? 0 then Ok (false, st, m, map)
    else
      '(st, m, es) ← rehash st m (entries map)
        (replicate (Z.to_nat cap) (HmEntry 0 0)) cap;
      st ← free st (entries_ptr map);
      Ok (true, st, m, Hm p es cap (count map)).

(** [None] is NULL: out of memory. *)
Definition hm_create (st : A) (m : mem) : res (A * mem * option hm) :=
  '(map, st) ← malloc st 24;
  if map =? 0 then Ok (st, m, None)
  else
    '(p, st, m) ← calloc st m INITIAL_CAPACITY 16;
    if p =? 0 then st ← free st map; Ok (st, m, None)
    else Ok (st, m, Some (Hm p (replicate (Z.to_nat INITIAL_CAPACITY) (HmEntry 0 0))
                            INITIAL_CAPACITY 0)).

Definition hm_get (m : mem) (map : hm) (key : Z) : res Z :=
  hash ← hash_value m key;
  index ← modulo hash (capacity map);
  iter (S (Z.to_nat (capacity map))) (λ index,
    e ← entry_at (entries map) index;
    if e_key e =? 0 then Ok (Done 0)
    else
      c ← memcmp m (e_key e) key KEY_LEN;
      if c =? 0 then Ok (Done (e_value e))
      else Ok (Next (u64 (index + 1) mod capacity map))) index.

(** The returned pointer is 0 when memory ran out. *)
Definition hm_set (st : A) (m : mem) (map : hm) (key value : Z) : res (Z * A * mem * hm) :=
  _ ← guard_or Halted (negb (value =? 0));
  '(ok, st, m, map) ← (if load_reached (count map) (capacity map) then hm_expand st m map
                       else Ok (true, st, m, map));
  if ok : bool then
    '(r, st, m, es, n) ← set_entry st m (entries map) (capacity map) key value (Some (count map));
    Ok (r, st, m, Hm (entries_ptr map) es (capacity map) (default (count map) n))
  else Ok (0, st, m, map).
End hashmap.

(** Iterators; [hm_next] returns whether there was another entry. *)
Record hmi := Hmi { it_key : Z; it_value : Z; it_index : Z }.

Definition hm_iter : hmi := Hmi 0 0 0.

Definition hm_next (map : hm) (it : hmi) : res (bool * hmi) :=
  iter (S (Z.to_nat (capacity map))) (λ it,
    if it_index it <? capacity map then
      let i := it_index it in
      let it := Hmi (it_key it) (it_value it) (it_index it + 1) in
      e ← entry_at (entries map) i;
      if negb (e_key e =? 0) then Ok (Done (true, Hmi (e_key e) (e_value e) (it_index it)))
      else Ok (Next it)
    else Ok (Done (false, it))) it.

(** [ptr] is the callback, acting on a state of its own. *)
Definition hm_foreach {S : Type} (map : hm) (it : hmi) (ptr : Z → Z → S → res S) (s : S) : res S :=
  iter (Datatypes.S (Z.to_nat (capacity map))) (λ '(it, s),
    '(more, it) ← hm_next map it;
    if more : bool then s ← ptr (it_key it) (it_value it) s; Ok (Next (it, s))
    else Ok (Done s)) (it, s).

(** ** The abstract map *)

(** An entry against a slot of the abstract table; [ok] restricts the key
    pointers. *)
Definition entry_rel {A : Type} `{AllocatorLaws A} (st : A) (m : mem) (ok : Z → Prop) (e : hm_entry)
    (o : option (list Z * Z)) : Prop :=
  match o with
  | None => e_key e = 0
  | Some (k, v) =>
      e_key e ≠ 0 ∧ ok (e_key e) ∧ live st (e_key e) KEY_LEN ∧ bytes_at m (e_key e) k ∧
      length k = 4%nat ∧ e_value e = v ∧ v ≠ 0
  end.

(** [map] represents [M] in memory [m]. *)
Record hm_rep {A : Type} `{AllocatorLaws A} (st : A) (m : mem) (map : hm)
    (T : list (option (list Z * Z))) (M : gmap (list Z) Z) : Prop := HmRep {
  rep_entries : Forall2 (entry_rel st m (.≠ entries_ptr map)) (entries map) T;
  rep_tab : tab_ok fnv64a T;
  rep_map : tab_map T = M;
  rep_block : live st (entries_ptr map) (16 * capacity map);
  rep_capacity : ∃ j, 0 ≤ j ≤ 59 ∧ capacity map = 4 * 2 ^ j;
  rep_length : capacity map = Z.of_nat (length T);
  rep_count : count map = Z.of_nat (length (omap id T));
  rep_room : count map < capacity map;
  rep_alloc : alloc_ok st m
}.

(** [map] represents [M], whatever the layout of its table. *)
Definition hm_models {A : Type} `{AllocatorLaws A} (st : A) (m : mem) (map : hm)
    (M : gmap (list Z) Z) : Prop := ∃ T, hm_rep st m map T M.

Section requests.
Context {A : Type} `{AllocatorLaws A}.

(** The table of [map] is three quarters full; beyond 2^24 keys a [float]
    cannot tell. *)
Definition crowded (map : hm) (M : gmap (list Z) Z) : Prop :=
  Z.of_nat (base.size M) < 2 ^ 24 → 3 * capacity map ≤ 4 * Z.of_nat (base.size M).

(** The table has been replaced by one of twice the size. *)
Definition grown (st : A) (m : mem) (map : hm) (st1 : A) (m1 : mem) : Prop :=
  ∃ p st0, calloc st m (capacity map * 2) 16 = Ok (p, st0, m1) ∧ p ≠ 0 ∧
    free st0 (entries_ptr map) = Ok st1.

(** The requests to the allocator that setting the key [k] makes: a larger table
    when the old one is crowded, a copy of the key when it is new. *)
Inductive hm_request (st : A) (m : mem) (map : hm) (M : gmap (list Z) Z) (k : list Z) :
    A → mem → Z → Z → Prop :=
| request_table :
    crowded map M → alloc_ok st m → hm_request st m map M k st m (capacity map * 2) 16
| request_key st1 m1 :
    M !! k = None → alloc_ok st1 m1 → st1 = st ∧ m1 = m ∨ crowded map M ∧ grown st m map st1 m1 →
    hm_request st m map M k st1 m1 KEY_LEN 1.
End requests.

(** ** Lemmas *)

Lemma f32_exact a j : 0 ≤ a < 2 ^ 24 → 0 ≤ j → f32_of (a * 2 ^ j) = a * 2 ^ j.
Proof.
  intros Ha Hj. unfold f32_of. set (e := Z.log2 (a * 2 ^ j) - 23).
  destruct (Z.leb_spec e 0); [done|].
  assert (He : 0 < e ≤ j).
  { split; [done|]. destruct (decide (a = 0)) as [->|]; [subst e; rewrite Z.mul_0_l in *; change (Z.log2 0) with 0 in *; lia|].
    subst e. pose proof (Z.log2_mul_pow2 a j).
    assert (Z.log2 a < 24) by (apply Z.log2_lt_pow2; lia). lia. }
  assert (E : a * 2 ^ j = a * 2 ^ (j - e) * 2 ^ e).
  { rewrite <- Z.mul_assoc, <- Z.pow_add_r by lia. do 2 f_equal. lia. }
  rewrite E, Z.div_mul, Z.mod_mul by lia.
  assert (0 < 2 ^ (e - 1)) by (apply Z.pow_pos_nonneg; lia).
  zbool. done.
Qed.

Lemma f32_mono_exact a j z : 0 ≤ a < 2 ^ 24 → 0 ≤ j → a * 2 ^ j ≤ z → a * 2 ^ j ≤ f32_of z.
Proof.
  intros Ha Hj Hz. unfold f32_of. set (e := Z.log2 z - 23).
  destruct (Z.leb_spec e 0) as [|He]; [done|].
  assert (Hp : 0 < 2 ^ e) by (apply Z.pow_pos_nonneg; lia).
  assert (Hq : a * 2 ^ j ≤ z / 2 ^ e * 2 ^ e).
  { destruct (decide (e ≤ j)).
    - assert (E : a * 2 ^ j = a * 2 ^ (j - e) * 2 ^ e).
      { rewrite <- Z.mul_assoc, <- Z.pow_add_r by lia. do 2 f_equal. lia. }
      rewrite E in *. apply Z.mul_le_mono_nonneg_r; [lia|].
      apply Z.div_le_lower_bound; lia.
    - assert (0 < z).
      { destruct (Z.le_gt_cases z 0); [|done]. pose proof (Z.log2_nonpos z). subst e. lia. }
      assert (2 ^ 23 ≤ z / 2 ^ e).
      { apply Z.div_le_lower_bound; [done|]. rewrite <- Z.pow_add_r by lia.
        replace (e + 23) with (Z.log2 z) by lia. by apply Z.log2_spec. }
      assert (2 ^ e = 2 * 2 ^ (e - 1)) by (rewrite <- Z.pow_succ_r by lia; f_equal; lia).
      assert (2 ^ j ≤ 2 ^ (e - 1)) by (apply Z.pow_le_mono_r; lia). nia. }
  case_match; nia.
Qed.

Lemma load_reached_false c j :
  0 ≤ j → load_reached c (4 * 2 ^ j) = false → c < 3 * 2 ^ j.
Proof.
  intros Hj. unfold load_reached.
  rewrite (f32_exact 4), Z.mul_assoc, (f32_exact 12) by lia. intros Hl%Z.leb_gt.
  destruct (Z.lt_ge_cases c (3 * 2 ^ j)) as [|Hge]; [done|].
  pose proof (f32_mono_exact 3 j c). lia.
Qed.

Lemma load_reached_true c j :
  0 ≤ c < 2 ^ 24 → 0 ≤ j → load_reached c (4 * 2 ^ j) = true → 3 * (4 * 2 ^ j) ≤ 4 * c.
Proof.
  intros Hc Hj. unfold load_reached. rewrite (f32_exact 4), Z.mul_assoc, (f32_exact 12) by lia.
  rewrite <- (Z.mul_1_r c). change 1 with (2 ^ 0). rewrite (f32_exact c) by lia. lia.
Qed.

Lemma memcmp_keys m p q k k' :
  bytes_at m p k → bytes_at m q k' → length k = 4%nat → length k' = 4%nat →
  ∃ c, memcmp m p q KEY_LEN = Ok c ∧ (c =? 0) = bool_decide (k = k').
Proof.
  intros Hp Hq Hk Hk'. exists (bytes_cmp id k k'). split.
  - rewrite <- (memcmp_bytes m p q k k') by (done || congruence). by rewrite Hk.
  - apply Bool.eq_iff_eq_true. rewrite Z.eqb_eq, bool_decide_eq_true.
    apply bytes_cmp_eq. congruence.
Qed.

Lemma hash_value_key m p k :
  bytes_at m p k → length k = 4%nat → hash_value m p = Ok (fnv64a k).
Proof. intros H Hk. apply fnv_64a_buf_eq in H. by rewrite Hk in H. Qed.

Section refinement.
Context {A : Type} `{AllocatorLaws A}.
Implicit Types (st : A) (m : mem) (es : list hm_entry) (T : list (option (list Z * Z)))
  (k : list Z).

Lemma entry_slot st m ok es T i :
  Forall2 (entry_rel st m ok) es T → 0 ≤ i < Z.of_nat (length T) →
  ∃ e, entry_at es i = Ok e ∧ es !! Z.to_nat i = Some e ∧ entry_rel st m ok e (slot T i).
Proof.
  intros HF Hi. destruct (lookup_lt_is_Some_2 T (Z.to_nat i)) as [o Ho]; [lia|].
  destruct (Forall2_lookup_r _ _ _ _ _ HF Ho) as (e & He & Hr).
  exists e. unfold entry_at. rewrite He. split_and!; [done..|].
  rewrite (slot_at T i o); [done|]. by rewrite Z.mod_small by lia.
Qed.

Definition filled {B} (o : option B) : bool := if o is Some _ then true else false.

Lemma u64_step i n : 0 ≤ i < n → n ≤ 2 ^ 63 → u64 (i + 1) = i + 1.
Proof. intros. apply wrap_small. lia. Qed.

(** What the search loop of [hm_get] and [set_entry] does at index [i]. *)
Lemma find_entry_spec st m ok es T key k :
  Forall2 (entry_rel st m ok) es T → tab_ok fnv64a T →
  (length (omap id T) < length T)%nat → Z.of_nat (length T) ≤ 2 ^ 63 →
  bytes_at m key k → length k = 4%nat →
  ∃ d, first_stop fnv64a T k d ∧
    find_entry m es (Z.of_nat (length T)) key =
    Ok ((fnv64a k + d) mod Z.of_nat (length T), filled (slot T (fnv64a k + d))).
Proof.
  intros HF HT Hroom Hsz Hkey Hk. destruct (table_has_empty T Hroom) as [i0 Hi0].
  destruct (first_stop_ex fnv64a T k i0 Hi0) as [d Hd]. exists d. split; [done|].
  unfold find_entry. rewrite (hash_value_key m key k) by done. simpl_res.
  unfold modulo. zbool. simpl_res. rewrite Nat2Z.id. rewrite <- slot_mod.
  apply (probe_loop fnv64a T k d _ (λ i, (i, filled (slot T i)))); [done| |lia].
  intros i Hi. destruct (entry_slot st m ok es T i HF Hi) as (e & He & _ & Hr).
  rewrite He. simpl_res. unfold stops. destruct (slot T i) as [[k' v]|]; cbn in Hr.
  - destruct Hr as (Hnz & _ & _ & Hb & Hk' & _). rewrite (proj2 (Z.eqb_neq _ _) Hnz).
    destruct (memcmp_keys m key (e_key e) k k') as (c & -> & Hc); [done..|]. simpl_res.
    rewrite Hc. case_match; [done|].
    by rewrite (u64_step i _ Hi).
  - by rewrite Hr.
Qed.

Lemma hm_get_spec st m map T M key k :
  hm_rep st m map T M → bytes_at m key k → length k = 4%nat →
  hm_get m map key = Ok (default 0 (M !! k)).
Proof.
  intros [HF HT <- Hblk (j & Hj & Ecap) Hlen Hcnt Hroom _] Hkey Hk.
  rewrite Hlen, Hcnt in *. destruct (table_has_empty T) as [i0 Hi0]; [lia|].
  destruct (first_stop_ex fnv64a T k i0 Hi0) as [d Hd].
  assert (Hsz : Z.of_nat (length T) ≤ 2 ^ 63).
  { rewrite Ecap. assert (2 ^ j ≤ 2 ^ 59) by (apply Z.pow_le_mono_r; lia). lia. }
  unfold hm_get. rewrite (hash_value_key m key k) by done. rewrite Hlen. simpl_res.
  unfold modulo. zbool. simpl_res. rewrite Nat2Z.id.
  rewrite (first_stop_lookup fnv64a T k d HT Hd), <- slot_mod.
  apply (probe_loop fnv64a T k d _ (λ i, default 0 (snd <$> slot T i))); [done| |lia].
  intros i Hi. destruct (entry_slot st m _ _ T i HF Hi) as (e & He & _ & Hr).
  rewrite He. simpl_res. unfold stops. destruct (slot T i) as [[k' v]|]; cbn in Hr.
  - destruct Hr as (Hnz & _ & _ & Hb & Hk' & Hv & _). rewrite (proj2 (Z.eqb_neq _ _) Hnz).
    destruct (memcmp_keys m (e_key e) key k' k) as (c & -> & Hc); [done..|]. simpl_res.
    rewrite Hc, (bool_decide_ext (k' = k) (k = k')) by (split; congruence).
    case_match; [by rewrite Hv|]. by rewrite (u64_step i _ Hi).
  - by rewrite Hr.
Qed.

(** Every object but the one at [p] survives, with its contents. *)
Definition keeps (p : Z) st m st' m' : Prop :=
  ∀ q n, live st q n → q ≠ p →
    live st' q n ∧ ∀ bs, Z.of_nat (length bs) = n → bytes_at m q bs → bytes_at m' q bs.

Lemma keeps_refl p st m : keeps p st m st m.
Proof. by intros q n Hq _. Qed.

Lemma keeps_trans p st1 m1 st2 m2 st3 m3 :
  keeps p st1 m1 st2 m2 → keeps p st2 m2 st3 m3 → keeps p st1 m1 st3 m3.
Proof.
  intros H1 H2 q n Hq Hne. destruct (H1 q n Hq Hne) as [Hq2 Hb2].
  destruct (H2 q n Hq2 Hne) as [Hq3 Hb3]. auto.
Qed.

Lemma entry_rel_keeps p (ok ok' : Z → Prop) st m st' m' e o :
  keeps p st m st' m' → (∀ q, live st q KEY_LEN → ok q → q ≠ p ∧ ok' q) →
  entry_rel st m ok e o → entry_rel st' m' ok' e o.
Proof.
  intros Hk Hp. destruct o as [[k v]|]; cbn; [|done].
  intros (Hnz & Hok & Hl & Hb & Hlen & Hv & Hv0).
  destruct (Hp _ Hl Hok) as [Hne Hok']. destruct (Hk _ _ Hl Hne) as [Hl' Hb'].
  split_and!; [done..| |done|done|done]. apply Hb'; [by rewrite Hlen|done].
Qed.

Lemma hm_strdup_spec st m str k :
  alloc_ok st m → live st str KEY_LEN → bytes_at m str k → length k = 4%nat → Forall is_byte k →
  (∃ e, calloc st m KEY_LEN 1 = Err e ∧ hm_strdup st m str = Err e) ∨
  ∃ r st' m', hm_strdup st m str = Ok (r, st', m') ∧ alloc_ok st' m' ∧ keeps 0 st m st' m' ∧
    (r = 0 ∧ m' = m ∧ calloc st m KEY_LEN 1 = Ok (0, st', m) ∨
     r ≠ 0 ∧ live st' r KEY_LEN ∧ bytes_at m' r k ∧ ∀ q n, live st q n → 0 < n → q ≠ r).
Proof.
  intros Hok Hl Hb Hk Hby. unfold hm_strdup.
  destruct (calloc st m KEY_LEN 1) as [[[r st1] m1]|e] eqn:E; simpl_res; [right|left; by exists e].
  pose proof small_request as Hmax.
  apply calloc_law in E as (Hok1 & Hlive & Hcase); [|done|unfold KEY_LEN; lia..].
  change (KEY_LEN * 1) with KEY_LEN in *. change KEY_LEN with 4 in *.
  destruct Hcase as [[-> ->]|((Hr & Hlr & Hd) & Hz & Hp)].
  { exists 0, st1, m. split_and!; [done..| |by left]. intros q n Hq _. auto. }
  rewrite (proj2 (Z.eqb_neq r 0) Hr).
  assert (Hmap : mapped m1 r (length k)) by (rewrite Hk; apply (bytes_at_mapped _ _ _ Hz)).
  assert (Ec : memcpy m1 r str (Z.of_nat (length k)) = Ok (r, write_bytes m1 r k)).
  { unfold memcpy. rewrite (copy_up_correct _ _ _ _ k); [done| | |done|done|].
    - intros i Hi. apply int_ok_Ok. lia.
    - apply Hp; [by rewrite Hk|done].
    - pose proof (Hd _ _ Hl) as Hdis. rewrite Hk. lia. }
  rewrite Hk in Ec. change (Z.of_nat 4) with 4 in Ec. rewrite Ec. simpl_res.
  exists r, st1, (write_bytes m1 r k). split; [done|].
  split; [by eapply alloc_ok_domain, same_domain_write|]. split; [|right].
  - intros q n Hq _. split; [by apply Hlive|].
    intros bs <- Hbs. apply bytes_at_write_disjoint; [by apply Hp|]. rewrite Hk.
    pose proof (Hd _ _ Hq). lia.
  - split_and!; [done|done|apply write_bytes_at|]. intros q n Hq Hn. pose proof (Hd q n Hq). lia.
Qed.

Lemma keeps_weaken p st m st' m' : keeps 0 st m st' m' → keeps p st m st' m'.
Proof. intros Hk q n Hq _. apply Hk; [done|]. apply live_range in Hq. lia. Qed.

(** The two arrays after the entry at the search's end has been written. *)
Lemma write_slot st m ok es T k v d e :
  Forall2 (entry_rel st m ok) es T → tab_ok fnv64a T → first_stop fnv64a T k d →
  entry_rel st m ok e (Some (k, v)) →
  let j := (fnv64a k + d) mod Z.of_nat (length T) in
  ∃ T', Forall2 (entry_rel st m ok) (<[Z.to_nat j := e]> es) T' ∧ tab_ok fnv64a T' ∧
    length T' = length T ∧ tab_map T' = <[k := v]> (tab_map T) ∧
    length (omap id T') =
      (length (omap id T) + if slot T (fnv64a k + d) is Some _ then 0 else 1)%nat.
Proof.
  intros HF HT Hd He j. exists (<[Z.to_nat j := Some (k, v)]> T). split_and!.
  - by apply Forall2_insert.
  - by apply tab_insert_ok.
  - apply length_insert.
  - by apply tab_insert_map.
  - by apply (tab_insert_count fnv64a).
Qed.

Section set_entry.
Context (st : A) (m : mem) (ok : Z → Prop) (es : list hm_entry) (T : list (option (list Z * Z)))
  (key : Z) (k : list Z) (v : Z).
Context (HF : Forall2 (entry_rel st m ok) es T) (HT : tab_ok fnv64a T).
Context (Hroom : (length (omap id T) < length T)%nat) (Hsz : Z.of_nat (length T) ≤ 2 ^ 63).
Context (Hlive : live st key KEY_LEN) (Hkey : bytes_at m key k) (Hk : length k = 4%nat).
Context (Hv : v ≠ 0).

(** What the table looks like after a successful [set_entry]. *)
Definition set_done (st' : A) (m' : mem) (es' : list hm_entry)
    (T' : list (option (list Z * Z))) : Prop :=
  Forall2 (entry_rel st' m' ok) es' T' ∧ tab_ok fnv64a T' ∧ length T' = length T ∧
  tab_map T' = <[k := v]> (tab_map T).

(** With a NULL [plength]: the key pointer itself is stored. *)
Lemma set_entry_move :
  ok key →
  ∃ r es' T', set_entry st m es (Z.of_nat (length T)) key v None = Ok (r, st, m, es', None) ∧
    set_done st m es' T' ∧ (length (omap id T') ≤ length (omap id T) + 1)%nat.
Proof using All.
  intros Hok. destruct (find_entry_spec st m ok es T key k HF HT Hroom Hsz Hkey Hk) as (d & Hd & E).
  unfold set_entry. rewrite E. simpl_res.
  set (j := (fnv64a k + d) mod Z.of_nat (length T)) in *.
  assert (Hj : 0 ≤ j < Z.of_nat (length T)) by (apply Z.mod_pos_bound; lia).
  destruct (entry_slot st m ok es T j HF Hj) as (e & -> & He & Hr). simpl_res.
  unfold j in Hr. rewrite slot_mod in Hr. pose proof Hlive as Hnz%live_range.
  destruct (slot T (fnv64a k + d)) as [[k' u]|] eqn:Es; cbn [filled].
  - destruct (first_stop_slot _ T k d HT Hd) as [[? _]|[u' Es']]; [congruence|].
    assert (k' = k) as -> by congruence.
    destruct (write_slot st m ok es T k v d (HmEntry (e_key e) v)) as (T' & ? & ? & ? & ? & Hc);
      [done..|by cbn in Hr |- *; intuition|]. rewrite Es in Hc.
    eexists _, _, T'. split; [done|]. split; [done|lia].
  - destruct (write_slot st m ok es T k v d (HmEntry key v)) as (T' & ? & ? & ? & ? & Hc);
      [done..|cbn; split_and!; (done || lia)|]. rewrite Es in Hc.
    eexists _, _, T'. split; [done|]. split; [done|lia].
Qed.

(** With the map's count behind [plength]: a new key is copied first. *)
Lemma set_entry_copy :
  alloc_ok st m → (∀ r, (∀ q n, live st q n → 0 < n → q ≠ r) → ok r) → Forall is_byte k →
  (∃ e, calloc st m KEY_LEN 1 = Err e ∧ tab_map T !! k = None ∧
     set_entry st m es (Z.of_nat (length T)) key v (Some (Z.of_nat (length (omap id T)))) = Err e) ∨
  ∃ r st' m' es' c', set_entry st m es (Z.of_nat (length T)) key v
      (Some (Z.of_nat (length (omap id T)))) = Ok (r, st', m', es', Some c') ∧
    alloc_ok st' m' ∧ keeps 0 st m st' m' ∧
    (r = 0 ∧ es' = es ∧ c' = Z.of_nat (length (omap id T)) ∧ tab_map T !! k = None ∧
       calloc st m KEY_LEN 1 = Ok (0, st', m) ∨
     r ≠ 0 ∧ bytes_at m' r k ∧ ∃ T', set_done st' m' es' T' ∧ c' = Z.of_nat (length (omap id T'))).
Proof using All.
  intros Halloc Hok Hby.
  destruct (find_entry_spec st m ok es T key k HF HT Hroom Hsz Hkey Hk) as (d & Hd & E).
  unfold set_entry. rewrite E. simpl_res.
  set (j := (fnv64a k + d) mod Z.of_nat (length T)) in *.
  assert (Hj : 0 ≤ j < Z.of_nat (length T)) by (apply Z.mod_pos_bound; lia).
  destruct (entry_slot st m ok es T j HF Hj) as (e & -> & He & Hr). simpl_res.
  unfold j in Hr. rewrite slot_mod in Hr.
  pose proof (first_stop_lookup fnv64a T k d HT Hd) as Hlook.
  destruct (slot T (fnv64a k + d)) as [[k' u]|] eqn:Es; cbn [filled].
  - right. destruct (first_stop_slot _ T k d HT Hd) as [[? _]|[u' Es']]; [congruence|].
    assert (k' = k) as -> by congruence. cbn in Hr.
    destruct (write_slot st m ok es T k v d (HmEntry (e_key e) v)) as (T' & ? & ? & ? & ? & Hc);
      [done..|cbn; intuition|]. rewrite Es in Hc.
    eexists _, st, m, _, _. split; [done|]. split; [done|]. split; [apply keeps_refl|]. right.
    split_and!; [tauto..|]. exists T'. split; [done|lia].
  - destruct (hm_strdup_spec st m key k Halloc Hlive Hkey Hk Hby)
      as [(er & Ec & ->)|(r & st' & m' & -> & Hok' & Hkeep & [(-> & -> & Ec)|(Hnz & Hlr & Hb & Hne)])];
      simpl_res.
    + left. by exists er.
    + right. eexists 0, st', m, es, _. split; [done|]. split; [done|]. split; [done|]. by left.
    + right. rewrite (proj2 (Z.eqb_neq r 0) Hnz).
      assert (HF' : Forall2 (entry_rel st' m' ok) es T).
      { eapply Forall2_impl; [exact HF|]. intros e0 o. apply (entry_rel_keeps 0 ok ok st m); [done|].
        intros q Hq Hq2. apply live_range in Hq. split; [lia|done]. }
      destruct (write_slot st' m' ok es T k v d (HmEntry r v)) as (T' & ? & ? & ? & ? & Hc);
        [done..|cbn; split_and!; (done || by apply Hok)|]. rewrite Es in Hc.
      eexists r, st', m', _, _. split; [done|]. split; [done|]. split; [done|]. right.
      split_and!; [done..|]. exists T'. split; [done|].
      unfold u64. rewrite wrap_small by lia. lia.
Qed.
End set_entry.

(** Inserting a list of bindings one after the other. *)
Definition insert_all (M : gmap (list Z) Z) (kvs : list (list Z * Z)) : gmap (list Z) Z :=
  foldl (λ M kv, <[kv.1 := kv.2]> M) M kvs.

Lemma insert_all_nodup M kvs :
  NoDup kvs.*1 → insert_all M kvs = list_to_map kvs ∪ M.
Proof.
  revert M. induction kvs as [|[k v] kvs IH]; intros M Hnd; cbn; [by rewrite map_empty_union|].
  cbn in Hnd. apply NoDup_cons in Hnd as [Hk Hnd].
  unfold insert_all in IH. rewrite IH by done. rewrite <- insert_union_l, insert_union_r; [done|].
  by apply not_elem_of_list_to_map_1.
Qed.

Lemma omap_id_replicate {B} n : omap id (replicate n (None : option B)) = [].
Proof. by induction n. Qed.

Lemma rehash_spec st m ok old Told es T :
  Forall2 (entry_rel st m ok) old Told →
  Forall2 (entry_rel st m ok) es T → tab_ok fnv64a T →
  (length (omap id T) + length (omap id Told) < length T)%nat →
  Z.of_nat (length T) ≤ 2 ^ 63 →
  ∃ es' T', rehash st m old es (Z.of_nat (length T)) = Ok (st, m, es') ∧
    Forall2 (entry_rel st m ok) es' T' ∧ tab_ok fnv64a T' ∧ length T' = length T ∧
    tab_map T' = insert_all (tab_map T) (omap id Told).
Proof.
  intros HF. revert es T.
  induction HF as [|e o old Told He HF IH]; intros es T HF' HT Hroom Hsz; cbn [rehash].
  { by exists es, T. }
  destruct o as [[k v]|].
  - destruct He as (Hnz & Hok & Hl & Hb & Hk & Hv & Hv0).
    rewrite (proj2 (Z.eqb_neq _ _) Hnz).
    change (omap id (Some (k, v) :: Told)) with ((k, v) :: omap id Told) in Hroom |- *.
    cbn [length] in Hroom.
    destruct (set_entry_move st m ok es T (e_key e) k (e_value e))
      as (r & es1 & T1 & -> & (HF1 & HT1 & Hl1 & Hm1) & Hc1); try done; [lia|congruence|].
    simpl_res. rewrite <- Hl1. destruct (IH es1 T1) as (es' & T' & E' & ? & ? & ? & Hm);
      [done..|lia|congruence|].
    exists es', T'. split; [done|]. split_and!; [done..|].
    rewrite Hm, Hm1. by rewrite Hv.
  - cbn in He. rewrite He. by apply IH.
Qed.

Lemma hm_expand_spec st m map T M :
  hm_rep st m map T M → 32 * capacity map ≤ max_request →
  (∃ e, calloc st m (capacity map * 2) 16 = Err e ∧ hm_expand st m map = Err e) ∨
  ∃ ok st' m' map' T', hm_expand st m map = Ok (ok, st', m', map') ∧
    keeps (entries_ptr map) st m st' m' ∧ hm_rep st' m' map' T' M ∧
    (ok = false → map' = map ∧ m' = m ∧ calloc st m (capacity map * 2) 16 = Ok (0, st', m)) ∧
    (ok = true → entries_ptr map' ≠ entries_ptr map ∧ capacity map' = capacity map * 2 ∧
                 count map' = count map ∧ grown st m map st' m') ∧
    ∀ q n, live st q n → 0 < n → q ≠ entries_ptr map → q ≠ entries_ptr map'.
Proof.
  intros Hrep Hmax. pose proof Hrep as [HF HT HM Hblk (j & Hj & Ecap) Hlen Hcnt Hroom Hok].
  unfold hm_expand, RESIZE_VAL.
  assert (Hpow : 0 < 2 ^ j ≤ 2 ^ 59)
    by (split; [apply Z.pow_pos_nonneg|apply Z.pow_le_mono_r]; lia).
  unfold u64. rewrite wrap_small by lia. rewrite (proj2 (Z.ltb_ge _ _)) by lia.
  destruct (calloc st m (capacity map * 2) 16) as [[[p' st1] m1]|e] eqn:E; simpl_res; [right|left; by exists e].
  pose proof E as (Hok1 & Hlive & Hcase)%calloc_law; [|done|lia..].
  destruct Hcase as [[-> ->]|((Hp' & Hl' & Hd) & _ & Hpres)].
  { exists false, st1, m, map, T. assert (Hkeep : keeps (entries_ptr map) st m st1 m) by (intros q n Hq _; auto).
    split_and!; try done. split; try done.
    - eapply Forall2_impl; [exact HF|]. intros e o.
      apply (entry_rel_keeps 0 _ _ st m); [intros q n Hq _; auto|].
      intros q Hq Hne. apply live_range in Hq. split; [lia|done].
    - by apply Hlive.
    - by exists j. }
  assert (Hkeep : keeps 0 st m st1 m1).
  { intros q n Hq _. split; [by apply Hlive|]. intros bs <- Hbs. by apply Hpres. }
  assert (Hpp : ∀ q n, live st q n → 0 < n → q ≠ p').
  { intros q n Hq Hn. pose proof (Hd q _ Hq). lia. }
  set (ok := λ q, q ≠ entries_ptr map ∧ q ≠ p').
  destruct (rehash_spec st1 m1 ok (entries map) T
      (replicate (Z.to_nat (capacity map * 2)) (HmEntry 0 0))
      (replicate (Z.to_nat (capacity map * 2)) None)) as (es' & T' & ER & HF' & HT' & Hl2 & HM').
  { eapply Forall2_impl; [exact HF|]. intros e o.
    apply (entry_rel_keeps 0 _ _ st m); [done|]. intros q Hq Hne. pose proof Hq as Hq0%live_range.
    split; [lia|]. split; [done|by apply (Hpp _ _ Hq)]. }
  { by apply Forall2_replicate. }
  { apply tab_ok_empty. }
  { rewrite omap_id_replicate, length_replicate. cbn [length]. lia. }
  { rewrite length_replicate. lia. }
  rewrite length_replicate, Z2Nat.id in ER by lia. rewrite (proj2 (Z.eqb_neq p' 0) Hp'), ER. simpl_res.
  pose proof (Hlive _ _ Hblk) as Hblk1.
  destruct (free_law st1 m1 (entries_ptr map) (16 * capacity map)) as (st2 & E2 & Hok2 & Hfree);
    [done|done|lia|]. rewrite E2. simpl_res.
  eexists true, _, _, _, T'. split; [done|]. cbn [entries_ptr].
  assert (HTM : tab_map T' = M).
  { rewrite HM', tab_map_empty, insert_all_nodup by apply tab_ok_nodup, HT.
    rewrite map_union_empty. exact HM. }
  assert (Hpe : p' ≠ entries_ptr map) by (pose proof (Hd _ _ Hblk); lia).
  cbn [capacity count]. split_and!; [| |done| |by intros q n Hq Hn _; apply (Hpp q n)].
  - intros q n Hq Hne. split; [auto|]. intros bs <- Hbs. by apply Hpres.
  - rewrite length_replicate in Hl2. split; cbn [entries_ptr entries capacity count]; try done.
    + eapply Forall2_impl; [exact HF'|]. intros e o.
      apply (entry_rel_keeps (entries_ptr map) ok _ st1 m1).
      * intros q n Hq Hne. split; [auto|done].
      * by intros q _ [? ?].
    + replace (16 * (capacity map * 2)) with (capacity map * 2 * 16) by lia. auto.
    + exists (j + 1). split; [|rewrite Z.pow_add_r by lia; lia].
      assert (Hr := live_range _ _ _ Hl'). split; [lia|].
      destruct (decide (j ≤ 57)); [lia|]. assert (2 ^ 58 ≤ 2 ^ j) by (apply Z.pow_le_mono_r; lia). lia.
    + lia.
    + rewrite Hcnt, !(tab_size fnv64a) by done. congruence.
    + lia.
  - intros _. split_and!; [done|done|done|]. by exists p', st1.
Qed.

Lemma set_entry_rep st m map T M key k v :
  hm_rep st m map T M → live st key KEY_LEN → bytes_at m key k → length k = 4%nat →
  Forall is_byte k → v ≠ 0 → count map + 1 < capacity map →
  (∃ e, calloc st m KEY_LEN 1 = Err e ∧ M !! k = None ∧
     set_entry st m (entries map) (capacity map) key v (Some (count map)) = Err e) ∨
  ∃ r st' m' es' c', set_entry st m (entries map) (capacity map) key v (Some (count map)) =
      Ok (r, st', m', es', Some c') ∧ keeps 0 st m st' m' ∧ (r ≠ 0 → bytes_at m' r k) ∧
    hm_models st' m' (Hm (entries_ptr map) es' (capacity map) c')
      (if decide (r = 0) then M else <[k := v]> M) ∧
    (r = 0 → M !! k = None ∧ ∃ st2, calloc st m KEY_LEN 1 = Ok (0, st2, m)).
Proof.
  intros [HF HT HM Hblk Hcap Hlen Hcnt Hroom Hok] Hl Hb Hk Hby Hv Hspare.
  pose proof Hcap as (j & Hj & Ecap).
  assert (0 < 2 ^ j ≤ 2 ^ 59)
    by (split; [apply Z.pow_pos_nonneg|apply Z.pow_le_mono_r]; lia).
  destruct (set_entry_copy st m (.≠ entries_ptr map) (entries map) T key k v HF HT)
    as [(e & Ec & HN & E)|(r & st' & m' & es' & c' & E & Hok' & Hkeep & Hcase)];
    [lia|lia|done..| |done| |].
  { intros r Hr. apply not_eq_sym, (Hr _ _ Hblk). lia. }
  { left. exists e. rewrite Hlen, Hcnt, <- HM. auto. }
  right. rewrite Hlen, Hcnt, E. exists r, st', m', es', c'. split; [done|]. split; [done|].
  assert (Hblk' : live st' (entries_ptr map) (16 * capacity map)).
  { apply Hkeep; [done|]. apply live_range in Hblk. lia. }
  destruct Hcase as [(-> & -> & -> & HN & Ec)|(Hnz & Hbr & T' & (HF' & HT' & Hl' & HM') & ->)].
  - split; [done|]. rewrite decide_True by done. split; [exists T|by rewrite <- HM; eauto].
    assert (HF2 : Forall2 (entry_rel st' m' (.≠ entries_ptr map)) (entries map) T).
    { eapply Forall2_impl; [exact HF|]. intros e0 o. apply (entry_rel_keeps 0 _ _ st m); [done|].
      intros q Hq Hq2. apply live_range in Hq. split; [lia|done]. }
    split; cbn [entries_ptr entries capacity count]; rewrite ?Hlen in *; eauto; lia.
  - split; [done|]. rewrite decide_False by done. split; [exists T'|done].
    assert (length (omap id T') ≤ length (omap id T) + 1)%nat.
    { rewrite !(tab_size fnv64a) by done. rewrite HM'. rewrite map_size_insert. case_match; unfold id; lia. }
    split; cbn [entries_ptr entries capacity count]; rewrite ?Hlen in *; eauto; [congruence|lia].
Qed.

Lemma load_crowded st m map T M :
  hm_rep st m map T M → load_reached (count map) (capacity map) = true → crowded map M.
Proof.
  intros [_ HT <- _ (j & Hj & Ecap) _ Hcnt _ _] El. unfold crowded. rewrite <- (tab_size fnv64a) by done.
  rewrite <- Hcnt. intros Hs. rewrite Ecap in *. apply load_reached_true; [lia|lia|done].
Qed.

Lemma hm_set_spec st m map M key k v :
  hm_models st m map M → live st key KEY_LEN → key ≠ entries_ptr map →
  bytes_at m key k → length k = 4%nat → Forall is_byte k → v ≠ 0 → 32 * capacity map ≤ max_request →
  match hm_set st m map key v with
  | Ok (r, st', m', map') =>
      hm_models st' m' map' (if decide (r = 0) then M else <[k := v]> M) ∧
      (r ≠ 0 → bytes_at m' r k) ∧ keeps (entries_ptr map) st m st' m' ∧
      (capacity map' = capacity map ∨ capacity map' = 2 * capacity map ∧ crowded map M) ∧
      (r = 0 → ∃ st1 m1 n s st2,
         hm_request st m map M k st1 m1 n s ∧ calloc st1 m1 n s = Ok (0, st2, m1)) ∧
      ∀ q n, live st q n → 0 < n → q ≠ entries_ptr map → q ≠ entries_ptr map'
  | Err e => ∃ st1 m1 n s, hm_request st m map M k st1 m1 n s ∧ calloc st1 m1 n s = Err e
  end.
Proof.
  intros [T HT] Hl Hne Hb Hk Hby Hv Hmax. unfold hm_set.
  rewrite (proj2 (Z.eqb_neq v 0) Hv). cbn [negb]. simpl_res.
  destruct (rep_capacity _ _ _ _ _ HT) as (j & Hj & Ecap).
  assert (0 < 2 ^ j) by (apply Z.pow_pos_nonneg; lia).
  pose proof (rep_room _ _ _ _ _ HT) as Hroom. pose proof (rep_alloc _ _ _ _ _ HT) as Hok.
  destruct (load_reached (count map) (capacity map)) eqn:El.
  - apply (load_crowded _ _ _ _ _ HT) in El.
    destruct (hm_expand_spec st m map T M HT Hmax)
      as [(e & Ec & ->)|(ok & st1 & m1 & map1 & T1 & -> & Hkeep & HT1 & Hf & Ht & Hq)]; simpl_res.
    { eexists st, m, _, _. split; [by constructor|done]. }
    destruct ok.
    + destruct (Hkeep key KEY_LEN Hl Hne) as [Hl1 Hb1]. destruct (Ht eq_refl) as (Hn1 & Ec1 & En1 & Hg).
      pose proof (rep_alloc _ _ _ _ _ HT1) as Hok1.
      destruct (set_entry_rep st1 m1 map1 T1 M key k v HT1)
        as [(e & Ec & HN & ->)|(r & st' & m' & es' & c' & -> & Hkeep' & Hr & Hm & Hnull)];
        [done|apply Hb1; [by rewrite Hk|done]|done..|lia| |]; simpl_res.
      { eexists st1, m1, _, _. split; [by constructor; auto|done]. }
      split; [done|]. split; [done|]. split; [by eapply keeps_trans, keeps_weaken|].
      cbn [capacity entries_ptr]. split; [right; split; [lia|done]|]. split; [|done].
      intros (HN & st2 & Ec)%Hnull. eexists st1, m1, _, _, st2. split; [by constructor; auto|done].
    + destruct (Hf eq_refl) as (-> & -> & Ec). split; [rewrite decide_True by done; by exists T1|].
      split; [done|]. split; [done|]. split; [by left|]. split; [|done].
      intros _. eexists st, m, _, _, st1. split; [by constructor|done].
  - rewrite Ecap in El. apply load_reached_false in El; [|lia]. simpl_res.
    destruct (set_entry_rep st m map T M key k v HT)
      as [(e & Ec & HN & ->)|(r & st' & m' & es' & c' & -> & Hkeep' & Hr & Hm & Hnull)];
      [done..|lia| |]; simpl_res.
    { eexists st, m, _, _. split; [by constructor; auto|done]. }
    split; [done|]. split; [done|]. split; [by apply keeps_weaken|].
    cbn [capacity entries_ptr]. split; [by left|]. split; [|done].
    intros (HN & st2 & Ec)%Hnull. eexists st, m, _, _, st2. split; [by constructor; auto|done].
Qed.

(** A client that sets one key after the other, and the finite map it leaves:
    [rs] are the results, 0 where memory ran out. *)
Fixpoint hm_set_all st m (map : hm) (kvs : list (Z * Z)) : res (list Z * A * mem * hm) :=
  match kvs with
  | [] => Ok ([], st, m, map)
  | (key, v) :: kvs =>
      '(r, st, m, map) ← hm_set st m map key v;
      '(rs, st, m, map) ← hm_set_all st m map kvs;
      Ok (r :: rs, st, m, map)
  end.

Fixpoint bind_all (M : gmap (list Z) Z) (bs : list (list Z * Z)) (rs : list Z) : gmap (list Z) Z :=
  match bs, rs with
  | (k, v) :: bs, r :: rs => bind_all (if decide (r = 0) then M else <[k := v]> M) bs rs
  | _, _ => M
  end.

(** The pair [kv] of a key pointer and a value stands for the binding [b]. *)
Definition key_binds st m (kv : Z * Z) (b : list Z * Z) : Prop :=
  live st kv.1 KEY_LEN ∧ bytes_at m kv.1 b.1 ∧ length b.1 = 4%nat ∧ Forall is_byte b.1 ∧
  kv.2 = b.2 ∧ b.2 ≠ 0.

Lemma key_binds_keeps p st m st' m' kv b :
  keeps p st m st' m' → kv.1 ≠ p → key_binds st m kv b → key_binds st' m' kv b.
Proof.
  intros Hk Hp (Hl & Hb & Hlen & Hrest). destruct (Hk _ _ Hl Hp) as [Hl' Hb'].
  split; [done|]. split; [|done]. apply Hb'; [by rewrite Hlen|done].
Qed.

(** Where [hm_set_all] stops: the keys [done] are set, and setting the next one
    makes a request to the allocator of which [R] holds. *)
Definition stops_at st m (map : hm) (M : gmap (list Z) Z) (kvs : list (Z * Z)) (bs : list (list Z * Z))
    (R : A → mem → Z → Z → Prop) : Prop :=
  ∃ done kv rest bdone b brest rs st1 m1 map1 st2 m2 n s,
    kvs = done ++ kv :: rest ∧ bs = bdone ++ b :: brest ∧ length bdone = length done ∧
    hm_set_all st m map done = Ok (rs, st1, m1, map1) ∧
    hm_request st1 m1 map1 (bind_all M bdone rs) b.1 st2 m2 n s ∧ R st2 m2 n s.

Lemma stops_at_mono st m map M kvs bs (R R' : A → mem → Z → Z → Prop) :
  (∀ st m n s, R st m n s → R' st m n s) → stops_at st m map M kvs bs R → stops_at st m map M kvs bs R'.
Proof.
  intros HR (dn & kv & rest & bd & b & br & rs & st1 & m1 & map1 & st2 & m2 & n & s & E1 & E2 & E3 & E4 & E5 & Hr).
  exists dn, kv, rest, bd, b, br, rs, st1, m1, map1, st2, m2, n, s. auto 10.
Qed.

(** A request within the laws of the allocator that [calloc] is undefined on. *)
Definition calloc_fails (e : stop) (st : A) (m : mem) (n s : Z) : Prop :=
  alloc_ok st m ∧ 0 < n * s ≤ max_request ∧ 0 ≤ n ∧ 0 ≤ s ∧ calloc st m n s = Err e.

Lemma request_size st m map M k st1 m1 n s :
  hm_models st m map M → 32 * capacity map ≤ max_request → hm_request st m map M k st1 m1 n s →
  alloc_ok st1 m1 ∧ 0 < n * s ≤ max_request ∧ 0 ≤ n ∧ 0 ≤ s.
Proof.
  intros [T HT] Hmax Hr. pose proof small_request.
  destruct (rep_capacity _ _ _ _ _ HT) as (j & Hj & Ecap).
  assert (0 < 2 ^ j) by (apply Z.pow_pos_nonneg; lia).
  destruct Hr; unfold KEY_LEN; split_and!; (done || lia).
Qed.

Lemma hm_set_all_spec (N : Z) kvs : ∀ st m map M bs,
  N < 2 ^ 24 → 32 * (4 + 3 * N) ≤ max_request → capacity map ≤ 4 + 3 * N →
  Z.of_nat (base.size M + length kvs) ≤ N →
  hm_models st m map M → Forall2 (key_binds st m) kvs bs → Forall (λ kv, kv.1 ≠ entries_ptr map) kvs →
  match hm_set_all st m map kvs with
  | Ok (rs, st', m', map') =>
      length rs = length kvs ∧ hm_models st' m' map' (bind_all M bs rs) ∧
      ((∀ st m n s st', alloc_ok st m → 0 < n * s ≤ max_request → 0 ≤ n → 0 ≤ s →
          calloc st m n s ≠ Ok (0, st', m)) → Forall (λ r, r ≠ 0) rs) ∧
      ∀ q n, live st q n → 0 < n → q ≠ entries_ptr map →
        live st' q n ∧ ∀ b, Z.of_nat (length b) = n → bytes_at m q b → bytes_at m' q b
  | Err e => stops_at st m map M kvs bs (calloc_fails e)
  end.
Proof.
  induction kvs as [|[key v] kvs IH]; intros st m map M bs HN Hmax Hcap Hsz Hm HF Hne.
  - apply Forall2_nil_inv_l in HF as ->. cbn. split_and!; [done..|by intros].
  - apply Forall2_cons_inv_l in HF as ([k v'] & bs' & (Hl & Hb & Hk & Hby & Ev & Hv) & HF & ->).
    apply Forall_cons in Hne as [Hne1 Hne]. cbn [fst snd length] in *. subst v'.
    assert (Hcap2 : 32 * capacity map ≤ max_request) by lia.
    pose proof (hm_set_spec st m map M key k v Hm Hl Hne1 Hb Hk Hby Hv Hcap2) as Hs.
    cbn [hm_set_all]. destruct (hm_set st m map key v) as [[[[r st1] m1] map1]|e] eqn:E; simpl_res.
    2:{ destruct Hs as (st2 & m2 & n & s & Hr & Ec). destruct (request_size _ _ _ _ _ _ _ _ _ Hm Hcap2 Hr) as (? & ? & ? & ?).
        exists [], (key, v), kvs, [], (k, v), bs', [], st, m, map, st2, m2, n, s.
        unfold calloc_fails. split_and!; (done || lia). }
    destruct Hs as (Hm1 & _ & Hkeep & Hc1 & Hnull & Hnew).
    assert (Hlive : ∀ kv b, key_binds st m kv b → live st kv.1 KEY_LEN) by (by intros ? ? [? _]).
    assert (HF1 : Forall2 (key_binds st1 m1) kvs bs' ∧ Forall (λ kv, kv.1 ≠ entries_ptr map1) kvs).
    { clear IH E Hsz. induction HF as [|kv b kvs bs' Hkv HF IH]; [done|].
      apply Forall_cons in Hne as [Hne2 Hne]. destruct (IH Hne) as [? ?].
      split; constructor; try done; [by eapply key_binds_keeps|by apply (Hnew _ _ (Hlive _ _ Hkv))]. }
    destruct HF1 as [HF1 Hne']. set (M1 := if decide (r = 0) then M else <[k := v]> M) in *.
    assert (Hsz1 : (base.size M1 ≤ S (base.size M))%nat).
    { unfold M1. case_decide; [lia|]. rewrite map_size_insert. case_match; unfold id; lia. }
    assert (Hcap1 : capacity map1 ≤ 4 + 3 * N).
    { destruct Hc1 as [->|[-> Hcr]]; [done|]. unfold crowded in Hcr. lia. }
    specialize (IH st1 m1 map1 M1 bs' HN Hmax Hcap1 ltac:(lia) Hm1 HF1 Hne').
    destruct (hm_set_all st1 m1 map1 kvs) as [[[[rs st'] m'] map']|e]; simpl_res.
    + destruct IH as (Hlen & Hm' & Hz & Hkeep'). cbn [bind_all length].
      split; [by rewrite Hlen|]. split; [done|]. split.
      { intros Hno. constructor; [|by apply Hz]. intros ->.
        destruct (Hnull eq_refl) as (st2 & m2 & n & s & st3 & Hr & Ec).
        destruct (request_size _ _ _ _ _ _ _ _ _ Hm Hcap2 Hr) as (? & ? & ? & ?). by eapply Hno. }
      intros q n Hq Hn Hqe. destruct (Hkeep q n Hq Hqe) as [Hq1 Hb1].
      destruct (Hkeep' q n Hq1 Hn (Hnew _ _ Hq Hn Hqe)) as [Hq2 Hb2]. auto.
    + destruct IH as (dn & kv & rest & bd & b & br & rs & st2 & m2 & map2 & st3 & m3 & n & s & -> & -> & El & Es & Hr & Hrest).
      exists ((key, v) :: dn), kv, rest, ((k, v) :: bd), b, br, (r :: rs), st2, m2, map2, st3, m3, n, s.
      cbn [app length hm_set_all bind_all]. rewrite E. simpl_res. rewrite Es. simpl_res.
      split_and!; try done; [by rewrite El|apply Hrest..].
Qed.

Lemma bind_all_set (M : gmap (list Z) Z) bs rs :
  Forall (λ r, r ≠ 0) rs → length rs = length bs → bind_all M bs rs = insert_all M bs.
Proof.
  revert M rs. induction bs as [|[k v] bs IH]; intros M [|r rs] Hr Hl; try done.
  apply Forall_cons in Hr as [Hr0 Hr]. cbn [bind_all]. rewrite decide_False by done.
  rewrite IH; [done|done|by injection Hl].
Qed.

(** The bindings of a table in index order, as (key bytes, value) and as the
    (key pointer, value) pairs an iterator yields. *)
Lemma entries_bindings st m ok es T :
  Forall2 (entry_rel st m ok) es T →
  Forall2 (λ e kv, bytes_at m (e_key e) kv.1 ∧ e_value e = kv.2)
    (filter (λ e, e_key e ≠ 0) es) (omap id T).
Proof.
  induction 1 as [|e o es T He HF IH]; [constructor|].
  destruct o as [[k v]|]; cbn in He.
  - rewrite filter_cons_True by tauto. change (omap id (Some (k, v) :: T)) with ((k, v) :: omap id T).
    constructor; [cbn; tauto|done].
  - rewrite filter_cons_False by tauto. done.
Qed.
End refinement.

(** [ptr] applied to a list of entries, in order. *)
Fixpoint visit {S : Type} (ptr : Z → Z → S → res S) (es : list hm_entry) (s : S) : res S :=
  match es with
  | [] => Ok s
  | e :: es => s ← ptr (e_key e) (e_value e) s; visit ptr es s
  end.

Section iteration.
Context (map : hm) (Hcap : capacity map = Z.of_nat (length (entries map))).

Abbreviation rest i := (filter (λ e, e_key e ≠ 0) (drop i (entries map))).

(** [hm_next] skips the empty entries. *)
Lemma hm_next_spec kp v i :
  (i ≤ length (entries map))%nat →
  ∃ i', (i ≤ i' ≤ length (entries map))%nat ∧
  match rest i with
  | [] => hm_next map (Hmi kp v (Z.of_nat i)) = Ok (false, Hmi kp v (Z.of_nat i'))
  | e :: es => hm_next map (Hmi kp v (Z.of_nat i)) =
               Ok (true, Hmi (e_key e) (e_value e) (Z.of_nat i')) ∧ rest i' = es ∧ (i < i')%nat
  end.
Proof using Hcap.
  intros Hi. unfold hm_next. rewrite Hcap, Nat2Z.id.
  assert (Hf : (length (entries map) - i < S (length (entries map)))%nat) by lia. revert Hf.
  generalize (S (length (entries map))). intros fuel.
  revert i Hi. induction fuel as [|fuel IH]; intros i Hi Hf; [lia|]. cbn [iter it_index it_key it_value].
  destruct (decide (i = length (entries map))) as [->|Hne].
  - exists (length (entries map)). rewrite drop_all. zbool. done.
  - zbool. destruct (lookup_lt_is_Some_2 (entries map) i) as [e He]; [lia|].
    unfold entry_at. rewrite Nat2Z.id, He. simpl_res. rewrite (drop_S _ _ _ He).
    replace (Z.of_nat i + 1) with (Z.of_nat (S i)) by lia.
    destruct (Z.eqb_spec (e_key e) 0) as [E0|E0]; cbn [negb]; simpl_res.
    + rewrite filter_cons_False by tauto. destruct (IH (S i)) as (i' & Hi' & H); [lia..|].
      exists i'. split; [lia|]. destruct (rest (S i)); [done|]. destruct H as (? & ? & ?).
      split_and!; [done..|lia].
    + rewrite filter_cons_True by done. exists (S i). split; [lia|]. split_and!; [done..|lia].
Qed.

Lemma foreach_from {S} (ptr : Z → Z → S → res S) fuel kp v i (s : S) :
  (i ≤ length (entries map))%nat → (length (entries map) - i < fuel)%nat →
  iter fuel (λ '(it, s),
    '(more, it) ← hm_next map it;
    if more : bool then s ← ptr (it_key it) (it_value it) s; Ok (Next (it, s))
    else Ok (Done s)) (Hmi kp v (Z.of_nat i), s) = visit ptr (rest i) s.
Proof using Hcap.
  revert kp v i s. induction fuel as [|fuel IH]; intros kp v i s Hi Hf; [lia|]. cbn [iter].
  destruct (hm_next_spec kp v i Hi) as (i' & Hi' & H).
  destruct (rest i) as [|e es] eqn:E; [by rewrite H|].
  destruct H as (-> & <- & Hlt). simpl_res. cbn [it_key it_value visit].
  destruct (ptr (e_key e) (e_value e) s) as [s'|]; simpl_res; [|done]. apply IH; lia.
Qed.

Lemma hm_foreach_visit {S} (ptr : Z → Z → S → res S) (s : S) :
  hm_foreach map hm_iter ptr s = visit ptr (filter (λ e, e_key e ≠ 0) (entries map)) s.
Proof using Hcap.
  unfold hm_foreach. rewrite Hcap, Nat2Z.id. apply (foreach_from ptr _ 0 0 0%nat); lia.
Qed.
End iteration.

(** ** Properties *)

(** C8: [hm_set] refines insertion: on a map that represents [M] it returns the
    address of a stored copy of the key and a map that represents
    [<[k := v]> M]; the probing and the growth of the table terminate, every
    other live object keeps its bytes, and the table keeps its size or doubles,
    which it does only three quarters full.  It fails only because the
    allocator does: it returns NULL, with a map that still represents [M], only
    when [calloc] returned NULL to it, and is undefined only when a call of
    [calloc] is, either for the doubled table, three quarters full, or for the
    copy of a key that [M] does not bind. *)
Theorem hm_set_insert {A} `{AllocatorLaws A} (st : A) (m : mem) (map : hm)
    (M : gmap (list Z) Z) (key v : Z) (k : list Z) :
  hm_models st m map M → live st key KEY_LEN → key ≠ entries_ptr map →
  bytes_at m key k → length k = 4%nat → Forall is_byte k → v ≠ 0 → 32 * capacity map ≤ max_request →
  match hm_set st m map key v with
  | Ok (r, st', m', map') =>
      hm_models st' m' map' (if decide (r = 0) then M else <[k := v]> M) ∧
      (r ≠ 0 → bytes_at m' r k) ∧ keeps (entries_ptr map) st m st' m' ∧
      (capacity map' = capacity map ∨ capacity map' = 2 * capacity map ∧ crowded map M) ∧
      (r = 0 → ∃ st1 m1 n s st2,
         hm_request st m map M k st1 m1 n s ∧ calloc st1 m1 n s = Ok (0, st2, m1))
  | Err e => ∃ st1 m1 n s, hm_request st m map M k st1 m1 n s ∧ calloc st1 m1 n s = Err e
  end.
Proof.
  intros. pose proof (hm_set_spec st m map M key k v) as Hs.
  destruct (hm_set st m map key v) as [[[[r st'] m'] map']|e]; [|by apply Hs].
  destruct Hs as (? & ? & ? & ? & ? & _); done.
Qed.

(** C9: [hm_get] refines lookup: it returns, with the value bound to the key's
    bytes, or NULL when they are not bound. *)
Theorem hm_get_lookup {A} `{AllocatorLaws A} (st : A) (m : mem) (map : hm)
    (M : gmap (list Z) Z) (key : Z) (k : list Z) :
  hm_models st m map M → bytes_at m key k → length k = 4%nat →
  hm_get m map key = Ok (default 0 (M !! k)).
Proof. intros [T HT] Hb Hk. by apply (hm_get_spec st m map T). Qed.

(** [hm_foreach] on a fresh iterator calls its function once on each binding
    of the represented map, and on nothing else, in some order. *)
Lemma hm_foreach_all {A} `{AllocatorLaws A} {S : Type} (st : A) (m : mem) (map : hm)
    (M : gmap (list Z) Z) (ptr : Z → Z → S → res S) (s : S) :
  hm_models st m map M →
  ∃ es kvs, hm_foreach map hm_iter ptr s = visit ptr es s ∧
    Forall2 (λ e kv, bytes_at m (e_key e) kv.1 ∧ e_value e = kv.2) es kvs ∧
    kvs ≡ₚ map_to_list M.
Proof.
  intros [T [HF HT HM Hblk Hcap Hlen Hcnt Hroom _]].
  eexists _, (omap id T). split; [|split].
  - apply hm_foreach_visit. by rewrite (Forall2_length _ _ _ HF).
  - by eapply entries_bindings.
  - rewrite <- HM. symmetry. by apply (tab_map_to_list fnv64a).
Qed.

(** [hm_create] takes nothing from the objects that exist, and the table it
    allocates is none of them; it fails only as [malloc] and [calloc] do. *)
Lemma hm_create_spec {A} `{AllocatorLaws A} (st : A) (m : mem) :
  alloc_ok st m →
  match hm_create st m with
  | Ok (st', m', o) =>
      alloc_ok st' m' ∧
      (∀ q n, live st q n → 0 < n →
         live st' q n ∧ ∀ b, Z.of_nat (length b) = n → bytes_at m q b → bytes_at m' q b) ∧
      match o with
      | Some map => hm_models st' m' map ∅ ∧ capacity map = 4 ∧ ∀ q n, live st q n → 0 < n → q ≠ entries_ptr map
      | None => m' = m ∧
          (malloc st 24 = Ok (0, st') ∨
           ∃ p st1 st2, malloc st 24 = Ok (p, st1) ∧ alloc_ok st1 m ∧ calloc st1 m INITIAL_CAPACITY 16 = Ok (0, st2, m))
      end
  | Err e =>
      ∃ p st1, malloc st 24 = Ok (p, st1) ∧ p ≠ 0 ∧ alloc_ok st1 m ∧ calloc st1 m INITIAL_CAPACITY 16 = Err e
  end.
Proof.
  unfold hm_create. intros Hok. pose proof small_request as Hmax.
  destruct (malloc_law st m 24) as (q0 & st1 & Em & Hok1 & Hl1 & Hcase); [done|lia|]. rewrite Em. simpl_res.
  destruct Hcase as [->|(Hq0 & Hlq & Hd1)].
  { split; [done|]. split; [|by auto]. intros q n Hq _. auto. }
  rewrite (proj2 (Z.eqb_neq q0 0) Hq0).
  destruct (calloc st1 m INITIAL_CAPACITY 16) as [[[p st2] m2]|e] eqn:E; simpl_res; [|by exists q0, st1].
  pose proof E as (Hok2 & Hl2 & Hcase)%calloc_law; [|done|unfold INITIAL_CAPACITY; lia..].
  destruct Hcase as [[-> ->]|((Hp & Hlp & Hd2) & _ & Hb)].
  - destruct (free_law st2 m q0 24) as (st3 & E3 & Hok3 & Hl3); [done|by apply Hl2|lia|].
    cbn [Z.eqb]. rewrite E3. simpl_res. split; [done|]. split; [|split; [done|right; by eauto 6]].
    intros q n Hq Hn. split; [|done]. apply Hl3; [by apply Hl2, Hl1|]. pose proof (Hd1 q n Hq). lia.
  - rewrite (proj2 (Z.eqb_neq p 0) Hp). split; [done|]. split.
    { intros q n Hq _. split; [by apply Hl2, Hl1|]. intros b <-. apply Hb. by apply Hl1. }
    split; [|split; [done|]; cbn; intros q n Hq%Hl1 Hn; pose proof (Hd2 q n Hq); unfold INITIAL_CAPACITY in *; lia].
    exists (replicate 4 None). split; cbn [entries_ptr entries capacity count].
    + by repeat constructor.
    + apply tab_ok_empty.
    + apply tab_map_empty.
    + exact Hlp.
    + by exists 0.
    + done.
    + done.
    + done.
    + done.
Qed.

(** Concrete memory for the witnesses: the key _PTS at 16, the heap from 64. *)
Definition demo_mem : mem := write_bytes ∅ 16 [95; 80; 84; 83].

Definition demo_map : hm :=
  match hm_create (A := Z) 64 demo_mem with Ok (_, _, Some map) => map | _ => Hm 0 [] 0 0 end.

Definition demo_st : Z := match hm_create (A := Z) 64 demo_mem with Ok (st, _, _) => st | _ => 0 end.

Definition demo_heap : mem := match hm_create (A := Z) 64 demo_mem with Ok (_, m, _) => m | _ => ∅ end.

Lemma demo_models : hm_models (A := Z) demo_st demo_heap demo_map ∅.
Proof.
  pose proof (hm_create_spec (A := Z) 64 demo_mem) as Hs. unfold demo_st, demo_heap, demo_map.
  specialize (Hs ltac:(cbn; lia)).
  destruct (hm_create (A := Z) 64 demo_mem) as [[[st m] [map|]]|] eqn:E; [apply Hs|by vm_compute in E..].
Qed.

Lemma demo_key : bytes_at demo_heap 16 [95; 80; 84; 83].
Proof.
  intros i b Hi. do 4 (destruct i as [|i]; [cbn in Hi; injection Hi as <-; by vm_compute|]).
  by cbn in Hi.
Qed.

(** The copy of the key is the block at 152. *)
Lemma hm_set_insert_witness :
  match hm_set (A := Z) demo_st demo_heap demo_map 16 7 with
  | Ok (r, st', m', map') =>
      r = 152 ∧ hm_models (A := Z) st' m' map' (<[[95; 80; 84; 83] := 7]> ∅) ∧ bytes_at m' 152 [95; 80; 84; 83] ∧
      capacity map' = 4
  | Err _ => False
  end.
Proof.
  assert (Hl : live (A := Z) demo_st 16 KEY_LEN) by (cbn; vm_compute; intuition congruence).
  assert (Hne : 16 ≠ entries_ptr demo_map) by (by vm_compute).
  assert (Hv : 7 ≠ 0) by lia.
  assert (Hby : Forall is_byte [95; 80; 84; 83]) by (repeat constructor; by vm_compute).
  assert (Hmax : 32 * capacity demo_map ≤ max_request (A := Z)) by (by vm_compute).
  assert (E : match hm_set (A := Z) demo_st demo_heap demo_map 16 7 with
    | Ok (r, _, _, map') => r = 152 ∧ capacity map' = 4 | Err _ => False end) by (vm_compute; split; reflexivity).
  pose proof (hm_set_insert (A := Z) demo_st demo_heap demo_map ∅ 16 7 [95; 80; 84; 83] demo_models Hl Hne demo_key
    eq_refl Hby Hv Hmax) as Hs.
  destruct (hm_set (A := Z) demo_st demo_heap demo_map 16 7) as [[[[r st'] m'] map']|e]; [|exact E].
  destruct E as [-> E]. destruct Hs as (Hm & Hb & _). split; [reflexivity|]. split; [exact Hm|]. split; [|exact E].
  apply Hb. lia.
Defined.

Lemma hm_get_lookup_witness :
  hm_get demo_heap demo_map 16 = Ok (default 0 ((∅ : gmap (list Z) Z) !! [95; 80; 84; 83])).
Proof.
  apply (hm_get_lookup (A := Z) demo_st demo_heap demo_map ∅ 16 [95; 80; 84; 83]).
  - apply demo_models.
  - apply demo_key.
  - done.
Defined.
