(* ===== verification/Queue.v ===== *)
(** * The pointer queue and the linked list of lethe-utils (queue.c, linked_list.c)

    A queue is a ring of pointers; a slot never written is [None], so that
    popping it is [Undefined], as is an access outside the block.  [push_queue]
    takes a queue for full as soon as it holds one element, and the theorems
    say what follows: the fixed queue is a one-place buffer, and the growing
    one writes outside its block. *)
From S2P Require Import Prelude Heap.

(** ** Definitions *)

Definition TASK_QUEUE_SIZE : Z := 10.
Definition QUEUE_RESIZE_VAL : Z := 2.

Record queue_t := Queue {
  inner : list (option Z);
  head : Z;
  tail : Z;
  qcapacity : Z;
  resizable : bool
}.

Definition slot_get (q : queue_t) (i : Z) : res Z :=
  if 0 <=? i then of_option Undefined (mjoin (inner q !! Z.to_nat i)) else Err Undefined.

Definition slot_set (q : queue_t) (i x : Z) : res queue_t :=
  if (0 <=? i) && (i <? Z.of_nat (length (inner q))) then
    Ok (Queue (<[Z.to_nat i := Some x]> (inner q)) (head q) (tail q) (qcapacity q) (resizable q))
  else Err Undefined.

(** [realloc(p, n)]: a block of [n] bytes that starts with the old contents,
    seen as an array of pointers; a pointer not wholly inside is lost. *)
Definition realloc_slots (l : list (option Z)) (n : Z) : list (option Z) :=
  let k := Z.to_nat (n / 8) in take k l ++ replicate (k - length l) None.

(** [%] on [int]: undefined for a zero divisor. *)
Definition next_slot (i cap : Z) : res Z := if cap =? 0 then Err Undefined else Ok (Z.rem (i + 1) cap).

(** [more]: whether [realloc] succeeds. *)
Definition push_queue (more : bool) (q : queue_t) (task : Z) : res queue_t :=
  h ← next_slot (head q) (qcapacity q);
  if h =? tail q then
    if negb (resizable q) then Ok q
    else
      capacity ← int_ok (qcapacity q * QUEUE_RESIZE_VAL);
      _ ← guard_or Halted more;
      t ← next_slot (tail q) capacity;
      let q := Queue (realloc_slots (inner q) capacity) (head q) t capacity (resizable q) in
      q ← slot_set q (tail q) task;
      t ← next_slot (tail q) (qcapacity q);
      Ok (Queue (inner q) (head q) t (qcapacity q) (resizable q))
  else
    q ← slot_set q (tail q) task;
    t ← next_slot (tail q) (qcapacity q);
    Ok (Queue (inner q) (head q) t (qcapacity q) (resizable q)).

(** The recursion of [pop_queue] runs once per skipped NULL. *)
Definition pop_queue (q : queue_t) : res (Z * queue_t) :=
  iter (S (Z.to_nat (qcapacity q))) (λ q,
    if head q =? tail q then Ok (Done (0, q))
    else
      ptr ← slot_get q (head q);
      h ← next_slot (head q) (qcapacity q);
      let q := Queue (inner q) h (tail q) (qcapacity q) (resizable q) in
      if ptr =? 0 then Ok (Next q) else Ok (Done (ptr, q))) q.

Definition rotate_queue (more : bool) (q : queue_t) : res (Z * queue_t) :=
  '(ptr, q) ← pop_queue q;
  q ← push_queue more q ptr;
  Ok (ptr, q).

(** The block of [_inner] starts uninitialised; [ok1], [ok2]: whether the two
    [malloc]s succeed (the second result is not checked: an empty block). *)
Definition new_queue (ok1 ok2 : bool) : res queue_t :=
  _ ← guard_or Halted ok1;
  Ok (Queue (if ok2 then replicate (Z.to_nat TASK_QUEUE_SIZE) None else [])
            0 0 TASK_QUEUE_SIZE false).

Definition new_queue_resizable (ok1 ok2 : bool) : res queue_t :=
  q ← new_queue ok1 ok2;
  Ok (Queue (inner q) (head q) (tail q) (qcapacity q) true).

(** Operations, and a run of them: the values the pops return. *)
Inductive queue_op := Push (x : Z) | Pop | Rotate.

Fixpoint run_queue (more : bool) (ops : list queue_op) (q : queue_t) : res (list Z * queue_t) :=
  match ops with
  | [] => Ok ([], q)
  | Push x :: ops => q ← push_queue more q x; run_queue more ops q
  | Pop :: ops =>
      '(x, q) ← pop_queue q; '(xs, q) ← run_queue more ops q; Ok (x :: xs, q)
  | Rotate :: ops =>
      '(x, q) ← rotate_queue more q; '(xs, q) ← run_queue more ops q; Ok (x :: xs, q)
  end.

(** Specification: a one-place buffer that drops what does not fit. *)
Fixpoint run_buffer (ops : list queue_op) (b : option Z) : list Z * option Z :=
  match ops with
  | [] => ([], b)
  | Push x :: ops => run_buffer ops (Some (default x b))
  | Pop :: ops => let '(xs, b') := run_buffer ops None in (default 0 b :: xs, b')
  | Rotate :: ops =>
      let '(xs, b') := run_buffer ops (Some (default 0 b)) in (default 0 b :: xs, b')
  end.

(** *** Linked lists *)

Record node := Node { ptr : Z; next : Z; root : Z }.

Section list.
Context {A : Type} `{Allocator A}.

(** [calloc] may return NULL, and the node is written without a check. *)
Definition new_node (st : A) (m : mem) (h : gmap Z node) : res (Z * A * mem * gmap Z node) :=
  '(p, st, m) ← calloc st m 1 24;
  _ ← guard_or Undefined (negb (p =? 0));
  Ok (p, st, m, <[p := Node 0 0 p]> h).

Definition append_node (st : A) (m : mem) (h : gmap Z node) (l p : Z) :
    res (Z * A * mem * gmap Z node) :=
  '(n, st, m, h) ← new_node st m h;
  nl ← of_option Undefined (h !! l);
  nn ← of_option Undefined (h !! n);
  let h := <[n := Node (ptr nn) (next nl) (root nn)]> h in
  nl ← of_option Undefined (h !! l);
  let h := <[l := Node (ptr nl) n (root nl)]> h in
  nn ← of_option Undefined (h !! n);
  Ok (n, st, m, <[n := Node p (next nn) l]> h).
End list.

(** [fn] acts on a state of its own; the debug output is left out. *)
Definition linked_list_foreach {S : Type} (fuel : nat) (h : gmap Z node) (l : Z)
    (fn : Z → S → res S) (s : S) : res S :=
  iter fuel (λ '(n, s),
    if n =? 0 then Ok (Done s)
    else nd ← of_option Undefined (h !! n); s ← fn (ptr nd) s; Ok (Next (next nd, s))) (l, s).

(** The nodes from [l] on hold the pointers [ps]. *)
Fixpoint chain (h : gmap Z node) (l : Z) (ps : list Z) : Prop :=
  match ps with
  | [] => l = 0
  | p :: ps => l ≠ 0 ∧ ∃ nd, h !! l = Some nd ∧ ptr nd = p ∧ chain h (next nd) ps
  end.

(** ** Lemmas *)

(** A queue of [TASK_QUEUE_SIZE] slots that holds [b]. *)
Definition queue_rep (q : queue_t) (b : option Z) : Prop :=
  length (inner q) = 10%nat ∧ qcapacity q = 10 ∧ 0 ≤ head q < 10 ∧ resizable q = false ∧
  match b with
  | None => tail q = head q
  | Some x => tail q = (head q + 1) mod 10 ∧ inner q !! Z.to_nat (head q) = Some (Some x)
  end.

Lemma next_slot_10 i : 0 ≤ i → next_slot i 10 = Ok ((i + 1) mod 10).
Proof. intros. unfold next_slot. cbn [Z.eqb]. f_equal. apply Z.rem_mod_nonneg; lia. Qed.

Lemma next_slot_ne h : 0 ≤ h < 10 → (h + 1) mod 10 ≠ h.
Proof. intros Hh E. pose proof (Z.div_mod (h + 1) 10). lia. Qed.

Lemma push_rep more q b x :
  queue_rep q b → ∃ q', push_queue more q x = Ok q' ∧ queue_rep q' (Some (default x b)).
Proof.
  intros (Hl & Hc & Hh & Hr & Hb). unfold push_queue. rewrite Hc, next_slot_10 by lia. simpl_res.
  destruct b as [y|].
  - destruct Hb as [Ht Hy]. rewrite Ht, Z.eqb_refl, Hr. cbn [negb]. exists q. split; [done|].
    split_and!; (done || lia).
  - rewrite Hb. rewrite (proj2 (Z.eqb_neq _ _)) by (by apply next_slot_ne).
    unfold slot_set. rewrite Hl. zbool. cbn [andb]. simpl_res. cbn [tail qcapacity].
    rewrite Hc, Hb, next_slot_10 by lia. simpl_res. eexists. split; [done|].
    unfold queue_rep. cbn. rewrite length_insert. split_and!; try (done || lia).
    apply list_lookup_insert_eq. lia.
Qed.

Lemma pop_rep q b : queue_rep q b → ∃ q', pop_queue q = Ok (default 0 b, q') ∧ queue_rep q' None.
Proof.
  intros (Hl & Hc & Hh & Hr & Hb). unfold pop_queue. rewrite Hc.
  change (S (Z.to_nat 10)) with 11%nat. cbn [iter]. destruct b as [x|].
  - destruct Hb as [Ht Hx]. rewrite Ht, (proj2 (Z.eqb_neq _ _)) by (apply not_eq_sym; by apply next_slot_ne).
    unfold slot_get. zbool. rewrite Hx. cbn [mjoin option_join of_option]. simpl_res.
    rewrite Hc, next_slot_10 by lia. simpl_res. pose proof (Z.mod_pos_bound (head q + 1) 10).
    destruct (Z.eqb_spec x 0) as [->|]; simpl_res; cbn [head tail]; rewrite ?Z.eqb_refl;
      simpl_res; (eexists; split; [done|]); unfold queue_rep; cbn; split_and!; (done || lia).
  - rewrite Hb, Z.eqb_refl. simpl_res. exists q. split; [done|]. split_and!; (done || lia).
Qed.

Lemma rotate_rep more q b :
  queue_rep q b → ∃ q', rotate_queue more q = Ok (default 0 b, q') ∧ queue_rep q' (Some (default 0 b)).
Proof.
  intros H. unfold rotate_queue. destruct (pop_rep q b H) as (q1 & -> & H1). simpl_res.
  destruct (push_rep more q1 None (default 0 b) H1) as (q2 & -> & H2). simpl_res. by exists q2.
Qed.

Lemma run_rep more ops q b :
  queue_rep q b →
  ∃ q', run_queue more ops q = Ok ((run_buffer ops b).1, q') ∧ queue_rep q' (run_buffer ops b).2.
Proof.
  revert q b. induction ops as [|[x| |] ops IH]; intros q b H; cbn [run_queue run_buffer].
  - by exists q.
  - destruct (push_rep more q b x H) as (q1 & -> & H1). simpl_res. by apply IH.
  - destruct (pop_rep q b H) as (q1 & -> & H1). simpl_res.
    destruct (IH q1 None H1) as (q2 & -> & H2). simpl_res.
    destruct (run_buffer ops None). by exists q2.
  - destruct (rotate_rep more q b H) as (q1 & -> & H1). simpl_res.
    destruct (IH q1 _ H1) as (q2 & -> & H2). simpl_res.
    destruct (run_buffer ops _). by exists q2.
Qed.

Lemma new_queue_rep : ∃ q, new_queue true true = Ok q ∧ queue_rep q None.
Proof. eexists. split; [reflexivity|]. by vm_compute. Qed.

Lemma chain_inj h l ps qs : chain h l ps → chain h l qs → ps = qs.
Proof.
  revert l qs. induction ps as [|p ps IH]; intros l [|q qs]; cbn; try tauto; try (intros; tauto).
  intros (_ & nd & E & <- & Hc) (_ & nd' & E' & <- & Hc'). assert (nd' = nd) as -> by congruence.
  f_equal. by eapply IH.
Qed.

(** A chain does not run back to its first node, so changing that node or a
    new one leaves the tail alone. *)
Lemma chain_update h l ps a qs nd n nd' :
  chain h l ps → chain h a qs → (length qs < length ps)%nat →
  (∀ b x, h !! b = Some x → b ≠ n) → chain (<[n := nd']> (<[l := nd]> h)) a qs.
Proof.
  intros Hl. revert a. induction qs as [|q qs IH]; intros a Ha Hlen Hn; cbn in *; [done|].
  destruct Ha as (Ha0 & x & E & <- & Hc).
  assert (a ≠ l).
  { intros ->. assert (ps = ptr x :: qs) as -> by (eapply chain_inj; [done|]; cbn; eauto).
    cbn in Hlen. lia. }
  split; [done|]. exists x. rewrite !lookup_insert_ne by (done || by apply not_eq_sym, (Hn _ _ E)).
  split_and!; [done..|]. apply IH; [done|lia|done].
Qed.

(** ** Properties *)

(** C13: a fixed-size queue is a one-place buffer: in any sequence of pushes,
    pops and rotations on a new queue every operation returns, and the pops
    return exactly what they return from a buffer that holds one pointer and
    drops every push while it is occupied. *)
Theorem queue_one_place (more : bool) (ops : list queue_op) :
  ∃ q q', new_queue true true = Ok q ∧
    run_queue more ops q = Ok ((run_buffer ops None).1, q').
Proof.
  destruct new_queue_rep as (q & E & H). destruct (run_rep more ops q None H) as (q' & E' & _).
  by exists q, q'.
Qed.

(** Pushing onto a growing queue that holds one element (anywhere but in the
    last slot) asks [realloc] for as many bytes as it wants slots and then
    writes outside the block. *)
Lemma queue_grow_out_of_bounds (q : queue_t) (x y : Z) :
  length (inner q) = 10%nat → qcapacity q = 10 → 0 ≤ head q < 9 → tail q = head q + 1 →
  resizable q = true → inner q !! Z.to_nat (head q) = Some (Some x) →
  push_queue true q y = Err Undefined.
Proof.
  intros Hl Hc Hh Ht Hr Hx. unfold push_queue. rewrite Hc, next_slot_10 by lia. simpl_res.
  rewrite Z.mod_small, Ht, Z.eqb_refl, Hr by lia. cbn [negb].
  change (int_ok (10 * QUEUE_RESIZE_VAL)) with (Ok 20). simpl_res.
  unfold next_slot. cbn [Z.eqb]. simpl_res. rewrite Z.rem_mod_nonneg, Z.mod_small by lia.
  unfold slot_set. cbn [inner tail]. unfold realloc_slots.
  change (Z.to_nat (20 / 8)) with 2%nat.
  rewrite length_app, length_take, length_replicate, Hl. cbn. zbool.
  by rewrite andb_false_r.
Qed.

(** [append_node] puts the new element directly behind the node it is given,
    not at the end: the chain [p0 :: ps] becomes [p0 :: p :: ps]. *)
Lemma append_node_second {A} `{AllocatorLaws A} (st : A) (m : mem) (h : gmap Z node)
    (l p0 p : Z) (ps : list Z) st' m' n :
  alloc_ok st m → chain h l (p0 :: ps) → (∀ a nd, h !! a = Some nd → live st a 24) →
  calloc st m 1 24 = Ok (n, st', m') → n ≠ 0 →
  ∃ h', append_node st m h l p = Ok (n, st', m', h') ∧ chain h' l (p0 :: p :: ps).
Proof.
  intros Hok Hchain Hlive Hc Hn0. pose proof Hchain as (Hl0 & nd & Hl & Hp0 & Hch).
  unfold append_node, new_node. pose proof small_request.
  pose proof Hc as (_ & _ & [[? _]|((_ & Hln & Hd) & _)])%calloc_law; [done| |done|lia..].
  assert (Hfresh : ∀ a nd, h !! a = Some nd → a ≠ n).
  { intros a nd' Ha. pose proof (Hd a 24 ltac:(by eapply Hlive)). lia. }
  assert (Hne : l ≠ n) by (by eapply Hfresh).
  rewrite Hc. simpl_res. rewrite (proj2 (Z.eqb_neq n 0) Hn0). cbn [negb guard_or]. simpl_res.
  repeat (first [rewrite lookup_insert_eq | rewrite lookup_insert_ne by done | rewrite Hl];
          simpl_res).
  eexists. split; [done|].
  rewrite (insert_insert_ne _ l n) by done. rewrite !insert_insert_eq.
  rewrite (insert_insert_ne _ n l), insert_insert_eq, (insert_insert_ne _ l n) by done.
  cbn [chain ptr next root].
  split; [done|]. eexists. rewrite lookup_insert_ne, lookup_insert_eq by done. split; [done|].
  split; [done|]. split; [done|]. eexists. rewrite lookup_insert_eq. split; [done|].
  split; [done|]. cbn [next]. eapply chain_update; [exact Hchain|done|cbn; lia|done].
Qed.

