(* ===== verification/Tasks.v ===== *)
(** * The task switcher (lethe-kernel/cpu/task.c)

    Tasks and saved register sets are objects in two typed heaps, the run queue
    is the queue of Queue.v.  [kmalloc] returns objects with unspecified
    contents, [junk_task] and [junk_ctx]; [idle] and [task_wrapper] are the
    addresses of those functions. *)
From S2P Require Import Prelude Heap Queue.

(** ** Definitions *)

Record isr_stack_t := IsrStack {
  r15 : Z; r14 : Z; r13 : Z; r12 : Z; r11 : Z; r10 : Z; r9 : Z; r8 : Z; rbp : Z; rdi : Z;
  rsi : Z; rdx : Z; rcx : Z; rbx : Z; rax : Z; isr : Z; err : Z; rip : Z; cs : Z; rflags : Z
}.

Record task_t := Task { t_ctx : Z; task_id : Z; deadline : Z }.

(** [dest] is overwritten field by field. *)
Definition copy_ctx (dest src : isr_stack_t) : isr_stack_t :=
  IsrStack (r15 src) (r14 src) (r13 src) (r12 src) (r11 src) (r10 src) (r9 src) (r8 src)
    (rbp src) (rdi src) (rsi src) (rdx src) (rcx src) (rbx src) (rax src) (isr src) (err src)
    (rip src) (cs src) (rflags src).

(** [None] for a queue pointer that is still NULL. *)
Record sched (A : Type) := Sched {
  heap : A;
  tasks : gmap Z task_t;
  ctxs : gmap Z isr_stack_t;
  current : Z;
  kernel : Z;
  TASK_COUNT : Z;
  LIVE_QUEUE : option queue_t;
  IDLE_QUEUE : option queue_t
}.
Arguments Sched {A}.
Arguments heap {A}.
Arguments tasks {A}.
Arguments ctxs {A}.
Arguments current {A}.
Arguments kernel {A}.
Arguments TASK_COUNT {A}.
Arguments LIVE_QUEUE {A}.
Arguments IDLE_QUEUE {A}.

Definition sizeof_task : Z := 24.
Definition sizeof_ctx : Z := 160.

Section tasks.
Context {A : Type} `{HA : Allocator A} `{!AllocatorLaws A}.
Context (junk_task : task_t) (junk_ctx : isr_stack_t) (idle task_wrapper : Z).

(** [kmalloc(sizeof(task_t))], [kmalloc(sizeof(isr_stack_t))]: the result is
    written to without a check, so NULL is undefined. *)
Definition kmalloc_task (s : sched A) : res (Z * sched A) :=
  '(p, h) ← malloc (heap s) sizeof_task;
  _ ← guard_or Undefined (negb (p =? 0));
  Ok (p, Sched h (<[p := junk_task]> (tasks s)) (ctxs s) (current s) (kernel s) (TASK_COUNT s)
               (LIVE_QUEUE s) (IDLE_QUEUE s)).

Definition kmalloc_ctx (s : sched A) : res (Z * sched A) :=
  '(p, h) ← malloc (heap s) sizeof_ctx;
  _ ← guard_or Undefined (negb (p =? 0));
  Ok (p, Sched h (tasks s) (<[p := junk_ctx]> (ctxs s)) (current s) (kernel s) (TASK_COUNT s)
               (LIVE_QUEUE s) (IDLE_QUEUE s)).

Definition get_task (s : sched A) (p : Z) : res task_t := of_option Undefined (tasks s !! p).
Definition get_ctx (s : sched A) (p : Z) : res isr_stack_t := of_option Undefined (ctxs s !! p).

Definition set_task (s : sched A) (p : Z) (t : task_t) : sched A :=
  Sched (heap s) (<[p := t]> (tasks s)) (ctxs s) (current s) (kernel s) (TASK_COUNT s)
        (LIVE_QUEUE s) (IDLE_QUEUE s).
Definition set_ctx (s : sched A) (p : Z) (c : isr_stack_t) : sched A :=
  Sched (heap s) (tasks s) (<[p := c]> (ctxs s)) (current s) (kernel s) (TASK_COUNT s)
        (LIVE_QUEUE s) (IDLE_QUEUE s).
Definition set_live (s : sched A) (q : queue_t) : sched A :=
  Sched (heap s) (tasks s) (ctxs s) (current s) (kernel s) (TASK_COUNT s)
        (Some q) (IDLE_QUEUE s).

Definition get_task_id (s : sched A) : res Z := t ← get_task s (current s); Ok (task_id t).

(** The registers an entered task starts with; the others are left as they
    were. *)
Definition entry_ctx (c : isr_stack_t) (di si dx ip : Z) : isr_stack_t :=
  IsrStack (r15 c) (r14 c) (r13 c) (r12 c) (r11 c) (r10 c) (r9 c) (r8 c)
    (rbp c) di si dx (rcx c) (rbx c) (rax c) 2 0 ip 0x08 0x202.

(** The registration of the switch handler for vector 128 is not part of this
    state.  [new_queue] is taken to get its memory. *)
Definition init_tasks (s : sched A) : res (sched A) :=
  live_q ← new_queue true true;
  idle_q ← new_queue true true;
  let s := Sched (heap s) (tasks s) (ctxs s) (current s) (kernel s) 0 (Some live_q) (Some idle_q) in
  '(k, s) ← kmalloc_task s;
  '(c, s) ← kmalloc_ctx s;
  let s := set_ctx s c (entry_ctx junk_ctx (rdi junk_ctx) (rsi junk_ctx) (rdx junk_ctx) idle) in
  let s := set_task s k (Task c (TASK_COUNT s) 0) in
  n ← int_ok (TASK_COUNT s + 1);
  Ok (Sched (heap s) (tasks s) (ctxs s) k k n (LIVE_QUEUE s) (IDLE_QUEUE s)).

(** The interrupted registers [ctx] are saved in the current task and replaced
    by those of the task popped from the run queue. *)
Definition switch_task (s : sched A) (ctx : isr_stack_t) : res (sched A * isr_stack_t) :=
  cur ← get_task s (current s);
  saved ← get_ctx s (t_ctx cur);
  let s := set_ctx s (t_ctx cur) (copy_ctx saved ctx) in
  let old := current s in
  q ← of_option Undefined (LIVE_QUEUE s);
  '(p, q) ← pop_queue q;
  q ← push_queue true q old;
  let s := Sched (heap s) (tasks s) (ctxs s) p (kernel s) (TASK_COUNT s) (Some q) (IDLE_QUEUE s) in
  cur ← get_task s (current s);
  saved ← get_ctx s (t_ctx cur);
  Ok (s, copy_ctx ctx saved).

(** Returns the removed task (0: none) and the queue. *)
Definition remove_task (s : sched A) (q : queue_t) (id : Z) : res (Z * queue_t) :=
  if id =? 0 then Ok (0, q)
  else
    iter (S (Z.to_nat (qcapacity q))) (λ i,
      if i <? qcapacity q then
        p ← slot_get q i;
        t ← get_task s p;
        if negb (task_id t =? id) then Ok (Next (i + 1))
        else q ← slot_set q i 0; Ok (Done (p, q))
      else Ok (Done (0, q))) 0.

Definition signal_idle (s : sched A) (dl : Z) : res (sched A) :=
  id ← get_task_id s;
  q ← of_option Undefined (LIVE_QUEUE s);
  '(self, q) ← remove_task s q id;
  let s := set_live s q in
  if self =? 0 then Ok s
  else
    t ← get_task s self;
    let s := set_task s self (Task (t_ctx t) (task_id t) dl) in
    iq ← of_option Undefined (IDLE_QUEUE s);
    iq ← push_queue true iq self;
    Ok (Sched (heap s) (tasks s) (ctxs s) (current s) (kernel s) (TASK_COUNT s)
              (LIVE_QUEUE s) (Some iq)).

(** The handler of vector 128; the stack it returns is the one it got. *)
Definition task_switch_isr (s : sched A) (stack : isr_stack_t) : res (sched A * isr_stack_t) := switch_task s stack.

(** Not written yet: it aborts. *)
Definition signal_live (s : sched A) : res (sched A) := Err Halted.

(** What follows the call of the task function. *)
Definition task_exit (s : sched A) (id : Z) : res (sched A) :=
  q ← of_option Undefined (LIVE_QUEUE s);
  '(self, q) ← remove_task s q id;
  let s := set_live s q in
  if self =? 0 then Ok s
  else
    t ← get_task s self;
    h ← free (heap s) (t_ctx t);
    h ← free h self;
    Ok (Sched h (delete self (tasks s))
          (delete (t_ctx t) (ctxs s)) (current s) (kernel s) (TASK_COUNT s)
          (LIVE_QUEUE s) (IDLE_QUEUE s)).

Definition create_task (s : sched A) (fn data : Z) : res (sched A) :=
  '(new_task, s) ← kmalloc_task s;
  '(ctx, s) ← kmalloc_ctx s;
  let id := TASK_COUNT s in
  n ← int_ok (TASK_COUNT s + 1);
  let s := set_ctx s ctx (entry_ctx junk_ctx id fn data task_wrapper) in
  let s := set_task s new_task (Task ctx id 0) in
  q ← of_option Undefined (LIVE_QUEUE s);
  q ← push_queue true q new_task;
  Ok (Sched (heap s) (tasks s) (ctxs s) (current s) (kernel s) n (Some q) (IDLE_QUEUE s)).

(** A timer interrupt per element: the registers each one interrupts. *)
Fixpoint switches (s : sched A) (ctxs : list isr_stack_t) : res (sched A) :=
  match ctxs with
  | [] => Ok s
  | c :: ctxs => '(s, _) ← switch_task s c; switches s ctxs
  end.

Fixpoint create_tasks (s : sched A) (fns : list (Z * Z)) : res (sched A) :=
  match fns with
  | [] => Ok s
  | (fn, data) :: fns => s ← create_task s fn data; create_tasks s fns
  end.

(** ** Lemmas *)

(** Task [a] runs and task [b] waits; nothing else is scheduled. *)
Record two_tasks (s : sched A) (a b : Z) (ta tb : task_t) : Prop := TwoTasks {
  tt_current : current s = a;
  tt_queue : ∃ q, LIVE_QUEUE s = Some q ∧ queue_rep q (Some b);
  tt_a : tasks s !! a = Some ta;
  tt_b : tasks s !! b = Some tb;
  tt_nz : b ≠ 0 ∧ a ≠ 0;
  tt_ne : t_ctx ta ≠ t_ctx tb ∧ task_id ta ≠ task_id tb;
  tt_ca : is_Some (ctxs s !! t_ctx ta);
  tt_cb : is_Some (ctxs s !! t_ctx tb)
}.

Lemma copy_ctx_eq d c : copy_ctx d c = c.
Proof. by destruct c. Qed.

Lemma switch_two s a b ta tb c :
  two_tasks s a b ta tb →
  ∃ s' cb, ctxs s !! t_ctx tb = Some cb ∧ switch_task s c = Ok (s', cb) ∧
    two_tasks s' b a tb ta ∧ ctxs s' = <[t_ctx ta := c]> (ctxs s).
Proof.
  intros [Ec (q & Eq & Hq) Ha Hb [Hnz Hnza] [Hne Hid] [ca Hca] [cb Hcb]].
  unfold switch_task, get_task, get_ctx. rewrite Ec, Ha. simpl_res. rewrite Hca. simpl_res.
  rewrite copy_ctx_eq. cbn [current LIVE_QUEUE set_ctx]. rewrite Eq. simpl_res.
  destruct (pop_rep q _ Hq) as (q1 & -> & H1). cbn [default id]. simpl_res. rewrite Ec.
  destruct (push_rep true q1 None a H1) as (q2 & -> & H2). cbn [default] in H2. simpl_res.
  cbn [tasks ctxs current set_ctx id]. rewrite Hb. simpl_res.
  rewrite lookup_insert_ne, Hcb by done. simpl_res. rewrite copy_ctx_eq.
  eexists _, cb. split; [done|]. split; [done|]. split; [|done].
  split; cbn [current LIVE_QUEUE tasks ctxs]; eauto.
  - rewrite lookup_insert_ne by done. eauto.
  - rewrite lookup_insert_eq. eauto.
Qed.

Lemma switches_two s a b ta tb cs :
  two_tasks s a b ta tb →
  ∃ s', switches s cs = Ok s' ∧ current s' = if Nat.even (length cs) then a else b.
Proof.
  revert s a b ta tb. induction cs as [|c cs IH]; intros s a b ta tb HT; cbn [switches length].
  - exists s. split; [done|]. apply HT.
  - destruct (switch_two s a b ta tb c HT) as (s1 & cb & _ & -> & H1 & _). simpl_res.
    destruct (IH s1 _ _ _ _ H1) as (s' & E & Hs). exists s'. split; [done|].
    rewrite Nat.even_succ, <- Nat.negb_even. by destruct (Nat.even (length cs)).
Qed.

(** What [remove_task] returns. *)
Lemma remove_task_inv s q id p q' :
  remove_task s q id = Ok (p, q') →
  (p = 0 ∧ q' = q) ∨
  ∃ i t, inner q !! Z.to_nat i = Some (Some p) ∧ tasks s !! p = Some t ∧ task_id t = id ∧
    slot_set q i 0 = Ok q'.
Proof.
  unfold remove_task. destruct (id =? 0); [intros [= <- <-]; by left|].
  intros H0. refine (iter_partial _ (λ _, True)
    (λ '(p, q'), (p = 0 ∧ q' = q) ∨ ∃ i t, inner q !! Z.to_nat i = Some (Some p) ∧
       tasks s !! p = Some t ∧ task_id t = id ∧ slot_set q i 0 = Ok q') _ _ 0 (p, q') I H0).
  clear. intros i c _ Hc. destruct (i <? qcapacity q); [|simplify_eq; by left].
  destruct (slot_get q i) as [p|] eqn:Eg; simpl_res; [|done].
  unfold get_task in Hc. destruct (tasks s !! p) as [t|] eqn:Et; simpl_res; [|done].
  destruct (Z.eqb_spec (task_id t) id) as [Eid|]; cbn [negb] in Hc; [|by simplify_eq].
  destruct (slot_set q i 0) as [q1|] eqn:Es; simpl_res; [|done]. simplify_eq.
  right. exists i, t. split_and!; [|done..]. unfold slot_get in Eg. case_match; [|done].
  destruct (inner q !! Z.to_nat i) as [[x|]|]; cbn in Eg; congruence.
Qed.

Lemma remove_task_rep s q id p q' b tb :
  remove_task s q id = Ok (p, q') → queue_rep q (Some b) → tasks s !! b = Some tb →
  task_id tb ≠ id → queue_rep q' (Some b).
Proof.
  intros [[_ ->]|(i & t & Hi & Ht & <- & Hs)]%remove_task_inv Hq Hb Hne; [done|].
  unfold slot_set in Hs. case_match; [|done]. simplify_eq.
  destruct Hq as (Hl & Hc & Hh & Hr & Hta & Hx).
  split; cbn; [by rewrite length_insert|]. split_and!; try (done || lia).
  rewrite list_lookup_insert_ne; [done|]. intros E.
  rewrite E, Hx in Hi. injection Hi as <-. congruence.
Qed.

Lemma signal_idle_two s a b ta tb dl s' :
  two_tasks s a b ta tb → signal_idle s dl = Ok s' →
  ∃ ta', two_tasks s' a b ta' tb ∧ t_ctx ta' = t_ctx ta ∧ ctxs s' = ctxs s.
Proof.
  intros [Ec (q & Eq & Hq) Ha Hb [Hnz Hnza] [Hne Hid] Hca Hcb] Hs.
  unfold signal_idle, get_task_id, get_task in Hs. rewrite Ec, Ha in Hs. simpl_res.
  rewrite Eq in Hs. simpl_res.
  destruct (remove_task s q (task_id ta)) as [[p q1]|] eqn:Er; simpl_res; [|done].
  pose proof (remove_task_rep _ _ _ _ _ _ _ Er Hq Hb (not_eq_sym Hid)) as Hq1.
  destruct (p =? 0).
  { simplify_eq. exists ta. split; [|done]. split; cbn; eauto. }
  cbn [set_live tasks] in Hs. destruct (tasks s !! p) as [t|] eqn:Et; simpl_res; [|done].
  cbn [set_task set_live IDLE_QUEUE] in Hs. destruct (IDLE_QUEUE s) as [iq|]; simpl_res; [|done].
  destruct (push_queue true iq p) as [iq'|]; simpl_res; [|done]. simplify_eq.
  assert (Hpb : p ≠ b).
  { intros ->. apply remove_task_inv in Er as [[-> _]|(i & t' & _ & Ht' & Hid' & _)]; congruence. }
  destruct (decide (p = current s)) as [->|Hpa].
  - exists (Task (t_ctx t) (task_id t) dl). assert (t = ta) as -> by congruence.
    split; [|done]. split; cbn; eauto; by rewrite ?lookup_insert_eq, ?lookup_insert_ne.
  - exists ta. split; [|done]. split; cbn; eauto; by rewrite lookup_insert_ne.
Qed.

(** Every task and register set is an object of the allocator, task ids are
    below the counter. *)
Definition heap_ok (s : sched A) : Prop :=
  (∃ m, alloc_ok (heap s) m) ∧
  (∀ p t, tasks s !! p = Some t → live (heap s) p sizeof_task ∧ task_id t < TASK_COUNT s) ∧
  (∀ p c, ctxs s !! p = Some c → live (heap s) p sizeof_ctx).

Lemma create_task_inv s fn data s' :
  create_task s fn data = Ok s' →
  heap_ok s → 0 ≤ TASK_COUNT s →
  ∃ h' p c q q', tasks s !! p = None ∧ ctxs s !! c = None ∧ p ≠ 0 ∧
    LIVE_QUEUE s = Some q ∧ push_queue true q p = Ok q' ∧
    s' = Sched h' (<[p := Task c (TASK_COUNT s) 0]> (tasks s))
           (<[c := entry_ctx junk_ctx (TASK_COUNT s) fn data task_wrapper]> (ctxs s))
           (current s) (kernel s) (TASK_COUNT s + 1) (Some q') (IDLE_QUEUE s) ∧
    heap_ok s'.
Proof.
  intros Hc (Hok & Ht & Hx) Hn. unfold create_task, kmalloc_task, kmalloc_ctx in Hc.
  destruct Hok as [m Hok].
  destruct (malloc_some (heap s) m sizeof_task Hok) as (p & h1 & E1 & Hok1 & Hl1 & Hp); [by vm_compute|].
  rewrite E1 in Hc. simpl_res.
  destruct (Z.eqb_spec p 0) as [|Hp0]; [done|]. destruct (Hp Hp0) as (_ & Hlp & Hf1). cbn [negb guard_or] in Hc. simpl_res.
  cbn [heap tasks ctxs TASK_COUNT] in Hc.
  destruct (malloc_some h1 m sizeof_ctx Hok1) as (c & h2 & E2 & Hok2 & Hl2 & Hcc); [by vm_compute|].
  rewrite E2 in Hc. simpl_res.
  destruct (Z.eqb_spec c 0) as [|Hc0]; [done|]. destruct (Hcc Hc0) as (_ & Hlc & Hf2). cbn [negb guard_or] in Hc. simpl_res.
  cbn [heap tasks ctxs TASK_COUNT set_ctx set_task LIVE_QUEUE] in Hc.
  destruct (int_ok (TASK_COUNT s + 1)) as [n|] eqn:En; simpl_res; [|done].
  destruct (LIVE_QUEUE s) as [q|]; simpl_res; [|done].
  destruct (push_queue true q p) as [q'|] eqn:Eq; simpl_res; [|done].
  unfold int_ok in En. case_match; [|done]. simplify_eq.
  exists h2, p, c, q, q'. cbn. rewrite !insert_insert_eq. split_and!; try done.
  - destruct (tasks s !! p) as [t|] eqn:E; [|done]. apply Ht in E as [E _].
    pose proof (Hf1 _ _ E). unfold sizeof_task in *. lia.
  - destruct (ctxs s !! c) as [t|] eqn:E; [|done]. apply Hx in E.
    pose proof (Hf2 _ _ (Hl1 _ _ E)). unfold sizeof_ctx in *. lia.
  - split_and!; cbn; rewrite ?insert_insert_eq; [by exists m| |].
    + intros p0 t [[<- <-]|[Hne HP]]%lookup_insert_Some; cbn; [split; [by apply Hl2|lia]|].
      apply Ht in HP as [HP ?]. split; [by apply Hl2, Hl1|lia].
    + intros p0 c0 [[<- <-]|[Hne HP]]%lookup_insert_Some; [done|]. by eapply Hl2, Hl1, Hx.
Qed.

(** A task created while another one waits is not scheduled. *)
Lemma create_two s a b ta tb fn data s' :
  two_tasks s a b ta tb → heap_ok s → 0 ≤ TASK_COUNT s →
  create_task s fn data = Ok s' →
  two_tasks s' a b ta tb ∧ heap_ok s' ∧ 0 ≤ TASK_COUNT s' ∧ kernel s' = kernel s ∧
  (∀ p c, ctxs s !! p = Some c → ctxs s' !! p = Some c).
Proof.
  intros [Ec (q & Eq & Hq) Ha Hb Hnz Hne [ca Hca] [cb Hcb]] Hok Hn Hs.
  destruct (create_task_inv _ _ _ _ Hs Hok Hn)
    as (h' & p & c & q0 & q' & Hp & Hc & Hp0 & Eq0 & Hpush & Es & Hok').
  assert (q0 = q) as -> by congruence.
  destruct (push_rep true q _ p Hq) as (q2 & Eq2 & H2). assert (q2 = q') as -> by congruence.
  assert (Hmono : ∀ p c0, ctxs s !! p = Some c0 → ctxs s' !! p = Some c0).
  { intros p0 c0 HP. rewrite Es. cbn. rewrite lookup_insert_ne by congruence. done. }
  split_and!; [|done|by rewrite Es; cbn; lia|by rewrite Es|done].
  split; try done; rewrite ?Es; cbn; eauto.
  - by rewrite lookup_insert_ne by congruence.
  - by rewrite lookup_insert_ne by congruence.
  - rewrite Es in Hmono. cbn in Hmono. erewrite Hmono by done. eauto.
  - rewrite Es in Hmono. cbn in Hmono. erewrite Hmono by done. eauto.
Qed.

Lemma creates_two s a b ta tb fns s' :
  two_tasks s a b ta tb → heap_ok s → 0 ≤ TASK_COUNT s →
  create_tasks s fns = Ok s' →
  two_tasks s' a b ta tb ∧ (∀ p c, ctxs s !! p = Some c → ctxs s' !! p = Some c).
Proof.
  revert s. induction fns as [|[fn data] fns IH]; intros s HT Hok Hn Hs; cbn in Hs.
  { by simplify_eq. }
  destruct (create_task _ _ _) as [s1|] eqn:E; simpl_res; [|done].
  destruct (create_two _ _ _ _ _ _ _ _ HT Hok Hn E) as (HT1 & Hok1 & Hn1 & _ & Hm1).
  destruct (IH s1 HT1 Hok1 Hn1 Hs) as [HT' Hm']. eauto.
Qed.

(** The static state before [init_tasks]. *)
Definition boot (h : A) : sched A := Sched h ∅ ∅ 0 0 0 None None.

Lemma init_tasks_spec h m s0 :
  alloc_ok h m → init_tasks (boot h) = Ok s0 →
  ∃ h' iq k c q, s0 = Sched h' {[ k := Task c 0 0 ]}
      {[ c := entry_ctx junk_ctx (rdi junk_ctx) (rsi junk_ctx) (rdx junk_ctx) idle ]} k k 1 (Some q) iq ∧ queue_rep q None ∧ k ≠ 0 ∧ heap_ok s0.
Proof.
  unfold init_tasks, kmalloc_task, kmalloc_ctx. destruct new_queue_rep as (q & -> & Hq).
  simpl_res. cbn [heap boot]. intros Hok.
  destruct (malloc_some h m sizeof_task Hok) as (k & h1 & -> & Hok1 & Hl1 & Hk); [by vm_compute|]. simpl_res.
  destruct (Z.eqb_spec k 0) as [|Hk0]; [done|]. destruct (Hk Hk0) as (_ & Hlp & _). cbn [negb guard_or]. simpl_res.
  cbn [heap].
  destruct (malloc_some h1 m sizeof_ctx Hok1) as (c & h2 & -> & Hok2 & Hl2 & Hcc); [by vm_compute|]. simpl_res.
  destruct (Z.eqb_spec c 0) as [|Hc0]; [done|]. destruct (Hcc Hc0) as (_ & Hlc & _). cbn [negb guard_or]. simpl_res.
  change (int_ok _) with (Ok 1). simpl_res. intros [= <-].
  eexists _, _, k, c, q. cbn. rewrite !insert_insert_eq. split_and!; try done.
  split_and!; cbn; rewrite ?insert_insert_eq; [by exists m| |].
  - intros p t [<- <-]%lookup_singleton_Some. split; [by apply Hl2|done].
  - intros p t [<- <-]%lookup_singleton_Some. done.
Qed.

(** ** Properties *)

(** C12: an interrupted task resumes as it was: with one task running and one
    waiting, two switches in a row hand back exactly the registers that the
    first one interrupted, the task in between ran with the registers it had
    been saved with, and its own registers at the second switch are saved. *)
Theorem switch_task_round_trip (s : sched A) (a b : Z) (ta tb : task_t) (c c' : isr_stack_t) :
  two_tasks s a b ta tb →
  ∃ s1 s2 cb, ctxs s !! t_ctx tb = Some cb ∧
    switch_task s c = Ok (s1, cb) ∧ current s1 = b ∧
    switch_task s1 c' = Ok (s2, c) ∧ current s2 = a ∧
    ctxs s2 !! t_ctx tb = Some c'.
Proof.
  intros HT. destruct (switch_two s a b ta tb c HT) as (s1 & cb & Hcb & E1 & H1 & Hm1).
  destruct (switch_two s1 b a tb ta c' H1) as (s2 & ca & Hca & E2 & H2 & Hm2).
  assert (ca = c) as -> by (rewrite Hm1, lookup_insert_eq in Hca; congruence).
  exists s1, s2, cb. split_and!; [done|done|apply H1|done|apply H2|].
  by rewrite Hm2, lookup_insert_eq.
Qed.

(** C11: of the tasks created after [init_tasks], only the first is ever
    scheduled: whatever tasks follow it, after any number of switches the
    current task is the kernel task or the first one, in turn. *)
Theorem tasks_first_only (h : A) (m : mem) (s0 s1 : sched A) (fn data : Z) (fns : list (Z * Z)) :
  alloc_ok h m → init_tasks (boot h) = Ok s0 →
  create_tasks s0 ((fn, data) :: fns) = Ok s1 →
  ∃ a t, tasks s1 !! a = Some t ∧ task_id t = 1 ∧
    ctxs s1 !! t_ctx t = Some (entry_ctx junk_ctx 1 fn data task_wrapper) ∧
    ∀ cs, ∃ s2, switches s1 cs = Ok s2 ∧
      current s2 = if Nat.even (length cs) then kernel s0 else a.
Proof.
  intros Hh Hi Hs. apply (init_tasks_spec _ m) in Hi as (h0 & iq & k & c & q & Es0 & Hq & Hk & Hok); [|done]. cbn in Hs.
  assert (Hn : TASK_COUNT s0 = 1) by (by rewrite Es0).
  destruct (create_task _ _ _) as [s'|] eqn:E; simpl_res; [|done].
  destruct (create_task_inv _ _ _ _ E Hok) as (h' & a & ca & q0 & q' & Ha & Hca & Ha0 & Eq & Hp & Es' & Hok');
    [lia|].
  assert (q0 = q) as -> by (rewrite Es0 in Eq; cbn in Eq; congruence).
  destruct (push_rep true q None a Hq) as (q2 & E2 & Hq'). assert (q2 = q') as -> by congruence.
  cbn [default] in Hq'. rewrite Es0 in Ha, Hca. cbn in Ha, Hca.
  apply lookup_singleton_None in Ha, Hca.
  assert (HT : two_tasks s' k a (Task c 0 0) (Task ca 1 0)).
  { rewrite Es', Hn. split; cbn; rewrite ?Es0; cbn; eauto.
    - by rewrite lookup_insert_ne, lookup_singleton_eq by done.
    - by rewrite lookup_insert_eq.
    - by rewrite lookup_insert_ne, lookup_singleton_eq by done.
    - by rewrite lookup_insert_eq. }
  destruct (creates_two _ _ _ _ _ fns s1 HT Hok') as [HT' Hm]; [rewrite Es'; cbn; lia|done|].
  exists a, (Task ca 1 0). split; [apply HT'|]. split; [done|]. split.
  - apply Hm. rewrite Es'. cbn. rewrite Hn. by rewrite lookup_insert_eq.
  - intros cs. destruct (switches_two s1 k a _ _ cs HT') as (s2 & E3 & Ecur). exists s2.
    split; [done|]. by rewrite Ecur, Es0.
Qed.

(** A task switch while the run queue is empty, as it is between
    [init_tasks] and the first [create_task], dereferences NULL. *)
Lemma switch_task_empty (h : A) (m : mem) (s0 : sched A) (c : isr_stack_t) :
  alloc_ok h m → init_tasks (boot h) = Ok s0 →
  switch_task s0 c = Err Undefined.
Proof.
  intros Hh (h0 & iq & k & cx & q & -> & Hq & Hk & Hok)%(init_tasks_spec _ m); [|done].
  unfold switch_task, get_task, get_ctx, set_ctx. cbn [current tasks ctxs LIVE_QUEUE].
  rewrite lookup_singleton_eq. simpl_res. cbn [t_ctx]. rewrite lookup_singleton_eq. simpl_res.
  destruct (pop_rep q _ Hq) as (q1 & -> & H1). simpl_res.
  destruct (push_rep true q1 None k H1) as (q2 & -> & H2). simpl_res. cbn [current tasks default].
  by rewrite lookup_singleton_ne by done.
Qed.

(** [signal_idle] does not take the running task off the schedule: if it
    returns, the next two switches run the waiting task and then the idle one
    again, whatever the deadline. *)
Lemma signal_idle_still_scheduled (s s' : sched A) (a b dl : Z) (ta tb : task_t)
    (c c' : isr_stack_t) :
  two_tasks s a b ta tb → signal_idle s dl = Ok s' →
  ∃ s1 s2 cb, switch_task s' c = Ok (s1, cb) ∧ current s1 = b ∧
    switch_task s1 c' = Ok (s2, c) ∧ current s2 = a.
Proof.
  intros HT Hs. destruct (signal_idle_two _ _ _ _ _ _ _ HT Hs) as (ta' & HT' & _).
  destruct (switch_two s' a b ta' tb c HT') as (s1 & cb & Hcb & E1 & H1 & Hm1).
  destruct (switch_two s1 b a tb ta' c' H1) as (s2 & ca & Hca & E2 & H2 & Hm2).
  assert (ca = c) as -> by (rewrite Hm1, lookup_insert_eq in Hca; congruence).
  exists s1, s2, cb. split_and!; [done|apply H1|done|apply H2].
Qed.
End tasks.

(** Concrete tasks for the witnesses. *)
Definition demo_ctx : isr_stack_t := IsrStack 1 2 3 4 5 6 7 8 9 10 11 12 13 14 15 16 17 18 19 20.

Definition demo_sched : sched Z :=
  Sched 4096 {[ 256 := Task 512 0 0; 288 := Task 768 1 0 ]} {[ 512 := demo_ctx; 768 := demo_ctx ]}
    256 256 2 (Some (Queue (Some 288 :: replicate 9 (Some 256)) 0 1 10 false))
    (Some (Queue (replicate 10 None) 0 0 10 false)).

Lemma demo_two : two_tasks demo_sched 256 288 (Task 512 0 0) (Task 768 1 0).
Proof.
  split; try done; cbn.
  - eexists. split; [reflexivity|]. by vm_compute.
Qed.

Lemma switch_task_round_trip_witness :
  ∃ s1 s2 cb, ctxs demo_sched !! 768 = Some cb ∧
    switch_task demo_sched demo_ctx = Ok (s1, cb) ∧ current s1 = 288 ∧
    switch_task s1 demo_ctx = Ok (s2, demo_ctx) ∧ current s2 = 256 ∧
    ctxs s2 !! 768 = Some demo_ctx.
Proof.
  apply (switch_task_round_trip demo_sched 256 288 (Task 512 0 0) (Task 768 1 0)). apply demo_two.
Defined.

Definition ok_or {A} (d : A) (r : res A) : A := if r is Ok a then a else d.

Definition demo_init : sched Z :=
  ok_or demo_sched (init_tasks (Task 0 0 0) demo_ctx 77 (boot 4096)).

Definition demo_created : sched Z :=
  ok_or demo_sched (create_tasks (Task 0 0 0) demo_ctx 88 demo_init [(1000, 1); (2000, 2)]).

Lemma tasks_first_only_witness :
  ∃ a t, tasks demo_created !! a = Some t ∧ task_id t = 1 ∧
    ctxs demo_created !! t_ctx t = Some (entry_ctx demo_ctx 1 1000 1 88) ∧
    ∀ cs, ∃ s2, switches demo_created cs = Ok s2 ∧
      current s2 = if Nat.even (length cs) then kernel demo_init else a.
Proof.
  apply (tasks_first_only (Task 0 0 0) demo_ctx 77 88 4096 ∅ demo_init demo_created 1000 1 [(2000, 2)]);
    [done|vm_compute; reflexivity..].
Defined.

