(* ===== verification/Cpu.v ===== *)
(** * Descriptor tables, interrupts, timers and configuration

    lethe-kernel/cpu/gdt.c, idt.c, isr.c, tss.c, pit.c, tsc.c, sleep.c and
    misc/config.c.  The machine is any [Machine]: reads of ports and of the
    time stamp counter are functions of its state, everything the code does to
    it, or asks the interrupt controllers and the scheduler to do, is an
    [event].  A handler is the address of its function; the table holds 0 for
    NULL.  lgdt, lidt and ltr are assembly; a halt is [Err Halted]. *)
From S2P Require Import Prelude Tasks.

(** ** Definitions *)

(** *** include/cpu/gdt.h and gdt.c *)

Record gdt_entry_t := GdtEntry {
  limit_low : Z; base_low : Z; base_mid : Z; access : Z; flags_and_limit_high : Z; base_high : Z
}.

Record gdt_long_entry_t := GdtLong {
  l_limit_low : Z; l_base_low : Z; base_low_mid : Z; l_access : Z; l_flags_and_limit_high : Z;
  base_upper_mid : Z; l_base_high : Z; reserved : Z
}.

Record gdt_t := Gdt {
  null : gdt_entry_t; kernel_code : gdt_entry_t; kernel_data : gdt_entry_t; user_data : gdt_entry_t;
  user_code : gdt_entry_t; gdt_tss : gdt_long_entry_t
}.

Definition gdt_set_long_gate (base limit access flags : Z) : gdt_long_entry_t :=
  GdtLong (Z.land limit 0xFFFF) (Z.land base 0xFFFF) (Z.land (Z.shiftr base 16) 0xFF) access
    (Z.lor (Z.land (Z.shiftl flags 4) 0xF0) (Z.land (Z.shiftr limit 16) 0x0F))
    (Z.land (Z.shiftr base 24) 0xFF) (Z.land (Z.shiftr base 32) 0xFFFFFFFF) 0.

Definition gdt_set_gate (base limit access flags : Z) : gdt_entry_t :=
  GdtEntry (Z.land limit 0xFFFF) (Z.land base 0xFFFF) (Z.land (Z.shiftr base 16) 0xFF) access
    (u8 (Z.lor (Z.land (Z.shiftr limit 16) 0xF) (Z.shiftl flags 4))) (Z.land (Z.shiftr base 24) 0xFF).

Definition gdt_set_gate_simple (access flags : Z) : gdt_entry_t := gdt_set_gate 0 0 access flags.

Definition sizeof_tss : Z := 104.

Definition gdt_set_tss (gdt : gdt_t) (tss : Z) : gdt_t :=
  Gdt (null gdt) (kernel_code gdt) (kernel_data gdt) (user_data gdt) (user_code gdt)
    (gdt_set_long_gate tss (sizeof_tss - 1) 0x89 0).

Definition load_gdt : gdt_t :=
  Gdt (gdt_set_gate_simple 0 0) (gdt_set_gate_simple 0x9A 0xA) (gdt_set_gate_simple 0x92 0xC)
    (gdt_set_gate_simple 0xF2 0xC) (gdt_set_gate_simple 0xFA 0xA) (gdt_set_long_gate 0 0 0x89 0).

(** *** include/cpu/tss.h and tss.c: the fields that are not zero *)

Record tss_t := Tss { rsp0 : Z; iomap_base : Z }.

(** The segment is at the address [tss]. *)
Definition init_tss (gdt : gdt_t) (tss : Z) : tss_t * gdt_t := (Tss 0 sizeof_tss, gdt_set_tss gdt tss).

Definition set_kernel_tss (tss : tss_t) (stack : Z) : tss_t := Tss stack (iomap_base tss).

(** *** The machine *)

Inductive event :=
| Cli | Sti | LapicEnable | LapicDisable | LapicEoi | ApicEnableTimer | InitTasks
| IoapicEnable (irq vector : Z) | IoapicDisable (irq : Z)
| Outb (port value : Z) | Wrmsr (reg low high : Z).

Class Machine (E : Type) := {
  emit : event → E → E;
  inb : Z → E → Z * E;
  rdtsc : E → Z * E
}.

(** *** include/config.h *)

Record timer_subconfig := Timers {
  timer_source : Z; apic_tsc_deadline : bool; tsc_invariant : bool; tsc_freq_khz : Z
}.

Record kernel_config_t := Config {
  interrupts_enabled : bool; interrupt_source : Z; multitasking_enabled : bool; timers : timer_subconfig
}.

(** The configuration, the handler table, [ticks] and the machine. *)
Record state (E : Type) := State {
  kernel_config : kernel_config_t; isr_handler_table : list Z; ticks : Z; machine : E
}.
Arguments State {E}.
Arguments kernel_config {E}.
Arguments isr_handler_table {E}.
Arguments ticks {E}.
Arguments machine {E}.

(** *** include/cpu/idt.h *)

Definition IDT_ENTRY_COUNT : Z := 256.

Record idt_entry_t := IdtEntry {
  offset_low : Z; segment_selector : Z; ist : Z; flags : Z; offset_mid : Z; offset_high : Z; reserved_high : Z
}.

Definition PIT_FREQ : Z := 1193182.
Definition PIT_HZ : Z := 1000.
Definition PIT_MODE_COMMAND_REG : Z := 0x43.
Definition PIT_DATA0 : Z := 0x40.

Definition MS_PER_SECOND : Z := 1000.
Definition NS_PER_SECOND : Z := 1000000000.
Definition MS_PER_NS : Z := 1000000.

Record kernel_duration_t := Duration { seconds : Z; milliseconds : Z; nanoseconds : Z }.

Definition bit_MSR : Z := 0x20.
Definition bit_TSCDeadline : Z := 0x1000000.

Section cpu.
Context {E : Type} `{Machine E}.

Definition with_config (s : state E) (c : kernel_config_t) : state E :=
  State c (isr_handler_table s) (ticks s) (machine s).
Definition with_timers (s : state E) (t : timer_subconfig) : state E :=
  let c := kernel_config s in
  with_config s (Config (interrupts_enabled c) (interrupt_source c) (multitasking_enabled c) t).
Definition with_handlers (s : state E) (h : list Z) : state E :=
  State (kernel_config s) h (ticks s) (machine s).
Definition with_ticks (s : state E) (t : Z) : state E :=
  State (kernel_config s) (isr_handler_table s) t (machine s).
Definition with_machine (s : state E) (e : E) : state E :=
  State (kernel_config s) (isr_handler_table s) (ticks s) e.
Definition signal (s : state E) (ev : event) : state E := with_machine s (emit ev (machine s)).

(** *** isr.c *)

(** [vector] is an [int]; outside the table the code writes elsewhere. *)
Definition register_handler (s : state E) (vector handler : Z) : res (state E) :=
  if (0 <=? vector) && (vector <? Z.of_nat (length (isr_handler_table s)))
  then Ok (with_handlers s (<[Z.to_nat vector := handler]> (isr_handler_table s))) else Err Undefined.

Definition unregister_handler (s : state E) (vector : Z) : res (state E) := register_handler s vector 0.

(** *** idt.c *)

Definition disable_irq (s : state E) (irq vector : Z) : res (state E) :=
  let s := if interrupt_source (kernel_config s) =? 2 then signal s (IoapicDisable irq) else s in
  unregister_handler s vector.

Definition enable_irq (s : state E) (irq vector handler : Z) : res (state E) :=
  let s := if interrupt_source (kernel_config s) =? 2 then signal s (IoapicEnable irq vector) else s in
  register_handler s vector handler.

Definition set_idt_entry_simple (handler : Z) : idt_entry_t :=
  IdtEntry (Z.land handler 0xFFFF) 0x08 0 0x8E (Z.land (Z.shiftr handler 16) 0xFFFF)
    (Z.land (Z.shiftr handler 32) 0xFFFFFFFF) 0.

(** The entries that are loaded, and the emptied handler table. *)
Definition load_idt (s : state E) (isr_stub_table : list Z) : list idt_entry_t * state E :=
  (set_idt_entry_simple <$> isr_stub_table, with_handlers s (replicate (Z.to_nat IDT_ENTRY_COUNT) 0)).

(** [call] is what a handler does. *)
Definition interrupt_handler (call : Z → isr_stack_t → state E → isr_stack_t * state E)
    (s : state E) (stack : isr_stack_t) : res (isr_stack_t * state E) :=
  handler ← of_option Undefined (isr_handler_table s !! Z.to_nat (isr stack));
  if handler =? 0 then Err Undefined
  else let '(modified_stack, s) := call handler stack s in Ok (modified_stack, signal s LapicEoi).

Definition exception_handler (call : Z → isr_stack_t → state E → isr_stack_t * state E)
    (s : state E) (stack : isr_stack_t) : res (isr_stack_t * state E) :=
  if 32 <=? isr stack then interrupt_handler call s stack
  else if isr stack =? 2 then Ok (stack, s)
  else Err Halted.

(** *** pit.c *)

Definition pit_count (e : E) : Z * E :=
  let '(low, e) := inb PIT_DATA0 e in
  let '(high, e) := inb PIT_DATA0 e in
  (Z.lor (Z.shiftl high 8) low, e).

Definition pit_init (s : state E) : state E :=
  let reload_value := u16 (PIT_FREQ / PIT_HZ) in
  let s := signal s (Outb PIT_MODE_COMMAND_REG 0x34) in
  let s := signal s (Outb PIT_DATA0 (Z.land reload_value 0xFF)) in
  signal s (Outb PIT_DATA0 (Z.shiftr reload_value 8)).

(** Waiting: [hlt] is what the interrupts do that end one halt. *)
Definition wait (fuel : nat) (hlt : state E → state E) (s : state E) : res (state E) :=
  iter fuel (λ s, if ticks s >? 0 then Ok (Next (hlt s)) else Ok (Done s)) s.

Definition pit_sleep (fuel : nat) (hlt : state E → state E) (s : state E) (duration : Z) : res (state E) :=
  wait fuel hlt (with_ticks s duration).

(** *** tsc.c *)

Definition calibrate_tsc_single_pass (fuel : nat) (e : E) : res (Z * E) :=
  let ms := 10 in
  let count := u16 (ms * PIT_FREQ / 1000) in
  let e := emit (Outb PIT_MODE_COMMAND_REG 0x30) e in
  let e := emit (Outb PIT_DATA0 (Z.land count 0xFF)) e in
  let e := emit (Outb PIT_DATA0 (Z.shiftr count 8)) e in
  let '(t1, e) := rdtsc e in
  let '(lsb, e) := inb 0x40 e in
  let '(msb, e) := inb 0x40 e in
  '(t2, e) ← iter fuel (λ '(t2, msb, e),
    if msb >? 0 then
      let '(t2, e) := rdtsc e in
      let '(lsb, e) := inb 0x40 e in
      let '(msb, e) := inb 0x40 e in
      Ok (Next (t2, msb, e))
    else Ok (Done (t2, e))) (t1, msb, e);
  Ok (u64 (t2 - t1) / ms, e).

(** [pass] is a single pass. *)
Definition calibrate_loop (pass : E → res (Z * E)) (e : E) : res (Z * E) :=
  let acceptable_error := 500 in
  r ← iter 501 (λ '(i, d0, d1, e),
    if i <? 500 then
      let d2 := d1 in
      let d1 := d0 in
      '(d0, e) ← pass e;
      if (u64 (d0 - d1) <? acceptable_error) && (u64 (d0 - d2) <? acceptable_error)
      then Ok (Done (Some (u64 (d0 + d1 + d2) / 3), e))
      else Ok (Next (i + 1, d0, d1, e))
    else Ok (Done (None, e))) (0, 0, 0, e);
  match r with
  | (Some avg, e) => Ok (avg, e)
  | (None, e) => pass e
  end.

Definition calibrate_tsc_slow (fuel : nat) (e : E) : res (Z * E) :=
  calibrate_loop (calibrate_tsc_single_pass fuel) e.

Definition set_tsc_deadline (s : state E) (deadline : Z) : state E :=
  signal s (Wrmsr 0x6E0 (Z.land deadline 0xFFFFFFFF) (Z.shiftr deadline 32)).

(** *** sleep.c *)

Definition duration_to_ns (d : kernel_duration_t) : Z :=
  u64 (nanoseconds d + milliseconds d * MS_PER_NS + seconds d * NS_PER_SECOND).

Definition duration_to_ms (d : kernel_duration_t) : Z :=
  u64 (milliseconds d + nanoseconds d / MS_PER_NS + seconds d * MS_PER_SECOND).

Definition ksleep (fuel : nat) (hlt : state E → state E) (s : state E) (duration : kernel_duration_t) :
    res (state E) :=
  let '(deadline, e) := rdtsc (machine s) in
  let s := with_machine s e in
  let s := if negb (Z.land (timer_source (timers (kernel_config s))) 2 =? 0) then
      let s := with_ticks s 1 in
      let nanos := duration_to_ns duration in
      let deadline := u64 (deadline + u64 (nanos * tsc_freq_khz (timers (kernel_config s))) / MS_PER_NS) in
      set_tsc_deadline s deadline
    else with_ticks s (duration_to_ms duration) in
  wait fuel hlt s.

(** *** config.c *)

Definition apic_timer_isr (s : state E) : state E := with_ticks s 0.

Definition pic_timer_isr (s : state E) : state E :=
  if ticks s >? 0 then with_ticks s (ticks s - 1) else s.

(** [get_cpuid] answers eax, ebx, ecx and edx of a leaf that is supported. *)
Definition init_config_cpuid (get_cpuid : Z → option (Z * Z * Z * Z)) (s : state E) : res (state E) :=
  let s := with_config s (Config false 0 false (Timers 0 false false 0)) in
  match get_cpuid 1 with
  | None => Ok s
  | Some (_, _, ecx, _) =>
      let deadline := negb (Z.land ecx bit_TSCDeadline =? 0) in
      let invariant := match get_cpuid 0x80000007 with
                       | Some (_, _, _, edx) => negb (Z.land edx (2 ^ 8) =? 0)
                       | None => false
                       end in
      freq ← (match get_cpuid 0x15 with
              | Some (eax, ebx, ecx, _) =>
                  if eax =? 0 then Err Undefined else Ok (u32 (ecx * (ebx / eax)) / 1000)
              | None => Ok 0
              end);
      let freq := match get_cpuid 0x16 with Some (eax, _, _, _) => u32 (eax * 1000) | None => freq end in
      Ok (with_timers s (Timers 0 deadline invariant freq))
  end.

Definition cli (s : state E) : state E :=
  let s := signal s Cli in
  if negb (Z.land (interrupt_source (kernel_config s)) 2 =? 0) then signal s LapicDisable else s.

Definition sti (s : state E) : state E :=
  let s := if negb (Z.land (interrupt_source (kernel_config s)) 2 =? 0) then signal s LapicEnable else s in
  signal s Sti.

Definition MAYBE_CLI (s : state E) : state E := if interrupts_enabled (kernel_config s) then cli s else s.
Definition MAYBE_STI (s : state E) : state E := if interrupts_enabled (kernel_config s) then sti s else s.

Definition enable_interrupts (s : state E) : state E :=
  let s := sti s in
  let c := kernel_config s in
  with_config s (Config true (interrupt_source c) (multitasking_enabled c) (timers c)).

(** task.c: the first call of [init_tasks]; [task_switch_isr] is an address.  The
    event is the rest of it, which sets up the state of Tasks.v. *)
Definition init_tasks (task_switch_isr : Z) (s : state E) : res (state E) :=
  s ← register_handler s 128 task_switch_isr;
  Ok (signal s InitTasks).

Definition enable_tasking (task_switch_isr : Z) (s : state E) : res (state E) :=
  let s := MAYBE_CLI s in
  s ← init_tasks task_switch_isr s;
  let c := kernel_config s in
  let s := with_config s (Config (interrupts_enabled c) (interrupt_source c) true (timers c)) in
  Ok (MAYBE_STI s).

Definition set_timer_source (s : state E) (source : Z) : state E :=
  let t := timers (kernel_config s) in
  with_timers s (Timers source (apic_tsc_deadline t) (tsc_invariant t) (tsc_freq_khz t)).

(** The handlers are the addresses of the two functions above. *)
Context (pic_timer_handler apic_timer_handler : Z).

Definition enable_pit (s : state E) : res (state E) :=
  let s := MAYBE_CLI s in
  let s := pit_init s in
  s ← enable_irq s 0 34 pic_timer_handler;
  let s := set_timer_source s (Z.lor (timer_source (timers (kernel_config s))) 1) in
  Ok (MAYBE_STI s).

(** The part behind the calibration. *)
Definition start_apic_timer (s : state E) : res (state E) :=
  s ← register_handler s 32 apic_timer_handler;
  let s := signal s ApicEnableTimer in
  s ← disable_irq s 0 34;
  let s := set_timer_source s (Z.lor (Z.land (timer_source (timers (kernel_config s))) 6) 2) in
  Ok (MAYBE_STI s).

Definition enable_apic (fuel : nat) (s : state E) : res (state E) :=
  let s := MAYBE_CLI s in
  let t := timers (kernel_config s) in
  if tsc_freq_khz t =? 0 then
    if negb (interrupt_source (kernel_config s) =? 2) || negb (apic_tsc_deadline t) || negb (tsc_invariant t)
    then enable_pit s
    else
      '(frequency, e) ← calibrate_tsc_slow fuel (machine s);
      '(again, e) ← calibrate_tsc_slow fuel e;
      let error := s32 (frequency - again) in
      let s := with_machine s e in
      if (error >? 1500) || (error <? - 1500) then Ok s
      else
        let t := timers (kernel_config s) in
        start_apic_timer (with_timers s (Timers (timer_source t) (apic_tsc_deadline t) (tsc_invariant t) (u32 frequency)))
  else start_apic_timer s.
End cpu.

(** *** The reference view *)

(** The address a gate leads to. *)
Definition gate_offset (g : idt_entry_t) : Z :=
  offset_low g + offset_mid g * 2 ^ 16 + offset_high g * 2 ^ 32.

(** A present interrupt gate of ring 0 into the code segment of the kernel. *)
Definition kernel_gate (g : idt_entry_t) (target : Z) : Prop :=
  gate_offset g = target ∧ segment_selector g = 8 ∧ flags g = 0x8E ∧ ist g = 0.

(** Base and limit of a system descriptor. *)
Definition long_base (g : gdt_long_entry_t) : Z :=
  l_base_low g + base_low_mid g * 2 ^ 16 + base_upper_mid g * 2 ^ 24 + l_base_high g * 2 ^ 32.
Definition long_limit (g : gdt_long_entry_t) : Z :=
  l_limit_low g + Z.land (l_flags_and_limit_high g) 0xF * 2 ^ 16.

(** The passes from [e] take the times [f 0], [f 1], ... *)
Inductive passes {E} (pass : E → res (Z * E)) : list Z → E → E → Prop :=
| passes_nil e : passes pass [] e e
| passes_cons v vs e e' e'' : pass e = Ok (v, e') → passes pass vs e' e'' → passes pass (v :: vs) e e''.

(** [b] is at least [a], by less than the accepted error. *)
Definition close (a b : Z) : Prop := a ≤ b < a + 500.

(** A halt that an interrupt ends: [tick] is what passes in the machine until
    then, and [isr] the handler. *)
Definition interrupted {E : Type} (tick : E → E) (isr : state E → state E) (s : state E) : state E :=
  isr (with_machine s (tick (machine s))).

(** ** Lemmas *)

Lemma split_address x :
  0 ≤ x < 2 ^ 64 →
  Z.land x 0xFFFF + Z.land (Z.shiftr x 16) 0xFFFF * 2 ^ 16 + Z.land (Z.shiftr x 32) 0xFFFFFFFF * 2 ^ 32 = x.
Proof.
  intros Hx. rewrite (land_mask 16), (land_mask 16), (land_mask 32), !Z.shiftr_div_pow2 by lia.
  assert (E : x / 2 ^ 16 / 2 ^ 16 = x / 2 ^ 32) by (by rewrite Z.div_div by lia).
  rewrite (Z.mod_small (x / 2 ^ 32)) by (split; [apply Z.div_pos; lia|apply Z.div_lt_upper_bound; lia]).
  pose proof (Z.div_mod x (2 ^ 16)). pose proof (Z.div_mod (x / 2 ^ 16) (2 ^ 16)). lia.
Qed.

Lemma set_idt_entry_gate handler : 0 ≤ handler < 2 ^ 64 → kernel_gate (set_idt_entry_simple handler) handler.
Proof. intros Hh. split; [|done]. by apply split_address. Qed.

(** The descriptor of the task state segment holds its whole address. *)
Lemma long_gate_round_trip base limit access :
  0 ≤ base < 2 ^ 64 → 0 ≤ limit < 2 ^ 20 →
  long_base (gdt_set_long_gate base limit access 0) = base ∧
  long_limit (gdt_set_long_gate base limit access 0) = limit ∧
  l_access (gdt_set_long_gate base limit access 0) = access.
Proof.
  intros Hb Hl. unfold long_base, long_limit, gdt_set_long_gate.
  cbn [l_base_low base_low_mid base_upper_mid l_base_high l_limit_low l_flags_and_limit_high l_access].
  rewrite Z.shiftl_0_l, Z.land_0_l, Z.lor_0_l. rewrite <- Z.land_assoc. change (Z.land 0x0F 0xF) with 0xF.
  rewrite !(land_mask 16), !(land_mask 8), !(land_mask 4), !(land_mask 32), !Z.shiftr_div_pow2 by lia.
  assert (E1 : base / 2 ^ 16 / 2 ^ 8 = base / 2 ^ 24) by (by rewrite Z.div_div by lia).
  assert (E2 : base / 2 ^ 24 / 2 ^ 8 = base / 2 ^ 32) by (by rewrite Z.div_div by lia).
  rewrite (Z.mod_small (base / 2 ^ 32)) by (split; [apply Z.div_pos; lia|apply Z.div_lt_upper_bound; lia]).
  rewrite (Z.mod_small (limit / 2 ^ 16)) by (split; [apply Z.div_pos; lia|apply Z.div_lt_upper_bound; lia]).
  pose proof (Z.div_mod base (2 ^ 16)). pose proof (Z.div_mod (base / 2 ^ 16) (2 ^ 8)).
  pose proof (Z.div_mod (base / 2 ^ 24) (2 ^ 8)). pose proof (Z.div_mod limit (2 ^ 16)). lia.
Qed.

Section timers.
Context {E : Type} `{Machine E}.

Lemma register_handler_spec (s : state E) v h :
  0 ≤ v < Z.of_nat (length (isr_handler_table s)) →
  register_handler s v h = Ok (with_handlers s (<[Z.to_nat v := h]> (isr_handler_table s))).
Proof. intros Hv. unfold register_handler. by rewrite (proj2 (Z.leb_le _ _)), (proj2 (Z.ltb_lt _ _)) by lia. Qed.

(** Timer interrupts end the wait after as many ticks. *)
Lemma wait_ticks tick n : ∀ (s : state E) fuel,
  ticks s = Z.of_nat n → (n < fuel)%nat →
  wait fuel (interrupted tick pic_timer_isr) s = Ok (with_ticks (with_machine s (Nat.iter n tick (machine s))) 0).
Proof.
  induction n as [|n IH]; intros s [|fuel] Ht Hf; try lia; unfold wait; cbn [iter]; rewrite Ht.
  - simpl_res. f_equal. destruct s; cbn in *. by subst.
  - rewrite gtb_true by lia. simpl_res.
    etransitivity; [apply (IH (interrupted tick pic_timer_isr s) fuel)|].
    + unfold interrupted, pic_timer_isr. cbn [ticks with_machine]. rewrite gtb_true by lia. cbn. lia.
    + lia.
    + unfold interrupted, pic_timer_isr. cbn [ticks with_machine]. rewrite gtb_true by lia.
      rewrite Nat.iter_succ_r. done.
Qed.

Lemma wait_apic tick (s : state E) fuel :
  0 < ticks s → (2 ≤ fuel)%nat →
  wait fuel (interrupted tick apic_timer_isr) s = Ok (with_ticks (with_machine s (tick (machine s))) 0).
Proof.
  intros Ht Hf. destruct fuel as [|[|fuel]]; try lia. unfold wait. cbn [iter]. rewrite gtb_true by lia. done.
Qed.

Lemma passes_app (pass : E → res (Z * E)) vs ws e e'' :
  passes pass (vs ++ ws) e e'' → ∃ e', passes pass vs e e' ∧ passes pass ws e' e''.
Proof.
  revert e. induction vs as [|v vs IH]; intros e Hp; [exists e; split; [constructor|done]|].
  inversion Hp; subst. destruct (IH _ ltac:(eassumption)) as (e1 & ? & ?). exists e1. split; [by econstructor|done].
Qed.

Lemma close_test b c : 0 ≤ b < 2 ^ 63 → 0 ≤ c < 2 ^ 63 → (u64 (c - b) <? 500) = bool_decide (close b c).
Proof.
  intros Hb Hc. unfold close, u64, wrap. destruct (decide (b ≤ c)).
  - rewrite Z.mod_small by lia. case_bool_decide; zcase; lia.
  - rewrite <- (Z_mod_plus_full (c - b) 1), Z.mod_small by lia. case_bool_decide; zcase; lia.
Qed.

(** What three close passes look like in the list of all passes. *)
Definition mean_of (vs : list Z) (avg : Z) : Prop :=
  ∃ pre a b c post, vs = pre ++ a :: b :: c :: post ∧ close b c ∧ close a c ∧ avg = (a + b + c) / 3.

Lemma mean_of_cons v vs avg : mean_of vs avg → mean_of (v :: vs) avg.
Proof. intros (pre & a & b & c & post & -> & ?). by exists (v :: pre), a, b, c, post. Qed.

Abbreviation calibrate_step pass :=
  (λ '(i, d0, d1, e),
    if i <? 500 then
      let d2 := d1 in
      let d1 := d0 in
      '(d0, e) ← pass e;
      if (u64 (d0 - d1) <? 500) && (u64 (d0 - d2) <? 500)
      then Ok (Done (Some (u64 (d0 + d1 + d2) / 3), e))
      else Ok (Next (i + 1, d0, d1, e))
    else Ok (Done (None, e))).

(** The loop ends with the mean of three close passes, or uses them up. *)
Lemma calibrate_steps (pass : E → res (Z * E)) : ∀ vs i d0 d1 (e e' : E) k,
  passes pass vs e e' → i + Z.of_nat (length vs) = 500 → Forall (λ v, 0 ≤ v < 2 ^ 62) vs →
  0 ≤ d0 < 2 ^ 62 → 0 ≤ d1 < 2 ^ 62 → (length vs < k)%nat →
  ∃ r e'', iter k (calibrate_step pass) (i, d0, d1, e) = Ok (r, e'') ∧
    match r with Some avg => mean_of (d1 :: d0 :: vs) avg | None => e'' = e' end.
Proof.
  induction vs as [|v vs IH]; intros i d0 d1 e e' [|k] Hp Hlen Hvs H0 H1 Hk; try lia; inversion Hp; subst;
    cbn [length] in *.
  - assert (i = 500) as -> by lia. by exists None, e'.
  - apply Forall_cons in Hvs as [Hv Hvs]. cbn [iter]. rewrite (proj2 (Z.ltb_lt i 500)) by lia. cbv zeta.
    match goal with Hpass : pass e = Ok _ |- _ => rewrite Hpass end. simpl_res.
    rewrite !close_test by lia. case_bool_decide as Hc1; [case_bool_decide as Hc2|]; cbn [andb].
    + exists (Some ((v + d0 + d1) / 3)). eexists. split.
      { unfold u64. rewrite wrap_small by lia. simpl_res. done. }
      exists [], d1, d0, v, vs. split_and!; try done. f_equal. lia.
    + match goal with Hps : passes pass vs _ _ |- _ =>
        destruct (IH (i + 1) v d0 _ _ k Hps) as (r & e'' & Er & Hr); [lia|done|lia|lia|lia|] end.
      exists r, e''. split; [exact Er|]. destruct r; [by apply mean_of_cons|done].
    + match goal with Hps : passes pass vs _ _ |- _ =>
        destruct (IH (i + 1) v d0 _ _ k Hps) as (r & e'' & Er & Hr); [lia|done|lia|lia|lia|] end.
      exists r, e''. split; [exact Er|]. destruct r; [by apply mean_of_cons|done].
Qed.

Lemma calibrate_spec fuel vs v (e e' : E) :
  passes (calibrate_tsc_single_pass fuel) (vs ++ [v]) e e' → length vs = 500%nat →
  Forall (λ v, 0 ≤ v < 2 ^ 62) vs →
  ∃ r e'', calibrate_tsc_slow fuel e = Ok (r, e'') ∧ (mean_of (0 :: 0 :: vs) r ∨ r = v).
Proof.
  intros Hp Hlen Hvs. apply passes_app in Hp as (e1 & Hp & Hlast). inversion Hlast; subst.
  destruct (calibrate_steps _ vs 0 0 0 e e1 501 Hp) as (r & e2 & Er & Hr); [lia|done|lia|lia|lia|].
  unfold calibrate_tsc_slow, calibrate_loop. cbv zeta in Er |- *. rewrite Er. simpl_res. destruct r as [avg|].
  - exists avg, e2. by split; [|left].
  - subst e2. eexists v, _. split; [eassumption|by right].
Qed.
End timers.

(** ** Properties *)

(** C27: After [load_idt], with one handler registered, every vector of the
    processor enters the stub of that vector through a present interrupt gate;
    the registered interrupt runs its handler and acknowledges the interrupt,
    any other interrupt calls NULL, and exceptions other than the NMI halt. *)
Theorem load_idt_dispatch {E} `{Machine E} (s : state E) stubs v h call stack :
  length stubs = 256%nat → Forall (λ a, 0 ≤ a < 2 ^ 64) stubs → 32 ≤ v < 256 → h ≠ 0 → 0 ≤ isr stack < 256 →
  ∃ idt s1 s2, load_idt s stubs = (idt, s1) ∧ register_handler s1 v h = Ok s2 ∧
    (∀ i a, stubs !! i = Some a → ∃ g, idt !! i = Some g ∧ kernel_gate g a) ∧
    exception_handler call s2 stack =
      if decide (isr stack = v) then let '(r, s3) := call h stack s2 in Ok (r, signal s3 LapicEoi)
      else if decide (32 ≤ isr stack) then Err Undefined
      else if decide (isr stack = 2) then Ok (stack, s2) else Err Halted.
Proof.
  intros Hl Hs Hv Hh Hi. eexists _, _, _. split; [done|]. split.
  { apply register_handler_spec. cbn [isr_handler_table with_handlers]. rewrite length_replicate. unfold IDT_ENTRY_COUNT. lia. }
  split.
  - intros i a Ha. exists (set_idt_entry_simple a). split; [by rewrite list_lookup_fmap, Ha|].
    apply set_idt_entry_gate. by eapply (proj1 (Forall_lookup _ _) Hs).
  - unfold exception_handler, interrupt_handler. cbn [isr_handler_table with_handlers].
    destruct (Z.leb_spec 32 (isr stack)) as [Hge|Hlt].
    + destruct (decide (isr stack = v)) as [->|Hne].
      * rewrite list_lookup_insert_eq by (rewrite length_replicate; unfold IDT_ENTRY_COUNT; lia). simpl_res.
        by rewrite (proj2 (Z.eqb_neq h 0)).
      * rewrite decide_True by done. rewrite list_lookup_insert_ne by lia.
        rewrite lookup_replicate_2 by (unfold IDT_ENTRY_COUNT; lia). done.
    + rewrite !(decide_False (P := isr stack = v)) by lia. rewrite (decide_False (P := 32 ≤ isr stack)) by lia.
      destruct (Z.eqb_spec (isr stack) 2); [by rewrite decide_True|by rewrite decide_False].
Qed.

(** A machine whose time stamp counter reads 0 and [step] in turn, and whose
    ports read 1 twice and then 0 twice. *)
Record toggle := Toggle { reads : Z; late : bool; log : list event }.
Definition step : Z := 30000000.
#[global] Instance toggle_machine : Machine toggle := {|
  emit ev e := Toggle (reads e) (late e) [];
  inb _ e := (if reads e <? 2 then 1 else 0, Toggle ((reads e + 1) mod 4) (late e) (log e));
  rdtsc e := (if late e then step else 0, Toggle (reads e) (negb (late e)) (log e))
|}.

Definition boot_state : state toggle := State (Config false 0 false (Timers 0 false false 0)) [] 0 (Toggle 0 false []).

Lemma load_idt_dispatch_witness :
  ∃ idt s1 s2, load_idt boot_state (replicate 256 0xFFFF800000012345) = (idt, s1) ∧
    register_handler s1 33 0x1000 = Ok s2 ∧
    exception_handler (λ _ stack s, (stack, s)) s2 (IsrStack 0 0 0 0 0 0 0 0 0 0 0 0 0 0 0 33 0 0 0 0) =
      Ok (IsrStack 0 0 0 0 0 0 0 0 0 0 0 0 0 0 0 33 0 0 0 0, signal s2 LapicEoi).
Proof.
  destruct (load_idt_dispatch boot_state (replicate 256 0xFFFF800000012345) 33 0x1000 (λ _ stack s, (stack, s))
    (IsrStack 0 0 0 0 0 0 0 0 0 0 0 0 0 0 0 33 0 0 0 0)) as (idt & s1 & s2 & E1 & E2 & _ & E3);
    [by rewrite length_replicate|by apply Forall_replicate|lia|done|cbn; lia|].
  exists idt, s1, s2. split; [exact E1|]. split; [exact E2|exact E3].
Defined.

(** [calibrate_tsc_slow] ends after at most 501 passes: with the mean of
    three consecutive passes, the last of which is the largest and exceeds the
    others by less than the accepted error, or with the last pass. *)
Lemma calibrate_tsc_slow_mean {E} `{Machine E} fuel vs v (e e' : E) :
  passes (calibrate_tsc_single_pass fuel) (vs ++ [v]) e e' → length vs = 500%nat →
  Forall (λ v, 0 ≤ v < 2 ^ 62) vs →
  ∃ r e'', calibrate_tsc_slow fuel e = Ok (r, e'') ∧ (mean_of (0 :: 0 :: vs) r ∨ r = v).
Proof. apply calibrate_spec. Qed.

(** C28: [ksleep] returns: with the periodic timer after exactly as many ticks
    as the duration has milliseconds, with the deadline timer after exactly one
    interrupt, for which the counter has been set forward by the duration when
    the product fits 64 bits.  [tick] is what passes in the machine from one
    interrupt to the next: it has passed that many times when [ksleep] returns,
    and nothing else has happened. *)
Theorem ksleep_wakes {E} `{Machine E} (tick : E → E) (s : state E) (d : kernel_duration_t) now e' fuel :
  rdtsc (machine s) = (now, e') → 0 ≤ seconds d → 0 ≤ milliseconds d → 0 ≤ nanoseconds d →
  let ns := nanoseconds d + milliseconds d * 1000000 + seconds d * 1000000000 in
  let source := timer_source (timers (kernel_config s)) in
  let freq := tsc_freq_khz (timers (kernel_config s)) in
  (Z.testbit source 1 = false → milliseconds d + nanoseconds d / 1000000 + seconds d * 1000 < 2 ^ 64 →
   (Z.to_nat (milliseconds d + nanoseconds d / 1000000 + seconds d * 1000) < fuel)%nat →
   ksleep fuel (interrupted tick pic_timer_isr) s d =
     Ok (with_ticks (with_machine s
       (Nat.iter (Z.to_nat (milliseconds d + nanoseconds d / 1000000 + seconds d * 1000)) tick e')) 0)) ∧
  (Z.testbit source 1 = true → 0 ≤ freq → 0 ≤ now → ns < 2 ^ 64 → ns * freq < 2 ^ 64 →
   now + ns * freq / 1000000 < 2 ^ 64 → (2 ≤ fuel)%nat →
   let s1 := set_tsc_deadline (with_machine s e') (now + ns * freq / 1000000) in
   ksleep fuel (interrupted tick apic_timer_isr) s d = Ok (with_ticks (with_machine s1 (tick (machine s1))) 0)).
Proof.
  intros Et Hs Hms Hns ns source freq. unfold ksleep. rewrite Et. cbn [kernel_config with_machine].
  assert (Hbit : (Z.land source 2 =? 0) = negb (Z.testbit source 1)).
  { change 2 with (2 ^ 1). destruct (Z.testbit source 1) eqn:Eb; cbn [negb].
    - apply Z.eqb_neq. intros E0. assert (Z.testbit (Z.land source (2 ^ 1)) 1 = false) as E1 by (rewrite E0; apply Z.bits_0).
      rewrite Z.land_spec, Eb in E1. done.
    - apply Z.eqb_eq, Z.bits_inj'. intros i Hi. rewrite Z.land_spec, Z.bits_0, Z.pow2_bits_eqb by lia.
      destruct (Z.eqb_spec 1 i) as [<-|]; [by rewrite Eb|apply andb_false_r]. }
  fold source freq. rewrite Hbit. split.
  - intros -> Hfit Hfuel. cbn [negb].
    assert (Hd : duration_to_ms d = milliseconds d + nanoseconds d / 1000000 + seconds d * 1000).
    { unfold duration_to_ms, MS_PER_NS, MS_PER_SECOND. apply wrap_small.
      pose proof (Z.div_pos (nanoseconds d) 1000000). lia. }
    rewrite Hd. pose proof (Z.div_pos (nanoseconds d) 1000000).
    by rewrite (wait_ticks tick (Z.to_nat (milliseconds d + nanoseconds d / 1000000 + seconds d * 1000))) by (cbn [ticks with_ticks]; lia).
  - intros -> Hf Hn Hns64 Hfit Hdl Hfuel. cbn [negb].
    assert (Hd : duration_to_ns d = ns).
    { unfold duration_to_ns, MS_PER_NS, NS_PER_SECOND. apply wrap_small. unfold ns in *. lia. }
    cbv zeta. cbn [kernel_config with_ticks with_machine]. fold freq.
    rewrite Hd. unfold u64, MS_PER_NS. rewrite (wrap_small 64 (ns * freq)) by (unfold ns in *; lia).
    rewrite wrap_small by (pose proof (Z.div_pos (ns * freq) 1000000); unfold ns in *; lia).
    by rewrite wait_apic by (done || (cbn; lia)).
Qed.

(** Twenty milliseconds, counted by a machine that counts its ticks. *)
Lemma ksleep_wakes_witness :
  ksleep 21 (interrupted (λ e, Toggle (reads e + 1) (late e) (log e)) pic_timer_isr) boot_state (Duration 0 20 0) =
  Ok (with_ticks (with_machine boot_state (Toggle 20 true [])) 0).
Proof.
  destruct (ksleep_wakes (λ e, Toggle (reads e + 1) (late e) (log e)) boot_state (Duration 0 20 0) 0 (Toggle 0 true []) 21)
    as [Hw _]; [done..|].
  apply Hw; [done|done|vm_compute; lia].
Defined.
