(* ===== verification/FrameAlloc.v ===== *)
(** * The initial frame allocator (lethe-kernel/memory/initial_frame_allocator.c)

    Frames are handed out of the usable entries of the boot loader's memory
    map, each one zeroed through the higher-half mapping.  Physical memory is
    a map from frame addresses to their 512 words of 64 bits.  [FrameSource]
    is what the page tables rely on; the allocator is its instance. *)
From S2P Require Import Prelude.

(** ** Definitions *)

Definition PAGE_SIZE : Z := 4096.
Definition PAGE_COUNT : Z := 512.
Definition LIMINE_MEMMAP_USABLE : Z := 0.
Definition KERNEL_USED : Z := 0xA9.

(** The words of one frame. *)
Abbreviation frame_words := (list Z).
Abbreviation phys := (gmap Z frame_words).
Definition zero_frame : frame_words := replicate (Z.to_nat PAGE_COUNT) 0.

Record memmap_entry := MemmapEntry { me_base : Z; me_length : Z; me_type : Z }.

Record frame_t := Frame { f_start : bool; f_base : Z; f_length : Z }.

Record frame_allocator_t := FrameAllocator { memory_map : list memmap_entry; fnext : frame_t }.

(** The loop of [next_usable]: the first usable entry and the map in which it
    has been marked. *)
Fixpoint take_usable (es : list memmap_entry) : option (memmap_entry * list memmap_entry) :=
  match es with
  | [] => None
  | e :: es =>
      if me_type e =? LIMINE_MEMMAP_USABLE
      then Some (e, MemmapEntry (me_base e) (me_length e) KERNEL_USED :: es)
      else '(u, es) ← take_usable es; Some (u, e :: es)
  end.

Definition next_usable (a : frame_allocator_t) : res frame_allocator_t :=
  match take_usable (memory_map a) with
  | Some (e, es) => Ok (FrameAllocator es (Frame false (me_base e) (me_length e)))
  | None => Err Halted
  end.

(** One activation of the recursive [allocate_frame]. *)
Definition frame_step (ph : phys) (a : frame_allocator_t) :
    res (ctrl frame_allocator_t (Z * frame_allocator_t * phys)) :=
  let next := fnext a in
  if f_start next then Ok (Done (0, a, ph))
  else
    let next :=
      if f_base next =? 0
      then Frame (f_start next) (u64 (f_base next + 4096)) (u64 (f_length next - 4096))
      else next in
    if f_length next <? 4096 then
      a ← next_usable (FrameAllocator (memory_map a) next); Ok (Next a)
    else
      let addr := f_base next in
      let next := Frame (f_start next) (u64 (f_base next + 4096)) (u64 (f_length next - 4096)) in
      Ok (Done (addr, FrameAllocator (memory_map a) next, <[addr := zero_frame]> ph)).

Definition allocate_frame (a : frame_allocator_t) (ph : phys) :
    res (Z * frame_allocator_t * phys) :=
  iter (S (S (length (memory_map a)))) (frame_step ph) a.

Definition init_frame_allocator (mm : list memmap_entry) : res frame_allocator_t :=
  next_usable (FrameAllocator mm (Frame true 0 0)).

(** [n] allocations in a row. *)
Fixpoint allocate_frames (n : nat) (a : frame_allocator_t) (ph : phys) :
    res (list Z * frame_allocator_t * phys) :=
  match n with
  | O => Ok ([], a, ph)
  | S n =>
      '(f, a, ph) ← allocate_frame a ph;
      '(fs, a, ph) ← allocate_frames n a ph;
      Ok (f :: fs, a, ph)
  end.

(** *** Specification *)

(** The whole frames of [len] bytes at [base]; frame 0 is never handed out. *)
Definition frames_of (base len : Z) : list Z :=
  let base' := if base =? 0 then 4096 else base in
  let len' := if base =? 0 then len - 4096 else len in
  (λ i : nat, base' + 4096 * Z.of_nat i) <$> seq 0 (Z.to_nat (len' / 4096)).

Definition usable_frames (es : list memmap_entry) : list Z :=
  es ≫= λ e, if me_type e =? LIMINE_MEMMAP_USABLE then frames_of (me_base e) (me_length e) else [].

(** What the boot protocol promises of a usable entry: page-aligned, a whole
    number of pages, not empty, inside the address space. *)
Definition entry_ok (e : memmap_entry) : Prop :=
  me_type e = LIMINE_MEMMAP_USABLE →
  0 ≤ me_base e ∧ (me_base e) mod 4096 = 0 ∧ (me_length e) mod 4096 = 0 ∧ 0 < me_length e ∧
  me_base e + me_length e < 2 ^ 64.

(** Usable entries do not overlap. *)
Definition entries_disjoint (es : list memmap_entry) : Prop :=
  ∀ i j e f, i ≠ j → es !! i = Some e → es !! j = Some f →
    me_type e = LIMINE_MEMMAP_USABLE → me_type f = LIMINE_MEMMAP_USABLE →
    me_base e + me_length e ≤ me_base f ∨ me_base f + me_length f ≤ me_base e.

(** *** The interface the page tables use *)

Class FrameSource (F : Type) := {
  frame_alloc : F → phys → res (Z * F * phys);
  frame_ok : F → Prop;
  frames_left : F → list Z;
  frame_alloc_cons s ph f fs :
    frame_ok s → frames_left s = f :: fs →
    ∃ s', frame_alloc s ph = Ok (f, s', <[f := zero_frame]> ph) ∧ frame_ok s' ∧ frames_left s' = fs;
  frame_alloc_nil s ph : frame_ok s → frames_left s = [] → frame_alloc s ph = Err Halted
}.

(** ** Lemmas *)

Definition alloc_ok (a : frame_allocator_t) : Prop :=
  let n := fnext a in
  f_start n = false ∧ 0 ≤ f_base n ∧ 0 ≤ f_length n ∧ f_base n + f_length n < 2 ^ 64 ∧
  (f_base n = 0 → 4096 ≤ f_length n) ∧ Forall entry_ok (memory_map a).

Definition remaining (a : frame_allocator_t) : list Z :=
  frames_of (f_base (fnext a)) (f_length (fnext a)) ++ usable_frames (memory_map a).

Lemma frames_of_cons b l :
  0 < b → 4096 ≤ l → frames_of b l = b :: frames_of (b + 4096) (l - 4096).
Proof.
  intros Hb Hl. unfold frames_of. rewrite !(proj2 (Z.eqb_neq _ _)) by lia.
  assert (E : l / 4096 = (l - 4096) / 4096 + 1) by (rewrite <- Z.div_add by lia; f_equal; lia).
  assert (0 ≤ (l - 4096) / 4096) by (apply Z.div_pos; lia).
  rewrite E, Z2Nat.inj_add by lia. change (Z.to_nat 1) with 1%nat. rewrite Nat.add_1_r.
  cbn [seq]. rewrite fmap_cons, <- fmap_S_seq, <- list_fmap_compose. f_equal; [lia|].
  apply list_fmap_ext. intros i x _. cbn. lia.
Qed.

Lemma frames_of_zero l : frames_of 0 l = frames_of 4096 (l - 4096).
Proof. done. Qed.

Lemma frames_of_short b l : b ≠ 0 → l < 4096 → frames_of b l = [].
Proof.
  intros Hb Hl. unfold frames_of. rewrite (proj2 (Z.eqb_neq _ _) Hb).
  assert (l / 4096 ≤ 0); [|by replace (Z.to_nat (l / 4096)) with 0%nat by lia].
  destruct (Z.lt_ge_cases l 0); [|by rewrite Z.div_small by lia].
  assert (l / 4096 < 0) by (apply Z.div_lt_upper_bound; lia). lia.
Qed.

Lemma take_usable_spec es :
  Forall entry_ok es →
  match take_usable es with
  | Some (e, es') => me_type e = LIMINE_MEMMAP_USABLE ∧ entry_ok e ∧ Forall entry_ok es' ∧
      length es' = length es ∧
      usable_frames es = frames_of (me_base e) (me_length e) ++ usable_frames es' ∧
      (length (filter (λ e, me_type e = LIMINE_MEMMAP_USABLE) es) =
       S (length (filter (λ e, me_type e = LIMINE_MEMMAP_USABLE) es')))
  | None => usable_frames es = []
  end.
Proof.
  induction 1 as [|e es He Hes IH]; cbn [take_usable]; [done|].
  unfold usable_frames in *. cbn [mbind list_bind].
  destruct (Z.eqb_spec (me_type e) LIMINE_MEMMAP_USABLE) as [E|E].
  - split_and!; [done|done| |done|done|].
    + constructor; [|done]. intros HU. done.
    + rewrite filter_cons_True, filter_cons_False by done. done.
  - destruct (take_usable es) as [[u es']|]; cbn [mbind option_bind].
    + destruct IH as (? & ? & ? & ? & ? & ?). rewrite !filter_cons_False by done.
      cbn [list_bind length]. rewrite (proj2 (Z.eqb_neq _ _) E). cbn [app].
      split_and!; [done|done|by constructor|lia|done|done].
    + done.
Qed.

Abbreviation usable_count es := (length (filter (λ e, me_type e = LIMINE_MEMMAP_USABLE) es)).

(** One frame out of the current entry. *)
Lemma current_frame b l rest f fs :
  0 < b → 4096 ≤ l → frames_of b l ++ rest = f :: fs →
  f = b ∧ frames_of (b + 4096) (l - 4096) ++ rest = fs.
Proof. intros Hb Hl. rewrite frames_of_cons by done. by intros [= <- <-]. Qed.

Lemma alloc_loop fuel a (ph : phys) :
  alloc_ok a → (usable_count (memory_map a) < fuel)%nat →
  let r := iter fuel (frame_step ph) a in
  match remaining a with
  | [] => r = Err Halted
  | f :: fs => ∃ a', r = Ok (f, a', <[f := zero_frame]> ph) ∧ alloc_ok a' ∧ remaining a' = fs ∧
                     length (memory_map a') = length (memory_map a)
  end.
Proof.
  revert a. induction fuel as [|fuel IH]; intros [mm [st b l]] (Hs & Hb & Hl & Hbl & Hz & Hmm) Hf; [lia|].
  cbn in Hs, Hb, Hl, Hbl, Hz, Hmm, Hf. subst st. cbv zeta.
  remember (iter (S fuel) (frame_step ph) _) as r eqn:Er. cbn [iter] in Er.
  remember (frame_step ph _) as step eqn:Es in Er. unfold frame_step in Es.
  cbn [memory_map fnext f_start f_base f_length] in Es.
  set (next := if b =? 0 then _ else _) in Es.
  assert (∃ b' l', next = Frame false b' l' ∧ 0 < b' ∧ 0 ≤ l' ∧ b' + l' < 2 ^ 64 ∧
                   frames_of b l = frames_of b' l') as (b' & l' & En & Hb' & Hl' & Hbl' & E).
  { subst next. destruct (Z.eqb_spec b 0) as [->|].
    - exists 4096, (l - 4096). specialize (Hz eq_refl). unfold u64. rewrite !wrap_small by lia.
      split_and!; (done || lia).
    - exists b, l. split_and!; (done || lia). }
  rewrite En in Es. cbn [f_length f_base f_start] in Es.
  unfold remaining. cbn [fnext f_base f_length memory_map].
  rewrite E. destruct (Z.lt_ge_cases l' 4096) as [Hlt|Hge].
  - rewrite frames_of_short by lia. cbn [app]. unfold next_usable in Es. cbn [memory_map] in Es.
    rewrite (proj2 (Z.ltb_lt _ _) Hlt) in Es.
    pose proof (take_usable_spec mm Hmm) as Hu.
    destruct (take_usable mm) as [[e es']|]; simpl_res; subst step; simpl_res; [|by rewrite Hu].
    destruct Hu as (Hty & He & Hes & Hlen & Eu & Hcnt). destruct (He Hty) as (? & ? & ? & ? & ?).
    set (a1 := FrameAllocator es' (Frame false (me_base e) (me_length e))) in *.
    assert (Hok1 : alloc_ok a1).
    { split; cbn; [done|]. split_and!; try (done || lia).
      intros _. assert (me_length e = 4096 * (me_length e / 4096)) by (apply Z_div_exact_full_2; lia).
      lia. }
    specialize (IH a1 Hok1). unfold remaining in IH at 1. cbn [a1 fnext f_base f_length memory_map] in IH.
    rewrite Eu. subst r. destruct (frames_of (me_base e) (me_length e) ++ usable_frames es') as [|f fs].
    + apply IH. lia.
    + destruct IH as (a' & Hr & Ha' & Hrem & Hlen'); [lia|]. exists a'.
      split_and!; [done|done|done|]. rewrite Hlen'. cbn. lia.
  - rewrite (proj2 (Z.ltb_ge _ _) Hge) in Es. subst step r. simpl_res.
    rewrite frames_of_cons by lia. cbn [app]. eexists. split; [done|].
    unfold u64. rewrite !wrap_small by lia. split; [|by split].
    split; cbn; [done|]. split_and!; (done || lia).
Qed.

Lemma allocate_frame_spec a ph :
  alloc_ok a →
  match remaining a with
  | [] => allocate_frame a ph = Err Halted
  | f :: fs => ∃ a', allocate_frame a ph = Ok (f, a', <[f := zero_frame]> ph) ∧ alloc_ok a' ∧
                     remaining a' = fs
  end.
Proof.
  intros Ha. pose proof (alloc_loop (S (S (length (memory_map a)))) a ph Ha) as Hr. cbv zeta in Hr.
  pose proof (length_filter (λ e, me_type e = LIMINE_MEMMAP_USABLE) (memory_map a)).
  unfold allocate_frame. destruct (remaining a) as [|f fs].
  - apply Hr. lia.
  - destruct Hr as (a' & ? & ? & ? & _); [lia|]. by exists a'.
Qed.

Lemma init_frames_spec mm :
  Forall entry_ok mm →
  match usable_frames mm with
  | [] => True
  | _ => ∃ a, init_frame_allocator mm = Ok a ∧ alloc_ok a ∧ remaining a = usable_frames mm
  end.
Proof.
  intros Hmm. unfold init_frame_allocator, next_usable. cbn [memory_map].
  pose proof (take_usable_spec mm Hmm) as Hu.
  destruct (take_usable mm) as [[e es']|]; [|by rewrite Hu].
  destruct Hu as (Hty & He & Hes & Hlen & Eu & Hcnt). destruct (He Hty) as (? & ? & ? & ? & ?).
  destruct (usable_frames mm) eqn:E; [done|]. eexists. split; [done|].
  split; [|by rewrite Eu]. split; cbn; [done|]. split_and!; try (done || lia).
  intros _. assert (me_length e = 4096 * (me_length e / 4096)) by (apply Z_div_exact_full_2; lia). lia.
Qed.

#[export, refine] Instance initial_frames : FrameSource frame_allocator_t := {|
  frame_alloc := allocate_frame;
  frame_ok := alloc_ok;
  frames_left := remaining
|}.
Proof.
  - intros a ph f fs Ha E. pose proof (allocate_frame_spec a ph Ha) as Hs. rewrite E in Hs.
    destruct Hs as (a' & ? & ? & ?). by exists a'.
  - intros a ph Ha E. pose proof (allocate_frame_spec a ph Ha) as Hs. by rewrite E in Hs.
Defined.

Lemma allocate_frames_spec n a ph :
  alloc_ok a → (n ≤ length (remaining a))%nat →
  ∃ a' ph', allocate_frames n a ph = Ok (take n (remaining a), a', ph') ∧ alloc_ok a' ∧
    remaining a' = drop n (remaining a) ∧
    ∀ f, ph' !! f = if decide (f ∈ take n (remaining a)) then Some zero_frame else ph !! f.
Proof.
  revert a ph. induction n as [|n IH]; intros a ph Ha Hn.
  { exists a, ph. split_and!; [done..|]. intros f. by rewrite decide_False by apply not_elem_of_nil. }
  pose proof (allocate_frame_spec a ph Ha) as Hs. destruct (remaining a) as [|f fs]; [cbn in Hn; lia|].
  destruct Hs as (a1 & E & Ha1 & Er). cbn [allocate_frames]. rewrite E. simpl_res.
  cbn in Hn. destruct (IH a1 (<[f := zero_frame]> ph) Ha1) as (a' & ph' & -> & Ha' & Er' & Hph); [rewrite Er; lia|].
  simpl_res. rewrite Er in *. exists a', ph'. split_and!; [done..|]. intros g. rewrite Hph. cbn.
  destruct (decide (g = f)) as [->|Hne].
  - rewrite (decide_True (P := f ∈ f :: _)) by left. rewrite lookup_insert_eq. by case_decide.
  - rewrite lookup_insert_ne by done.
    destruct (decide (g ∈ take n fs)) as [Hi|Hi]; [by rewrite decide_True by by right|].
    rewrite decide_False; [done|]. intros [?|?]%elem_of_cons; done.
Qed.

Lemma allocate_frames_halt n a ph :
  alloc_ok a → (length (remaining a) < n)%nat → allocate_frames n a ph = Err Halted.
Proof.
  revert a ph. induction n as [|n IH]; intros a ph Ha Hn; [lia|].
  pose proof (allocate_frame_spec a ph Ha) as Hs. cbn [allocate_frames].
  destruct (remaining a) as [|f fs]; [by rewrite Hs|].
  destruct Hs as (a1 & -> & Ha1 & Er). simpl_res. rewrite IH; [done..|]. rewrite Er. cbn in Hn. lia.
Qed.

Lemma elem_frames_of f b l :
  f ∈ frames_of b l → 0 ≤ b → b mod 4096 = 0 →
  f ≠ 0 ∧ f mod 4096 = 0 ∧ b ≤ f ∧ f + 4096 ≤ b + l.
Proof.
  intros (i & -> & Hi%elem_of_seq)%list_elem_of_fmap Hb Hm.
  set (b' := if b =? 0 then 4096 else b). set (l' := if b =? 0 then l - 4096 else l) in *.
  assert (0 < b' ∧ b' mod 4096 = 0 ∧ b ≤ b' ∧ b' + l' = b + l) as (? & Hm' & ? & ?).
  { subst b' l'. destruct (Z.eqb_spec b 0) as [->|]; split_and!; (done || lia). }
  pose proof (Z.mul_div_le l' 4096). split; [lia|]. split; [|lia].
  rewrite Z.add_mod, Hm', (Z.mul_comm 4096), Z_mod_mult by lia. done.
Qed.

Lemma frames_of_nodup b l : NoDup (frames_of b l).
Proof.
  apply NoDup_fmap_2_strong; [|apply NoDup_seq]. intros x y _ _ E. lia.
Qed.

Lemma usable_frames_inside es f :
  f ∈ usable_frames es → Forall entry_ok es →
  ∃ i e, es !! i = Some e ∧ me_type e = LIMINE_MEMMAP_USABLE ∧
    f ≠ 0 ∧ f mod 4096 = 0 ∧ me_base e ≤ f ∧ f + 4096 ≤ me_base e + me_length e.
Proof.
  intros Hf Hok. apply list_elem_of_bind in Hf as (e & Hf & (i & Hi)%list_elem_of_lookup).
  rewrite Forall_lookup in Hok. specialize (Hok i e Hi).
  destruct (Z.eqb_spec (me_type e) LIMINE_MEMMAP_USABLE) as [E|E]; [|by apply not_elem_of_nil in Hf].
  destruct (Hok E) as (? & ? & _). exists i, e. split; [done|]. split; [done|].
  by apply elem_frames_of.
Qed.

Lemma usable_frames_nodup es :
  Forall entry_ok es → entries_disjoint es → NoDup (usable_frames es).
Proof.
  induction 1 as [|e es He Hes IH]; intros Hd; [constructor|].
  unfold usable_frames. cbn [mbind list_bind]. apply NoDup_app. split_and!.
  - case_match; [apply frames_of_nodup|constructor].
  - intros f Hf Hf'. destruct (Z.eqb_spec (me_type e) LIMINE_MEMMAP_USABLE) as [E|E];
      [|by apply not_elem_of_nil in Hf].
    destruct (He E) as (? & ? & _). apply elem_frames_of in Hf as (? & ? & ? & ?); [|done..].
    apply usable_frames_inside in Hf' as (i & e' & Hi & E' & ? & ? & ? & ?); [|done].
    destruct (Hd 0%nat (S i) e e'); [done..|lia|lia].
  - apply IH. intros i j e1 e2 Hne H1 H2. apply (Hd (S i) (S j)); [lia|done..].
Qed.

(** ** Properties *)

(** C4: the allocator hands out exactly the whole frames of the usable memory
    map entries, in map order, each one zeroed, and stops the machine when
    they are used up: [n] allocations return the first [n] of them when there
    are that many and halt otherwise; frames not handed out are untouched. *)
Theorem allocate_frames_exact (mm : list memmap_entry) (n : nat) (ph : phys) :
  Forall entry_ok mm → usable_frames mm ≠ [] →
  ∃ a, init_frame_allocator mm = Ok a ∧
    if decide (n ≤ length (usable_frames mm))%nat then
      ∃ a' ph', allocate_frames n a ph = Ok (take n (usable_frames mm), a', ph') ∧
        ∀ f, ph' !! f = if decide (f ∈ take n (usable_frames mm)) then Some zero_frame else ph !! f
    else allocate_frames n a ph = Err Halted.
Proof.
  intros Hmm Hne. pose proof (init_frames_spec mm Hmm) as Hi.
  assert (∃ a, init_frame_allocator mm = Ok a ∧ alloc_ok a ∧ remaining a = usable_frames mm)
    as (a & E & Ha & <-) by (destruct (usable_frames mm); done).
  exists a. split; [done|]. case_decide.
  - destruct (allocate_frames_spec n a ph Ha) as (a' & ph' & ? & _ & _ & ?); [done|]. eauto.
  - apply allocate_frames_halt; [done|lia].
Qed.

(** Frames handed out by one boot are pairwise different, none is frame 0,
    each is page-aligned and lies inside a usable entry of the memory map. *)
Lemma allocate_frames_distinct (mm : list memmap_entry) (n : nat) (ph : phys) a fs a' ph' :
  Forall entry_ok mm → entries_disjoint mm → usable_frames mm ≠ [] →
  init_frame_allocator mm = Ok a → allocate_frames n a ph = Ok (fs, a', ph') →
  NoDup fs ∧ Forall (λ f, f ≠ 0 ∧ f mod 4096 = 0 ∧
    ∃ e, e ∈ mm ∧ me_type e = LIMINE_MEMMAP_USABLE ∧
         me_base e ≤ f ∧ f + 4096 ≤ me_base e + me_length e) fs.
Proof.
  intros Hmm Hd Hne Hi Hfs. pose proof (init_frames_spec mm Hmm) as Hs.
  assert (alloc_ok a ∧ remaining a = usable_frames mm) as [Ha Er].
  { destruct (usable_frames mm); [done|]. destruct Hs as (a1 & E1 & ? & ?).
    assert (a1 = a) as -> by congruence. done. }
  destruct (decide (n ≤ length (remaining a))%nat) as [Hn|Hn].
  2:{ rewrite allocate_frames_halt in Hfs; [done..|lia]. }
  destruct (allocate_frames_spec n a ph Ha Hn) as (a2 & ph2 & E2 & _).
  assert (fs = take n (usable_frames mm)) as -> by congruence.
  pose proof (usable_frames_nodup mm Hmm Hd) as Hnd. split.
  - rewrite <- (take_drop n (usable_frames mm)) in Hnd. by apply NoDup_app in Hnd as (? & _).
  - apply Forall_forall. intros f Hf. apply elem_of_take in Hf as (i & Hf & _).
    apply list_elem_of_lookup_2 in Hf.
    apply usable_frames_inside in Hf as (j & e & Hj & ? & ? & ? & ? & ?); [|done].
    split_and!; [done..|]. exists e. split; [by eapply list_elem_of_lookup_2|done].
Qed.

Definition demo_memmap : list memmap_entry :=
  [MemmapEntry 0 0x3000 0; MemmapEntry 0x3000 0x1000 1; MemmapEntry 0x8000 0x2000 0].

Lemma demo_memmap_ok : Forall entry_ok demo_memmap.
Proof. repeat constructor; cbn; unfold LIMINE_MEMMAP_USABLE in *; try done; lia. Qed.

Lemma allocate_frames_exact_witness :
  ∃ a, init_frame_allocator demo_memmap = Ok a ∧
    if decide (3 ≤ length (usable_frames demo_memmap))%nat then
      ∃ a' ph', allocate_frames 3 a ∅ = Ok (take 3 (usable_frames demo_memmap), a', ph') ∧
        ∀ f, ph' !! f = if decide (f ∈ take 3 (usable_frames demo_memmap)) then Some zero_frame
                        else (∅ : phys) !! f
    else allocate_frames 3 a ∅ = Err Halted.
Proof. apply (allocate_frames_exact demo_memmap 3 ∅); [apply demo_memmap_ok|done]. Defined.

