(* ===== verification/Paging.v ===== *)
(** * Four-level page tables (lethe-kernel/memory/paging.c, paging_internal.h)

    A table is a frame of 512 words in physical memory, an entry is one word
    with the bit-fields of [page_entry_t].  A table pointer is the physical
    address behind the higher-half mapping; an access to a frame the memory
    does not have is undefined.  [invlpg] is not modelled.  The frames for new
    tables come from any [FrameSource].

    The reference view is the tree of tables: [walk] follows present entries
    along a path of indices, [entry_at_path] reads the last one. *)
From S2P Require Import Prelude FrameAlloc.

(** ** Definitions *)

Record page_entry_t := PageEntry {
  present : Z; writable : Z; user_accessable : Z; write_through : Z; cache_disable : Z;
  accessed : Z; unused_1 : Z; page_size : Z; unused_2 : Z; address : Z; unused_3 : Z;
  execute_disable : Z
}.

(** The layout: widths in bits, lowest first. *)
Definition entry_widths : list Z := [1; 1; 1; 1; 1; 1; 1; 1; 4; 40; 11; 1].

Definition entry_word (e : page_entry_t) : Z :=
  pack [(1, present e); (1, writable e); (1, user_accessable e); (1, write_through e);
        (1, cache_disable e); (1, accessed e); (1, unused_1 e); (1, page_size e);
        (4, unused_2 e); (40, address e); (11, unused_3 e); (1, execute_disable e)].

Definition word_entry (w : Z) : page_entry_t :=
  PageEntry (field 0 1 w) (field 1 1 w) (field 2 1 w) (field 3 1 w) (field 4 1 w) (field 5 1 w)
    (field 6 1 w) (field 7 1 w) (field 8 4 w) (field 12 40 w) (field 52 11 w) (field 63 1 w).

(** [flags] has 16 bits, [address] 64. *)
Definition set_entry (address flags : Z) : page_entry_t :=
  PageEntry (Z.land flags 0x1) (Z.shiftr (Z.land flags 0x2) 1) (Z.shiftr (Z.land flags 0x4) 2)
    (Z.shiftr (Z.land flags 0x8) 3) (Z.shiftr (Z.land flags 0x10) 4)
    (Z.shiftr (Z.land flags 0x20) 5) 1 (Z.shiftr (Z.land flags 0x40) 6) 0
    (Z.shiftr address 12 mod 2 ^ 40) 0 (Z.shiftr (Z.land flags 0x80) 7).

Definition PAGE_PRESENT : Z := 1.
Definition PAGE_WRITABLE : Z := 2.

(** [table->pages[index]] *)
Definition table_get (ph : phys) (table : Z) (index : nat) : res page_entry_t :=
  row ← of_option Undefined (ph !! table);
  w ← of_option Undefined (row !! index);
  Ok (word_entry w).

Definition table_set (ph : phys) (table : Z) (index : nat) (e : page_entry_t) : res phys :=
  row ← of_option Undefined (ph !! table);
  _ ← of_option Undefined (row !! index);
  Ok (<[table := <[index := entry_word e]> row]> ph).

(** [(virtual >> 12 >> 9 >> 9 >> 9) & 0x1FF] and so on. *)
Definition p4_index (v : Z) : nat :=
  Z.to_nat (Z.land (Z.shiftr (Z.shiftr (Z.shiftr (Z.shiftr v 12) 9) 9) 9) 0x1FF).
Definition p3_index (v : Z) : nat :=
  Z.to_nat (Z.land (Z.shiftr (Z.shiftr (Z.shiftr v 12) 9) 9) 0x1FF).
Definition p2_index (v : Z) : nat := Z.to_nat (Z.land (Z.shiftr (Z.shiftr v 12) 9) 0x1FF).
Definition p1_index (v : Z) : nat := Z.to_nat (Z.land (Z.shiftr v 12) 0x1FF).

(** [address << 12] *)
Definition frame_of (e : page_entry_t) : Z := u64 (Z.shiftl (address e) 12).

Definition virtual_to_physical (ph : phys) (page_table virtual : Z) : res Z :=
  e4 ← table_get ph page_table (p4_index virtual);
  let p3_physical := frame_of e4 in
  if p3_physical =? 0 then Ok 0
  else
    e3 ← table_get ph p3_physical (p3_index virtual);
    let p2_physical := frame_of e3 in
    if p2_physical =? 0 then Ok 0
    else
      e2 ← table_get ph p2_physical (p2_index virtual);
      let p1_physical := frame_of e2 in
      if p1_physical =? 0 then Ok 0
      else
        e1 ← table_get ph p1_physical (p1_index virtual);
        Ok (frame_of e1).

Definition zero_entry : page_entry_t := PageEntry 0 0 0 0 0 0 0 0 0 0 0 0.

Definition get_entry (ph : phys) (page_table page : Z) : res page_entry_t :=
  e4 ← table_get ph page_table (p4_index page);
  let p3_physical := frame_of e4 in
  if p3_physical =? 0 then Ok zero_entry
  else
    e3 ← table_get ph p3_physical (p3_index page);
    let p2_physical := frame_of e3 in
    if p2_physical =? 0 then Ok zero_entry
    else
      e2 ← table_get ph p2_physical (p2_index page);
      let p1_physical := frame_of e2 in
      if p1_physical =? 0 then Ok zero_entry
      else
        e1 ← table_get ph p1_physical (p1_index page);
        if frame_of e1 =? 0 then Ok zero_entry else Ok e1.

Definition is_free (ph : phys) (page_table virtual : Z) : res bool :=
  e ← get_entry ph page_table virtual;
  Ok (unused_1 e =? 0).

Section paging.
Context {F : Type} `{FrameSource F}.

Definition __allocate_entry (fs : F) (ph : phys) (table : Z) (index : nat) (flags : Z) :
    res (F * phys) :=
  '(address, fs, ph) ← frame_alloc fs ph;
  if address =? 0 then Err Halted
  else ph ← table_set ph table index (set_entry address flags); Ok (fs, ph).

(** [if (table->pages[index].present == 0) __allocate_entry(...)], and the
    table the entry leads to. *)
Definition next_table (fs : F) (ph : phys) (table : Z) (index : nat) (flags : Z) :
    res (Z * F * phys) :=
  e ← table_get ph table index;
  '(fs, ph) ← (if present e =? 0 then __allocate_entry fs ph table index flags else Ok (fs, ph));
  e ← table_get ph table index;
  Ok (frame_of e, fs, ph).

Definition map_page (fs : F) (ph : phys) (page_table page frame flags : Z) : res (F * phys) :=
  '(p3, fs, ph) ← next_table fs ph page_table (p4_index page) flags;
  '(p2, fs, ph) ← next_table fs ph p3 (p3_index page) flags;
  '(p1, fs, ph) ← next_table fs ph p2 (p2_index page) flags;
  e ← table_get ph p1 (p1_index page);
  if negb (present e =? 0) then Err Halted
  else ph ← table_set ph p1 (p1_index page) (set_entry frame flags); Ok (fs, ph).

Definition unmap_page (ph : phys) (page_table page : Z) : res phys :=
  e4 ← table_get ph page_table (p4_index page);
  if present e4 =? 0 then Ok ph
  else
    e3 ← table_get ph (frame_of e4) (p3_index page);
    if present e3 =? 0 then Ok ph
    else
      e2 ← table_get ph (frame_of e3) (p2_index page);
      if present e2 =? 0 then Ok ph
      else table_set ph (frame_of e2) (p1_index page) zero_entry.

(** The inner loop of [get_free_region]: [inl] the region is free, [inr] the
    page behind the first one that is not.  [i] is an [int]. *)
Definition scan_region (ph : phys) (page_table search_start num_pages : Z) : res (unit + Z) :=
  iter (S (Z.to_nat num_pages)) (λ '(i, virtual),
    if i <? num_pages then
      free ← is_free ph page_table virtual;
      let virtual := u64 (virtual + PAGE_SIZE) in
      if free : bool then i ← int_ok (i + 1); Ok (Next (i, virtual))
      else Ok (Done (inr virtual))
    else Ok (Done (inl tt))) (0, search_start).

(** The value of [ALIGN_UP(search_start, PAGE_SIZE)] is not used. *)
Definition get_free_region (fuel : nat) (ph : phys) (page_table start num_pages : Z) : res Z :=
  iter fuel (λ search_start,
    r ← scan_region ph page_table search_start num_pages;
    match r with
    | inl _ => Ok (Done search_start)
    | inr virtual => Ok (Next virtual)
    end) start.

Definition map_contiguous_pages (fuel : nat) (fs : F) (ph : phys)
    (page_table desired_start physical_start num_pages flags : Z) : res (Z * F * phys) :=
  virtual ← get_free_region fuel ph page_table desired_start num_pages;
  let copy := virtual in
  '(fs, ph) ← iter (S (Z.to_nat num_pages)) (λ '(i, virtual, physical, fs, ph),
      if i <? num_pages then
        '(fs, ph) ← map_page fs ph page_table virtual physical flags;
        i ← int_ok (i + 1);
        Ok (Next (i, u64 (virtual + PAGE_SIZE), u64 (physical + PAGE_SIZE), fs, ph))
      else Ok (Done (fs, ph))) (0, virtual, physical_start, fs, ph);
  Ok (copy, fs, ph).

Definition map_page_nearest (fuel : nat) (hhdm_mapping : Z) (fs : F) (ph : phys)
    (page_table desired_page frame flags : Z) : res (Z * F * phys) :=
  let virtual_addr := desired_page in
  let virtual_addr :=
    if (virtual_addr =? hhdm_mapping) || (virtual_addr =? 0)
    then u64 (virtual_addr + 0x1000) else virtual_addr in
  virtual_addr ← iter fuel (λ v,
      p ← virtual_to_physical ph page_table v;
      if negb (p =? 0) then Ok (Next (u64 (v + 0x1000))) else Ok (Done v)) virtual_addr;
  '(fs, ph) ← map_page fs ph page_table virtual_addr frame flags;
  Ok (virtual_addr, fs, ph).
End paging.

(** utils.h: CR3 without its low 12 bits. *)
Definition read_cr3 (cr3 : Z) : Z := Z.shiftl (Z.shiftr cr3 12) 12.

(** The address at which the kernel sees the tables of CR3. *)
Definition init_page_table (cr3 hhdm_mapping : Z) : Z :=
  u64 (Z.shiftr (u64 (Z.shiftl (read_cr3 cr3) 12)) 12 + hhdm_mapping).

(** The twelve high bits of CR3 are dropped with the twelve low ones. *)
Lemma init_page_table_root cr3 hhdm_mapping :
  0 ≤ cr3 < 2 ^ 64 →
  init_page_table cr3 hhdm_mapping = u64 ((cr3 mod 2 ^ 52) / 4096 * 4096 + hhdm_mapping).
Proof.
  intros Hc. unfold init_page_table, read_cr3, u64, wrap. f_equal. f_equal.
  rewrite !Z.shiftl_mul_pow2, !Z.shiftr_div_pow2 by lia.
  rewrite <- Z.mul_assoc. change (2 ^ 12 * 2 ^ 12) with (2 ^ 24). change (2 ^ 64) with (2 ^ 40 * 2 ^ 24).
  rewrite Z.mul_mod_distr_r by lia. change (2 ^ 24) with (4096 * 2 ^ 12). rewrite Z.mul_assoc, Z.div_mul by lia.
  change (2 ^ 12) with 4096. f_equal. change (2 ^ 52) with (4096 * 2 ^ 40).
  rewrite Z.rem_mul_r, (Z.mul_comm 4096), Z.div_add by lia. rewrite (Z.div_small (cr3 mod 4096)) by (apply Z.mod_pos_bound; lia).
  lia.
Qed.

(** *** The tree of tables *)

(** Follow present entries from table [t]. *)
Fixpoint walk (ph : phys) (t : Z) (p : list nat) : option Z :=
  match p with
  | [] => Some t
  | i :: p =>
      row ← ph !! t; w ← row !! i;
      if present (word_entry w) =? 0 then None else walk ph (frame_of (word_entry w)) p
  end.

(** The word at the end of a path. *)
Definition word_at (ph : phys) (root : Z) (p : list nat) (i : nat) : option Z :=
  t ← walk ph root p; row ← ph !! t; row !! i.

Definition table_path (page : Z) : list nat := [p4_index page; p3_index page; p2_index page].

(** The mapping of a page: its last-level word, when present. *)
Definition leaf (ph : phys) (root page : Z) : option Z :=
  w ← word_at ph root (table_path page) (p1_index page);
  if present (word_entry w) =? 0 then None else Some w.

(** The table tree is a tree, its absent entries are clear, and the frames
    still to be handed out are not part of it. *)
Record pt_ok (root : Z) (ph : phys) (free : list Z) : Prop := PtOk {
  pt_rows : ∀ p t, (length p ≤ 3)%nat → walk ph root p = Some t →
    ∃ row, ph !! t = Some row ∧ length row = 512%nat;
  pt_inj : ∀ p q t, (length p ≤ 3)%nat → (length q ≤ 3)%nat →
    walk ph root p = Some t → walk ph root q = Some t → p = q;
  pt_absent : ∀ p i w, (length p ≤ 3)%nat → word_at ph root p i = Some w →
    present (word_entry w) = 0 → address (word_entry w) = 0;
  pt_present : ∀ p i w, (length p ≤ 2)%nat → word_at ph root p i = Some w →
    present (word_entry w) ≠ 0 → address (word_entry w) ≠ 0;
  pt_nodup : NoDup free;
  pt_free : ∀ f, f ∈ free →
    0 < f < 2 ^ 52 ∧ f mod 4096 = 0 ∧ ∀ p, (length p ≤ 3)%nat → walk ph root p ≠ Some f
}.

(** ** Lemmas *)

(** Every field fits its width. *)
Definition entry_fits (e : page_entry_t) : Prop :=
  0 ≤ present e < 2 ∧ 0 ≤ writable e < 2 ∧ 0 ≤ user_accessable e < 2 ∧
  0 ≤ write_through e < 2 ∧ 0 ≤ cache_disable e < 2 ∧ 0 ≤ accessed e < 2 ∧
  0 ≤ unused_1 e < 2 ∧ 0 ≤ page_size e < 2 ∧ 0 ≤ unused_2 e < 2 ^ 4 ∧
  0 ≤ address e < 2 ^ 40 ∧ 0 ≤ unused_3 e < 2 ^ 11 ∧ 0 ≤ execute_disable e < 2.

Lemma word_entry_word e : entry_fits e → word_entry (entry_word e) = e.
Proof.
  intros He. unfold word_entry, entry_word. field_pack.
  destruct e; unfold entry_fits in He; cbn in He.
  cbn [present writable user_accessable write_through cache_disable accessed unused_1
    page_size unused_2 address unused_3 execute_disable].
  rewrite ?Z.pow_1_r. rewrite !Z.mod_small by lia. done.
Qed.

Lemma entry_word_entry w : 0 ≤ w < 2 ^ 64 → entry_word (word_entry w) = w.
Proof.
  intros Hw. etransitivity; [|apply (pack_unpack entry_widths w);
    [repeat constructor; lia|by change (foldr Z.add 0 entry_widths) with 64]].
  unfold entry_word, word_entry, entry_widths, field. cbn [unpack zip zip_with present writable
    user_accessable write_through cache_disable accessed unused_1 page_size unused_2 address
    unused_3 execute_disable].
  rewrite !Z.div_div by lia. rewrite Z.pow_0_r, Z.div_1_r. reflexivity.
Qed.

Lemma bit_field flags k : 0 ≤ k → 0 ≤ Z.shiftr (Z.land flags (2 ^ k)) k < 2.
Proof.
  intros Hk. assert (0 < 2 ^ k) by (apply Z.pow_pos_nonneg; lia).
  pose proof (land_range (k + 1) flags (2 ^ k)) as H1. rewrite Z.pow_add_r in H1 by lia.
  rewrite Z.shiftr_div_pow2 by done.
  split; [apply Z.div_pos; lia|apply Z.div_lt_upper_bound; lia].
Qed.

Lemma set_entry_fits a flags : entry_fits (set_entry a flags).
Proof.
  unfold entry_fits, set_entry. cbn [present writable user_accessable write_through cache_disable
    accessed unused_1 page_size unused_2 address unused_3 execute_disable].
  repeat match goal with |- _ ∧ _ => split end; try lia;
    try (apply Z.mod_pos_bound; lia); try (apply (bit_field flags); lia).
  all: pose proof (bit_field flags 0 ltac:(lia)) as H0; rewrite Z.shiftr_0_r in H0; apply H0.
Qed.

Lemma present_set a flags :
  present (word_entry (entry_word (set_entry a flags))) = Z.land flags 1.
Proof. by rewrite word_entry_word by apply set_entry_fits. Qed.

Lemma address_bound w : 0 ≤ address (word_entry w) < 2 ^ 40.
Proof. apply field_range. lia. Qed.

Lemma frame_of_word w : frame_of (word_entry w) = address (word_entry w) * 4096.
Proof.
  pose proof (address_bound w). unfold frame_of, u64. rewrite Z.shiftl_mul_pow2 by lia.
  change (2 ^ 12) with 4096. apply wrap_small. lia.
Qed.

Lemma frame_of_zero w : (frame_of (word_entry w) =? 0) = (address (word_entry w) =? 0).
Proof. rewrite frame_of_word. repeat zcase; lia || done. Qed.

Lemma frame_of_set a flags :
  0 ≤ a < 2 ^ 52 →
  frame_of (word_entry (entry_word (set_entry a flags))) = a - a mod 4096.
Proof.
  intros Ha. rewrite frame_of_word, word_entry_word by apply set_entry_fits.
  unfold set_entry. cbn [address]. rewrite Z.shiftr_div_pow2 by lia. change (2 ^ 12) with 4096.
  rewrite Z.mod_small; [pose proof (Z.div_mod a 4096); lia|].
  split; [apply Z.div_pos; lia|]. apply Z.div_lt_upper_bound; lia.
Qed.

Lemma word_zero : word_entry 0 = zero_entry.
Proof. done. Qed.

Lemma table_get_word ph root p t i :
  walk ph root p = Some t → ∀ w, word_at ph root p i = Some w → table_get ph t i = Ok (word_entry w).
Proof.
  intros Ht w. unfold word_at, table_get. rewrite Ht. cbn [mbind option_bind].
  destruct (ph !! t) as [row|]; simpl_res; [|done]. by intros ->.
Qed.

Lemma walk_app ph t p q : walk ph t (p ++ q) = (t' ← walk ph t p; walk ph t' q).
Proof.
  revert t. induction p as [|i p IH]; intros t; [done|]. cbn [walk app].
  destruct (ph !! t) as [row|]; [|done]. cbn [mbind option_bind].
  destruct (row !! i) as [w|]; [|done]. cbn [mbind option_bind].
  case_match; [done|]. apply IH.
Qed.

Lemma walk_snoc ph t p i :
  walk ph t (p ++ [i]) =
  (w ← word_at ph t p i;
   if present (word_entry w) =? 0 then None else Some (frame_of (word_entry w))).
Proof.
  rewrite walk_app. unfold word_at. destruct (walk ph t p) as [s|]; [|done].
  cbn [mbind option_bind walk]. destruct (ph !! s) as [row|]; [|done]. cbn [mbind option_bind].
  done.
Qed.

Section tree.
Context (root : Z) (ph : phys) (free : list Z) (Hpt : pt_ok root ph free).

Lemma word_at_lookup p t i :
  (length p ≤ 3)%nat → walk ph root p = Some t → (i < 512)%nat → is_Some (word_at ph root p i).
Proof using Hpt.
  intros Hp Ht Hi. destruct (pt_rows _ _ _ Hpt p t Hp Ht) as (row & Hr & Hl).
  unfold word_at. rewrite Ht. cbn [mbind option_bind]. rewrite Hr. cbn [mbind option_bind].
  apply lookup_lt_is_Some_2. lia.
Qed.

(** A frame outside the tree can be overwritten. *)
Lemma walk_fresh f z q :
  (∀ p, (length p ≤ 3)%nat → walk ph root p ≠ Some f) → (length q ≤ 4)%nat →
  walk (<[f := z]> ph) root q = walk ph root q ∧
  ∀ i, (length q ≤ 3)%nat → word_at (<[f := z]> ph) root q i = word_at ph root q i.
Proof using Type.
  intros Hf. assert (Hw : ∀ q i, (length q ≤ 3)%nat →
    walk (<[f := z]> ph) root q = walk ph root q →
    word_at (<[f := z]> ph) root q i = word_at ph root q i).
  { intros q0 i Hq E. unfold word_at. rewrite E. destruct (walk ph root q0) as [s|] eqn:Es; [|done].
    cbn [mbind option_bind]. rewrite lookup_insert_ne; [done|]. intros ->. by apply (Hf q0). }
  induction q as [|j q IH] using rev_ind; intros Hq; [split; [done|intros; by apply Hw]|].
  rewrite length_app in Hq. cbn in Hq. destruct IH as [IH1 IH2]; [lia|].
  assert (E : walk (<[f := z]> ph) root (q ++ [j]) = walk ph root (q ++ [j])).
  { rewrite !walk_snoc, IH2 by lia. done. }
  split; [done|]. intros i Hi. by apply Hw.
Qed.

(** One word of a table is overwritten. *)
Section write.
Context (p : list nat) (t : Z) (i : nat) (row : frame_words) (w : Z).
Context (Hp : (length p ≤ 3)%nat) (Ht : walk ph root p = Some t) (Hrow : ph !! t = Some row).
Context (Hi : (i < length row)%nat).

Abbreviation ph' := (<[t := <[i := w]> row]> ph).

Lemma word_write_step q j :
  (length q ≤ 3)%nat → walk ph' root q = walk ph root q →
  word_at ph' root q j = if decide (q = p ∧ j = i) then Some w else word_at ph root q j.
Proof using All.
  intros Hq E. unfold word_at. rewrite E. destruct (walk ph root q) as [s|] eqn:Es.
  - cbn [mbind option_bind]. destruct (decide (s = t)) as [->|Hne].
    + assert (q = p) as -> by (by eapply (pt_inj _ _ _ Hpt)). rewrite lookup_insert_eq, Hrow.
      cbn [mbind option_bind]. destruct (decide (j = i)) as [->|Hne].
      * by rewrite decide_True, list_lookup_insert_eq.
      * rewrite decide_False by tauto. by rewrite list_lookup_insert_ne.
    + rewrite lookup_insert_ne by done. rewrite decide_False; [done|].
      intros [-> _]. congruence.
  - rewrite decide_False; [done|]. intros [-> _]. congruence.
Qed.

Lemma walk_write q :
  (length q ≤ 4)%nat → ¬ (p ++ [i]) `prefix_of` q → walk ph' root q = walk ph root q.
Proof using All.
  induction q as [|j q IH] using rev_ind; [done|]. intros Hq Hpre.
  rewrite length_app in Hq. cbn in Hq.
  assert (E : walk ph' root q = walk ph root q).
  { apply IH; [lia|]. intros [r Hr]. apply Hpre. exists (r ++ [j]). by rewrite Hr, app_assoc. }
  rewrite !walk_snoc, word_write_step by (done || lia).
  rewrite decide_False; [done|]. intros [-> ->]. by apply Hpre.
Qed.

Lemma walk_write_below r :
  walk ph' root (p ++ i :: r) =
  if present (word_entry w) =? 0 then None else walk ph' (frame_of (word_entry w)) r.
Proof using All.
  change (i :: r) with ([i] ++ r). rewrite app_assoc, walk_app, walk_snoc, word_write_step.
  - rewrite decide_True by done. cbn [mbind option_bind]. by case_match.
  - lia.
  - apply walk_write; [lia|]. intros [k Hk]. apply (f_equal length) in Hk.
    rewrite !length_app in Hk. cbn in Hk. lia.
Qed.
End write.
End tree.

(** A last-level word, when present. *)
Definition leaf_at (ph : phys) (root : Z) (q : list nat) (j : nat) : option Z :=
  w ← word_at ph root q j; if present (word_entry w) =? 0 then None else Some w.

(** A frame taken for anything else does not touch the tree. *)
Lemma fresh_frame root ph f free :
  pt_ok root ph (f :: free) →
  pt_ok root (<[f := zero_frame]> ph) free ∧
  ∀ q j, (length q ≤ 3)%nat →
    walk (<[f := zero_frame]> ph) root q = walk ph root q ∧
    word_at (<[f := zero_frame]> ph) root q j = word_at ph root q j.
Proof.
  intros Hpt. destruct (pt_free _ _ _ Hpt f) as (? & ? & Hr); [by left|].
  assert (Hw : ∀ q, (length q ≤ 3)%nat → walk (<[f := zero_frame]> ph) root q = walk ph root q).
  { intros q Hq. apply walk_fresh; [done|lia]. }
  assert (Hwd : ∀ q j, (length q ≤ 3)%nat →
    word_at (<[f := zero_frame]> ph) root q j = word_at ph root q j).
  { intros q j Hq. apply walk_fresh; [done|lia|done]. }
  split; [|intros q j Hq; split; [by apply Hw|by apply Hwd]].
  destruct Hpt as [H1 H2 H3 H4 H5 H6]. split.
  - intros q s Hq Hs. rewrite Hw in Hs by done. destruct (H1 q s Hq Hs) as (r & ? & ?).
    exists r. rewrite lookup_insert_ne; [done|]. intros ->. by apply (Hr q).
  - intros q q' s Hq Hq'. rewrite !Hw by done. by apply H2.
  - intros q j w Hq. rewrite Hwd by done. by apply H3.
  - intros q j w Hq. rewrite Hwd by lia. by apply H4.
  - by apply NoDup_cons in H5 as [_ ?].
  - intros g Hg. destruct (H6 g) as (? & ? & Hg'); [by right|]. split_and!; [lia..|done|].
    intros q Hq. rewrite Hw by done. by apply Hg'.
Qed.

(** A new table [f] is hung into the absent entry [i] of the table at [p], by
    any present word [neww] that leads to it. *)
Section grow.
Context (root : Z) (ph : phys) (f : Z) (free : list Z) (Hpt : pt_ok root ph (f :: free)).
Context (p : list nat) (t : Z) (i : nat) (row : frame_words) (w0 neww : Z).
Context (Hp : (length p ≤ 2)%nat) (Ht : walk ph root p = Some t) (Hrow : ph !! t = Some row).
Context (Hw0 : row !! i = Some w0) (Habs : present (word_entry w0) = 0).
Context (Hnew : present (word_entry neww) ≠ 0) (Hframe : frame_of (word_entry neww) = f).

Abbreviation ph1 := (<[f := zero_frame]> ph).
Abbreviation ph2 := (<[t := <[i := neww]> row]> ph1).

Lemma grow_facts :
  0 < f < 2 ^ 52 ∧ f mod 4096 = 0 ∧ (∀ p, (length p ≤ 3)%nat → walk ph root p ≠ Some f) ∧
  (f ∉ free) ∧ t ≠ f ∧ (i < length row)%nat.
Proof using All.
  destruct (pt_free _ _ _ Hpt f) as (? & ? & Hr); [by left|].
  pose proof (pt_nodup _ _ _ Hpt) as [? _]%NoDup_cons.
  apply lookup_lt_Some in Hw0. split_and!; try done; try lia.
  intros ->. apply (Hr p); [lia|done].
Qed.

Lemma grow_pt1 : pt_ok root ph1 free.
Proof using All. by apply fresh_frame. Qed.

Lemma grow_walk_word q j :
  (length q ≤ 3)%nat →
  walk ph2 root q = (if decide (q = p ++ [i]) then Some f else walk ph root q) ∧
  word_at ph2 root q j =
    (if decide (q = p ++ [i]) then zero_frame !! j
     else if decide (q = p ∧ j = i) then Some neww else word_at ph root q j).
Proof using All.
  intros Hq. destruct grow_facts as (Hf & Hm & Hr & Hnf & Htf & Hi).
  assert (Hrow1 : ph1 !! t = Some row) by (by rewrite lookup_insert_ne).
  assert (Ht1 : walk ph1 root p = Some t).
  { rewrite <- Ht. apply walk_fresh; [done|lia]. }
  destruct (walk_fresh root ph f zero_frame q Hr) as [Ew Ed]; [lia|].
  destruct (decide (prefix (p ++ [i]) q)) as [[r ->]|Hn].
  - rewrite <- app_assoc. cbn [app].
    assert (Ew2 : walk ph2 root (p ++ i :: r) = walk ph2 f r).
    { rewrite (walk_write_below root ph1 free grow_pt1 p t i row neww); [|lia|done..].
      by rewrite (proj2 (Z.eqb_neq _ _) Hnew), Hframe. }
    assert (Hz : ph2 !! f = Some zero_frame).
    { rewrite lookup_insert_ne by done. apply lookup_insert_eq. }
    unfold word_at. rewrite Ew2. destruct r as [|k r].
    + rewrite !(decide_True (P := p ++ [i] = p ++ [i])) by done. cbn [walk mbind option_bind]. by rewrite Hz.
    + assert (Hne : p ++ i :: k :: r ≠ p ++ [i]).
      { intros E%(f_equal length). rewrite !length_app in E. cbn in E. lia. }
      rewrite !decide_False by done. cbn [walk]. rewrite Hz. cbn [mbind option_bind].
      assert (E0 : walk ph root (p ++ i :: k :: r) = None).
      { change (i :: k :: r) with ([i] ++ k :: r). rewrite app_assoc, walk_app, walk_snoc.
        unfold word_at. rewrite Ht. cbn [mbind option_bind]. rewrite Hrow. cbn [mbind option_bind].
        rewrite Hw0. cbn [mbind option_bind]. by rewrite Habs. }
      rewrite E0.
      assert (Ez : (w ← zero_frame !! k; if present (word_entry w) =? 0 then None
                    else walk ph2 (frame_of (word_entry w)) r) = None).
      { destruct (zero_frame !! k) as [z|] eqn:E; [|done]. cbn [mbind option_bind].
        apply lookup_replicate in E as [-> _]. done. }
      rewrite Ez. split; [done|]. cbn [mbind option_bind]. rewrite decide_False; [done|].
      intros [E _]. apply (f_equal length) in E. rewrite length_app in E. cbn in E. lia.
  - rewrite !(decide_False (P := q = p ++ [i])) by (intros ->; by apply Hn).
    assert (E : walk ph2 root q = walk ph1 root q).
    { apply (walk_write root ph1 free grow_pt1 p t i row neww); done || lia. }
    split; [by rewrite E|].
    rewrite (word_write_step root ph1 free grow_pt1 p t i row neww) by (done || lia).
    case_decide; [done|]. by apply Ed.
Qed.

Lemma grow_leaf q j : length q = 3%nat → leaf_at ph2 root q j = leaf_at ph root q j.
Proof using All.
  intros Hq. unfold leaf_at. destruct (grow_walk_word q j) as [_ ->]; [lia|].
  case_decide as E.
  - assert (word_at ph root q j = None) as ->.
    { unfold word_at. rewrite E, walk_snoc. unfold word_at. rewrite Ht. cbn [mbind option_bind].
      rewrite Hrow. cbn [mbind option_bind]. rewrite Hw0. cbn [mbind option_bind]. by rewrite Habs. }
    destruct (zero_frame !! j) as [z|] eqn:Ez; [|done]. apply lookup_replicate in Ez as [-> _]. done.
  - rewrite decide_False; [done|]. intros [-> _]. lia.
Qed.

Lemma grow_pt2 : pt_ok root ph2 free.
Proof using All.
  destruct grow_facts as (Hf & Hm & Hr & Hnf & Htf & Hi).
  pose proof grow_pt1 as [G1 G2 G3 G4 G5 G6].
  pose proof Hpt as [P1 P2 P3 P4 P5 P6].
  assert (Hw : ∀ q s, (length q ≤ 3)%nat → walk ph2 root q = Some s →
     (q = p ++ [i] ∧ s = f) ∨ (q ≠ p ++ [i] ∧ walk ph root q = Some s)).
  { intros q s Hq Hs. destruct (grow_walk_word q 0) as [E _]; [done|]. rewrite E in Hs.
    case_decide; [left; split; congruence|by right]. }
  split.
  - intros q s Hq Hs. apply Hw in Hs as [(-> & ->)|(Hne & Hs)]; [| |done].
    + exists zero_frame. by rewrite lookup_insert_ne, lookup_insert_eq by done.
    + destruct (P1 q s Hq Hs) as (r & E & El). destruct (decide (s = t)) as [->|Hst].
      * assert (r = row) as -> by congruence. exists (<[i := neww]> row).
        by rewrite lookup_insert_eq, length_insert.
      * exists r. rewrite !lookup_insert_ne; [done|intros ->; by apply (Hr q)|done].
  - intros q q' s Hq Hq' Hs Hs'.
    apply Hw in Hs as [(-> & Es)|(Hne & Hs)]; [| |done];
      apply Hw in Hs' as [(-> & Es')|(Hne' & Hs')]; try done.
    + subst s. by apply Hr in Hs'.
    + subst s. by apply Hr in Hs.
    + by apply (P2 q q' s).
  - intros q j w Hq Hwd Hz. destruct (grow_walk_word q j) as [_ E]; [done|]. rewrite E in Hwd.
    case_decide.
    { apply lookup_replicate in Hwd as [-> _]. done. }
    case_decide; [|by apply (P3 q j w)].
    by injection Hwd as <-.
  - intros q j w Hq Hwd Hz. destruct (grow_walk_word q j) as [_ E]; [lia|]. rewrite E in Hwd.
    case_decide.
    { apply lookup_replicate in Hwd as [-> _]. done. }
    case_decide; [|by apply (P4 q j w)].
    injection Hwd as <-. intros E0. rewrite frame_of_word, E0 in Hframe. lia.
  - done.
  - intros g Hg. destruct (G6 g Hg) as (? & ? & Hg'). split_and!; [lia..|done|].
    intros q Hq Hs. apply Hw in Hs as [(_ & ->)|(_ & Hs)]; [done| |done].
    destruct (P6 g) as (_ & _ & Hg''); [by right|]. by apply (Hg'' q).
Qed.

Lemma grow_next : walk ph2 root (p ++ [i]) = Some f.
Proof using All.
  destruct (grow_walk_word (p ++ [i]) 0) as [-> _]; [rewrite length_app; cbn; lia|].
  by rewrite decide_True.
Qed.
End grow.

(** A word of a last-level table is overwritten. *)
Lemma leaf_write root ph free p t i row w :
  pt_ok root ph free → length p = 3%nat → walk ph root p = Some t → ph !! t = Some row →
  (i < length row)%nat → (present (word_entry w) = 0 → address (word_entry w) = 0) →
  let ph' := <[t := <[i := w]> row]> ph in
  pt_ok root ph' free ∧
  ∀ q j, length q = 3%nat →
    word_at ph' root q j = if decide (q = p ∧ j = i) then Some w else word_at ph root q j.
Proof.
  intros Hpt Hp Ht Hrow Hi Hw ph'. pose proof Hpt as [P1 P2 P3 P4 P5 P6].
  assert (Ew : ∀ q, (length q ≤ 3)%nat → walk ph' root q = walk ph root q).
  { intros q Hq. apply (walk_write root ph free Hpt p t i row w); try done; [lia..|].
    intros [r E]. apply (f_equal length) in E. rewrite !length_app in E. cbn in E. lia. }
  assert (Ed : ∀ q j, (length q ≤ 3)%nat →
    word_at ph' root q j = if decide (q = p ∧ j = i) then Some w else word_at ph root q j).
  { intros q j Hq. apply (word_write_step root ph free Hpt p t i row w); auto; lia. }
  split; [|intros q j Hq; apply Ed; lia]. split.
  - intros q s Hq Hs. rewrite Ew in Hs by done. destruct (P1 q s Hq Hs) as (r & E & El).
    destruct (decide (s = t)) as [->|Hst].
    + assert (r = row) as -> by congruence. exists (<[i := w]> row). unfold ph'.
      by rewrite lookup_insert_eq, length_insert.
    + exists r. unfold ph'. by rewrite lookup_insert_ne.
  - intros q q' s Hq Hq'. rewrite !Ew by done. by apply P2.
  - intros q j v Hq. rewrite Ed by done. case_decide; [by intros [= <-]|by apply P3].
  - intros q j v Hq. rewrite Ed by lia. rewrite decide_False by (intros [-> _]; lia). by apply P4.
  - done.
  - intros g Hg. destruct (P6 g Hg) as (? & ? & Hg'). split_and!; [lia..|done|].
    intros q Hq. rewrite Ew by done. by apply Hg'.
Qed.

Lemma table_write ph t i row e :
  ph !! t = Some row → (i < length row)%nat →
  table_set ph t i e = Ok (<[t := <[i := entry_word e]> row]> ph).
Proof.
  intros Hr Hi. unfold table_set. rewrite Hr. simpl_res.
  destruct (lookup_lt_is_Some_2 row i Hi) as [w ->]. done.
Qed.

Lemma word_at_row ph root p t i w :
  walk ph root p = Some t → word_at ph root p i = Some w →
  ∃ row, ph !! t = Some row ∧ row !! i = Some w.
Proof.
  intros Ht. unfold word_at. rewrite Ht. cbn [mbind option_bind].
  destruct (ph !! t) as [row|]; [|done]. cbn [mbind option_bind]. eauto.
Qed.

Section map.
Context {F : Type} `{FrameSource F}.

(** One level down: the table is there or a new one is hung in. *)
Lemma next_table_spec root fs ph p t i flags :
  frame_ok fs → pt_ok root ph (frames_left fs) → (length p ≤ 2)%nat →
  walk ph root p = Some t → (i < 512)%nat → Z.land flags 1 = 1 → frames_left fs ≠ [] →
  ∃ t' fs' ph', next_table fs ph t i flags = Ok (t', fs', ph') ∧ frame_ok fs' ∧
    pt_ok root ph' (frames_left fs') ∧ walk ph' root (p ++ [i]) = Some t' ∧
    (length (frames_left fs) ≤ length (frames_left fs') + 1)%nat ∧
    frames_left fs' `suffix_of` frames_left fs ∧
    ∀ q j, length q = 3%nat → leaf_at ph' root q j = leaf_at ph root q j.
Proof.
  intros Hfs Hpt Hp Ht Hi Hfl Hleft. unfold next_table.
  destruct (word_at_lookup root ph _ Hpt p t i) as [w Hw]; [lia|done..|].
  rewrite (table_get_word ph root p t i Ht w Hw). simpl_res.
  destruct (Z.eqb_spec (present (word_entry w)) 0) as [Habs|Hpres]; simpl_res.
  - destruct (frames_left fs) as [|f free] eqn:Efree; [done|].
    destruct (word_at_row _ _ _ _ _ _ Ht Hw) as (row & Hrow & Hwi).
    destruct (frame_alloc_cons fs ph f free Hfs Efree) as (fs' & E & Hfs' & Efree').
    destruct (pt_free _ _ _ Hpt f) as (Hf & Hm & _); [by left|].
    set (neww := entry_word (set_entry f flags)).
    assert (Hnew : present (word_entry neww) ≠ 0) by (unfold neww; rewrite present_set; lia).
    assert (Hframe : frame_of (word_entry neww) = f) by (unfold neww; rewrite frame_of_set; lia).
    destruct (grow_facts root ph f free Hpt p t i row w neww Hp Ht Hrow Hwi Habs Hnew Hframe)
      as (_ & _ & _ & _ & Htf & Hil).
    unfold __allocate_entry. rewrite E. simpl_res. rewrite (proj2 (Z.eqb_neq f 0)) by lia.
    rewrite (table_write _ t i row) by (done || by rewrite lookup_insert_ne). simpl_res.
    unfold table_get. rewrite lookup_insert_eq. simpl_res.
    rewrite list_lookup_insert_eq by done. simpl_res.
    rewrite frame_of_set, Hm, Z.sub_0_r by lia.
    eexists f, fs', _. split; [done|]. split; [done|]. rewrite Efree'. split_and!.
    + by eapply grow_pt2.
    + by eapply grow_next.
    + cbn. lia.
    + by exists [f].
    + intros q j Hq. by eapply grow_leaf.
  - rewrite (table_get_word ph root p t i Ht w Hw). simpl_res.
    exists (frame_of (word_entry w)), fs, ph. split; [done|]. split_and!; [done..| |lia|done|done].
    rewrite walk_snoc, Hw. cbn [mbind option_bind]. by rewrite (proj2 (Z.eqb_neq _ _) Hpres).
Qed.

Lemma index_bound v : (Z.to_nat (Z.land v 0x1FF) < 512)%nat.
Proof. change 0x1FF with (2 ^ 9 - 1). rewrite land_mask by lia. pose proof (Z.mod_pos_bound v (2 ^ 9)). lia. Qed.

(** The three levels above the leaves. *)
Lemma map_levels root fs ph page flags :
  frame_ok fs → pt_ok root ph (frames_left fs) → Z.land flags 1 = 1 →
  (3 ≤ length (frames_left fs))%nat →
  ∃ p3 p2 p1 fs1 ph1 fs2 ph2 fs3 ph3,
    next_table fs ph root (p4_index page) flags = Ok (p3, fs1, ph1) ∧
    next_table fs1 ph1 p3 (p3_index page) flags = Ok (p2, fs2, ph2) ∧
    next_table fs2 ph2 p2 (p2_index page) flags = Ok (p1, fs3, ph3) ∧
    frame_ok fs3 ∧ pt_ok root ph3 (frames_left fs3) ∧ walk ph3 root (table_path page) = Some p1 ∧
    (length (frames_left fs) ≤ length (frames_left fs3) + 3)%nat ∧
    frames_left fs3 `suffix_of` frames_left fs ∧
    ∀ q j, length q = 3%nat → leaf_at ph3 root q j = leaf_at ph root q j.
Proof.
  intros Hfs Hpt Hfl Hlen.
  assert (Hne : ∀ l : list Z, (1 ≤ length l)%nat → l ≠ []) by (by intros [|? ?]; [cbn; lia|]).
  destruct (next_table_spec root fs ph [] root (p4_index page) flags)
    as (p3 & fs1 & ph1 & E1 & Hf1 & Hp1 & Hw1 & Hl1 & Hu1 & Hs1); try done;
    try apply index_bound; try (apply Hne; lia); try (cbn; lia).
  destruct (next_table_spec root fs1 ph1 [p4_index page] p3 (p3_index page) flags)
    as (p2 & fs2 & ph2 & E2 & Hf2 & Hp2 & Hw2 & Hl2 & Hu2 & Hs2); try done;
    try apply index_bound; try (apply Hne; lia); try (cbn; lia).
  destruct (next_table_spec root fs2 ph2 [p4_index page; p3_index page] p2 (p2_index page) flags)
    as (p1 & fs3 & ph3 & E3 & Hf3 & Hp3' & Hw3 & Hl3 & Hu3 & Hs3); try done;
    try apply index_bound; try (apply Hne; lia); try (cbn; lia).
  exists p3, p2, p1, fs1, ph1, fs2, ph2, fs3, ph3. split_and!; try done; [lia|by do 2 (etrans; [eassumption|])|].
  intros q j Hq. by rewrite Hs3, Hs2, Hs1.
Qed.
End map.

(** Two pages with different indices. *)
Definition same_slot (v w : Z) : Prop :=
  table_path v = table_path w ∧ p1_index v = p1_index w.

#[global] Instance same_slot_dec v w : Decision (same_slot v w).
Proof. unfold same_slot. apply _. Defined.

(** One level of a descent: the entry is absent and nothing is below it, or
    it leads to the next table. *)
Lemma level_step root ph free p t i :
  pt_ok root ph free → (length p ≤ 2)%nat → walk ph root p = Some t → (i < 512)%nat →
  ∃ w, table_get ph t i = Ok (word_entry w) ∧
    ((present (word_entry w) = 0 ∧ frame_of (word_entry w) = 0 ∧
      ∀ r, walk ph root (p ++ i :: r) = None) ∨
     (present (word_entry w) ≠ 0 ∧ frame_of (word_entry w) ≠ 0 ∧
      walk ph root (p ++ [i]) = Some (frame_of (word_entry w)))).
Proof.
  intros Hpt Hp Ht Hi. destruct (word_at_lookup root ph _ Hpt p t i) as [w Hw]; [lia|done..|].
  exists w. split; [by apply (table_get_word ph root p)|]. rewrite frame_of_word.
  destruct (decide (present (word_entry w) = 0)) as [E|E].
  - left. split; [done|]. split; [rewrite (pt_absent _ _ _ Hpt p i w) by (done || lia); done|].
    intros r. change (i :: r) with ([i] ++ r). rewrite app_assoc, walk_app, walk_snoc, Hw.
    cbn [mbind option_bind]. by rewrite E.
  - right. pose proof (pt_present _ _ _ Hpt p i w Hp Hw E). split; [done|]. split; [lia|].
    rewrite walk_snoc, Hw. cbn [mbind option_bind]. by rewrite (proj2 (Z.eqb_neq _ _) E), frame_of_word.
Qed.

(** The whole descent to the last-level table of a page. *)
Lemma descend root ph free v :
  pt_ok root ph free →
  ∃ w4, table_get ph root (p4_index v) = Ok (word_entry w4) ∧
  ((present (word_entry w4) = 0 ∧ frame_of (word_entry w4) = 0 ∧ leaf ph root v = None) ∨
   (present (word_entry w4) ≠ 0 ∧ frame_of (word_entry w4) ≠ 0 ∧
    ∃ w3, table_get ph (frame_of (word_entry w4)) (p3_index v) = Ok (word_entry w3) ∧
    ((present (word_entry w3) = 0 ∧ frame_of (word_entry w3) = 0 ∧ leaf ph root v = None) ∨
     (present (word_entry w3) ≠ 0 ∧ frame_of (word_entry w3) ≠ 0 ∧
      ∃ w2, table_get ph (frame_of (word_entry w3)) (p2_index v) = Ok (word_entry w2) ∧
      ((present (word_entry w2) = 0 ∧ frame_of (word_entry w2) = 0 ∧ leaf ph root v = None) ∨
       (present (word_entry w2) ≠ 0 ∧ frame_of (word_entry w2) ≠ 0 ∧
        walk ph root (table_path v) = Some (frame_of (word_entry w2)))))))).
Proof.
  intros Hpt.
  assert (Hleaf : walk ph root (table_path v) = None → leaf ph root v = None).
  { intros E. unfold leaf, word_at. by rewrite E. }
  destruct (level_step root ph free [] root (p4_index v) Hpt) as (w4 & E4 & K4);
    [cbn; lia|done|apply index_bound|]. exists w4. split; [done|].
  destruct K4 as [(? & ? & Hn)|(? & ? & Hw4)]; [left; split_and!; auto; apply Hleaf, (Hn [_; _])|].
  right. split; [done|]. split; [done|].
  destruct (level_step root ph free [p4_index v] _ (p3_index v) Hpt ltac:(cbn; lia) Hw4)
    as (w3 & E3 & K3); [apply index_bound|]. exists w3. split; [done|].
  destruct K3 as [(? & ? & Hn)|(? & ? & Hw3)]; [left; split_and!; auto; apply Hleaf, (Hn [_])|].
  right. split; [done|]. split; [done|].
  destruct (level_step root ph free [p4_index v; p3_index v] _ (p2_index v) Hpt ltac:(cbn; lia) Hw3)
    as (w2 & E2 & K2); [apply index_bound|]. exists w2. split; [done|].
  destruct K2 as [(? & ? & Hn)|(? & ? & Hw2)]; [left; split_and!; auto; apply Hleaf, (Hn [])|].
  by right.
Qed.

(** The indices of a page are bits 12 to 47 of its address. *)
Lemma index_mod n : 0 ≤ n → Z.to_nat (Z.land n 0x1FF) = Z.to_nat (n mod 512).
Proof. intros. change 0x1FF with (2 ^ 9 - 1). by rewrite land_mask. Qed.

Lemma page_number_digits n :
  n mod 2 ^ 36 =
  n mod 512 + 512 * (n / 512 mod 512 + 512 * (n / 512 / 512 mod 512 + 512 * (n / 512 / 512 / 512 mod 512))).
Proof.
  change (2 ^ 36) with (512 * (512 * (512 * 512))).
  rewrite !Z.rem_mul_r by lia. done.
Qed.

Lemma same_slot_spec v w :
  0 ≤ v → 0 ≤ w → same_slot v w → v / 4096 mod 2 ^ 36 = w / 4096 mod 2 ^ 36.
Proof.
  intros Hv Hw [Hp H1]. unfold table_path in Hp. injection Hp as H4 H3 H2.
  unfold p4_index, p3_index, p2_index, p1_index in *.
  rewrite !Z.shiftr_div_pow2 in * by lia. change (2 ^ 12) with 4096 in *. change (2 ^ 9) with 512 in *.
  rewrite !index_mod in * by (repeat apply Z.div_pos; lia).
  rewrite !page_number_digits.
  repeat match goal with
  | H : Z.to_nat (?a mod 512) = Z.to_nat (?b mod 512) |- _ =>
      apply Z2Nat.inj in H; [|apply Z.mod_pos_bound; lia..]
  end. lia.
Qed.

Lemma leaf_word_at root ph free v :
  pt_ok root ph free → ∀ t, walk ph root (table_path v) = Some t →
  ∃ row w, ph !! t = Some row ∧ (p1_index v < length row)%nat ∧ row !! p1_index v = Some w ∧
    table_get ph t (p1_index v) = Ok (word_entry w) ∧
    leaf ph root v = if present (word_entry w) =? 0 then None else Some w.
Proof.
  intros Hpt t Ht. destruct (word_at_lookup root ph _ Hpt (table_path v) t (p1_index v)) as [w Hw];
    [cbn; lia|done|apply index_bound|].
  destruct (word_at_row _ _ _ _ _ _ Ht Hw) as (row & Hr & Hi). exists row, w.
  split_and!; [done|by eapply lookup_lt_Some|done|by apply (table_get_word ph root (table_path v))|].
  unfold leaf. by rewrite Hw.
Qed.

(** Writing the word of one page. *)
Lemma write_leaf root ph free page t row w :
  pt_ok root ph free → walk ph root (table_path page) = Some t → ph !! t = Some row →
  (p1_index page < length row)%nat →
  (present (word_entry w) = 0 → address (word_entry w) = 0) →
  let ph' := <[t := <[p1_index page := w]> row]> ph in
  pt_ok root ph' free ∧
  ∀ v, leaf ph' root v =
    if decide (same_slot v page) then (if present (word_entry w) =? 0 then None else Some w)
    else leaf ph root v.
Proof.
  intros Hpt Ht Hrow Hi Hw ph'.
  destruct (leaf_write root ph free (table_path page) t (p1_index page) row w Hpt eq_refl Ht Hrow Hi Hw)
    as [Hpt' Hword]. split; [done|]. intros v. unfold leaf. unfold ph'. rewrite Hword by done.
  unfold same_slot. by repeat case_decide.
Qed.

(** What [virtual_to_physical] reads, in terms of the tree. *)
Lemma virtual_to_physical_leaf root ph free v :
  pt_ok root ph free →
  virtual_to_physical ph root v =
  Ok (match leaf ph root v with Some w => frame_of (word_entry w) | None => 0 end).
Proof.
  intros Hpt. unfold virtual_to_physical.
  destruct (descend root ph free v Hpt) as (w4 & -> & H4). simpl_res.
  destruct H4 as [(_ & -> & ->)|(_ & N4 & w3 & E3 & H3)]; [done|].
  rewrite (proj2 (Z.eqb_neq _ _) N4), E3. simpl_res.
  destruct H3 as [(_ & -> & ->)|(_ & N3 & w2 & E2 & H2)]; [done|].
  rewrite (proj2 (Z.eqb_neq _ _) N3), E2. simpl_res.
  destruct H2 as [(_ & -> & ->)|(_ & N2 & Hw)]; [done|].
  rewrite (proj2 (Z.eqb_neq _ _) N2).
  destruct (leaf_word_at root ph free v Hpt _ Hw) as (row & w & Hr & Hi & Hwi & -> & ->). simpl_res.
  destruct (Z.eqb_spec (present (word_entry w)) 0) as [E|E]; [|done].
  rewrite frame_of_word, (pt_absent _ _ _ Hpt (table_path v) (p1_index v) w); [done|done| |done].
  unfold word_at. rewrite Hw. cbn [mbind option_bind]. by rewrite Hr.
Qed.

Lemma get_entry_leaf root ph free v w :
  pt_ok root ph free → leaf ph root v = Some w → address (word_entry w) ≠ 0 →
  get_entry ph root v = Ok (word_entry w).
Proof.
  intros Hpt Hl Ha. unfold get_entry.
  destruct (descend root ph free v Hpt) as (w4 & -> & K4). simpl_res.
  destruct K4 as [(_ & -> & ?)|(_ & N4 & w3 & E3 & K3)]; [congruence|].
  rewrite (proj2 (Z.eqb_neq _ _) N4), E3. simpl_res.
  destruct K3 as [(_ & -> & ?)|(_ & N3 & w2 & E2 & K2)]; [congruence|].
  rewrite (proj2 (Z.eqb_neq _ _) N3), E2. simpl_res.
  destruct K2 as [(_ & -> & ?)|(_ & N2 & Hw)]; [congruence|].
  rewrite (proj2 (Z.eqb_neq _ _) N2).
  destruct (leaf_word_at root ph free v Hpt _ Hw) as (row & w1 & Hr & Hi & Hwi & -> & El). simpl_res.
  rewrite Hl in El. case_match; [done|]. injection El as ->.
  by rewrite frame_of_zero, (proj2 (Z.eqb_neq _ _) Ha).
Qed.

Lemma map_page_spec {F} `{FrameSource F} (root : Z) (fs : F) (ph : phys) (page frame flags : Z) :
  frame_ok fs → pt_ok root ph (frames_left fs) → (3 ≤ length (frames_left fs))%nat →
  Z.land flags 1 = 1 → 0 ≤ page → 0 ≤ frame < 2 ^ 52 → frame mod 4096 = 0 →
  leaf ph root page = None →
  ∃ fs' ph', map_page fs ph root page frame flags = Ok (fs', ph') ∧
    frame_ok fs' ∧ pt_ok root ph' (frames_left fs') ∧
    leaf ph' root page = Some (entry_word (set_entry frame flags)) ∧
    virtual_to_physical ph' root page = Ok frame ∧
    (length (frames_left fs) ≤ length (frames_left fs') + 3)%nat ∧
    frames_left fs' `suffix_of` frames_left fs ∧
    (∀ v, ¬ same_slot v page → leaf ph' root v = leaf ph root v) ∧
    ∀ v, 0 ≤ v → v / 4096 mod 2 ^ 36 ≠ page / 4096 mod 2 ^ 36 →
      virtual_to_physical ph' root v = virtual_to_physical ph root v.
Proof.
  intros Hfs Hpt Hlen Hfl Hpage Hfr Hal Hleaf.
  destruct (map_levels root fs ph page flags Hfs Hpt Hfl Hlen)
    as (p3 & p2 & p1 & fs1 & ph1 & fs2 & ph2 & fs3 & ph3 & E1 & E2 & E3 & Hfs3 & Hpt3 & Hw3 & Hlen3 & Hsuf & Hsame).
  unfold map_page. rewrite E1. simpl_res. rewrite E2. simpl_res. rewrite E3. simpl_res.
  destruct (leaf_word_at root ph3 _ page Hpt3 p1 Hw3) as (row & w & Hrow & Hi & Hwi & -> & El).
  simpl_res. assert (El' : leaf ph3 root page = leaf ph root page) by (by apply Hsame).
  rewrite El', Hleaf in El. destruct (present (word_entry w) =? 0) eqn:Ep; [|done]. cbn [negb].
  rewrite (table_write ph3 p1 _ row) by done. simpl_res.
  set (w' := entry_word (set_entry frame flags)).
  assert (Hpr : present (word_entry w') ≠ 0) by (unfold w'; rewrite present_set; lia).
  destruct (write_leaf root ph3 (frames_left fs3) page p1 row w' Hpt3 Hw3 Hrow Hi) as [Hpt' Hleaf'];
    [done|].
  eexists fs3, _. split; [done|]. split_and!; [done|done| | |done|done| |].
  - rewrite Hleaf', decide_True by done. by rewrite (proj2 (Z.eqb_neq _ _) Hpr).
  - rewrite (virtual_to_physical_leaf _ _ _ _ Hpt'), Hleaf', decide_True by done.
    rewrite (proj2 (Z.eqb_neq _ _) Hpr). unfold w'. rewrite frame_of_set by done. f_equal. lia.
  - intros v Hv. rewrite Hleaf', decide_False by done. by apply Hsame.
  - intros v Hv Hne. rewrite (virtual_to_physical_leaf _ _ _ _ Hpt'), Hleaf'.
    rewrite decide_False by (intros Hs; by apply Hne, same_slot_spec).
    rewrite (virtual_to_physical_leaf _ _ _ _ Hpt). assert (E : leaf ph3 root v = leaf ph root v) by (by apply Hsame). by rewrite E.
Qed.

(** A single empty top-level table. *)
Lemma pt_ok_empty root free :
  NoDup free → (∀ f, f ∈ free → 0 < f < 2 ^ 52 ∧ f mod 4096 = 0 ∧ f ≠ root) →
  pt_ok root {[ root := zero_frame ]} free.
Proof.
  intros Hnd Hfree.
  assert (Hw : ∀ p t, walk {[ root := zero_frame ]} root p = Some t → p = [] ∧ t = root).
  { intros [|i p] t; cbn [walk]; [by intros [= <-]|]. rewrite lookup_singleton_eq.
    cbn [mbind option_bind]. destruct (zero_frame !! i) as [z|] eqn:E; [|done].
    cbn [mbind option_bind]. by apply lookup_replicate in E as [-> _]. }
  assert (Hz : ∀ p i w, word_at {[ root := zero_frame ]} root p i = Some w → w = 0).
  { intros p i w. unfold word_at. destruct (walk _ root p) as [t|] eqn:E; [|done].
    apply Hw in E as [-> ->]. cbn [mbind option_bind]. rewrite lookup_singleton_eq.
    cbn [mbind option_bind]. by intros [-> _]%lookup_replicate. }
  split.
  - intros p t _ [-> ->]%Hw. exists zero_frame. by rewrite lookup_singleton_eq.
  - by intros p q t _ _ [-> _]%Hw [-> _]%Hw.
  - by intros p i w _ ->%Hz.
  - by intros p i w _ ->%Hz.
  - done.
  - intros f Hf. destruct (Hfree f Hf) as (? & ? & ?). split_and!; [lia..|done|].
    by intros p _ [_ ->]%Hw.
Qed.

Definition demo_frames : frame_allocator_t := FrameAllocator [] (Frame false 0x2000 0x8000).

Definition demo_phys : phys := {[ 0x1000 := zero_frame ]}.

Lemma demo_pt : pt_ok 0x1000 demo_phys (frames_left demo_frames).
Proof.
  apply pt_ok_empty.
  - apply (bool_decide_unpack _). by vm_compute.
  - change (frames_left demo_frames) with
    [0x2000; 0x3000; 0x4000; 0x5000; 0x6000; 0x7000; 0x8000; 0x9000]. intros f Hf.
    repeat (apply elem_of_cons in Hf as [->|Hf]; [split_and!; (done || lia)|]).
    by apply not_elem_of_nil in Hf.
Qed.

Lemma demo_frames_ok : frame_ok demo_frames.
Proof. split; cbn; [done|]. by split_and!. Qed.

(** The tables after page 0x7000 has been mapped to 0x90000, and the same with
    the entry a boot loader would have written. *)
Definition demo_mapped : frame_allocator_t * phys :=
  match map_page demo_frames demo_phys 0x1000 0x7000 0x90000 3 with
  | Ok r => r | Err _ => (demo_frames, demo_phys)
  end.

(** ** Properties *)

(** C1: [map_page] makes exactly the asked mapping: on a page that is not
    mapped, with three frames left, it returns, the tables stay a tree, the
    page now translates to [frame], and every page with another page number
    translates as before. *)
Theorem map_page_maps {F} `{FrameSource F} (root : Z) (fs : F) (ph : phys) (page frame flags : Z) :
  frame_ok fs → pt_ok root ph (frames_left fs) → (3 ≤ length (frames_left fs))%nat →
  Z.land flags 1 = 1 → 0 ≤ page → 0 ≤ frame < 2 ^ 52 → frame mod 4096 = 0 →
  leaf ph root page = None →
  ∃ fs' ph', map_page fs ph root page frame flags = Ok (fs', ph') ∧
    frame_ok fs' ∧ pt_ok root ph' (frames_left fs') ∧
    virtual_to_physical ph' root page = Ok frame ∧
    ∀ v, 0 ≤ v → v / 4096 mod 2 ^ 36 ≠ page / 4096 mod 2 ^ 36 →
      virtual_to_physical ph' root v = virtual_to_physical ph root v.
Proof.
  intros Hfs Hpt Hlen Hfl Hpage Hfr Hal Hleaf.
  destruct (map_page_spec root fs ph page frame flags)
    as (fs' & ph' & E & Hok & Hpt' & _ & Hv & _ & _ & _ & Hs); eauto 10.
Qed.

(** [map_page] never replaces a mapping: on a page that is mapped it stops
    the machine. *)
Lemma map_page_mapped {F} `{FrameSource F} (root : Z) (fs : F) (ph : phys) (page frame flags w : Z) :
  frame_ok fs → pt_ok root ph (frames_left fs) → (3 ≤ length (frames_left fs))%nat →
  Z.land flags 1 = 1 → leaf ph root page = Some w →
  map_page fs ph root page frame flags = Err Halted.
Proof.
  intros Hfs Hpt Hlen Hfl Hleaf.
  destruct (map_levels root fs ph page flags Hfs Hpt Hfl Hlen)
    as (p3 & p2 & p1 & fs1 & ph1 & fs2 & ph2 & fs3 & ph3 & E1 & E2 & E3 & Hfs3 & Hpt3 & Hw3 & Hlen3 & Hsuf & Hsame).
  unfold map_page. rewrite E1. simpl_res. rewrite E2. simpl_res. rewrite E3. simpl_res.
  destruct (leaf_word_at root ph3 _ page Hpt3 p1 Hw3) as (row & w' & Hrow & Hi & Hwi & -> & El).
  simpl_res. assert (El' : leaf ph3 root page = leaf ph root page) by (by apply Hsame).
  rewrite El', Hleaf in El. by destruct (present (word_entry w') =? 0).
Qed.

(** C5: [unmap_page] removes exactly one mapping: it returns, the tables stay a
    tree, the page translates to nothing, and every page with another page
    number translates as before; no frame is given back. *)
Theorem unmap_page_unmaps (root : Z) (ph : phys) (free : list Z) (page : Z) :
  pt_ok root ph free → 0 ≤ page →
  ∃ ph', unmap_page ph root page = Ok ph' ∧ pt_ok root ph' free ∧
    virtual_to_physical ph' root page = Ok 0 ∧
    ∀ v, 0 ≤ v → v / 4096 mod 2 ^ 36 ≠ page / 4096 mod 2 ^ 36 →
      virtual_to_physical ph' root v = virtual_to_physical ph root v.
Proof.
  intros Hpt Hpage. unfold unmap_page.
  assert (Hnone : leaf ph root page = None → ∃ ph', Ok ph = Ok ph' ∧ pt_ok root ph' free ∧
    virtual_to_physical ph' root page = Ok 0 ∧
    ∀ v, 0 ≤ v → v / 4096 mod 2 ^ 36 ≠ page / 4096 mod 2 ^ 36 →
      virtual_to_physical ph' root v = virtual_to_physical ph root v).
  { intros E. exists ph. split_and!; [done..| |done].
    by rewrite (virtual_to_physical_leaf _ _ _ _ Hpt), E. }
  destruct (descend root ph free page Hpt) as (w4 & -> & H4). simpl_res.
  destruct H4 as [(-> & _ & E)|(N4 & _ & w3 & E3 & H3)]; [by apply Hnone|].
  rewrite (proj2 (Z.eqb_neq _ _) N4), E3. simpl_res.
  destruct H3 as [(-> & _ & E)|(N3 & _ & w2 & E2 & H2)]; [by apply Hnone|].
  rewrite (proj2 (Z.eqb_neq _ _) N3), E2. simpl_res.
  destruct H2 as [(-> & _ & E)|(N2 & _ & Hw)]; [by apply Hnone|].
  rewrite (proj2 (Z.eqb_neq _ _) N2).
  destruct (leaf_word_at root ph free page Hpt _ Hw) as (row & w & Hr & Hi & Hwi & _ & _).
  rewrite (table_write ph _ _ row) by done. change (entry_word zero_entry) with 0.
  destruct (write_leaf root ph free page _ row 0 Hpt Hw Hr Hi) as [Hpt' Hleaf']; [done|].
  eexists. split; [done|]. split; [done|]. split.
  - by rewrite (virtual_to_physical_leaf _ _ _ _ Hpt'), Hleaf', decide_True.
  - intros v Hv Hne. rewrite (virtual_to_physical_leaf _ _ _ _ Hpt'), Hleaf'.
    rewrite decide_False by (intros Hs; by apply Hne, same_slot_spec).
    by rewrite (virtual_to_physical_leaf _ _ _ _ Hpt).
Qed.

(** The packed word of a page entry and its record form determine each
    other: decoding what [set_entry] wrote gives it back, and every 64-bit
    word is the encoding of its fields. *)
Lemma page_entry_round_trip (a flags w : Z) :
  word_entry (entry_word (set_entry a flags)) = set_entry a flags ∧
  (0 ≤ w < 2 ^ 64 → entry_word (word_entry w) = w).
Proof. split; [apply word_entry_word, set_entry_fits|apply entry_word_entry]. Qed.

(** A page the boot loader mapped (bit 6 of its entry clear) counts as free
    for [map_contiguous_pages], although mapping it stops the machine. *)
Lemma is_free_boot_page {F} `{FrameSource F} (root : Z) (fs : F) (ph : phys) (v w frame flags : Z) :
  frame_ok fs → pt_ok root ph (frames_left fs) → (3 ≤ length (frames_left fs))%nat →
  Z.land flags 1 = 1 → leaf ph root v = Some w →
  address (word_entry w) ≠ 0 → unused_1 (word_entry w) = 0 →
  is_free ph root v = Ok true ∧ map_page fs ph root v frame flags = Err Halted.
Proof.
  intros Hfs Hpt Hlen Hfl Hl Ha Hu. split.
  - unfold is_free. rewrite (get_entry_leaf _ _ _ _ _ Hpt Hl Ha). simpl_res. by rewrite Hu.
  - destruct (map_levels root fs ph v flags Hfs Hpt Hfl Hlen)
      as (p3 & p2 & p1 & fs1 & ph1 & fs2 & ph2 & fs3 & ph3 & E1 & E2 & E3 & Hfs3 & Hpt3 & Hw3 & Hlen3 & Hsuf & Hsame).
    unfold map_page. rewrite E1. simpl_res. rewrite E2. simpl_res. rewrite E3. simpl_res.
    destruct (leaf_word_at root ph3 _ v Hpt3 p1 Hw3) as (row & w' & Hrow & Hi & Hwi & -> & El).
    simpl_res. assert (El' : leaf ph3 root v = leaf ph root v) by (by apply Hsame).
    rewrite El', Hl in El. by destruct (present (word_entry w') =? 0).
Qed.

(** [get_free_region] does not align its result: when the pages met from
    [start] on are free it returns [start] itself, aligned or not. *)
Lemma get_free_region_start (fuel : nat) (ph : phys) (root start num_pages : Z) :
  0 ≤ start → 0 ≤ num_pages < 2 ^ 31 → start + 4096 * num_pages < 2 ^ 64 →
  (∀ i, 0 ≤ i < num_pages → is_free ph root (start + 4096 * i) = Ok true) →
  get_free_region (S fuel) ph root start num_pages = Ok start.
Proof.
  intros Hs Hn Hend Hfree. unfold get_free_region. cbn [iter].
  assert (E : scan_region ph root start num_pages = Ok (inl tt)).
  { unfold scan_region. apply (iter_ok _ (λ '(i, v), 0 ≤ i ≤ num_pages ∧ v = start + 4096 * i)
      (λ '(i, _), Z.to_nat (num_pages - i))).
    - intros [i v] [Hi ->]. destruct (Z.ltb_spec i num_pages); [|done].
      rewrite Hfree by lia. simpl_res. rewrite int_ok_Ok by lia. simpl_res.
      unfold u64, PAGE_SIZE. rewrite wrap_small by lia. split; [split; [lia|]|]; lia.
    - split; [lia|]. lia.
    - lia. }
  by rewrite E.
Qed.

Lemma map_page_maps_witness :
  ∃ fs' ph', map_page demo_frames demo_phys 0x1000 0x7000 0x9000 3 = Ok (fs', ph') ∧
    frame_ok fs' ∧ pt_ok 0x1000 ph' (frames_left fs') ∧
    virtual_to_physical ph' 0x1000 0x7000 = Ok 0x9000 ∧
    ∀ v, 0 ≤ v → v / 4096 mod 2 ^ 36 ≠ 0x7000 / 4096 mod 2 ^ 36 →
      virtual_to_physical ph' 0x1000 v = virtual_to_physical demo_phys 0x1000 v.
Proof.
  apply (map_page_maps 0x1000 demo_frames demo_phys 0x7000 0x9000 3);
    [apply demo_frames_ok|apply demo_pt|by vm_compute; lia|done|lia|lia|done|by vm_compute].
Defined.

Lemma unmap_page_unmaps_witness :
  ∃ ph', unmap_page demo_phys 0x1000 0x7000 = Ok ph' ∧
    pt_ok 0x1000 ph' (frames_left demo_frames) ∧
    virtual_to_physical ph' 0x1000 0x7000 = Ok 0 ∧
    ∀ v, 0 ≤ v → v / 4096 mod 2 ^ 36 ≠ 0x7000 / 4096 mod 2 ^ 36 →
      virtual_to_physical ph' 0x1000 v = virtual_to_physical demo_phys 0x1000 v.
Proof. apply (unmap_page_unmaps 0x1000 demo_phys _ 0x7000); [apply demo_pt|lia]. Defined.

