(* ===== verification/Loader.v ===== *)
(** * The UEFI loader (lethe-bootloaders/loader)

    page_table.c, elf.c, bootinfo.c, bootx64.c.  Before the kernel starts all memory
    is mapped one to one, so a pointer is a physical address: page tables lie
    in the frames of [Paging], everything else in byte memory.  The firmware is
    a [BootServices]; what it reports (configuration tables, the frame buffer,
    the memory map) and the files that are read are arguments.  KERNEL_START is
    not defined at this commit (include/types.h has it commented out), so it is
    an argument as well.  [EFI_PAGE_SIZE] is an [int] constant of the firmware
    headers.  Releasing pool memory is left out. *)
From S2P Require Import Prelude FrameAlloc Paging.

(** ** Definitions *)

Definition EFI_PAGE_SIZE : Z := 4096.

(** The memory services of the firmware.  [boot_free] are the pages it may
    still hand out one at a time; when it hands out none, the address is left
    as it was. *)
Class BootServices (F : Type) := {
  AllocatePages : F → Z → option (Z * F);
  AllocatePool : F → Z → option (Z * F);
  boot_ok : F → Prop;
  boot_free : F → list Z;
  AllocatePages_one s f fs :
    boot_ok s → boot_free s = f :: fs →
    ∃ s', AllocatePages s 1 = Some (f, s') ∧ boot_ok s' ∧ boot_free s' = fs
}.

(** include/loaders/lethe_loader.h *)
Record loader_memory_descriptor_t := Descriptor {
  d_type : Z; p_addr : Z; v_addr : Z; page_count : Z; d_attrib : Z
}.

(** [addr] with the [size / desc_size] descriptors it points to. *)
Record mmap_t := Mmap { addr : list loader_memory_descriptor_t; mmap_version : Z; mmap_key : Z }.

(** *** page_table.c *)

Definition ADDR_TO_ENTRY (ADDR FLAG : Z) : Z :=
  Z.lor (Z.shiftl (Z.land (Z.shiftr ADDR 12) 0xFFFFFFFFFF) 12) (Z.lor 1 FLAG).

(** [table->pages[index]] *)
Definition page_get (ph : phys) (table : Z) (index : nat) : res Z :=
  row ← of_option Undefined (ph !! table);
  of_option Undefined (row !! index).

Definition page_put (ph : phys) (table : Z) (index : nat) (entry : Z) : res phys :=
  row ← of_option Undefined (ph !! table);
  _ ← of_option Undefined (row !! index);
  Ok (<[table := <[index := entry]> row]> ph).

Definition nine_bits (n : Z) : nat := Z.to_nat (Z.land n 0x1FF).

Section services.
Context {F : Type} `{BootServices F}.

Definition quick_allocate_page (fs : F) : res (Z * F) := of_option Undefined (AllocatePages fs 1).

Definition new_page_table (fs : F) (ph : phys) : res (Z * F * phys) :=
  '(page, fs) ← quick_allocate_page fs;
  Ok (page, fs, <[page := zero_frame]> ph).

(** One level of [map_pages]. *)
Definition sub_table (fs : F) (ph : phys) (table : Z) (index : nat) (flags : Z) : res (Z * F * phys) :=
  entry ← page_get ph table index;
  if Z.land entry 1 =? 0 then
    '(sub, fs, ph) ← new_page_table fs ph;
    ph ← page_put ph table index (ADDR_TO_ENTRY sub flags);
    Ok (sub, fs, ph)
  else Ok (Z.land entry 0x000FFFFFFFFFF000, fs, ph).

Definition map_one (fs : F) (ph : phys) (p4_table page_v_addr page_p_addr flags : Z) : res (F * phys) :=
  let index := Z.shiftr page_v_addr 12 in
  '(p3_table, fs, ph) ← sub_table fs ph p4_table (nine_bits (Z.shiftr index 27)) flags;
  '(p2_table, fs, ph) ← sub_table fs ph p3_table (nine_bits (Z.shiftr index 18)) flags;
  '(p1_table, fs, ph) ← sub_table fs ph p2_table (nine_bits (Z.shiftr index 9)) flags;
  ph ← page_put ph p1_table (nine_bits index) (ADDR_TO_ENTRY page_p_addr flags);
  Ok (fs, ph).

Definition map_pages (fs : F) (ph : phys) (p4_table v_addr p_addr pages flags : Z) : res (F * phys) :=
  iter (S (Z.to_nat pages)) (λ '(j, fs, ph),
    if j <? pages then
      if negb (v_addr mod EFI_PAGE_SIZE =? 0) || negb (p_addr mod EFI_PAGE_SIZE =? 0) then Ok (Done (fs, ph))
      else
        offset ← int_ok (j * EFI_PAGE_SIZE);
        '(fs, ph) ← map_one fs ph p4_table (u64 (v_addr + offset)) (u64 (p_addr + offset)) flags;
        j ← int_ok (j + 1);
        Ok (Next (j, fs, ph))
    else Ok (Done (fs, ph))) (0, fs, ph).

(** [cr3] is the table of the firmware. *)
Definition copy_existing_pages (fs : F) (ph : phys) (cr3 : Z) : res (Z * F * phys) :=
  '(p4_table, fs, ph) ← new_page_table fs ph;
  row ← of_option Undefined (ph !! cr3);
  Ok (p4_table, fs, <[p4_table := take 512 row]> ph).

(** [GetMemoryMap] answers a buffer size with the map or with the size it
    needs. *)
Definition quick_memory_map (GetMemoryMap : F → Z → Z + mmap_t) (fuel : nat) (fs : F) : res (mmap_t * F) :=
  iter fuel (λ '(mmap_size, fs),
    match GetMemoryMap fs mmap_size with
    | inr mmap => Ok (Done (mmap, fs))
    | inl mmap_size =>
        '(_, fs) ← of_option Undefined (AllocatePool fs mmap_size);
        Ok (Next (mmap_size, fs))
    end) (0, fs).

(** The loop of [setup_page_table]. *)
Fixpoint map_descriptors (KERNEL_START : Z) (fs : F) (ph : phys) (p4_table : Z)
    (descs : list loader_memory_descriptor_t) : res (F * phys) :=
  match descs with
  | [] => Ok (fs, ph)
  | desc :: descs =>
      '(fs, ph) ← map_pages fs ph p4_table (u64 (KERNEL_START + p_addr desc)) (p_addr desc) (page_count desc) 2;
      map_descriptors KERNEL_START fs ph p4_table descs
  end.

Definition setup_page_table (KERNEL_START : Z) (GetMemoryMap : F → Z → Z + mmap_t) (fuel : nat)
    (fs : F) (ph : phys) (cr3 : Z) : res (Z * F * phys) :=
  '(p4_table, fs, ph) ← copy_existing_pages fs ph cr3;
  '(mmap, fs) ← quick_memory_map GetMemoryMap fuel fs;
  '(fs, ph) ← map_descriptors KERNEL_START fs ph p4_table (addr mmap);
  Ok (p4_table, fs, ph).
End services.

(** *** elf.h and elf.c *)

Record Elf64_Ehdr := Ehdr { e_ident : list Z; e_entry : Z; e_phoff : Z; e_phnum : Z }.

Record Elf64_Phdr := Phdr {
  p_type : Z; p_offset : Z; p_vaddr : Z; p_paddr : Z; p_filesz : Z; p_memsz : Z; p_align : Z
}.

Definition PT_LOAD : Z := 1.
Definition sizeof_Phdr : Z := 56.

(** The fields the code uses, at their offsets. *)
Definition read_ehdr (m : mem) (p : Z) : res Elf64_Ehdr :=
  ident ← of_option Undefined (read_bytes m p 16);
  entry ← load64 m (p + 24);
  phoff ← load64 m (p + 32);
  phnum ← load16 m (p + 56);
  Ok (Ehdr ident entry phoff phnum).

Definition read_phdr (m : mem) (p : Z) : res Elf64_Phdr :=
  type ← load32 m p;
  offset ← load64 m (p + 8);
  vaddr ← load64 m (p + 16);
  paddr ← load64 m (p + 24);
  filesz ← load64 m (p + 32);
  memsz ← load64 m (p + 40);
  align ← load64 m (p + 48);
  Ok (Phdr type offset vaddr paddr filesz memsz align).

Definition is_image_valid (hdr : Elf64_Ehdr) : bool :=
  bool_decide (take 4 (e_ident hdr) = [0x7F; 0x45; 0x4C; 0x46]).

(** [~(align - 1)] at 32 bits, zero-extended where it is used. *)
Definition align_mask (align : Z) : Z := u32 (Z.lnot (u32 (align - 1))).

(** One round of the first loop on [(align, begin, end)]. *)
Definition extend_bounds '(align, begin, end_) (current : Elf64_Phdr) : Z * Z * Z :=
  if negb (p_type current =? PT_LOAD) then (align, begin, end_)
  else
    let align := if align <? p_align current then u32 (p_align current) else align in
    let phdr_begin := Z.land (p_vaddr current) (align_mask align) in
    let begin := if phdr_begin <? begin then phdr_begin else begin in
    let phdr_end := Z.land (u64 (p_vaddr current + p_memsz current)) (align_mask align) in
    let end_ := if end_ <? phdr_end then phdr_end else end_ in
    (align, begin, end_).

(** The loop over the [n] headers from [phdr]. *)
Fixpoint image_bounds (m : mem) (bounds : Z * Z * Z) (phdr : Z) (n : nat) : res (Z * Z * Z) :=
  match n with
  | O => Ok bounds
  | S n =>
      current ← read_phdr m phdr;
      image_bounds m (extend_bounds bounds current) (phdr + sizeof_Phdr) n
  end.

(** memmove of the firmware library. *)
Definition move_bytes (m : mem) (dst src len : Z) : res mem :=
  bytes ← of_option Undefined (read_bytes m src (Z.to_nat len));
  _ ← of_option Undefined (read_bytes m dst (Z.to_nat len));
  Ok (write_bytes m dst bytes).

(** The second loop. *)
Fixpoint copy_segments (m : mem) (buf addr begin phdr : Z) (n : nat) : res mem :=
  match n with
  | O => Ok m
  | S n =>
      current ← read_phdr m phdr;
      m ← (if negb (p_type current =? PT_LOAD) then Ok m
           else move_bytes m (u64 (addr + p_paddr current - begin)) (buf + p_offset current) (p_filesz current));
      copy_segments m buf addr begin (phdr + sizeof_Phdr) n
  end.

(** The entry address, [NULL] for an image that is not ELF, and the new
    [base_address]. *)
Definition load {F} `{BootServices F} (KERNEL_START : Z) (fs : F) (ph : phys) (m : mem) (p4_table buf : Z) :
    res (Z * option Z * F * phys * mem) :=
  hdr ← read_ehdr m buf;
  if negb (is_image_valid hdr) then Ok (0, None, fs, ph, m)
  else
    let phdr := buf + e_phoff hdr in
    let n := Z.to_nat (e_phnum hdr) in
    '(_, begin, end_) ← image_bounds m (4096, UINT64_MAX, 0) phdr n;
    let page_count := u64 (end_ - begin) / EFI_PAGE_SIZE in
    '(addr, fs) ← of_option Undefined (AllocatePages fs page_count);
    '(fs, ph) ← map_pages fs ph p4_table KERNEL_START addr page_count 2;
    m ← copy_segments m buf addr begin phdr n;
    Ok (u64 (addr + e_entry hdr - begin - KERNEL_START), Some addr, fs, ph, m).

(** The kernel file as it has been read into a buffer of five mebibytes. *)
Definition load_kernel {F} `{BootServices F} (KERNEL_START : Z) (file : option (list Z)) (fs : F) (ph : phys)
    (m : mem) (p4_table : Z) : res (Z * option Z * F * phys * mem) :=
  let kernel_size := 1048576 * 5 in
  match file with
  | None => Ok (0, None, fs, ph, m)
  | Some content =>
      '(elf_buffer, fs) ← of_option Undefined (AllocatePool fs kernel_size);
      if elf_buffer =? 0 then Ok (0, None, fs, ph, m)
      else
        let m := write_bytes m elf_buffer (take (Z.to_nat kernel_size) content) in
        load KERNEL_START fs ph m p4_table elf_buffer
  end.

(** *** bootinfo.c *)

Record efi_guid_t := Guid { Data1 : Z; Data2 : Z; Data3 : Z; Data4 : list Z }.

Definition guid_equal (a b : efi_guid_t) : bool :=
  (Data1 a =? Data1 b) && (Data2 a =? Data2 b) && (Data3 a =? Data3 b) &&
  forallb (λ i, default 0 (Data4 a !! i) =? default 0 (Data4 b !! i)) (seq 0 8).

(** The configuration tables of the firmware: an identifier and an address. *)
Fixpoint get_configuration_table (tables : list (efi_guid_t * Z)) (guid : efi_guid_t) : Z :=
  match tables with
  | [] => 0
  | (table_guid, vendor_table) :: tables =>
      if guid_equal table_guid guid then vendor_table else get_configuration_table tables guid
  end.

(** The byte at offset 15 is the revision. *)
Definition rsdp_checksum (m : mem) (rsdp : Z) : res bool :=
  revision ← load8 m (rsdp + 15);
  let checksum_bytes := if revision >? 0 then 36 else 20 in
  bytes ← of_option Undefined (read_bytes m rsdp (Z.to_nat checksum_bytes));
  Ok (foldl (λ sum b, u8 (sum + b)) 0 bytes =? 0).

(** [NULL] in both tables is EFI_NOT_FOUND. *)
Definition get_rsdp (acpi_guid fallback_guid : efi_guid_t) (tables : list (efi_guid_t * Z)) : option Z :=
  let acpi_table := get_configuration_table tables acpi_guid in
  if acpi_table =? 0 then
    let acpi_table := get_configuration_table tables fallback_guid in
    if acpi_table =? 0 then None else Some acpi_table
  else Some acpi_table.

(** The mode of the graphics output protocol. *)
Record gop_mode := GopMode {
  FrameBufferBase : Z; FrameBufferSize : Z; PixelsPerScanLine : Z; HorizontalResolution : Z; VerticalResolution : Z
}.

Record kernel_bootinfo_t := BootInfo {
  magic : list Z; base : Z; size : Z; pitch : Z; horizontal_resolution : Z; vertical_resolution : Z;
  initfs : Z; initfs_size : Z; mmap : mmap_t; rsdp_address : Z; stack_top : Z; stack_bottom : Z
}.

Section bootinfo.
Context {F : Type} `{BootServices F} (KERNEL_START : Z).

(** Address and size of the loaded archive; a missing file leaves both 0. *)
Definition get_initfs (file : option (list Z)) (fs : F) (ph : phys) (m : mem) (p4_table : Z) :
    res (Z * Z * F * phys * mem) :=
  let initfs_size := 1048576 in
  match file with
  | None => Ok (0, 0, fs, ph, m)
  | Some content =>
      '(initfs_buffer, fs) ← of_option Undefined (AllocatePool fs initfs_size);
      if initfs_buffer =? 0 then Ok (0, 0, fs, ph, m)
      else
        let m := write_bytes m initfs_buffer (take (Z.to_nat initfs_size) content) in
        '(fs, ph) ← map_pages fs ph p4_table (u64 (initfs_buffer + KERNEL_START)) initfs_buffer
                      (initfs_size / EFI_PAGE_SIZE) 2;
        Ok (initfs_buffer, initfs_size, fs, ph, m)
  end.

Definition get_gop (gop : option gop_mode) (fs : F) (ph : phys) (p4_table : Z) : res (F * phys) :=
  match gop with
  | None => Ok (fs, ph)
  | Some mode =>
      map_pages fs ph p4_table (u64 (FrameBufferBase mode + KERNEL_START)) (FrameBufferBase mode)
        (FrameBufferSize mode / EFI_PAGE_SIZE) 2
  end.

Definition stack_pages : Z := 100 * 1024 / EFI_PAGE_SIZE + 1.

(** One round of the search for the stack: the descriptor gets its virtual
    address, the first of the smallest that are large enough is kept. *)
Definition stack_round '(i, min_pages, min_offset) (desc : loader_memory_descriptor_t) : Z * Z * Z :=
  if stack_pages <=? page_count desc then
    if page_count desc <? min_pages then (i + 1, page_count desc, i) else (i + 1, min_pages, min_offset)
  else (i + 1, min_pages, min_offset).

Definition with_virtual (desc : loader_memory_descriptor_t) : loader_memory_descriptor_t :=
  Descriptor (d_type desc) (p_addr desc) (u64 (KERNEL_START + p_addr desc)) (page_count desc) (d_attrib desc).

(** The changed map, the bottom and the top of the stack. *)
Definition choose_stack (descs : list loader_memory_descriptor_t) :
    res (list loader_memory_descriptor_t * Z * Z) :=
  let '(_, _, min_offset) := foldl stack_round (0, UINT64_MAX, UINT64_MAX) descs in
  let descs := with_virtual <$> descs in
  if min_offset =? UINT64_MAX then Err Halted
  else
    stack_descriptor ← of_option Undefined (descs !! Z.to_nat min_offset);
    let stack_start := u64 (v_addr stack_descriptor + EFI_PAGE_SIZE) in
    let stack_end := u64 (stack_start + (stack_pages - 1) * EFI_PAGE_SIZE) in
    let stack_descriptor := Descriptor (d_type stack_descriptor) stack_end (u64 (KERNEL_START + stack_end))
                              (page_count stack_descriptor) (d_attrib stack_descriptor) in
    Ok (<[Z.to_nat min_offset := stack_descriptor]> descs, stack_start, Z.land stack_end (2 ^ 64 - 16)).

Definition get_bootinfo (acpi_guid fallback_guid : efi_guid_t) (tables : list (efi_guid_t * Z))
    (gop : option gop_mode) (file : option (list Z)) (GetMemoryMap : F → Z → Z + mmap_t) (fuel : nat)
    (fs : F) (ph : phys) (m : mem) (p4_table : Z) : res (kernel_bootinfo_t * F * phys * mem) :=
  '(_, fs) ← of_option Undefined (AllocatePool fs 88);
  let rsdp := default 0 (get_rsdp acpi_guid fallback_guid tables) in
  '(fs, ph) ← get_gop gop fs ph p4_table;
  '(initfs, initfs_size, fs, ph, m) ← get_initfs file fs ph m p4_table;
  '(_, fs) ← of_option Undefined (AllocatePool fs 40);
  '(mm, fs) ← quick_memory_map GetMemoryMap fuel fs;
  '(descs, bottom, top) ← choose_stack (addr mm);
  Ok (BootInfo [79; 83; 54; 52; 57]
        (from_option FrameBufferBase 0 gop) (from_option FrameBufferSize 0 gop)
        (from_option (λ g, u32 (PixelsPerScanLine g * 4)) 0 gop)
        (from_option HorizontalResolution 0 gop) (from_option VerticalResolution 0 gop)
        initfs initfs_size (Mmap descs (mmap_version mm) (mmap_key mm)) rsdp top bottom, fs, ph, m).
End bootinfo.

(** *** bootx64.c: what the kernel is started with; [rdi] is the address of the
    boot information. *)
Record handover := Handover { cr3 : Z; rsp : Z; rdi : kernel_bootinfo_t; rip : Z }.

(** An image without an entry and a refusal to exit end in an empty loop. *)
Definition main {F} `{BootServices F} (KERNEL_START : Z) (acpi_guid fallback_guid : efi_guid_t)
    (tables : list (efi_guid_t * Z)) (gop : option gop_mode) (kernel_file initfs_file : option (list Z))
    (GetMemoryMap : F → Z → Z + mmap_t) (ExitBootServices : F → Z → bool) (fuel : nat)
    (fs : F) (ph : phys) (m : mem) (firmware_cr3 : Z) : res (handover * F * phys * mem) :=
  '(p4_table, fs, ph) ← setup_page_table KERNEL_START GetMemoryMap fuel fs ph firmware_cr3;
  '(entry, _, fs, ph, m) ← load_kernel KERNEL_START kernel_file fs ph m p4_table;
  if entry =? 0 then Err Halted
  else
    '(info, fs, ph, m) ← get_bootinfo KERNEL_START acpi_guid fallback_guid tables gop initfs_file GetMemoryMap fuel
                           fs ph m p4_table;
    if negb (ExitBootServices fs (mmap_key (mmap info))) then Err Halted
    else Ok (Handover p4_table (stack_top info) info entry, fs, ph, m).

(** *** The reference view *)

(** The part of an address the masks leave. *)
Definition low (a : Z) : Z := a mod 2 ^ 32.

(** [seg] is loaded, in pages of 4 KiB, and does not cross a 4 GiB border. *)
Definition small_segment (seg : Elf64_Phdr) : Prop :=
  p_type seg = PT_LOAD → p_align seg ≤ 4096 ∧ 0 ≤ p_vaddr seg ∧ 0 ≤ p_memsz seg ∧
    p_vaddr seg + p_memsz seg < 2 ^ 64 ∧ low (p_vaddr seg) + p_memsz seg < 2 ^ 32.

(** The headers [phdrs] lie at [phdr]. *)
Definition phdrs_at (m : mem) (phdr : Z) (phdrs : list Elf64_Phdr) : Prop :=
  ∀ i p, phdrs !! i = Some p → read_phdr m (phdr + sizeof_Phdr * Z.of_nat i) = Ok p.

(** [len] bytes from [p] are the same in both memories. *)
Definition unchanged (m m' : mem) (p len : Z) : Prop := ∀ a, p ≤ a < p + len → m' !! a = m !! a.

Definition readable (m : mem) (p len : Z) : Prop := ∀ a, p ≤ a < p + len → is_Some (m !! a).

(** Where a segment is copied to. *)
Definition dest (addr begin : Z) (seg : Elf64_Phdr) : Z := addr + p_paddr seg - begin.

(** A segment lies in the file of [size] bytes at [buf] and has mapped memory
    outside the file to go to. *)
Definition segment_fits (m : mem) (buf size addr begin : Z) (seg : Elf64_Phdr) : Prop :=
  p_type seg = PT_LOAD →
    0 ≤ p_filesz seg ∧ 0 ≤ p_offset seg ∧ p_offset seg + p_filesz seg ≤ size ∧
    0 ≤ dest addr begin seg < 2 ^ 64 ∧ readable m (dest addr begin seg) (p_filesz seg) ∧
    (dest addr begin seg + p_filesz seg ≤ buf ∨ buf + size ≤ dest addr begin seg).

(** *** The image in memory: pages from the first to behind the last segment *)

Definition page_floor (x : Z) : Z := x / 4096 * 4096.

Definition loaded (phdrs : list Elf64_Phdr) : list Elf64_Phdr := filter (λ s, p_type s = PT_LOAD) phdrs.

Definition image_begin (phdrs : list Elf64_Phdr) : Z :=
  foldr Z.min UINT64_MAX ((λ s, page_floor (low (p_vaddr s))) <$> loaded phdrs).
Definition image_end (phdrs : list Elf64_Phdr) : Z :=
  foldr Z.max 0 ((λ s, low (p_vaddr s) + p_memsz s) <$> loaded phdrs).
Definition image_pages (phdrs : list Elf64_Phdr) : Z := (image_end phdrs - image_begin phdrs) / 4096.

(** Where a segment lies in a block at [addr] that holds the image. *)
Definition place (phdrs : list Elf64_Phdr) (addr : Z) (seg : Elf64_Phdr) : Z :=
  addr + (low (p_vaddr seg) - image_begin phdrs).

(** A segment the loader is made for: it ends on a page border, its bytes lie in
    the file of [size] bytes, and its physical address is its virtual one
    without the upper half. *)
Record loadable (size : Z) (seg : Elf64_Phdr) : Prop := Loadable {
  loadable_small : small_segment seg;
  loadable_end : (p_vaddr seg + p_memsz seg) mod 4096 = 0;
  loadable_file : 0 ≤ p_filesz seg ≤ p_memsz seg ∧ 0 ≤ p_offset seg ∧ p_offset seg + p_filesz seg ≤ size;
  loadable_paddr : p_paddr seg = low (p_vaddr seg)
}.

(** The loaded bytes do not overlap. *)
Definition disjoint_segments (phdrs : list Elf64_Phdr) : Prop :=
  ∀ i j s t, i ≠ j → phdrs !! i = Some s → phdrs !! j = Some t → p_type s = PT_LOAD → p_type t = PT_LOAD →
    low (p_vaddr s) + p_filesz s ≤ low (p_vaddr t) ∨ low (p_vaddr t) + p_filesz t ≤ low (p_vaddr s).

Definition segments_apart (addr begin : Z) (phdrs : list Elf64_Phdr) : Prop :=
  ∀ i j s t, i ≠ j → phdrs !! i = Some s → phdrs !! j = Some t → p_type s = PT_LOAD → p_type t = PT_LOAD →
    dest addr begin s + p_filesz s ≤ dest addr begin t ∨ dest addr begin t + p_filesz t ≤ dest addr begin s.

(** ** Lemmas *)

(** Masking [k] bits above the lowest [w]. *)
Lemma land_high_mask w k x : 0 ≤ w → 0 ≤ k → Z.land x (Z.shiftl (2 ^ k - 1) w) = (x / 2 ^ w) mod 2 ^ k * 2 ^ w.
Proof.
  intros Hw Hk. rewrite <- land_mask, <- Z.shiftr_div_pow2, <- Z.shiftl_mul_pow2 by done.
  apply Z.bits_inj'. intros i Hi. rewrite Z.land_spec, !Z.shiftl_spec by done.
  destruct (Z_lt_le_dec i w); [by rewrite !(Z.testbit_neg_r _ (i - w)), andb_false_r by lia|].
  rewrite Z.land_spec, Z.shiftr_spec by lia. by rewrite Z.sub_add.
Qed.

Lemma land_page_mask x : Z.land x (align_mask 4096) = low x - x mod 4096.
Proof.
  change (align_mask 4096) with (Z.shiftl (2 ^ 20 - 1) 12). unfold low. rewrite land_high_mask by lia.
  change (2 ^ 32) with (4096 * 2 ^ 20). rewrite (Z.rem_mul_r x 4096) by lia. change (2 ^ 12) with 4096. lia.
Qed.

Lemma land_align16 x : 0 ≤ x < 2 ^ 64 → x mod 16 = 0 → Z.land x (2 ^ 64 - 16) = x.
Proof.
  intros Hx Hm. change (2 ^ 64 - 16) with (Z.shiftl (2 ^ 60 - 1) 4). rewrite land_high_mask by lia.
  change (2 ^ 4) with 16. rewrite Z.mod_small; [pose proof (Z.div_mod x 16); lia|].
  split; [apply Z.div_pos; lia|apply Z.div_lt_upper_bound; lia].
Qed.

Lemma low_mod_page x : low x mod 4096 = x mod 4096.
Proof. unfold low. symmetry. apply Znumtheory.Zmod_div_mod; [lia..|]. by exists (2 ^ 20). Qed.

Lemma low_floor x : 0 ≤ low x - x mod 4096.
Proof. rewrite <- low_mod_page. pose proof (Z.mod_le (low x) 4096). pose proof (Z.mod_pos_bound x (2 ^ 32)). unfold low in *. lia. Qed.

Lemma low_add x n : 0 ≤ x → 0 ≤ n → low x + n < 2 ^ 32 → low (x + n) = low x + n.
Proof.
  intros Hx Hn Hl. unfold low in *. pose proof (Z.mod_pos_bound x (2 ^ 32)).
  rewrite Zplus_mod, (Z.mod_small n), Z.mod_small by lia. done.
Qed.

Lemma phdrs_at_cons m phdr seg phdrs :
  phdrs_at m phdr (seg :: phdrs) → read_phdr m phdr = Ok seg ∧ phdrs_at m (phdr + sizeof_Phdr) phdrs.
Proof.
  intros Hat. split.
  - rewrite <- (Hat 0%nat seg eq_refl). f_equal. lia.
  - intros i p Hp. rewrite <- (Hat (S i) p Hp). f_equal. unfold sizeof_Phdr. lia.
Qed.

(** The first loop keeps the alignment at one page and takes the minimum of
    the begins and the maximum of the rounded ends. *)
Lemma extend_bounds_small b e seg :
  small_segment seg →
  extend_bounds (4096, b, e) seg =
    if decide (p_type seg = PT_LOAD)
    then (4096, Z.min b (low (p_vaddr seg) - p_vaddr seg mod 4096),
          Z.max e (low (p_vaddr seg) + p_memsz seg - (p_vaddr seg + p_memsz seg) mod 4096))
    else (4096, b, e).
Proof.
  intros Hs. unfold extend_bounds. case_decide as Ht; [|by rewrite (proj2 (Z.eqb_neq _ _) Ht)].
  destruct (Hs Ht) as (Ha & Hv & Hm & Hvm & Hl). rewrite Ht. cbn [Z.eqb negb PT_LOAD].
  assert (E : (4096 <? p_align seg) = false) by (apply Z.ltb_ge; lia).
  change (1 =? PT_LOAD) with true. cbv zeta. cbn [negb]. rewrite E.
  unfold u64. rewrite wrap_small by lia. rewrite !land_page_mask, low_add by done.
  f_equal; [f_equal|]; destruct (Z.ltb_spec (low (p_vaddr seg) - p_vaddr seg mod 4096) b);
    destruct (Z.ltb_spec e (low (p_vaddr seg) + p_memsz seg - (p_vaddr seg + p_memsz seg) mod 4096)); lia.
Qed.

Lemma image_bounds_small m phdrs : ∀ phdr b e,
  phdrs_at m phdr phdrs → Forall small_segment phdrs → b mod 4096 = 0 ∨ b = UINT64_MAX → e mod 4096 = 0 →
  ∃ b' e', image_bounds m (4096, b, e) phdr (length phdrs) = Ok (4096, b', e') ∧
    b' ≤ b ∧ e ≤ e' ∧ (0 ≤ b → 0 ≤ b') ∧ (b' mod 4096 = 0 ∨ b' = UINT64_MAX) ∧ e' mod 4096 = 0 ∧
    (∀ seg, seg ∈ phdrs → p_type seg = PT_LOAD → b' ≤ low (p_vaddr seg) - p_vaddr seg mod 4096 ∧
       low (p_vaddr seg) + p_memsz seg - (p_vaddr seg + p_memsz seg) mod 4096 ≤ e') ∧
    (e' = e ∨ ∃ seg, seg ∈ phdrs ∧ p_type seg = PT_LOAD ∧
       e' = low (p_vaddr seg) + p_memsz seg - (p_vaddr seg + p_memsz seg) mod 4096).
Proof.
  induction phdrs as [|seg phdrs IH]; intros phdr b e Hat Hs Hb He.
  - exists b, e. split_and!; try done; [lia..|by intros ? ?%elem_of_nil|by left].
  - apply Forall_cons in Hs as [Hseg Hs]. cbn [image_bounds length].
    apply phdrs_at_cons in Hat as [-> Hat]. simpl_res. rewrite extend_bounds_small by done.
    case_decide as Ht.
    + destruct (IH (phdr + sizeof_Phdr) (Z.min b (low (p_vaddr seg) - p_vaddr seg mod 4096))
        (Z.max e (low (p_vaddr seg) + p_memsz seg - (p_vaddr seg + p_memsz seg) mod 4096)))
        as (b' & e' & -> & Hb1 & He1 & Hb0 & Hb2 & He2 & Hall & Hmax); [done|done| | |].
      * assert ((low (p_vaddr seg) - p_vaddr seg mod 4096) mod 4096 = 0).
        { by rewrite Zminus_mod, low_mod_page, Zmod_mod, Z.sub_diag. }
        destruct (Z.min_spec b (low (p_vaddr seg) - p_vaddr seg mod 4096)) as [[_ ->]|[_ ->]]; tauto.
      * destruct (Hseg Ht) as (_ & Hv & Hm & _ & Hl).
        assert ((low (p_vaddr seg) + p_memsz seg - (p_vaddr seg + p_memsz seg) mod 4096) mod 4096 = 0).
        { rewrite Zminus_mod, <- (low_add (p_vaddr seg)), low_mod_page, Zmod_mod, Z.sub_diag by done. done. }
        destruct (Z.max_spec e (low (p_vaddr seg) + p_memsz seg - (p_vaddr seg + p_memsz seg) mod 4096))
          as [[_ ->]|[_ ->]]; done.
      * exists b', e'. split; [done|]. split_and!; [lia|lia| |done|done| |].
        -- intros H0. apply Hb0. pose proof (low_floor (p_vaddr seg)). lia.
        -- intros s [->|Hin]%elem_of_cons Hs'; [lia|by apply Hall].
        -- destruct Hmax as [->|(s & Hin & Hs' & ->)]; [|right; exists s; by split; [right|]].
           destruct (Z.max_spec e (low (p_vaddr seg) + p_memsz seg - (p_vaddr seg + p_memsz seg) mod 4096))
             as [[_ ->]|[_ ->]]; [right; exists seg; by split; [left|]|by left].
    + destruct (IH (phdr + sizeof_Phdr) b e) as (b' & e' & -> & Hb1 & He1 & Hb0 & Hb2 & He2 & Hall & Hmax); [done..|].
      exists b', e'. split; [done|]. split_and!; try done.
      * intros s [->|Hin]%elem_of_cons Hs'; [done|by apply Hall].
      * destruct Hmax as [?|(s & Hin & ?)]; [by left|right; exists s; by split; [right|]].
Qed.

(** The pages the loader asks for end in front of a segment end that is not on
    a page border. *)
Lemma loaded_pages_short m phdr phdrs seg :
  phdrs_at m phdr phdrs → Forall small_segment phdrs → seg ∈ phdrs → p_type seg = PT_LOAD →
  (∀ s, s ∈ phdrs → p_type s = PT_LOAD → low (p_vaddr s) + p_memsz s ≤ low (p_vaddr seg) + p_memsz seg) →
  (p_vaddr seg + p_memsz seg) mod 4096 ≠ 0 →
  ∃ begin end_, image_bounds m (4096, UINT64_MAX, 0) phdr (length phdrs) = Ok (4096, begin, end_) ∧
    begin + u64 (end_ - begin) / EFI_PAGE_SIZE * EFI_PAGE_SIZE < low (p_vaddr seg) + p_memsz seg.
Proof.
  intros Hat Hs Hin Ht Hlast Hmod.
  destruct (image_bounds_small m phdrs phdr UINT64_MAX 0 Hat Hs)
    as (b & e & E & Hb1 & He1 & Hb0 & Hb2 & He2 & Hall & Hmax); [by right|done|].
  exists b, e. split; [done|]. specialize (Hb0 ltac:(done)). destruct (Hall seg Hin Ht) as [Hb He].
  destruct (proj1 (Forall_forall _ _) Hs seg Hin Ht) as (_ & Hv & Hm & _ & Hl).
  assert (Hend : (p_vaddr seg + p_memsz seg) mod 4096 = (low (p_vaddr seg) + p_memsz seg) mod 4096).
  { by rewrite <- low_add, low_mod_page. }
  set (x := low (p_vaddr seg) + p_memsz seg) in *. rewrite Hend in Hmod, He.
  assert (Hex : e < x).
  { assert (e ≤ x).
    { destruct Hmax as [->|(s & Hs1 & Hs2 & ->)]; [pose proof (low_floor (p_vaddr seg)); pose proof (Z.mod_pos_bound (p_vaddr seg) 4096); lia|].
      pose proof (Hlast s Hs1 Hs2). pose proof (Z.mod_pos_bound (p_vaddr s + p_memsz s) 4096). lia. }
    destruct (decide (e = x)) as [->|]; [done|lia]. }
  assert (Hbe : b ≤ e).
  { assert (b ≤ x - x mod 4096); [|lia]. etransitivity; [apply Hb|]. rewrite <- low_mod_page.
    pose proof (Z.div_mod x 4096). pose proof (Z.div_mod (low (p_vaddr seg)) 4096).
    assert (low (p_vaddr seg) / 4096 ≤ x / 4096) by (apply Z.div_le_mono; lia). lia. }
  unfold u64, EFI_PAGE_SIZE. rewrite wrap_small by lia. pose proof (Z.mul_div_le (e - b) 4096). lia.
Qed.

Lemma load_le_unchanged n m m' p : unchanged m m' p (Z.of_nat n) → load_le n m' p = load_le n m p.
Proof.
  revert p. induction n as [|n IH]; intros p Hu; [done|]. cbn [load_le]. unfold load8.
  rewrite (Hu p) by lia. rewrite IH; [done|]. intros a Ha. apply Hu. lia.
Qed.

Lemma read_phdr_unchanged m m' p : unchanged m m' p sizeof_Phdr → read_phdr m' p = read_phdr m p.
Proof.
  intros Hu. unfold read_phdr, load32, load64, sizeof_Phdr in *.
  rewrite !(load_le_unchanged _ m m') by (intros a Ha; apply Hu; lia). done.
Qed.

Lemma read_bytes_readable m p n : readable m p (Z.of_nat n) → ∃ bs, read_bytes m p n = Some bs ∧ length bs = n ∧ bytes_at m p bs.
Proof.
  revert p. induction n as [|n IH]; intros p Hm; [exists []; split_and!; [done..|apply bytes_at_nil]|].
  destruct (IH (p + 1)) as (bs & E & Hl & Hb); [intros a Ha; apply Hm; lia|].
  destruct (Hm p) as [b Eb]; [lia|]. exists (b :: bs). cbn [read_bytes length].
  rewrite Eb, E. split_and!; [done|lia|]. by apply bytes_at_cons.
Qed.

Lemma move_bytes_spec m dst src len :
  0 ≤ len → readable m src len → readable m dst len →
  ∃ m', move_bytes m dst src len = Ok m' ∧
    (∀ i, 0 ≤ i < len → m' !! (dst + i) = m !! (src + i)) ∧
    ∀ a, ¬ dst ≤ a < dst + len → m' !! a = m !! a.
Proof.
  intros Hl Hs Hd. unfold move_bytes.
  destruct (read_bytes_readable m src (Z.to_nat len)) as (bs & -> & Hlen & Hb); [by rewrite Z2Nat.id|].
  destruct (read_bytes_readable m dst (Z.to_nat len)) as (bs' & -> & _); [by rewrite Z2Nat.id|]. simpl_res.
  eexists. split; [done|]. split.
  - intros i Hi. rewrite write_bytes_lookup, Hlen, decide_True by lia.
    replace (dst + i - dst) with i by lia.
    destruct (lookup_lt_is_Some_2 bs (Z.to_nat i)) as [b E]; [lia|]. rewrite E. symmetry.
    rewrite <- (Hb _ _ E). f_equal. lia.
  - intros a Ha. rewrite write_bytes_lookup, Hlen, decide_False by lia. done.
Qed.

Lemma copy_segments_spec m0 buf size addr begin phdrs : ∀ phdr m,
  readable m0 buf size → phdrs_at m0 phdr phdrs → buf ≤ phdr →
  phdr + sizeof_Phdr * Z.of_nat (length phdrs) ≤ buf + size → unchanged m0 m buf size →
  Forall (segment_fits m buf size addr begin) phdrs → segments_apart addr begin phdrs →
  ∃ m', copy_segments m buf addr begin phdr (length phdrs) = Ok m' ∧
    (∀ s i, s ∈ phdrs → p_type s = PT_LOAD → 0 ≤ i < p_filesz s →
       m' !! (dest addr begin s + i) = m0 !! (buf + p_offset s + i)) ∧
    ∀ a, (∀ s, s ∈ phdrs → p_type s = PT_LOAD → ¬ dest addr begin s ≤ a < dest addr begin s + p_filesz s) →
      m' !! a = m !! a.
Proof.
  induction phdrs as [|seg phdrs IH]; intros phdr m Hmap Hat Hlo Hhi Hu Hfit Hap.
  { exists m. split_and!; [done|by intros ? ? ?%elem_of_nil|done]. }
  apply phdrs_at_cons in Hat as [Eseg Hat]. apply Forall_cons in Hfit as [Hseg Hfit]. cbn [length] in *.
  cbn [copy_segments].
  rewrite (read_phdr_unchanged m0 m) by (intros a Ha; apply Hu; unfold sizeof_Phdr in *; lia). rewrite Eseg. simpl_res.
  assert (Hap' : segments_apart addr begin phdrs).
  { intros i j s t Hij Hi Hj. apply (Hap (S i) (S j)); [lia|done..]. }
  destruct (Z.eqb_spec (p_type seg) PT_LOAD) as [Ht|Ht]; cbn [negb]; simpl_res.
  - destruct (Hseg Ht) as (Hf & Ho & Hsz & Hd & Hmd & Hout). fold (dest addr begin seg).
    unfold u64. rewrite wrap_small by done.
    destruct (move_bytes_spec m (dest addr begin seg) (buf + p_offset seg) (p_filesz seg)) as (m1 & -> & Hin1 & Hout1);
      [done| |done|].
    { intros a Ha. rewrite Hu by lia. apply Hmap. lia. }
    simpl_res. destruct (IH (phdr + sizeof_Phdr) m1) as (m' & -> & Hin & Hrest); try done.
    { unfold sizeof_Phdr in *. lia. }
    { unfold sizeof_Phdr in *. lia. }
    { intros a Ha. rewrite Hout1 by lia. by apply Hu. }
    { eapply Forall_impl; [exact Hfit|]. intros s Hs Hts. destruct (Hs Hts) as (?&?&?&?&Hms&?). split_and!; try done; try lia.
      intros a Ha. destruct (decide (dest addr begin seg ≤ a < dest addr begin seg + p_filesz seg)) as [Hia|Hia].
      - replace a with (dest addr begin seg + (a - dest addr begin seg)) by lia. rewrite Hin1 by lia. rewrite Hu by lia. apply Hmap. lia.
      - rewrite Hout1 by done. by apply Hms. }
    exists m'. split; [done|]. split.
    + intros s i [->|Hs]%elem_of_cons Hts Hi; [|by apply Hin]. rewrite Hrest.
      * rewrite Hin1 by done. apply Hu. lia.
      * intros t Ht' Htt. apply list_elem_of_lookup in Ht' as [j Hj].
        destruct (Hap 0%nat (S j) seg t ltac:(lia) eq_refl Hj Ht Htt); lia.
    + intros a Ha. rewrite Hrest by (intros s Hs; apply Ha; by right). apply Hout1. apply Ha; [by left|done].
  - destruct (IH (phdr + sizeof_Phdr) m) as (m' & -> & Hin & Hrest); try done.
    { unfold sizeof_Phdr in *. lia. }
    { unfold sizeof_Phdr in *. lia. }
    exists m'. split; [done|]. split.
    + intros s i [->|Hs]%elem_of_cons Hts Hi; [done|by apply Hin].
    + intros a Ha. apply Hrest. intros s Hs. apply Ha. by right.
Qed.

(** *** The image *)

Lemma low_page_floor x : low x - x mod 4096 = page_floor (low x).
Proof. unfold page_floor. rewrite <- low_mod_page. pose proof (Z.div_mod (low x) 4096). lia. Qed.

Lemma image_bounds_exact size m phdrs : ∀ phdr b e,
  phdrs_at m phdr phdrs → (∀ s, s ∈ phdrs → p_type s = PT_LOAD → loadable size s) → b ≤ UINT64_MAX → 0 ≤ e →
  image_bounds m (4096, b, e) phdr (length phdrs) =
    Ok (4096, Z.min b (image_begin phdrs), Z.max e (image_end phdrs)).
Proof.
  induction phdrs as [|seg phdrs IH]; intros phdr b e Hat Hs Hb He.
  - cbn. by rewrite Z.min_l, Z.max_l by done.
  - cbn [image_bounds length]. apply phdrs_at_cons in Hat as [-> Hat]. simpl_res.
    assert (Hsm : small_segment seg) by (intros Ht; apply (loadable_small size seg (Hs seg ltac:(by left) Ht)), Ht).
    rewrite extend_bounds_small by done. unfold image_begin, image_end, loaded.
    assert (Hs' : ∀ s, s ∈ phdrs → p_type s = PT_LOAD → loadable size s) by (intros s ?; apply Hs; by right).
    case_decide as Ht.
    + destruct (Hs seg ltac:(by left) Ht) as [_ Hend _ _]. destruct (Hsm Ht) as (_ & _ & Hm & _ & _).
      assert (0 ≤ low (p_vaddr seg)) by (unfold low; pose proof (Z.mod_pos_bound (p_vaddr seg) (2 ^ 32)); lia).
      rewrite filter_cons_True, !fmap_cons by done. cbn [foldr]. rewrite IH by (done || lia).
      rewrite Hend, Z.sub_0_r, low_page_floor. unfold image_begin, image_end, loaded. do 2 f_equal; [f_equal|]; lia.
    + rewrite filter_cons_False by done. by apply IH.
Qed.

Lemma page_floor_mod x : page_floor x mod 4096 = 0.
Proof. unfold page_floor. by apply Z.mod_mul. Qed.

Lemma image_range size phdrs :
  (∀ s, s ∈ phdrs → p_type s = PT_LOAD → loadable size s) →
  (0 ≤ image_end phdrs < 2 ^ 32 ∧ image_end phdrs mod 4096 = 0 ∧ 0 ≤ image_begin phdrs ≤ UINT64_MAX ∧
   (image_begin phdrs mod 4096 = 0 ∨ image_begin phdrs = UINT64_MAX)) ∧
  ∀ s, s ∈ phdrs → p_type s = PT_LOAD →
    image_begin phdrs ≤ low (p_vaddr s) ∧ low (p_vaddr s) + p_memsz s ≤ image_end phdrs ∧
    image_begin phdrs mod 4096 = 0.
Proof.
  intros Hs. unfold image_begin, image_end, loaded. induction phdrs as [|seg phdrs IH]; cbn [filter list_filter].
  { split; [cbn; split_and!; (done || by right)|]. by intros s ?%elem_of_nil. }
  destruct IH as [(He & Hem & Hb & Hbm) Hall]; [intros s ?; apply Hs; by right|]. case_decide as Ht.
  - destruct (Hs seg ltac:(by left) Ht) as [Hsm Hend _ _]. destruct (Hsm Ht) as (_ & Hv & Hm & _ & Hl).
    rewrite !fmap_cons. cbn [foldr].
    set (b := foldr Z.min _ _) in *. set (e := foldr Z.max _ _) in *.
    assert (Hf0 : 0 ≤ page_floor (low (p_vaddr seg))) by (rewrite <- low_page_floor; apply low_floor).
    assert (Hf1 : page_floor (low (p_vaddr seg)) ≤ low (p_vaddr seg)).
    { unfold page_floor. pose proof (Z.mul_div_le (low (p_vaddr seg)) 4096). lia. }
    pose proof (page_floor_mod (low (p_vaddr seg))) as Hfm.
    assert (Hem' : (low (p_vaddr seg) + p_memsz seg) mod 4096 = 0) by (by rewrite <- low_add, low_mod_page).
    assert (Hmin : Z.min (page_floor (low (p_vaddr seg))) b mod 4096 = 0).
    { destruct (Z.min_spec (page_floor (low (p_vaddr seg))) b) as [[_ ->]|[? ->]]; [done|].
      destruct Hbm as [?|E]; [done|]. exfalso. assert (UINT64_MAX = 2 ^ 64 - 1) by done. lia. }
    split.
    + split_and!; [lia|lia| |lia|lia|by left].
      by destruct (Z.max_spec (low (p_vaddr seg) + p_memsz seg) e) as [[_ ->]|[_ ->]].
    + intros s [->|Hin]%elem_of_cons Hts; [split_and!; [lia|lia|done]|].
      destruct (Hall s Hin Hts) as (? & ? & _). split_and!; [lia|lia|done].
  - split; [done|]. intros s [->|Hin]%elem_of_cons Hts; [done|by apply Hall].
Qed.

(** *** The stack *)

Definition stack_fits (desc : loader_memory_descriptor_t) : Prop := stack_pages ≤ page_count desc.

Lemma stack_fold descs : ∀ i mp mo,
  ∃ mp' mo', foldl stack_round (i, mp, mo) descs = (i + Z.of_nat (length descs), mp', mo') ∧
    (∀ d, d ∈ descs → stack_fits d → mp' ≤ page_count d) ∧ mp' ≤ mp ∧
    ((mp' = mp ∧ mo' = mo) ∨
     ∃ k d, descs !! k = Some d ∧ stack_fits d ∧ page_count d = mp' ∧ mo' = i + Z.of_nat k).
Proof.
  induction descs as [|d descs IH]; intros i mp mo; cbn [foldl length].
  { exists mp, mo. split_and!; [by rewrite Z.add_0_r|by intros ? ?%elem_of_nil|lia|by left]. }
  unfold stack_round at 2. destruct (Z.leb_spec stack_pages (page_count d)) as [Hf|Hf];
    [destruct (Z.ltb_spec (page_count d) mp) as [Hl|Hl]|].
  - destruct (IH (i + 1) (page_count d) i) as (mp' & mo' & -> & Hmin & Hle & Hcase). exists mp', mo'.
    split_and!; [f_equal; f_equal; lia| |lia|].
    + intros e [->|He]%elem_of_cons Hfe; [done|by apply Hmin].
    + right. destruct Hcase as [[-> ->]|(k & e & Hk & Hfe & Ee & ->)].
      * exists 0%nat, d. split_and!; [done..|lia].
      * exists (S k), e. split_and!; [done..|lia].
  - destruct (IH (i + 1) mp mo) as (mp' & mo' & -> & Hmin & Hle & Hcase). exists mp', mo'.
    split_and!; [f_equal; f_equal; lia| |lia|].
    + intros e [->|He]%elem_of_cons Hfe; [lia|by apply Hmin].
    + destruct Hcase as [?|(k & e & Hk & Hfe & Ee & ->)]; [by left|right; exists (S k), e; split_and!; [done..|lia]].
  - destruct (IH (i + 1) mp mo) as (mp' & mo' & -> & Hmin & Hle & Hcase). exists mp', mo'.
    split_and!; [f_equal; f_equal; lia| |lia|].
    + intros e [->|He]%elem_of_cons Hfe; [unfold stack_fits in Hfe; lia|by apply Hmin].
    + destruct Hcase as [?|(k & e & Hk & Hfe & Ee & ->)]; [by left|right; exists (S k), e; split_and!; [done..|lia]].
Qed.

Lemma choose_stack_spec KERNEL_START descs :
  Z.of_nat (length descs) < UINT64_MAX → 0 ≤ KERNEL_START → KERNEL_START mod 4096 = 0 →
  Forall (λ d, 0 ≤ p_addr d ∧ p_addr d mod 4096 = 0 ∧ page_count d < UINT64_MAX ∧
               KERNEL_START + p_addr d + page_count d * 4096 < 2 ^ 64) descs →
  (∃ d, d ∈ descs ∧ stack_fits d) →
  ∃ k d descs', descs !! k = Some d ∧ stack_fits d ∧ (∀ e, e ∈ descs → stack_fits e → page_count d ≤ page_count e) ∧
    let virtual := KERNEL_START + p_addr d in
    let top := virtual + stack_pages * EFI_PAGE_SIZE in
    choose_stack KERNEL_START descs = Ok (descs', virtual + EFI_PAGE_SIZE, top) ∧
    descs' !! k = Some (Descriptor (d_type d) top (u64 (KERNEL_START + top)) (page_count d) (d_attrib d)) ∧
    ∀ j, j ≠ k → descs' !! j = with_virtual KERNEL_START <$> descs !! j.
Proof.
  intros Hlen HK HK' Hok [d0 [Hin0 Hfit0]]. unfold choose_stack.
  destruct (stack_fold descs 0 UINT64_MAX UINT64_MAX) as (mp & mo & -> & Hmin & Hle & Hcase).
  destruct (proj1 (Forall_forall _ _) Hok d0 Hin0) as (_ & _ & Hd0 & _). pose proof (Hmin d0 Hin0 Hfit0).
  destruct Hcase as [[-> ->]|(k & d & Hk & Hfit & Hmp & ->)]; [lia|]. rewrite Z.add_0_l.
  pose proof (lookup_lt_Some _ _ _ Hk) as Hkl. rewrite (proj2 (Z.eqb_neq _ UINT64_MAX)) by lia.
  rewrite Nat2Z.id. rewrite list_lookup_fmap, Hk. cbn [fmap option_fmap option_map]. simpl_res.
  assert (Hd : d ∈ descs) by (by eapply list_elem_of_lookup_2).
  destruct (proj1 (Forall_forall _ _) Hok d Hd) as (Hp & Hpm & Hpc & Hend).
  unfold stack_fits in Hfit. change stack_pages with 26 in *. unfold EFI_PAGE_SIZE, with_virtual. cbn [v_addr d_type page_count d_attrib p_addr].
  exists k, d. eexists. split; [done|]. split; [done|]. split; [intros e He Hfe; rewrite Hmp; by apply Hmin|].
  cbv zeta. unfold u64. rewrite !(wrap_small 64 (KERNEL_START + p_addr d)), !(wrap_small 64 (KERNEL_START + p_addr d + 4096)),
    !(wrap_small 64 (KERNEL_START + p_addr d + 4096 + (26 - 1) * 4096)) by lia.
  replace (KERNEL_START + p_addr d + 4096 + (26 - 1) * 4096) with (KERNEL_START + p_addr d + 26 * 4096) by lia.
  assert (Hal : Z.land (KERNEL_START + p_addr d + 26 * 4096) (2 ^ 64 - 16) = KERNEL_START + p_addr d + 26 * 4096).
  { apply land_align16; [lia|]. apply Z.mod_divide; [done|].
    apply Z.mod_divide in HK' as [x ->], Hpm as [y ->]; [|done..]. exists (x * 256 + y * 256 + 26 * 256). lia. }
  rewrite Hal. split; [done|]. split.
  - by rewrite list_lookup_insert_eq by (by rewrite length_fmap).
  - intros j Hj. by rewrite list_lookup_insert_ne, list_lookup_fmap.
Qed.

(** *** The loader's page tables *)

Lemma present_land w : Z.land w 1 = present (word_entry w).
Proof.
  pose proof (land_mask 1 w ltac:(lia)) as E. change (2 ^ 1 - 1) with 1 in E. rewrite E.
  unfold word_entry, field. cbn [present]. by rewrite Z.pow_0_r, Z.div_1_r.
Qed.

Lemma frame_land w : Z.land w 0x000FFFFFFFFFF000 = frame_of (word_entry w).
Proof.
  change 0x000FFFFFFFFFF000 with (Z.shiftl (2 ^ 40 - 1) 12). rewrite land_high_mask by lia.
  by rewrite frame_of_word.
Qed.

Lemma ADDR_TO_ENTRY_word a flags :
  0 ≤ a < 2 ^ 52 → a mod 4096 = 0 → 0 ≤ flags < 2 ^ 12 →
  present (word_entry (ADDR_TO_ENTRY a flags)) ≠ 0 ∧ frame_of (word_entry (ADDR_TO_ENTRY a flags)) = a.
Proof.
  intros Ha Hm Hf. pose proof (Z.div_mod a 4096) as Hd.
  assert (Hq : 0 ≤ a / 4096 < 2 ^ 40) by (split; [apply Z.div_pos; lia|apply Z.div_lt_upper_bound; lia]).
  assert (Hl : 0 ≤ Z.lor 1 flags < 2 ^ 12) by (apply lor_range; lia).
  assert (E : ADDR_TO_ENTRY a flags = Z.lor 1 flags + (a / 4096) * 2 ^ 12).
  { unfold ADDR_TO_ENTRY. change 0xFFFFFFFFFF with (2 ^ 40 - 1).
    rewrite land_mask, Z.shiftr_div_pow2 by lia. change (2 ^ 12) with 4096.
    rewrite (Z.mod_small (a / 4096)) by done. rewrite Z.lor_comm. by apply (lor_shiftl_add 12). }
  split.
  - rewrite E. unfold word_entry, field. cbn [present]. rewrite Z.pow_0_r, Z.div_1_r.
    rewrite Zplus_mod, (Z.mul_comm (a / 4096)). change (2 ^ 12) with (2 ^ 1 * 2 ^ 11).
    rewrite <- Z.mul_assoc, (Z.mul_comm (2 ^ 1)), Z.mod_mul, Z.add_0_r, Zmod_mod by lia.
    change (2 ^ 1) with 2. rewrite <- Z.bit0_mod, Z.lor_spec. done.
  - rewrite frame_of_word, E. unfold word_entry, field. cbn [address].
    rewrite Z.div_add, (Z.div_small (Z.lor 1 flags)), Z.add_0_l, Z.mod_small by lia. lia.
Qed.

Lemma page_get_word ph root p t i w :
  walk ph root p = Some t → word_at ph root p i = Some w → page_get ph t i = Ok w.
Proof.
  intros Ht Hw. destruct (word_at_row _ _ _ _ _ _ Ht Hw) as (row & Hr & Hi). unfold page_get. rewrite Hr. simpl_res. by rewrite Hi.
Qed.

Lemma page_put_row ph t i row w :
  ph !! t = Some row → (i < length row)%nat → page_put ph t i w = Ok (<[t := <[i := w]> row]> ph).
Proof.
  intros Hr Hi. unfold page_put. rewrite Hr. simpl_res. by destruct (lookup_lt_is_Some_2 row i Hi) as [x ->].
Qed.

Section map.
Context {F : Type} `{BootServices F}.

Lemma sub_table_spec root fs ph p t i flags :
  boot_ok fs → pt_ok root ph (boot_free fs) → (length p ≤ 2)%nat →
  walk ph root p = Some t → (i < 512)%nat → 0 ≤ flags < 2 ^ 12 → boot_free fs ≠ [] →
  ∃ t' fs' ph', sub_table fs ph t i flags = Ok (t', fs', ph') ∧ boot_ok fs' ∧
    pt_ok root ph' (boot_free fs') ∧ walk ph' root (p ++ [i]) = Some t' ∧
    (length (boot_free fs) ≤ length (boot_free fs') + 1)%nat ∧
    ∀ q j, length q = 3%nat → leaf_at ph' root q j = leaf_at ph root q j.
Proof.
  intros Hfs Hpt Hp Ht Hi Hfl Hleft. unfold sub_table.
  destruct (word_at_lookup root ph _ Hpt p t i) as [w Hw]; [lia|done..|].
  rewrite (page_get_word ph root p t i w) by done. simpl_res. rewrite present_land.
  destruct (Z.eqb_spec (present (word_entry w)) 0) as [Habs|Hpres].
  - destruct (boot_free fs) as [|f free] eqn:Efree; [done|].
    destruct (word_at_row _ _ _ _ _ _ Ht Hw) as (row & Hrow & Hwi).
    destruct (AllocatePages_one fs f free Hfs Efree) as (fs' & E & Hfs' & Efree').
    destruct (pt_free _ _ _ Hpt f) as (Hf & Hm & _); [by left|].
    destruct (ADDR_TO_ENTRY_word f flags ltac:(lia) Hm Hfl) as [Hnew Hframe].
    destruct (grow_facts root ph f free Hpt p t i row w _ Hp Ht Hrow Hwi Habs Hnew Hframe)
      as (_ & _ & _ & _ & Htf & Hil).
    unfold new_page_table, quick_allocate_page. rewrite E. simpl_res.
    rewrite (page_put_row _ t i row) by (done || by rewrite lookup_insert_ne). simpl_res.
    eexists f, fs', _. split; [done|]. split; [done|]. rewrite Efree'. split_and!.
    + by eapply grow_pt2.
    + by eapply grow_next.
    + cbn. lia.
    + intros q j Hq. by eapply grow_leaf.
  - exists (Z.land w 0x000FFFFFFFFFF000), fs, ph. split; [done|]. split_and!; [done..| |lia|done].
    rewrite walk_snoc, Hw. cbn [mbind option_bind]. by rewrite (proj2 (Z.eqb_neq _ _) Hpres), frame_land.
Qed.

Lemma map_one_spec root fs ph v a flags :
  boot_ok fs → pt_ok root ph (boot_free fs) → (3 ≤ length (boot_free fs))%nat → 0 ≤ flags < 2 ^ 12 →
  0 ≤ v → 0 ≤ a < 2 ^ 52 → a mod 4096 = 0 →
  ∃ fs' ph', map_one fs ph root v a flags = Ok (fs', ph') ∧ boot_ok fs' ∧ pt_ok root ph' (boot_free fs') ∧
    (length (boot_free fs) ≤ length (boot_free fs') + 3)%nat ∧
    ∀ u, leaf ph' root u = if decide (same_slot u v) then Some (ADDR_TO_ENTRY a flags) else leaf ph root u.
Proof.
  intros Hfs Hpt Hlen Hfl Hv Ha Ham. unfold map_one. rewrite !Z.shiftr_shiftr by lia.
  assert (E4 : nine_bits (Z.shiftr v (12 + 27)) = p4_index v)
    by (unfold p4_index, nine_bits; by rewrite !Z.shiftr_shiftr by lia).
  assert (E3 : nine_bits (Z.shiftr v (12 + 18)) = p3_index v)
    by (unfold p3_index, nine_bits; by rewrite !Z.shiftr_shiftr by lia).
  assert (E2 : nine_bits (Z.shiftr v (12 + 9)) = p2_index v)
    by (unfold p2_index, nine_bits; by rewrite !Z.shiftr_shiftr by lia).
  assert (E1 : nine_bits (Z.shiftr v 12) = p1_index v) by done.
  rewrite E4, E3, E2, E1. clear E1 E2 E3 E4.
  assert (Hne : ∀ l : list Z, (1 ≤ length l)%nat → l ≠ []) by (by intros [|? ?]; [cbn; lia|]).
  destruct (sub_table_spec root fs ph [] root (p4_index v) flags)
    as (p3 & fs1 & ph1 & -> & Hf1 & Hp1 & Hw1 & Hl1 & Hs1); try done;
    try apply index_bound; try (apply Hne; lia); try (cbn; lia). simpl_res.
  destruct (sub_table_spec root fs1 ph1 [p4_index v] p3 (p3_index v) flags)
    as (p2 & fs2 & ph2 & -> & Hf2 & Hp2 & Hw2 & Hl2 & Hs2); try done;
    try apply index_bound; try (apply Hne; lia); try (cbn; lia). simpl_res.
  destruct (sub_table_spec root fs2 ph2 [p4_index v; p3_index v] p2 (p2_index v) flags)
    as (p1 & fs3 & ph3 & -> & Hf3 & Hp3 & Hw3 & Hl3 & Hs3); try done;
    try apply index_bound; try (apply Hne; lia); try (cbn; lia). simpl_res.
  destruct (leaf_word_at root ph3 _ v Hp3 p1 Hw3) as (row & w & Hrow & Hi & Hwi & _ & El).
  rewrite (page_put_row _ _ _ row) by done. simpl_res.
  destruct (ADDR_TO_ENTRY_word a flags Ha Ham Hfl) as [Hnew Hframe].
  destruct (write_leaf root ph3 (boot_free fs3) v p1 row (ADDR_TO_ENTRY a flags) Hp3 Hw3 Hrow Hi) as [Hpt' Hleaf];
    [done|].
  eexists fs3, _. split; [done|]. split_and!; [done|done|lia|].
  intros u. rewrite Hleaf, (proj2 (Z.eqb_neq _ _) Hnew). case_decide; [done|].
  unfold leaf. fold (leaf_at ph3 root (table_path u) (p1_index u)). by rewrite Hs3, Hs2, Hs1.
Qed.

(** Pages of one region have different indices. *)
Lemma region_slots v n i j :
  0 ≤ v → n ≤ 2 ^ 19 → 0 ≤ i < n → 0 ≤ j < n → v mod 4096 = 0 →
  same_slot (v + i * 4096) (v + j * 4096) → i = j.
Proof.
  intros Hv Hn Hi Hj Hm Hs. apply same_slot_spec in Hs; [|lia..].
  rewrite !Z.div_add in Hs by lia. set (q := v / 4096) in *.
  pose proof (Z.div_mod (q + i) (2 ^ 36)). pose proof (Z.div_mod (q + j) (2 ^ 36)). nia.
Qed.

Lemma map_pages_spec root v a n flags :
  0 ≤ flags < 2 ^ 12 → 0 ≤ n ≤ 2 ^ 19 → 0 ≤ v → v mod 4096 = 0 → v + n * 4096 ≤ 2 ^ 64 →
  0 ≤ a → a mod 4096 = 0 → a + n * 4096 ≤ 2 ^ 52 →
  ∀ fs ph, boot_ok fs → pt_ok root ph (boot_free fs) → 3 * n ≤ Z.of_nat (length (boot_free fs)) →
  ∃ fs' ph', map_pages fs ph root v a n flags = Ok (fs', ph') ∧ boot_ok fs' ∧ pt_ok root ph' (boot_free fs') ∧
    (∀ i, 0 ≤ i < n → leaf ph' root (v + i * 4096) = Some (ADDR_TO_ENTRY (a + i * 4096) flags)) ∧
    ∀ u, (∀ i, 0 ≤ i < n → ¬ same_slot u (v + i * 4096)) → leaf ph' root u = leaf ph root u.
Proof.
  intros Hfl Hn Hv Hvm Hve Ha Ham Hae.
  enough (G : ∀ r j fs ph, j + Z.of_nat r = n → 0 ≤ j →
    boot_ok fs → pt_ok root ph (boot_free fs) → 3 * (n - j) ≤ Z.of_nat (length (boot_free fs)) →
    ∃ fs' ph', iter (S r) (λ '(j, fs, ph),
      if j <? n then
        if negb (v mod EFI_PAGE_SIZE =? 0) || negb (a mod EFI_PAGE_SIZE =? 0) then Ok (Done (fs, ph))
        else
          offset ← int_ok (j * EFI_PAGE_SIZE);
          '(fs, ph) ← map_one fs ph root (u64 (v + offset)) (u64 (a + offset)) flags;
          j ← int_ok (j + 1);
          Ok (Next (j, fs, ph))
      else Ok (Done (fs, ph))) (j, fs, ph) = Ok (fs', ph') ∧ boot_ok fs' ∧ pt_ok root ph' (boot_free fs') ∧
    (∀ i, j ≤ i < n → leaf ph' root (v + i * 4096) = Some (ADDR_TO_ENTRY (a + i * 4096) flags)) ∧
    ∀ u, (∀ i, j ≤ i < n → ¬ same_slot u (v + i * 4096)) → leaf ph' root u = leaf ph root u).
  { intros fs ph Hfs Hpt Hfree. unfold map_pages.
    apply (G (Z.to_nat n) 0 fs ph); [lia|lia|done|done|lia]. }
  induction r as [|r IH]; intros j fs ph Hj Hj0 Hfs Hpt Hfree.
  - assert (j = n) as -> by lia. exists fs, ph. cbn [iter]. rewrite Z.ltb_irrefl.
    split_and!; [done..|lia|done].
  - destruct (map_one_spec root fs ph (v + j * 4096) (a + j * 4096) flags)
      as (fs1 & ph1 & E1 & Hfs1 & Hpt1 & Hlen1 & Hleaf1); [done|done|lia|done|lia|lia| |].
    { by rewrite Z.mod_add. }
    destruct (IH (j + 1) fs1 ph1) as (fs' & ph' & E & Hfs' & Hpt' & Hin & Hout); [lia|lia|done|done|lia|].
    exists fs', ph'. split.
    { etransitivity; [|exact E]. unfold EFI_PAGE_SIZE. cbn [iter]. rewrite (proj2 (Z.ltb_lt j n)) by lia.
      rewrite Hvm, Ham. cbn [Z.eqb negb orb]. rewrite (int_ok_Ok (j * 4096)) by lia. simpl_res.
      assert (u64 (v + j * 4096) = v + j * 4096) as -> by (apply wrap_small; lia).
      assert (u64 (a + j * 4096) = a + j * 4096) as -> by (apply wrap_small; lia).
      rewrite E1. simpl_res. rewrite (int_ok_Ok (j + 1)) by lia. done. }
    split_and!; [done|done| |].
    + intros i Hi. destruct (decide (i = j)) as [->|Hne]; [|apply Hin; lia].
      rewrite Hout.
      * rewrite Hleaf1, decide_True; done.
      * intros k Hk Hs. apply (region_slots v n) in Hs; lia.
    + intros u Hu. rewrite Hout by (intros i Hi; apply Hu; lia).
      rewrite Hleaf1, decide_False; [done|]. apply Hu. lia.
Qed.
End map.

(** ** Properties *)

(** C26: The loader's [map_pages] makes exactly the asked mapping: with three
    free pages per page of the region it returns, the tables stay a tree, page
    [i] of the region translates to frame [i], and every page outside the
    region translates as before. *)
Theorem map_pages_maps {F} `{BootServices F} (root : Z) (fs : F) (ph : phys) (v a n flags : Z) :
  0 ≤ flags < 2 ^ 12 → 0 ≤ n ≤ 2 ^ 19 → 0 ≤ v → v mod 4096 = 0 → v + n * 4096 ≤ 2 ^ 64 →
  0 ≤ a → a mod 4096 = 0 → a + n * 4096 ≤ 2 ^ 52 →
  boot_ok fs → pt_ok root ph (boot_free fs) → 3 * n ≤ Z.of_nat (length (boot_free fs)) →
  ∃ fs' ph', map_pages fs ph root v a n flags = Ok (fs', ph') ∧ boot_ok fs' ∧ pt_ok root ph' (boot_free fs') ∧
    (∀ i, 0 ≤ i < n → virtual_to_physical ph' root (v + i * 4096) = Ok (a + i * 4096)) ∧
    ∀ u, 0 ≤ u → (∀ i, 0 ≤ i < n → u / 4096 mod 2 ^ 36 ≠ (v / 4096 + i) mod 2 ^ 36) →
      virtual_to_physical ph' root u = virtual_to_physical ph root u.
Proof.
  intros Hfl Hn Hv Hvm Hve Ha Ham Hae Hfs Hpt Hfree.
  destruct (map_pages_spec root v a n flags Hfl Hn Hv Hvm Hve Ha Ham Hae fs ph Hfs Hpt Hfree)
    as (fs' & ph' & E & Hfs' & Hpt' & Hin & Hout).
  exists fs', ph'. split_and!; [done..| |].
  - intros i Hi. rewrite (virtual_to_physical_leaf _ _ _ _ Hpt'), Hin by done.
    destruct (ADDR_TO_ENTRY_word (a + i * 4096) flags) as [_ ->]; [lia|by rewrite Z.mod_add|done|done].
  - intros u Hu Hne. rewrite (virtual_to_physical_leaf _ _ _ _ Hpt'), (virtual_to_physical_leaf _ _ _ _ Hpt), Hout; [done|].
    intros i Hi Hs. apply (Hne i Hi). apply same_slot_spec in Hs; [|lia..]. by rewrite Hs, Z.div_add.
Qed.

(** A firmware with a list of pages and one block for larger requests. *)
#[global] Program Instance demo_services : BootServices (list Z) := {|
  AllocatePages s n := if n =? 1 then match s with [] => None | f :: s => Some (f, s) end else Some (0x100000, s);
  AllocatePool s _ := Some (0x200000, s);
  boot_ok _ := True;
  boot_free s := s
|}.
Next Obligation. intros s f fs _ ->. by exists fs. Qed.

Definition boot_pages : list Z := [0x3000; 0x4000; 0x5000; 0x6000; 0x7000; 0x8000].

Lemma demo_boot_pt : pt_ok 0x1000 {[ 0x1000 := zero_frame ]} boot_pages.
Proof.
  apply pt_ok_empty; [apply (bool_decide_unpack (NoDup boot_pages)); by vm_compute|].
  unfold boot_pages. intros f Hf.
  repeat (apply elem_of_cons in Hf as [->|Hf]; [split_and!; (done || lia)|]). by apply elem_of_nil in Hf.
Qed.

Lemma map_pages_maps_witness :
  ∃ fs' ph', map_pages boot_pages {[ 0x1000 := zero_frame ]} 0x1000 0xFFFF800000000000 0x90000 2 2 = Ok (fs', ph') ∧
    virtual_to_physical ph' 0x1000 (0xFFFF800000000000 + 1 * 4096) = Ok (0x90000 + 1 * 4096).
Proof.
  destruct (map_pages_maps 0x1000 boot_pages {[ 0x1000 := zero_frame ]} 0xFFFF800000000000 0x90000 2 2)
    as (fs' & ph' & E & _ & _ & Hin & _);
    [lia|lia|lia|done|lia|lia|done|lia|done|apply demo_boot_pt|done|].
  exists fs', ph'. split; [exact E|]. apply Hin. lia.
Defined.

(** C25: Loading a valid image whose segments end on page borders and do not
    overlap: the loader asks the firmware for the pages from the first to behind
    the last segment and returns the entry address; every loaded segment with
    all its memory lies in the block it got, at its distance from the begin of
    the image, where its bytes of the file have been copied; no other byte of
    memory changes; and the higher half shows that block page by page.  For a
    segment that does not end on a page border, see [load_end_rounded_down]. *)
Theorem load_places_segments {F} `{BootServices F} (KS : Z) (fs fs1 : F) (ph : phys) (m : mem)
    (root buf size : Z) (hdr : Elf64_Ehdr) (phdrs : list Elf64_Phdr) (addr : Z) :
  let pages := image_pages phdrs in
  read_ehdr m buf = Ok hdr → is_image_valid hdr = true → e_phnum hdr = Z.of_nat (length phdrs) → 0 ≤ e_phoff hdr →
  readable m buf size → phdrs_at m (buf + e_phoff hdr) phdrs →
  e_phoff hdr + sizeof_Phdr * Z.of_nat (length phdrs) ≤ size →
  (∃ s, s ∈ phdrs ∧ p_type s = PT_LOAD) → (∀ s, s ∈ phdrs → p_type s = PT_LOAD → loadable size s) →
  disjoint_segments phdrs →
  AllocatePages fs pages = Some (addr, fs1) →
  readable m addr (pages * 4096) → addr + pages * 4096 ≤ buf ∨ buf + size ≤ addr →
  pages ≤ 2 ^ 19 → 0 ≤ KS → KS mod 4096 = 0 → KS + pages * 4096 ≤ 2 ^ 64 →
  0 ≤ addr → addr mod 4096 = 0 → addr + pages * 4096 ≤ 2 ^ 52 →
  boot_ok fs1 → pt_ok root ph (boot_free fs1) → 3 * pages ≤ Z.of_nat (length (boot_free fs1)) →
  ∃ fs' ph' m',
    load KS fs ph m root buf = Ok (u64 (addr + e_entry hdr - image_begin phdrs - KS), Some addr, fs', ph', m') ∧
    (∀ s, s ∈ phdrs → p_type s = PT_LOAD →
       addr ≤ place phdrs addr s ∧ place phdrs addr s + p_memsz s ≤ addr + pages * 4096 ∧
       ∀ i, 0 ≤ i < p_filesz s → m' !! (place phdrs addr s + i) = m !! (buf + p_offset s + i)) ∧
    (∀ a, (∀ s, s ∈ phdrs → p_type s = PT_LOAD → ¬ place phdrs addr s ≤ a < place phdrs addr s + p_filesz s) →
       m' !! a = m !! a) ∧
    ∀ i, 0 ≤ i < pages → virtual_to_physical ph' root (KS + i * 4096) = Ok (addr + i * 4096).
Proof.
  intros pages Hh Hv Hnum Hoff Hmap Hat Hsz (s0 & Hs0 & Ht0) Hld Hdis Hal Hblk Hout Hp HK HKm HKe Ha Ham Hae Hfs Hpt Hfree.
  destruct (image_range size phdrs Hld) as [(He & Hem & Hb & _) Hall].
  destruct (Hall s0 Hs0 Ht0) as (Hb0 & He0 & Hbm). destruct (Hld s0 Hs0 Ht0) as [_ _ (Hf0 & _) _].
  assert (Epages : pages * 4096 = image_end phdrs - image_begin phdrs).
  { unfold pages, image_pages. apply Z.mod_divide in Hem as [x Hx], Hbm as [y Hy]; [|done..].
    rewrite Hx, Hy, <- Z.mul_sub_distr_r, Z.div_mul by done. done. }
  assert (Hu : u64 (image_end phdrs - image_begin phdrs) / EFI_PAGE_SIZE = pages).
  { unfold u64. by rewrite wrap_small by lia. }
  assert (Hdest : ∀ s, s ∈ phdrs → p_type s = PT_LOAD → dest addr (image_begin phdrs) s = place phdrs addr s).
  { intros s Hin Ht. unfold dest, place. rewrite (loadable_paddr size s (Hld s Hin Ht)). lia. }
  assert (Hin : ∀ s, s ∈ phdrs → p_type s = PT_LOAD →
    addr ≤ place phdrs addr s ∧ place phdrs addr s + p_memsz s ≤ addr + pages * 4096).
  { intros s Hin Ht. destruct (Hall s Hin Ht) as (? & ? & _). unfold place. lia. }
  destruct (map_pages_spec root KS addr pages 2) with (fs := fs1) (ph := ph)
    as (fs' & ph' & Em & _ & Hpt' & Hmapped & _); try done; try lia.
  destruct (copy_segments_spec m buf size addr (image_begin phdrs) phdrs (buf + e_phoff hdr) m)
    as (m' & Ec & Hcopy & Hrest); try done; try lia.
  { apply Forall_forall. intros s Hs Ht. destruct (Hin s Hs Ht). destruct (Hld s Hs Ht) as [_ _ (? & ? & ?) _].
    rewrite (Hdest s Hs Ht). split_and!; try lia. intros a Hra. apply Hblk. lia. }
  { intros i j s t Hij Hi Hj Hts Htt. pose proof (list_elem_of_lookup_2 _ _ _ Hi). pose proof (list_elem_of_lookup_2 _ _ _ Hj).
    rewrite !Hdest by done. unfold place. destruct (Hdis i j s t Hij Hi Hj Hts Htt); lia. }
  exists fs', ph', m'. split_and!.
  - unfold load. rewrite Hh. simpl_res. rewrite Hv. cbn [negb].
    rewrite Hnum, Nat2Z.id, (image_bounds_exact size m phdrs) by done. simpl_res.
    rewrite (Z.min_r UINT64_MAX), (Z.max_r 0) by lia. rewrite Hu, Hal. simpl_res. rewrite Em. simpl_res. by rewrite Ec.
  - intros s Hs Ht. destruct (Hin s Hs Ht). split_and!; [done..|]. intros i Hi. rewrite <- (Hdest s Hs Ht). by apply Hcopy.
  - intros a Hna. apply Hrest. intros s Hs Ht. rewrite (Hdest s Hs Ht). by apply Hna.
  - intros i Hi. rewrite (virtual_to_physical_leaf _ _ _ _ Hpt'), Hmapped by done.
    destruct (ADDR_TO_ENTRY_word (addr + i * 4096) 2) as [_ ->]; [lia|by rewrite Z.mod_add|done|done].
Qed.

(** When the segment that ends last does not end on a page border, the
    pages the loader allocates and maps end in front of it: the end of the
    image is rounded down. *)
Lemma load_end_rounded_down m phdr phdrs seg :
  phdrs_at m phdr phdrs → Forall small_segment phdrs → seg ∈ phdrs → p_type seg = PT_LOAD →
  (∀ s, s ∈ phdrs → p_type s = PT_LOAD → low (p_vaddr s) + p_memsz s ≤ low (p_vaddr seg) + p_memsz seg) →
  (p_vaddr seg + p_memsz seg) mod 4096 ≠ 0 →
  ∃ begin end_, image_bounds m (4096, UINT64_MAX, 0) phdr (length phdrs) = Ok (4096, begin, end_) ∧
    begin + u64 (end_ - begin) / EFI_PAGE_SIZE * EFI_PAGE_SIZE < low (p_vaddr seg) + p_memsz seg.
Proof. apply loaded_pages_short. Qed.

(** An image with one segment of eight bytes in the file and [memsz] in
    memory. *)
Definition demo_phdr (memsz : Z) : Elf64_Phdr := Phdr 1 120 0xFFFF800000001000 0x1000 8 memsz 4096.

Definition demo_image (memsz : Z) : list Z :=
  [0x7F; 0x45; 0x4C; 0x46] ++ replicate 20 0 ++ le_bytes 8 0xFFFF800000001000 ++ le_bytes 8 64 ++
  replicate 16 0 ++ le_bytes 2 1 ++ replicate 6 0 ++
  le_bytes 4 1 ++ le_bytes 4 5 ++ le_bytes 8 120 ++ le_bytes 8 0xFFFF800000001000 ++ le_bytes 8 0x1000 ++
  le_bytes 8 8 ++ le_bytes 8 memsz ++ le_bytes 8 4096 ++ [1; 2; 3; 4; 5; 6; 7; 8].

Definition image_mem (memsz : Z) : mem :=
  write_bytes (write_bytes ∅ 0x2000 (replicate (Z.to_nat 0x1000) 0)) 0x40000 (demo_image memsz).

Lemma readable_write m p bs q n : readable m q n → readable (write_bytes m p bs) q n.
Proof.
  intros Hm a Ha. rewrite write_bytes_lookup. case_decide; [|by apply Hm].
  apply lookup_lt_is_Some_2. lia.
Qed.

Lemma readable_written m p bs : readable (write_bytes m p bs) p (Z.of_nat (length bs)).
Proof. intros a Ha. rewrite write_bytes_lookup, decide_True by done. apply lookup_lt_is_Some_2. lia. Qed.

Lemma demo_phdrs_at memsz :
  memsz ∈ [0x1000; 0x1234] → phdrs_at (image_mem memsz) (0x40000 + 64) [demo_phdr memsz].
Proof.
  intros Hm [|i] p Hp; [|done]. injection Hp as <-. unfold sizeof_Phdr.
  repeat (apply elem_of_cons in Hm as [->|Hm]; [by vm_compute|]). by apply elem_of_nil in Hm.
Qed.

Lemma load_places_segments_witness :
  ∃ fs' ph' m',
    load 0xFFFF800000000000 (0x2000 :: boot_pages) {[ 0x1000 := zero_frame ]} (image_mem 0x1000) 0x1000 0x40000 =
      Ok (0x2000, Some 0x2000, fs', ph', m') ∧
    m' !! (0x2000 + 7) = Some 8.
Proof.
  destruct (load_places_segments 0xFFFF800000000000 (0x2000 :: boot_pages) boot_pages {[ 0x1000 := zero_frame ]}
    (image_mem 0x1000) 0x1000 0x40000 128 (Ehdr ([0x7F; 0x45; 0x4C; 0x46] ++ replicate 12 0) 0xFFFF800000001000 64 1)
    [demo_phdr 0x1000] 0x2000)
    as (fs' & ph' & m' & E & Hcopy & _ & _);
    [by vm_compute|by vm_compute|done|done|apply (readable_written _ 0x40000 (demo_image 0x1000))| |by vm_compute
    |exists (demo_phdr 0x1000); by split; [left|]| | |by vm_compute| |left; by vm_compute|by vm_compute|done|done|by vm_compute
    |done|done|by vm_compute|done|apply demo_boot_pt|by vm_compute|].
  - apply demo_phdrs_at. by left.
  - intros s [->|Hs%elem_of_nil]%elem_of_cons _; [|done]. split; [by intros _|done|done|done].
  - intros [|i] [|j] s t Hij Hi Hj; done.
  - apply readable_write. change (image_pages [demo_phdr 0x1000] * 4096) with 0x1000. intros a Ha.
    apply (readable_written ∅ 0x2000 (replicate (Z.to_nat 0x1000) 0)). rewrite length_replicate. lia.
  - exists fs', ph', m'. split; [exact E|].
    destruct (Hcopy (demo_phdr 0x1000) (list_elem_of_here _ _) eq_refl) as (_ & _ & Hc).
    etransitivity; [exact (Hc 7 ltac:(cbn; lia))|by vm_compute].
Defined.

(** The stack of the kernel is pages 1 to 26 of a smallest region with at
    least 26 pages, whatever its type.  The region is handed on with the
    virtual end of the stack as its physical start and with its old page
    count; all other regions only get their virtual address. *)
Lemma choose_stack_smallest KERNEL_START descs :
  Z.of_nat (length descs) < UINT64_MAX → 0 ≤ KERNEL_START → KERNEL_START mod 4096 = 0 →
  Forall (λ d, 0 ≤ p_addr d ∧ p_addr d mod 4096 = 0 ∧ page_count d < UINT64_MAX ∧
               KERNEL_START + p_addr d + page_count d * 4096 < 2 ^ 64) descs →
  (∃ d, d ∈ descs ∧ stack_fits d) →
  ∃ k d descs', descs !! k = Some d ∧ stack_fits d ∧ (∀ e, e ∈ descs → stack_fits e → page_count d ≤ page_count e) ∧
    let virtual := KERNEL_START + p_addr d in
    let top := virtual + stack_pages * EFI_PAGE_SIZE in
    choose_stack KERNEL_START descs = Ok (descs', virtual + EFI_PAGE_SIZE, top) ∧
    descs' !! k = Some (Descriptor (d_type d) top (u64 (KERNEL_START + top)) (page_count d) (d_attrib d)) ∧
    ∀ j, j ≠ k → descs' !! j = with_virtual KERNEL_START <$> descs !! j.
Proof. apply choose_stack_spec. Qed.

