(* ===== verification/LibAlloc.v ===== *)
(** * The heap allocator (lethe-kernel/memory/liballoc.c)

    Boundary tags live in a memory with one map per field, so that an
    assignment [t->f = v] updates the map of [f] at [t].  Following a NULL
    pointer the code does not test for, or indexing the free-list array outside
    its bounds, is [Undefined].  Pages come from a [PageSource]; the locks are
    the empty functions of alloc.c and are left out.

    The invariant [heap_inv] says of the tags in use that their blocks are
    disjoint and tile the page regions, that the split and the free-list
    pointers are doubly linked, and that no two neighbours are both free. *)
From S2P Require Import Prelude.

(** ** Definitions *)

Definition LIBALLOC_MAGIC : Z := 0xC001C0DE.
Definition MAXCOMPLETE : Z := 5.
Definition MAXEXP : Z := 32.
Definition MINEXP : Z := 8.
Definition MODE : Z := 0.
Definition l_pageSize : Z := 4096.
Definition l_pageCount : Z := 16.
Definition sizeof_tag : Z := 48.

(** [(1 << shift) > size]: the [int] is converted to unsigned. *)
Definition getexp (size : Z) : res Z :=
  if size <? 2 ^ MINEXP then Ok (-1)
  else
    shift ← iter 32 (λ shift,
      if shift <? MAXEXP then
        if size <? 2 ^ shift then Ok (Done shift) else Ok (Next (shift + 1))
      else Ok (Done shift)) MINEXP;
    Ok (shift - 1).

(** One map per field. *)
Abbreviation fmap_t := (Z → Z).
Definition fupd (f : fmap_t) (a v : Z) : fmap_t := λ x, if x =? a then v else f x.

Record heap := Heap {
  magic : fmap_t; size : fmap_t; real_size : fmap_t; index : fmap_t;
  split_left : fmap_t; split_right : fmap_t; next : fmap_t; prev : fmap_t;
  l_freePages : fmap_t; l_completePages : fmap_t; l_initialized : bool
}.

Definition set_magic h a v := Heap (fupd (magic h) a v) (size h) (real_size h) (index h) (split_left h) (split_right h) (next h) (prev h) (l_freePages h) (l_completePages h) (l_initialized h).
Definition set_size h a v := Heap (magic h) (fupd (size h) a v) (real_size h) (index h) (split_left h) (split_right h) (next h) (prev h) (l_freePages h) (l_completePages h) (l_initialized h).
Definition set_real_size h a v := Heap (magic h) (size h) (fupd (real_size h) a v) (index h) (split_left h) (split_right h) (next h) (prev h) (l_freePages h) (l_completePages h) (l_initialized h).
Definition set_index h a v := Heap (magic h) (size h) (real_size h) (fupd (index h) a v) (split_left h) (split_right h) (next h) (prev h) (l_freePages h) (l_completePages h) (l_initialized h).
Definition set_split_left h a v := Heap (magic h) (size h) (real_size h) (index h) (fupd (split_left h) a v) (split_right h) (next h) (prev h) (l_freePages h) (l_completePages h) (l_initialized h).
Definition set_split_right h a v := Heap (magic h) (size h) (real_size h) (index h) (split_left h) (fupd (split_right h) a v) (next h) (prev h) (l_freePages h) (l_completePages h) (l_initialized h).
Definition set_next h a v := Heap (magic h) (size h) (real_size h) (index h) (split_left h) (split_right h) (fupd (next h) a v) (prev h) (l_freePages h) (l_completePages h) (l_initialized h).
Definition set_prev h a v := Heap (magic h) (size h) (real_size h) (index h) (split_left h) (split_right h) (next h) (fupd (prev h) a v) (l_freePages h) (l_completePages h) (l_initialized h).
Definition set_free h i v := Heap (magic h) (size h) (real_size h) (index h) (split_left h) (split_right h) (next h) (prev h) (fupd (l_freePages h) i v) (l_completePages h) (l_initialized h).
Definition set_complete h i v := Heap (magic h) (size h) (real_size h) (index h) (split_left h) (split_right h) (next h) (prev h) (l_freePages h) (fupd (l_completePages h) i v) (l_initialized h).

(** An index into the free-list arrays. *)
Definition in_array (i : Z) : res unit := guard_or Undefined ((0 <=? i) && (i <? MAXEXP)).

Definition insert_tag (h : heap) (tag idx : Z) : res heap :=
  realIndex ← (if idx <? 0 then
                 e ← getexp (u32 (real_size h tag - sizeof_tag));
                 Ok (if e <? MINEXP then MINEXP else e)
               else Ok idx);
  let h := set_index h tag realIndex in
  _ ← in_array realIndex;
  let front := l_freePages h realIndex in
  let h := if negb (front =? 0) then set_next (set_prev h front tag) tag front else h in
  Ok (set_free h realIndex tag).

Definition remove_tag (h : heap) (tag : Z) : res heap :=
  _ ← in_array (index h tag);
  let h := if l_freePages h (index h tag) =? tag
           then set_free h (index h tag) (next h tag) else h in
  let h := if negb (prev h tag =? 0) then set_next h (prev h tag) (next h tag) else h in
  let h := if negb (next h tag =? 0) then set_prev h (next h tag) (prev h tag) else h in
  Ok (set_index (set_prev (set_next h tag 0) tag 0) tag (-1)).

Definition melt_left (h : heap) (tag : Z) : Z * heap :=
  let left := split_left h tag in
  let h := set_real_size h left (u32 (real_size h left + real_size h tag)) in
  let h := set_split_right h left (split_right h tag) in
  let h := if negb (split_right h tag =? 0)
           then set_split_left h (split_right h tag) left else h in
  (left, h).

Definition absorb_right (h : heap) (tag : Z) : res (Z * heap) :=
  let right := split_right h tag in
  h ← remove_tag h right;
  let h := set_real_size h tag (u32 (real_size h tag + real_size h right)) in
  let h := set_split_right h tag (split_right h right) in
  let h := if negb (split_right h right =? 0)
           then set_split_left h (split_right h right) tag else h in
  Ok (tag, h).

Definition split_tag (h : heap) (tag : Z) : res (Z * heap) :=
  let remainder := u32 (real_size h tag - sizeof_tag - size h tag) in
  let new_tag := tag + sizeof_tag + size h tag in
  let h := set_magic h new_tag LIBALLOC_MAGIC in
  let h := set_real_size h new_tag remainder in
  let h := set_next h new_tag 0 in
  let h := set_prev h new_tag 0 in
  let h := set_split_left h new_tag tag in
  let h := set_split_right h new_tag (split_right h tag) in
  let h := if negb (split_right h new_tag =? 0)
           then set_split_left h (split_right h new_tag) new_tag else h in
  let h := set_split_right h tag new_tag in
  let h := set_real_size h tag (u32 (real_size h tag - real_size h new_tag)) in
  h ← insert_tag h new_tag (-1);
  Ok (new_tag, h).

(** The hooks [liballoc_alloc] and [liballoc_free]: [regions st] are the page
    regions handed out, by address and length in bytes. *)
Class PageSource (P : Type) := {
  liballoc_alloc : P → Z → option (Z * P);
  liballoc_free : P → Z → Z → P;
  regions : P → gmap Z Z;
  alloc_region ps pages p ps' :
    liballoc_alloc ps pages = Some (p, ps') → 0 < pages →
    0 < p ∧ p + 4096 * pages ≤ 2 ^ 64 ∧ regions ps' = <[p := 4096 * pages]> (regions ps) ∧
    ∀ q n, regions ps !! q = Some n → q + n ≤ p ∨ p + 4096 * pages ≤ q;
  free_region ps p pages :
    regions ps !! p = Some (4096 * pages) →
    regions (liballoc_free ps p pages) = delete p (regions ps)
}.

Section alloc.
Context {P : Type} `{PageSource P}.

(** [sz] is the request converted to [unsigned int]. *)
Definition allocate_new_tag (ps : P) (h : heap) (sz : Z) : option (Z * P * heap) :=
  let usage := u32 (sz + sizeof_tag) in
  let pages := usage / l_pageSize in
  let pages := if negb (usage mod l_pageSize =? 0) then pages + 1 else pages in
  let pages := if pages <? l_pageCount then l_pageCount else pages in
  '(tag, ps) ← liballoc_alloc ps pages;
  let h := set_magic h tag LIBALLOC_MAGIC in
  let h := set_size h tag sz in
  let h := set_real_size h tag (u32 (pages * l_pageSize)) in
  let h := set_index h tag (-1) in
  let h := set_next h tag 0 in
  let h := set_prev h tag 0 in
  let h := set_split_left h tag 0 in
  Some (tag, ps, set_split_right h tag 0).

Definition initialize (h : heap) : heap :=
  if l_initialized h then h
  else Heap (magic h) (size h) (real_size h) (index h) (split_left h) (split_right h)
         (next h) (prev h) (λ i, if (0 <=? i) && (i <? MAXEXP) then 0 else l_freePages h i)
         (λ i, if (0 <=? i) && (i <? MAXEXP) then 0 else l_completePages h i) true.

(** The search along one free list: 0 when it has no tag with enough space. *)
Definition find_tag (fuel : nat) (h : heap) (first sz : Z) : res Z :=
  iter fuel (λ tag,
    if tag =? 0 then Ok (Done 0)
    else if u64 (sz + sizeof_tag) <=? u64 (real_size h tag - sizeof_tag) then Ok (Done tag)
    else Ok (Next (next h tag))) first.

(** The end of [malloc]: the rest of the block becomes a block of its own. *)
Definition trim (h : heap) (tag sz : Z) : res heap :=
  let h := set_size h tag (u32 sz) in
  let remainder := u32 (real_size h tag - sz - sizeof_tag * 2) in
  if 0 <? s32 remainder then
    childIndex ← getexp remainder;
    if 0 <=? childIndex then '(_, h) ← split_tag h tag; Ok h else Ok h
  else Ok h.

(** [sz] is a [size_t]. *)
Definition malloc (fuel : nat) (ps : P) (h : heap) (sz : Z) : res (Z * P * heap) :=
  let h := initialize h in
  e ← getexp (u32 sz);
  let idx := if e + MODE <? MINEXP then MINEXP else e + MODE in
  tag ← find_tag fuel h (l_freePages h idx) sz;
  r ← (if tag =? 0 then Ok (allocate_new_tag ps h (u32 sz))
       else
         h ← remove_tag h tag;
         Ok (Some (tag, ps,
           if (split_left h tag =? 0) && (split_right h tag =? 0)
           then set_complete h idx (l_completePages h idx - 1) else h)));
  match r with
  | None => Ok (0, ps, h)
  | Some (tag, ps, h) =>
      h ← trim h tag sz;
      Ok (tag + sizeof_tag, ps, h)
  end.

Definition melt_loop (fuel : nat) (h : heap) (tag : Z) : res (Z * heap) :=
  iter fuel (λ '(tag, h),
    if negb (split_left h tag =? 0) && (0 <=? index h (split_left h tag)) then
      let '(tag, h) := melt_left h tag in
      h ← remove_tag h tag;
      Ok (Next (tag, h))
    else Ok (Done (tag, h))) (tag, h).

Definition absorb_loop (fuel : nat) (h : heap) (tag : Z) : res (Z * heap) :=
  iter fuel (λ '(tag, h),
    if negb (split_right h tag =? 0) && (0 <=? index h (split_right h tag)) then
      r ← absorb_right h tag; Ok (Next r)
    else Ok (Done (tag, h))) (tag, h).

Definition free (fuel : nat) (ps : P) (h : heap) (ptr : Z) : res (P * heap) :=
  if ptr =? 0 then Ok (ps, h)
  else
    let tag := ptr - sizeof_tag in
    if negb (magic h tag =? LIBALLOC_MAGIC) then Ok (ps, h)
    else
      '(tag, h) ← melt_loop fuel h tag;
      '(tag, h) ← absorb_loop fuel h tag;
      e ← getexp (u32 (real_size h tag - sizeof_tag));
      let idx := if e <? MINEXP then MINEXP else e in
      if (split_left h tag =? 0) && (split_right h tag =? 0) then
        if l_completePages h idx =? MAXCOMPLETE then
          let pages := real_size h tag / l_pageSize in
          let pages := if negb (real_size h tag mod l_pageSize =? 0) then pages + 1 else pages in
          let pages := if pages <? l_pageCount then l_pageCount else pages in
          Ok (liballoc_free ps tag pages, h)
        else
          let h := set_complete h idx (l_completePages h idx + 1) in
          h ← insert_tag h tag idx; Ok (ps, h)
      else h ← insert_tag h tag idx; Ok (ps, h).
End alloc.

(** *** The invariant *)

Definition in_region {P : Type} `{PageSource P} (ps : P) (h : heap) (a p n : Z) : Prop :=
  regions ps !! p = Some n ∧ p ≤ a ∧ a + real_size h a ≤ p + n.

(** The blocks of the tags in [L] are disjoint and tile the page regions. *)
Record blocks_inv {P : Type} `{PageSource P} (ps : P) (h : heap) (L : gset Z) : Prop := BlocksInv {
  inv_block : ∀ a, a ∈ L → 0 < a ∧ sizeof_tag ≤ real_size h a ∧ magic h a = LIBALLOC_MAGIC;
  inv_disjoint : ∀ a b, a ∈ L → b ∈ L → a ≠ b →
    a + real_size h a ≤ b ∨ b + real_size h b ≤ a;
  inv_region : ∀ a, a ∈ L → ∃ p n, in_region ps h a p n ∧
    (split_left h a = 0 → a = p) ∧ (split_right h a = 0 → a + real_size h a = p + n) ∧
    (split_right h a ≠ 0 → in_region ps h (split_right h a) p n);
  inv_regions : ∀ p n, regions ps !! p = Some n → n mod 4096 = 0 ∧ 65536 ≤ n < 2 ^ 31 ∧ p + n ≤ 2 ^ 64;
  inv_regions_disjoint : ∀ p n q m, regions ps !! p = Some n → regions ps !! q = Some m → p ≠ q →
    p + n ≤ q ∨ q + m ≤ p;
  inv_right : ∀ a, a ∈ L → split_right h a ≠ 0 →
    split_right h a ∈ L ∧ split_right h a = a + real_size h a ∧ split_left h (split_right h a) = a;
  inv_left : ∀ a, a ∈ L → split_left h a ≠ 0 →
    split_left h a ∈ L ∧ split_right h (split_left h a) = a;
  inv_start : ∀ p n, regions ps !! p = Some n → p ∈ L
}.

(** The free lists are doubly linked, each from its front. *)
Record lists_inv (h : heap) (L : gset Z) : Prop := ListsInv {
  inv_zero : 0 ∉ L;
  inv_index : ∀ a, a ∈ L → index h a = -1 ∨ MINEXP ≤ index h a < MAXEXP;
  inv_used : ∀ a, a ∈ L → index h a = -1 → next h a = 0 ∧ prev h a = 0;
  inv_next : ∀ a, a ∈ L → next h a ≠ 0 →
    next h a ∈ L ∧ prev h (next h a) = a ∧ index h (next h a) = index h a;
  inv_prev : ∀ a, a ∈ L → prev h a ≠ 0 →
    prev h a ∈ L ∧ next h (prev h a) = a ∧ index h (prev h a) = index h a;
  inv_front : ∀ a, a ∈ L → index h a ≠ -1 → prev h a = 0 → l_freePages h (index h a) = a;
  inv_lists : ∀ i, 0 ≤ i < MAXEXP → l_freePages h i ≠ 0 →
    l_freePages h i ∈ L ∧ index h (l_freePages h i) = i ∧ prev h (l_freePages h i) = 0
}.

(** No two neighbours are both free. *)
Definition coalesced (h : heap) (L : gset Z) : Prop :=
  ∀ a, a ∈ L → index h a ≠ -1 → split_right h a ≠ 0 → index h (split_right h a) = -1.

(** [L]: the addresses of the tags in use. *)
Record heap_inv {P : Type} `{PageSource P} (ps : P) (h : heap) (L : gset Z) : Prop := HeapInv {
  inv_blocks : blocks_inv ps h L;
  inv_free_lists : lists_inv h L;
  inv_coalesced : coalesced h L;
  inv_init : l_initialized h = false → L = ∅
}.

(** The abstract heap: a block of [n] bytes at [p] is allocated. *)
Definition live (h : heap) (L : gset Z) (p n : Z) : Prop :=
  p - sizeof_tag ∈ L ∧ index h (p - sizeof_tag) = -1 ∧ n = real_size h (p - sizeof_tag) - sizeof_tag.

(** ** Lemmas *)

Lemma fupd_eq f a v : fupd f a v a = v.
Proof. unfold fupd. by rewrite Z.eqb_refl. Qed.

Lemma fupd_ne f a v x : x ≠ a → fupd f a v x = f x.
Proof. intros. unfold fupd. by rewrite (proj2 (Z.eqb_neq _ _)). Qed.

Lemma fupd_if (c : bool) f a v x :
  (if c then fupd f a v else f) x = if c && (x =? a) then v else f x.
Proof. by destruct c. Qed.

Ltac fupd_simpl :=
  repeat first [ rewrite fupd_eq in * | rewrite fupd_ne in * by congruence ].

(** Split on the decisions of the goal. *)
Ltac dcase :=
  repeat match goal with |- context [decide ?Q] => destruct (decide Q) end.

(** Case analysis on a chain of field updates. *)
Ltac crunch :=
  repeat first
    [ progress (cbn; unfold fupd)
    | match goal with |- context [?a =? ?b] => destruct (Z.eqb_spec a b) end ];
  dcase; subst; intuition (congruence || lia).

Lemma log2_list sz : 256 ≤ sz < 2 ^ 32 → 8 ≤ Z.log2 sz < 32.
Proof.
  intros. split; [apply Z.log2_le_pow2; [lia|]; cbn; lia|apply Z.log2_lt_pow2; lia].
Qed.

(** [getexp] returns the integer logarithm. *)
Lemma getexp_spec sz :
  0 ≤ sz < 2 ^ 32 →
  getexp sz = Ok (if sz <? 256 then -1 else Z.log2 sz).
Proof.
  intros Hs. unfold getexp. change (2 ^ MINEXP) with 256.
  destruct (Z.ltb_spec sz 256); [done|].
  pose proof (log2_list sz ltac:(lia)).
  pose proof (Z.log2_spec sz ltac:(lia)) as Hspec.
  rewrite (iter_ok _ (λ k, 8 ≤ k ≤ Z.log2 sz + 1) (λ k, Z.to_nat (32 - k)) (Z.log2 sz + 1)).
  - simpl_res. f_equal. lia.
  - intros k Hk. unfold MAXEXP. destruct (Z.ltb_spec k 32) as [Hk32|]; [|lia].
    destruct (Z.ltb_spec sz (2 ^ k)) as [Hlt|Hge].
    + apply Z.log2_lt_pow2 in Hlt; lia.
    + split; [|lia]. apply Z.log2_le_pow2 in Hge; lia.
  - unfold MINEXP. lia.
  - unfold MINEXP. lia.
Qed.

(** *** The free lists *)

Section lists.
Implicit Types (h : heap) (L : gset Z).

(** Operations on the free lists leave the blocks alone, and the converse. *)
Definition same_lists h h' : Prop :=
  index h' = index h ∧ next h' = next h ∧ prev h' = prev h ∧ l_freePages h' = l_freePages h ∧
  
  l_initialized h' = l_initialized h.

Definition same_blocks h h' : Prop :=
  magic h' = magic h ∧ real_size h' = real_size h ∧
  split_left h' = split_left h ∧ split_right h' = split_right h.

(** What [remove_tag] leaves of each field. *)
Record removed h a h' : Prop := Removed {
  rm_next : ∀ x, x ≠ 0 → next h' x = if decide (x = a) then 0
                                     else if decide (x = prev h a) then next h a else next h x;
  rm_prev : ∀ x, x ≠ 0 → prev h' x = if decide (x = a) then 0
                                     else if decide (x = next h a) then prev h a else prev h x;
  rm_index : ∀ x, index h' x = if decide (x = a) then -1 else index h x;
  rm_front : ∀ i, l_freePages h' i =
    if decide (i = index h a ∧ l_freePages h i = a) then next h a else l_freePages h i;
  rm_init : l_initialized h' = l_initialized h
}.

Lemma fupd_same (f : fmap_t) q x : fupd f q (f x) x = f x.
Proof. unfold fupd. by case_match. Qed.

Lemma remove_tag_eq h a :
  0 ≤ index h a < MAXEXP →
  remove_tag h a = Ok (Heap (magic h) (size h) (real_size h) (fupd (index h) a (-1))
    (split_left h) (split_right h)
    (fupd (if negb (prev h a =? 0) then fupd (next h) (prev h a) (next h a) else next h) a 0)
    (fupd (if negb (next h a =? 0) then fupd (prev h) (next h a) (prev h a) else prev h) a 0)
    (if l_freePages h (index h a) =? a then fupd (l_freePages h) (index h a) (next h a)
     else l_freePages h)
    (l_completePages h) (l_initialized h)).
Proof.
  intros Hi. unfold remove_tag, in_array.
  rewrite (proj2 (Z.leb_le _ _)), (proj2 (Z.ltb_lt _ _)) by lia. simpl_res. f_equal.
  destruct (l_freePages h (index h a) =? a); cbn;
    destruct (prev h a =? 0); cbn; rewrite ?fupd_same;
    destruct (next h a =? 0); cbn; rewrite ?fupd_same; reflexivity.
Qed.

Lemma remove_tag_spec h a :
  0 ≤ index h a < MAXEXP →
  ∃ h', remove_tag h a = Ok h' ∧ removed h a h' ∧ same_blocks h h' ∧
    l_completePages h' = l_completePages h.
Proof.
  intros Hi. rewrite remove_tag_eq by done.
  eexists. split; [reflexivity|]. split; [|done].
  split; [intros x Hx; crunch|intros x Hx; crunch|intros x; crunch|intros i; crunch|done].
Qed.

(** The free-list neighbours of a tag. *)
Lemma list_links h L a b :
  lists_inv h L → a ∈ L → b ∈ L →
  (b = prev h a → next h b = a ∧ index h b = index h a) ∧
  (b = next h a → prev h b = a ∧ index h b = index h a) ∧
  (next h b = a → prev h a = b ∧ index h b = index h a) ∧
  (prev h b = a → next h a = b ∧ index h b = index h a).
Proof.
  intros Hi Ha Hb. pose proof (inv_zero _ _ Hi).
  assert (a ≠ 0 ∧ b ≠ 0) as [??] by (split; intros ->; done). split_and!.
  - intros ->. destruct (inv_prev _ _ Hi a Ha) as (? & ? & ?); [done|]. done.
  - intros ->. destruct (inv_next _ _ Hi a Ha) as (? & ? & ?); [done|]. done.
  - intros <-. destruct (inv_next _ _ Hi b Hb) as (? & ? & ?); [done|]. done.
  - intros <-. destruct (inv_prev _ _ Hi b Hb) as (? & ? & ?); [done|]. done.
Qed.

(** Unlinking a free tag. *)
Lemma removed_inv h L a h' :
  lists_inv h L → a ∈ L → index h a ≠ -1 → removed h a h' → lists_inv h' L.
Proof.
  intros Hi Ha Hia [Rn Rp Rx Rf _].
  assert (Hpos : ∀ b, b ∈ L → b ≠ 0) by (intros b Hb ->; by apply (inv_zero _ _ Hi)).
  assert (Hlk := λ b, list_links h L a b Hi Ha).
  assert (Haa := Hlk a Ha).
  destruct Hi as [I0 I6 I7 I8 I9 I10 I11].
  split; [done|..].
  - intros b Hb. rewrite Rx. dcase; [by left|by apply I6].
  - intros b Hb. rewrite Rx, Rn, Rp by auto. pose proof (I7 b Hb) as Hb7.
    specialize (Hlk b Hb). dcase; try done; intros Hx; destruct Hb7 as [? ?]; intuition congruence.
  - intros b Hb. pose proof (I8 b Hb) as Hb8. pose proof (Hlk b Hb) as Hlb.
    rewrite !Rn by auto. dcase; try done; intros Hx; rewrite Rp, !Rx by done.
    + destruct (I8 a Ha) as (? & ? & ?); [done|]. dcase; intuition congruence.
    + destruct Hb8 as (? & ? & ?); [done|]. pose proof (Hlk (next h b)) as Hlc.
      dcase; intuition congruence.
  - intros b Hb. pose proof (I9 b Hb) as Hb9. pose proof (Hlk b Hb) as Hlb.
    rewrite !Rp by auto. dcase; try done; intros Hx; rewrite Rn, !Rx by done.
    + destruct (I9 a Ha) as (? & ? & ?); [done|]. dcase; intuition congruence.
    + destruct Hb9 as (? & ? & ?); [done|]. pose proof (Hlk (prev h b)) as Hlc.
      dcase; intuition congruence.
  - intros b Hb. pose proof (I10 b Hb) as Hb10. pose proof (I10 a Ha) as Ha10.
    pose proof (Hlk b Hb) as Hlb.
    rewrite !Rx, Rp, Rf by auto. dcase; try done; intros Hx Hp; intuition congruence.
  - intros i Hir. destruct (I6 a Ha) as [|Hai]; [done|].
    pose proof (I11 i Hir) as Hb11. rewrite Rf. dcase; intros Hx.
    + destruct a0 as [-> Hf]. rewrite Hf in Hb11. destruct Hb11 as (_ & _ & Hp); [auto|].
      destruct (I8 a Ha) as (Hn1 & Hn2 & Hn3); [done|].
      rewrite Rx, Rp by auto. pose proof (Hpos a Ha). dcase; intuition congruence.
    + destruct Hb11 as (Hf1 & Hf2 & Hf3); [done|].
      assert (l_freePages h i ≠ a) by (intros E; apply n; split; congruence).
      assert (l_freePages h i ≠ next h a).
      { intros E. destruct (I8 a Ha) as (_ & E2 & _); [congruence|].
        rewrite <- E, Hf3 in E2. by apply (Hpos a Ha). }
      rewrite Rx, Rp by auto. by dcase.
Qed.

(** What [insert_tag] leaves of each field, at the front of list [i]. *)
Record inserted h a i h' : Prop := Inserted {
  ins_next : ∀ x, next h' x =
    if decide (x = a ∧ l_freePages h i ≠ 0) then l_freePages h i else next h x;
  ins_prev : ∀ x, prev h' x =
    if decide (x = l_freePages h i ∧ x ≠ 0) then a else prev h x;
  ins_index : ∀ x, index h' x = if decide (x = a) then i else index h x;
  ins_front : ∀ k, l_freePages h' k = if decide (k = i) then a else l_freePages h k;
  ins_init : l_initialized h' = l_initialized h
}.

(** The list a tag goes to when the caller names none. *)
Definition list_of (rs : Z) : Z :=
  if u32 (rs - sizeof_tag) <? 256 then MINEXP else Z.log2 (u32 (rs - sizeof_tag)).

Lemma insert_tag_spec h a idx :
  idx < MAXEXP →
  ∃ h', insert_tag h a idx = Ok h' ∧
    inserted h a (if idx <? 0 then list_of (real_size h a) else idx) h' ∧ same_blocks h h' ∧
    size h' = size h.
Proof.
  intros Hx. unfold insert_tag, in_array.
  assert (E : ∃ i, (if idx <? 0 then
       e ← getexp (u32 (real_size h a - sizeof_tag)); Ok (if e <? MINEXP then MINEXP else e)
     else Ok idx) = Ok i ∧ i = (if idx <? 0 then list_of (real_size h a) else idx) ∧
     0 ≤ i < MAXEXP).
  { destruct (Z.ltb_spec idx 0); [|eauto with lia]. unfold list_of.
    pose proof (wrap_range 32 (real_size h a - sizeof_tag) ltac:(lia)).
    fold u32 in *. rewrite getexp_spec by done. simpl_res.
    destruct (Z.ltb_spec (u32 (real_size h a - sizeof_tag)) 256) as [|Hge]; [by exists MINEXP|].
    pose proof (log2_list (u32 (real_size h a - sizeof_tag)) ltac:(unfold u32 in *; lia)).
    exists (Z.log2 (u32 (real_size h a - sizeof_tag))). unfold MINEXP, MAXEXP.
    rewrite (proj2 (Z.ltb_ge _ _)) by lia. split_and!; [done..|lia|lia]. }
  destruct E as (i & -> & <- & Hi). simpl_res.
  rewrite (proj2 (Z.leb_le _ _)), (proj2 (Z.ltb_lt _ _)) by lia. simpl_res.
  eexists. split; [reflexivity|].
  cbn [l_freePages set_index]. destruct (Z.eqb_spec (l_freePages h i) 0); cbn [negb].
  all: split; [|done].
  all: split; [intros x; crunch|intros x; crunch|intros x; crunch|intros k; crunch|done].
Qed.

(** Linking an unlinked tag to the front of a list. *)
Lemma inserted_inv h L a i h' :
  lists_inv h L → a ∈ L → index h a = -1 → MINEXP ≤ i < MAXEXP → inserted h a i h' →
  lists_inv h' L.
Proof.
  intros Hi Ha Hia Hir [Rn Rp Rx Rf _].
  assert (Hpos : ∀ b, b ∈ L → b ≠ 0) by (intros b Hb ->; by apply (inv_zero _ _ Hi)).
  assert (Hlk := λ b, list_links h L a b Hi Ha).
  destruct Hi as [I0 I6 I7 I8 I9 I10 I11].
  destruct (I7 a Ha Hia) as [Hna Hpa].
  set (f := l_freePages h i) in *.
  assert (Hf : f ≠ 0 → f ∈ L ∧ index h f = i ∧ prev h f = 0 ∧ f ≠ a).
  { intros Hf. destruct (I11 i) as (? & ? & ?); [unfold MINEXP in *; lia|done|].
    split_and!; try done. intros E. fold f in H0. rewrite E, Hia in H0. unfold MINEXP in *. lia. }
  split; [done|..].
  - intros b Hb. rewrite Rx. dcase; [right; lia|by apply I6].
  - intros b Hb. rewrite Rx, Rn, Rp. pose proof (I7 b Hb) as Hb7.
    dcase; intros Hx; try tauto; [unfold MINEXP in *; lia..|].
    destruct a0 as [-> Hf0]. destruct Hf as (? & ? & ? & ?); [done|].
    unfold MINEXP in *; lia.
  - intros b Hb. pose proof (I8 b Hb) as Hb8. pose proof (Hlk b Hb) as Hlb.
    rewrite !Rn. dcase; intros Hx; rewrite Rp, !Rx.
    + destruct a0 as [-> Hf0]. destruct Hf as (? & ? & ? & ?); [done|].
      dcase; intuition congruence.
    + destruct Hb8 as (? & ? & ?); [done|]. specialize (Hlk (next h b)).
      dcase; intuition congruence.
  - intros b Hb. pose proof (I9 b Hb) as Hb9. pose proof (Hlk b Hb) as Hlb.
    rewrite !Rp. dcase; intros Hx; rewrite Rn, !Rx.
    + destruct a0 as [-> Hf0]. destruct Hf as (? & ? & ? & ?); [done|].
      dcase; intuition congruence.
    + destruct Hb9 as (? & ? & ?); [done|]. specialize (Hlk (prev h b)).
      dcase; intuition congruence.
  - intros b Hb. pose proof (I10 b Hb) as Hb10.
    pose proof (Hpos a Ha). pose proof (Hpos b Hb).
    rewrite !Rx, Rp, Rf. dcase; intros Hx Hp; try done; try (intuition congruence).
    exfalso. apply n0. split; [|done]. unfold f. rewrite <- e. symmetry. auto.
  - intros k Hk. pose proof (I11 k Hk) as Hb11. rewrite Rf, Rx, Rp.
    destruct (decide (k = i)) as [->|Hk']; intros Hx.
    + split_and!; [done|dcase; congruence|].
      dcase; [|done]. destruct a0 as [E ?]. destruct Hf as (_ & _ & _ & Hne); congruence.
    + destruct Hb11 as (Hl1 & Hl2 & Hl3); [done|].
      assert (l_freePages h k ≠ a) by (intros E; rewrite E in Hl2; lia).
      assert (l_freePages h k ≠ f).
      { intros E. rewrite E in Hl2, Hx. destruct Hf as (_ & ? & _); congruence. }
      dcase; try done; tauto.
Qed.

(** The lists do not depend on anything outside the tags in use. *)
Lemma lists_inv_agree h h' L :
  lists_inv h L →
  (∀ a, a ∈ L → index h' a = index h a ∧ next h' a = next h a ∧ prev h' a = prev h a) →
  (∀ i, 0 ≤ i < MAXEXP → l_freePages h' i = l_freePages h i) → lists_inv h' L.
Proof.
  intros [I0 I6 I7 I8 I9 I10 I11] Ha Hf.
  split; [done|..]; intros a Hin; (try rewrite Hf by done);
    try (destruct (Ha a Hin) as (Ei & En & Ep); rewrite ?Ei, ?En, ?Ep; clear Ei En Ep).
  - by apply I6.
  - by apply I7.
  - intros Hx. destruct (I8 a Hin Hx) as (Hn & ? & ?).
    destruct (Ha _ Hn) as (-> & _ & ->). done.
  - intros Hx. destruct (I9 a Hin Hx) as (Hn & ? & ?).
    destruct (Ha _ Hn) as (-> & -> & _). done.
  - intros Hx Hp. destruct (I6 a Hin) as [|]; [done|]. rewrite Hf by (unfold MINEXP in *; lia).
    by apply I10.
  - intros Hx. destruct (I11 a Hin Hx) as (Hn & ? & ?).
    destruct (Ha _ Hn) as (-> & _ & ->). done.
Qed.

(** A tag in no list joins or leaves the tags in use. *)
Lemma lists_inv_add h L a :
  lists_inv h L → a ≠ 0 → index h a = -1 → next h a = 0 → prev h a = 0 →
  lists_inv h ({[a]} ∪ L).
Proof.
  intros [I0 I6 I7 I8 I9 I10 I11] Ha Hi Hn Hp.
  split; [set_solver|..]; intros b Hb;
    try (apply elem_of_union in Hb as [->%elem_of_singleton|Hb]); auto; try congruence.
  - intros Hx. destruct (I8 b Hb Hx) as (? & ? & ?). set_solver.
  - intros Hx. destruct (I9 b Hb Hx) as (? & ? & ?). set_solver.
  - intros Hx. destruct (I11 b Hb Hx) as (? & ? & ?). set_solver.
Qed.

Lemma lists_inv_remove h L a :
  lists_inv h L → index h a = -1 → lists_inv h (L ∖ {[a]}).
Proof.
  intros Hinv Hi. destruct (Hinv) as [I0 I6 I7 I8 I9 I10 I11].
  assert (Hu : ∀ b, b ∈ L → index h b ≠ -1 → b ∈ L ∖ {[a]}) by set_solver.
  split; [set_solver|..]; intros b Hb; try (apply elem_of_difference in Hb as [Hb Hne]); auto.
  - intros Hx. destruct (I8 b Hb Hx) as (? & ? & E). split_and!; try done.
    apply Hu; [done|]. intros E2. destruct (I7 b Hb); [congruence|done].
  - intros Hx. destruct (I9 b Hb Hx) as (? & ? & E). split_and!; try done.
    apply Hu; [done|]. intros E2. destruct (I7 b Hb); [congruence|done].
  - intros Hx. destruct (I11 b Hb Hx) as (? & E & ?). split_and!; try done.
    apply Hu; [done|]. lia.
Qed.

(** [path h tag l]: following [prev] from [tag] visits [l] and ends. *)
Fixpoint path (h : heap) (tag : Z) (l : list Z) : Prop :=
  match l with
  | [] => prev h tag = 0
  | x :: l => x ≠ 0 ∧ prev h tag = x ∧ path h x l
  end.

Lemma path_unique h tag l1 l2 : path h tag l1 → path h tag l2 → l1 = l2.
Proof.
  revert tag l2. induction l1 as [|x l1 IH]; intros tag [|y l2]; cbn; try (intuition congruence).
  intros (? & ? & H1) (? & ? & H2). assert (x = y) as -> by congruence. f_equal. eauto.
Qed.

Lemma path_fresh h tag l : path h tag l → tag ∉ l.
Proof.
  intros Hp Hin. assert (∃ l2, path h tag l2 ∧ (length l2 < length l)%nat) as (l2 & H2 & Hlt).
  { clear -Hp Hin. revert Hp. generalize tag at 1. induction l as [|x l IH]; [set_solver|].
    intros t (Hx & _ & Hp). apply elem_of_cons in Hin as [->|Hin].
    - exists l. split; [done|cbn; lia].
    - destruct (IH Hin x Hp) as (l2 & ? & ?). exists l2. split; [done|cbn; lia]. }
  pose proof (path_unique _ _ _ _ Hp H2). subst. lia.
Qed.

(** The search ends, with no tag or with a large enough one of the list. *)
Lemma find_tag_path fuel h L sz i tag l :
  lists_inv h L → path h tag l → NoDup l → (∀ x, x ∈ l → x ∈ L) →
  (tag = 0 ∨ tag ∈ L ∧ index h tag = i) → (base.size L < fuel + length l)%nat →
  ∃ r, find_tag fuel h tag sz = Ok r ∧
    (r = 0 ∨ r ∈ L ∧ index h r = i ∧ u64 (sz + sizeof_tag) ≤ u64 (real_size h r - sizeof_tag)).
Proof.
  intros Hinv. revert tag l.
  induction fuel as [|fuel IH]; intros tag l Hp Hnd Hsub Htag Hf.
  - exfalso. assert (Hs : (base.size (list_to_set l : gset Z) ≤ base.size L)%nat).
    { apply subseteq_size. intros x Hx. apply Hsub. set_solver. }
    rewrite size_list_to_set in Hs by done. lia.
  - unfold find_tag. cbn [iter]. destruct (Z.eqb_spec tag 0); simpl_res; [by eauto|].
    destruct Htag as [|[Ht Hi]]; [done|].
    destruct (Z.leb_spec (u64 (sz + sizeof_tag)) (u64 (real_size h tag - sizeof_tag)));
      simpl_res; [by eauto 10|].
    destruct (decide (next h tag = 0)) as [E|E].
    + exists 0. split; [|by left]. destruct fuel as [|fuel].
      * exfalso. pose proof (path_fresh _ _ _ Hp).
        assert (Hs : (base.size (list_to_set (tag :: l) : gset Z) ≤ base.size L)%nat).
        { apply subseteq_size. intros x Hx. set_solver. }
        rewrite size_list_to_set in Hs by (by constructor). cbn in Hs. lia.
      * cbn [iter]. by rewrite E.
    + destruct (inv_next _ _ Hinv tag Ht E) as (Hn & Hpn & Hin).
      apply (IH (next h tag) (tag :: l)).
      * cbn. done.
      * constructor; [by apply (path_fresh h)|done].
      * set_solver.
      * right. split; [done|congruence].
      * cbn. lia.
Qed.

Lemma find_tag_spec fuel h L sz i :
  lists_inv h L → MINEXP ≤ i < MAXEXP → (base.size L < fuel)%nat →
  ∃ r, find_tag fuel h (l_freePages h i) sz = Ok r ∧
    (r = 0 ∨ r ∈ L ∧ index h r = i ∧ u64 (sz + sizeof_tag) ≤ u64 (real_size h r - sizeof_tag)).
Proof.
  intros Hinv Hi Hf. destruct (decide (l_freePages h i = 0)) as [E|E].
  - exists 0. split; [|by left]. rewrite E. destruct fuel; [lia|done].
  - destruct (inv_lists _ _ Hinv i) as (? & ? & ?); [unfold MINEXP in *; lia|done|].
    apply (find_tag_path fuel h L sz i _ []); try done; [by constructor|set_solver|by right|cbn; lia].
Qed.

End lists.

(** *** The blocks *)

Section blocks.
Context {P : Type} `{PageSource P}.
Implicit Types (ps : P) (h : heap) (L : gset Z).

Lemma blocks_inv_same ps h h' L : blocks_inv ps h L → same_blocks h h' → blocks_inv ps h' L.
Proof.
  intros [B1 B2 B3 B4 B5 B6 B7 B8] (Em & Er & El & Es).
  split; unfold in_region in *; rewrite ?Em, ?Er, ?El, ?Es; done.
Qed.

(** The block of [b], to the right of [a], becomes part of the block of [a]. *)
Record merged h a b h' : Prop := Merged {
  mg_size : ∀ x, real_size h' x =
    if decide (x = a) then real_size h a + real_size h b else real_size h x;
  mg_right : ∀ x, split_right h' x = if decide (x = a) then split_right h b else split_right h x;
  mg_left : ∀ x, split_left h' x =
    if decide (x = split_right h b ∧ x ≠ 0) then a else split_left h x;
  mg_magic : magic h' = magic h
}.

Lemma melt_left_spec h a b :
  split_left h b = a → a ≠ b → split_right h b ≠ a →
  0 ≤ real_size h a + real_size h b < 2 ^ 32 →
  ∃ h', melt_left h b = (a, h') ∧ merged h a b h' ∧ same_lists h h'.
Proof.
  intros El Hab Hr Hs. unfold melt_left. rewrite El. eexists. split; [reflexivity|].
  unfold u32. rewrite wrap_small by done. cbn. rewrite fupd_ne by done.
  destruct (Z.eqb_spec (split_right h b) 0); cbn [negb];
    (split; [|done]; split; [intros x; crunch|intros x; crunch|intros x; crunch|done]).
Qed.

(** The region of a block is the region of its right neighbour. *)
Lemma neighbour_region ps h L a :
  blocks_inv ps h L → a ∈ L → split_right h a ≠ 0 →
  ∃ p n, in_region ps h a p n ∧ in_region ps h (split_right h a) p n ∧
    (split_left h a = 0 → a = p) ∧
    (split_right h (split_right h a) = 0 → split_right h a + real_size h (split_right h a) = p + n) ∧
    (split_right h (split_right h a) ≠ 0 → in_region ps h (split_right h (split_right h a)) p n).
Proof.
  intros Hi Ha Hr. destruct (inv_right _ _ _ Hi a Ha Hr) as (Hb & _ & _).
  destruct (inv_region _ _ _ Hi a Ha) as (p & n & Hp & Hl & _ & Hrr).
  destruct (inv_region _ _ _ Hi _ Hb) as (q & m & Hq & _ & He & Hrrr).
  specialize (Hrr Hr). destruct Hrr as (R1 & R2 & R3), Hq as (Q1 & Q2 & Q3).
  destruct (inv_block _ _ _ Hi _ Hb) as (_ & Hs & _). unfold sizeof_tag in Hs.
  destruct (decide (p = q)) as [<-|Hpq].
  - assert (n = m) as <- by congruence. exists p, n. done.
  - destruct (inv_regions_disjoint _ _ _ Hi p n q m) as [|]; try done; lia.
Qed.

Lemma neighbour_bound ps h L a :
  blocks_inv ps h L → a ∈ L → split_right h a ≠ 0 →
  0 < real_size h a + real_size h (split_right h a) < 2 ^ 31 ∧
  0 < a ∧ split_right h a = a + real_size h a ∧ 0 < real_size h a ∧ 0 < real_size h (split_right h a).
Proof.
  intros Hi Ha Hr. destruct (inv_right _ _ _ Hi a Ha Hr) as (Hb & E & _).
  destruct (neighbour_region _ _ _ _ Hi Ha Hr) as (p & n & (Hp & ? & ?) & (? & ? & ?) & _).
  destruct (inv_regions _ _ _ Hi _ _ Hp).
  destruct (inv_block _ _ _ Hi _ Ha) as (? & ? & _).
  destruct (inv_block _ _ _ Hi _ Hb) as (? & ? & _). unfold sizeof_tag in *. lia.
Qed.

Lemma merged_blocks ps h L a h' :
  blocks_inv ps h L → a ∈ L → split_right h a ≠ 0 → merged h a (split_right h a) h' →
  blocks_inv ps h' (L ∖ {[split_right h a]}).
Proof.
  intros Hi Ha Hr [Ms Mr Ml Mm].
  pose proof (neighbour_region _ _ _ _ Hi Ha Hr) as (p & n & Hp & Hq & Hl0 & Hr0 & Hrr).
  pose proof (neighbour_bound _ _ _ _ Hi Ha Hr) as (Hbd & Ha0 & Eb & Hsa & Hsb).
  pose proof (inv_right _ _ _ Hi a Ha Hr) as (Hb & _ & Hlb).
  set (b := split_right h a) in *.
  destruct (inv_block _ _ _ Hi _ Ha) as (_ & Hsa' & _).
  assert (Hab : a ≠ b) by lia.
  destruct (Hi) as [B1 B2 B3 B4 B5 B6 B7 B8].
  assert (Hrb : split_right h b ≠ 0 → split_right h b ∈ L ∧ split_right h b = b + real_size h b ∧
            split_left h (split_right h b) = b) by auto.
  split; try done.
  - intros x [Hx _]%elem_of_difference. rewrite Ms, Mm. destruct (B1 x Hx) as (? & ? & ?).
    dcase; split_and!; try done; lia.
  - intros x y [Hx Hxb]%elem_of_difference [Hy Hyb]%elem_of_difference Hxy. rewrite !Ms.
    assert (x ≠ b) by set_solver. assert (y ≠ b) by set_solver.
    pose proof (B2 x y Hx Hy Hxy). pose proof (B2 b y Hb Hy ltac:(done)).
    pose proof (B2 b x Hb Hx ltac:(done)).
    pose proof (B1 x Hx) as (? & ? & _). pose proof (B1 y Hy) as (? & ? & _).
    unfold sizeof_tag in *. dcase; (try rewrite e in * ); (try rewrite e0 in * ); lia.
  - intros x [Hx Hxb]%elem_of_difference. assert (x ≠ b) by set_solver.
    unfold in_region in *. rewrite !Ms, Mr, Ml.
    destruct (decide (x = a)) as [->|Hxa].
    + exists p, n. destruct Hp as (? & ? & ?), Hq as (? & ? & ?).
      split_and!; [done|done|lia|..].
      * dcase; [|done]. intros ->. done.
      * intros Hz. specialize (Hr0 Hz). lia.
      * intros Hz. destruct (Hrb Hz) as (? & ? & ?). specialize (Hrr Hz).
        dcase; [lia|done].
    + destruct (B3 x Hx) as (q & m & (? & ? & ?) & Hql & Hqr & Hqrr). exists q, m.
      assert (split_right h x ≠ b).
      { intros E. destruct (B6 x Hx) as (_ & _ & E2); [congruence|]. congruence. }
      split_and!; try done.
      * dcase; [|done]. intros ->. lia.
      * intros Hz. specialize (Hqrr Hz). dcase; [|done]. rewrite e in *.
        destruct Hp as (? & ? & ?), Hq as (? & ? & ?), Hqrr as (? & ? & ?).
        destruct (decide (p = q)) as [->|Hpq]; [|destruct (B5 p n q m); try done; lia].
        assert (n = m) as -> by congruence. split_and!; try done. lia.
  - intros x [Hx Hxb]%elem_of_difference. assert (x ≠ b) by set_solver.
    rewrite !Mr, !Ms, !Ml. destruct (decide (x = a)) as [->|Hxa]; intros Hz.
    + destruct (Hrb Hz) as (Hc & ? & ?). destruct (B1 _ Hc) as (_ & ? & _).
      destruct (B1 b Hb) as (_ & ? & _).
      split_and!; [set_solver by lia|lia|dcase; [done|tauto]].
    + destruct (B6 x Hx Hz) as (Hc & ? & Hlc).
      split_and!; [|done|].
      * apply elem_of_difference. split; [done|]. intros E%elem_of_singleton. congruence.
      * dcase; [|done]. destruct a0 as [E ?]. rewrite E in *.
        destruct (Hrb) as (_ & _ & ?); [done|]. congruence.
  - intros x [Hx Hxb]%elem_of_difference. assert (x ≠ b) by set_solver.
    rewrite !Ml. dcase; intros Hz.
    + split; [set_solver|]. rewrite Mr. dcase; intuition congruence.
    + destruct (B7 x Hx Hz) as (Hc & E). split.
      * apply elem_of_difference. split; [done|]. intros E2%elem_of_singleton.
        rewrite E2 in E. apply n0. split; [done|].
        intros ->. destruct (B1 0 Hx). lia.
      * rewrite Mr. dcase; [|done]. rewrite e in E. fold b in E. congruence.
  - intros q m Hqm. apply elem_of_difference. split; [by eapply B8|]. intros ->%elem_of_singleton.
    destruct Hp as (Hp & ? & ?), Hq as (_ & ? & ?). destruct (B4 _ _ Hqm).
    destruct (B5 p n b m); try done; lia.
Qed.
(** Merging two neighbours of which one, [x], is unlinked from its list. *)
Lemma merge_inv ps h L a x h' :
  heap_inv ps h L → a ∈ L → split_right h a ≠ 0 →
  merged h a (split_right h a) h' → removed h x h' → index h x ≠ -1 →
  (x = a ∧ index h (split_right h a) = -1) ∨ (x = split_right h a ∧ index h a = -1) →
  heap_inv ps h' (L ∖ {[split_right h a]}) ∧ index h' a = -1 ∧
  ∀ p n, p - sizeof_tag ≠ a → p - sizeof_tag ≠ split_right h a →
    live h' (L ∖ {[split_right h a]}) p n ↔ live h L p n.
Proof.
  intros [Hb Hl Hc Hi] Ha Hr Hm Hrm Hx Hcase.
  destruct (inv_right _ _ _ Hb a Ha Hr) as (Hbl & _ & _).
  assert (HxL : x ∈ L) by (destruct Hcase as [[-> _]|[-> _]]; done).
  pose proof Hrm as [_ _ Rx _ Ri]. pose proof Hm as [Ms Mr _ _].
  assert (Hia : index h' a = -1) by (rewrite Rx; dcase; [done|]; intuition congruence).
  split_and!; [split|done|].
  - by apply merged_blocks.
  - apply lists_inv_remove; [by eapply removed_inv|]. rewrite Rx. dcase; intuition congruence.
  - intros y [Hy Hyb]%elem_of_difference. rewrite Mr, !Rx.
    dcase; try done; intros Hyi Hz; [|by apply Hc].
    destruct Hcase as [[? _]|[_ ?]]; congruence.
  - rewrite Ri. intros E. set_solver.
  - intros p n Hpa Hpb. unfold live. rewrite Rx, Ms. dcase; try done.
    + subst. destruct Hcase as [[E _]|[E _]]; congruence.
    + set_solver.
Qed.
Lemma right_addr ps h L a :
  blocks_inv ps h L → a ∈ L → split_right h a = 0 ∨ split_right h a = a + real_size h a.
Proof.
  intros Hb Ha. destruct (decide (split_right h a = 0)) as [|Hz]; [by left|right].
  by destruct (inv_right _ _ _ Hb a Ha Hz) as (_ & ? & _).
Qed.

Lemma merged_same h1 h2 h3 a b :
  merged h1 a b h2 → same_blocks h2 h3 → merged h1 a b h3.
Proof. intros [] (Em & Er & El & Es). split; rewrite ?Em, ?Er, ?El, ?Es; done. Qed.

Lemma merged_before h1 h2 h3 a b :
  same_blocks h1 h2 → merged h2 a b h3 → merged h1 a b h3.
Proof. intros (Em & Er & El & Es) [M1 M2 M3 M4]. split; rewrite <- ?Em, <- ?Er, <- ?El, <- ?Es; done. Qed.

Lemma removed_same h1 h2 h3 a :
  removed h1 a h2 → same_lists h2 h3 → removed h1 a h3.
Proof. intros [] (Ei & En & Ep & Ef & El). split; rewrite ?Ei, ?En, ?Ep, ?Ef, ?El; done. Qed.

Lemma removed_before h1 h2 h3 a :
  same_lists h1 h2 → removed h2 a h3 → removed h1 a h3.
Proof.
  intros (Ei & En & Ep & Ef & El) []. split; rewrite <- ?Ei, <- ?En, <- ?Ep, <- ?Ef, <- ?El; done.
Qed.

(** The live blocks other than the one at tag [a] are those of the heap before
    other than the one at tag [t]. *)
Definition others h L t h' L' a : Prop :=
  ∀ p n, (live h' L' p n ∧ p - sizeof_tag ≠ a) ↔ (live h L p n ∧ p - sizeof_tag ≠ t).

(** One round of [absorb_right] on an unlinked tag. *)
Lemma absorb_step ps h L a :
  heap_inv ps h L → a ∈ L → index h a = -1 → split_right h a ≠ 0 →
  index h (split_right h a) ≠ -1 →
  ∃ h', absorb_right h a = Ok (a, h') ∧ heap_inv ps h' (L ∖ {[split_right h a]}) ∧
    a ∈ L ∖ {[split_right h a]} ∧ index h' a = -1 ∧
    (split_right h' a ≠ 0 → index h' (split_right h' a) = -1) ∧
    ((split_left h a ≠ 0 → index h (split_left h a) = -1) →
     (split_left h' a ≠ 0 → index h' (split_left h' a) = -1)) ∧
    others h L a h' (L ∖ {[split_right h a]}) a.
Proof.
  intros Hi Ha Hia Hr Hx. pose proof Hi as [Hb Hl Hc _].
  destruct (inv_right _ _ _ Hb a Ha Hr) as (Hbl & Eb & Elb).
  pose proof (neighbour_bound _ _ _ _ Hb Ha Hr) as (Hbd & ? & _ & ? & ?).
  set (b := split_right h a) in *.
  destruct (inv_index _ _ Hl b Hbl) as [|Hib]; [done|].
  destruct (remove_tag_spec h b) as (h1 & E1 & Hrm & Hsb & _); [unfold MINEXP in *; lia|].
  pose proof (right_addr _ _ _ _ Hb Hbl) as Hrb.
  assert (Hm : ∃ h', absorb_right h a = Ok (a, h') ∧ merged h a b h' ∧ same_lists h1 h').
  { unfold absorb_right. fold b. rewrite E1. simpl_res. eexists. split; [reflexivity|].
    destruct Hsb as (Em & Er & El & Es). unfold u32. clearbody b. cbn.
    rewrite Er, Es, wrap_small by lia. rewrite fupd_ne by lia.
    destruct (Z.eqb_spec (split_right h b) 0); cbn [negb]; (split; [|done]; split); cbn;
      rewrite ?Er, ?Es, ?El, ?Em; try intros x; crunch. }
  destruct Hm as (h' & E & Hm & Hs). exists h'.
  pose proof (removed_same _ _ _ _ Hrm Hs) as Hrm'.
  destruct (merge_inv ps h L a b h') as (Hi' & Hia' & Hlive); try done; [by right|].
  fold b in Hlive, Hi'. split; [done|]. split; [done|]. pose proof Hrm' as [_ _ Rx _ _]. pose proof Hm as [_ Mr Ml _].
  split_and!.
  - apply elem_of_difference. split; [done|]. intros ?%elem_of_singleton. lia.
  - done.
  - rewrite Mr. dcase; [|done]. intros Hz. rewrite Rx. dcase; [done|]. by apply Hc.
  - intros Hleft. rewrite Ml. dcase; [lia|]. intros Hz. rewrite Rx. dcase; [done|auto].
  - intros p n. destruct (decide (p - sizeof_tag = b)) as [Ep|Hp].
    + unfold live. rewrite Ep. set_solver.
    + destruct (decide (p - sizeof_tag = a)) as [|Hpa]; [tauto|]. by rewrite Hlive.
Qed.

(** One round of the loop around [melt_left]. *)
Lemma melt_step ps h L t :
  heap_inv ps h L → t ∈ L → index h t = -1 → split_left h t ≠ 0 →
  index h (split_left h t) ≠ -1 →
  ∃ h1 h', melt_left h t = (split_left h t, h1) ∧ remove_tag h1 (split_left h t) = Ok h' ∧
    heap_inv ps h' (L ∖ {[t]}) ∧ split_left h t ∈ L ∖ {[t]} ∧ index h' (split_left h t) = -1 ∧
    (split_left h' (split_left h t) ≠ 0 →
     index h' (split_left h' (split_left h t)) = -1) ∧
    others h L t h' (L ∖ {[t]}) (split_left h t).
Proof.
  intros Hi Ht Hit Hlt Hx. pose proof Hi as [Hb Hl Hc _].
  destruct (inv_left _ _ _ Hb t Ht Hlt) as (Ha & Er).
  set (a := split_left h t) in *.
  assert (Hra : split_right h a ≠ 0) by (rewrite Er; intros ->; by apply (inv_zero _ _ Hl)).
  pose proof (neighbour_bound _ _ _ _ Hb Ha Hra) as (Hbd & ? & ? & ? & ?). rewrite Er in *.
  pose proof (right_addr _ _ _ _ Hb Ht) as Hrt.
  destruct (melt_left_spec h a t) as (h1 & E1 & Hm & Hs); [done|lia|lia|lia|].
  destruct (inv_index _ _ Hl a Ha) as [|Hia]; [done|].
  destruct (remove_tag_spec h1 a) as (h' & E2 & Hrm & Hsb & _).
  { destruct Hs as (-> & _). unfold MINEXP in *. lia. }
  exists h1, h'. split; [done|]. split; [done|].
  pose proof (merged_same _ _ _ _ _ Hm Hsb) as Hm'.
  pose proof (removed_before _ _ _ _ Hs Hrm) as Hrm'.
  destruct (merge_inv ps h L a a h') as (Hi' & Hia' & Hlive);
    rewrite ?Er in *; try done; [by left|].
  pose proof Hrm' as [_ _ Rx _ _]. pose proof Hm' as [_ Mr Ml _]. split_and!; try done.
  - apply elem_of_difference. split; [done|]. intros ?%elem_of_singleton. lia.
  - rewrite Ml. dcase; [lia|]. intros Hz. rewrite Rx. dcase; [done|].
    destruct (inv_left _ _ _ Hb a Ha Hz) as (Hc1 & Hc2).
    destruct (decide (index h (split_left h a) = -1)) as [|Hne]; [done|].
    specialize (Hc _ Hc1 Hne). rewrite Hc2 in Hc. tauto.
  - intros p n. destruct (decide (p - sizeof_tag = t)) as [Ep|Hp].
    + unfold live. rewrite Ep. set_solver.
    + destruct (decide (p - sizeof_tag = a)) as [Ep|Hpa]; [|rewrite Hlive by done; tauto].
      unfold live. rewrite Ep. tauto.
Qed.
Lemma others_trans h1 L1 t1 h2 L2 t2 h3 L3 t3 :
  others h1 L1 t1 h2 L2 t2 → others h2 L2 t2 h3 L3 t3 → others h1 L1 t1 h3 L3 t3.
Proof. intros H1 H2 p n. rewrite (H2 p n). apply H1. Qed.

(** Both loops of [free] end after at most one round. *)
Lemma melt_loop_spec ps h L t fuel :
  heap_inv ps h L → t ∈ L → index h t = -1 → (2 ≤ fuel)%nat →
  ∃ a h' L', melt_loop fuel h t = Ok (a, h') ∧ heap_inv ps h' L' ∧ a ∈ L' ∧ index h' a = -1 ∧
    (split_left h' a ≠ 0 → index h' (split_left h' a) = -1) ∧ others h L t h' L' a ∧ L' ⊆ L.
Proof.
  intros Hi Ht Hit Hf. destruct fuel as [|[|fuel]]; [lia..|]. unfold melt_loop.
  assert (Hdone : ∀ a h' n, index h' (split_left h' a) = -1 ∨ split_left h' a = 0 →
    iter (S n) (λ '(tag, h),
      if negb (split_left h tag =? 0) && (0 <=? index h (split_left h tag)) then
        let '(tag, h) := melt_left h tag in
        h ← remove_tag h tag;
        Ok (Next (tag, h))
      else Ok (Done (tag, h))) (a, h') = Ok (a, h')).
  { intros a h' n [E|E]; cbn [iter]; rewrite E; [|done]. by rewrite andb_false_r. }
  destruct (decide (split_left h t ≠ 0 ∧ index h (split_left h t) ≠ -1)) as [[Hl Hx]|Hno].
  - destruct (melt_step ps h L t) as (h1 & h' & E1 & E2 & Hi' & Ha & Hia & Hleft & Ho); try done.
    exists (split_left h t), h', (L ∖ {[t]}). split; [|by split_and!; try done; set_solver].
    destruct (inv_left _ _ _ (inv_blocks _ _ _ Hi) t Ht Hl) as (HaL & _).
    destruct (inv_index _ _ (inv_free_lists _ _ _ Hi) _ HaL) as [|Hix]; [done|].
    cbn [iter]. rewrite (proj2 (Z.eqb_neq _ _)), (proj2 (Z.leb_le _ _)) by
      (unfold MINEXP in *; done || lia).
    cbn [negb andb]. rewrite E1, E2. simpl_res. apply Hdone.
    destruct (decide (split_left h' (split_left h t) = 0)); auto.
  - exists t, h, L. split; [|split_and!; try done].
    + apply Hdone. destruct (decide (split_left h t = 0)); [by right|left].
      destruct (decide (index h (split_left h t) = -1)); tauto.
    + intros Hl. destruct (decide (index h (split_left h t) = -1)); tauto.
Qed.

Lemma absorb_loop_spec ps h L t fuel :
  heap_inv ps h L → t ∈ L → index h t = -1 → (2 ≤ fuel)%nat →
  (split_left h t ≠ 0 → index h (split_left h t) = -1) →
  ∃ h' L', absorb_loop fuel h t = Ok (t, h') ∧ heap_inv ps h' L' ∧ t ∈ L' ∧ index h' t = -1 ∧
    (split_left h' t ≠ 0 → index h' (split_left h' t) = -1) ∧
    (split_right h' t ≠ 0 → index h' (split_right h' t) = -1) ∧ others h L t h' L' t ∧ L' ⊆ L.
Proof.
  intros Hi Ht Hit Hf Hleft. destruct fuel as [|[|fuel]]; [lia..|]. unfold absorb_loop.
  assert (Hdone : ∀ h' n, index h' (split_right h' t) = -1 ∨ split_right h' t = 0 →
    iter (S n) (λ '(tag, h),
      if negb (split_right h tag =? 0) && (0 <=? index h (split_right h tag)) then
        r ← absorb_right h tag; Ok (Next r)
      else Ok (Done (tag, h))) (t, h') = Ok (t, h')).
  { intros h' n [E|E]; cbn [iter]; rewrite E; [|done]. by rewrite andb_false_r. }
  destruct (decide (split_right h t ≠ 0 ∧ index h (split_right h t) ≠ -1)) as [[Hr Hx]|Hno].
  - destruct (absorb_step ps h L t) as (h' & E1 & Hi' & Ha & Hia & Hright & Hl & Ho); try done.
    exists h', (L ∖ {[split_right h t]}). split; [|split_and!; auto; set_solver].
    destruct (inv_right _ _ _ (inv_blocks _ _ _ Hi) t Ht Hr) as (HaL & _ & _).
    destruct (inv_index _ _ (inv_free_lists _ _ _ Hi) _ HaL) as [|Hix]; [done|].
    cbn [iter]. rewrite (proj2 (Z.eqb_neq _ _)), (proj2 (Z.leb_le _ _)) by
      (unfold MINEXP in *; done || lia).
    cbn [negb andb]. rewrite E1. simpl_res. apply Hdone.
    destruct (decide (split_right h' t = 0)); auto.
  - exists h, L. split; [|split_and!; try done].
    + apply Hdone. destruct (decide (split_right h t = 0)); [by right|left].
      destruct (decide (index h (split_right h t) = -1)); tauto.
    + intros Hr. destruct (decide (index h (split_right h t) = -1)); tauto.
Qed.

(** Putting a block with used neighbours into a free list. *)
Lemma insert_inv ps h L a i h' :
  heap_inv ps h L → a ∈ L → index h a = -1 → MINEXP ≤ i < MAXEXP →
  (split_left h a ≠ 0 → index h (split_left h a) = -1) →
  (split_right h a ≠ 0 → index h (split_right h a) = -1) →
  inserted h a i h' → same_blocks h h' →
  heap_inv ps h' L ∧ ∀ p n, live h' L p n ↔ live h L p n ∧ p - sizeof_tag ≠ a.
Proof.
  intros [Hb Hl Hc Hi] Ha Hia Hir Hleft Hright Hins Hs.
  pose proof Hins as [_ _ Rx _ Ri]. split; [split|].
  - by eapply blocks_inv_same.
  - by eapply inserted_inv.
  - destruct Hs as (_ & _ & _ & Es). intros y Hy. rewrite Es, !Rx.
    destruct (decide (y = a)) as [->|Hya]; intros Hyi Hz;
      destruct (inv_right _ _ _ Hb _ Hy Hz) as (_ & _ & El).
    { dcase; [|by apply Hright].
      destruct (neighbour_bound _ _ _ _ Hb Ha Hz) as (_ & ? & ? & ? & _). lia. }
    destruct (decide (split_right h y = a)) as [E|E]; [|by apply Hc].
    exfalso. rewrite E in El. apply Hyi. rewrite <- El. apply Hleft. rewrite El.
    intros ->. by apply (inv_zero _ _ Hl).
  - rewrite Ri. done.
  - intros p n. destruct Hs as (_ & Es & _). unfold live. rewrite Rx, Es. dcase; [|tauto].
    unfold MINEXP in *. intuition lia.
Qed.
(** Giving a region back. *)
Lemma release_inv ps h L a :
  heap_inv ps h L → a ∈ L → index h a = -1 → split_left h a = 0 → split_right h a = 0 →
  let pages := real_size h a / l_pageSize in
  real_size h a mod l_pageSize = 0 ∧ l_pageCount ≤ pages ∧
  heap_inv (liballoc_free ps a pages) h (L ∖ {[a]}).
Proof.
  intros [Hb Hl Hc Hi] Ha Hia Hla Hra pages. pose proof Hb as [B1 B2 B3 B4 B5 B6 B7 B8].
  destruct (B3 a Ha) as (p & n & (Hp & Hle & _) & Hp0 & Hn & _).
  specialize (Hp0 Hla). subst p. specialize (Hn Hra).
  assert (En : real_size h a = n) by lia. destruct (B4 a n Hp) as [Hmod Hrange].
  unfold pages, l_pageSize, l_pageCount. rewrite En. split; [done|]. split; [apply Z.div_le_lower_bound; lia|].
  assert (En2 : 4096 * (n / 4096) = n) by (pose proof (Z.div_mod n 4096); lia).
  assert (Er : regions (liballoc_free ps a (n / 4096)) = delete a (regions ps)).
  { apply free_region. by rewrite En2. }
  assert (Hreg : ∀ q m, regions (liballoc_free ps a (n / 4096)) !! q = Some m → regions ps !! q = Some m).
  { intros q m. rewrite Er. by intros [_ ?]%lookup_delete_Some. }
  split; [split| | |].
  - set_solver.
  - set_solver.
  - intros x [Hx Hxa]%elem_of_difference.
    destruct (B3 x Hx) as (q & m & (Hq & Hq1 & Hq2) & Hq3 & Hq4 & Hq5). exists q, m.
    assert (q ≠ a).
    { intros ->. assert (m = n) as -> by congruence. destruct (B1 x Hx) as (_ & Hs & _).
      unfold sizeof_tag in *. destruct (B2 x a Hx Ha); [set_solver|lia..]. }
    assert (Hq' : regions (liballoc_free ps a (n / 4096)) !! q = Some m) by
      (rewrite Er; by rewrite lookup_delete_ne).
    split_and!; try done. intros Hz. specialize (Hq5 Hz) as (_ & ? & ?). done.
  - eauto.
  - eauto 10.
  - intros x [Hx Hxa]%elem_of_difference Hz. destruct (B6 x Hx Hz) as (? & ? & E).
    split; [|done]. apply elem_of_difference. split; [done|]. intros Ea%elem_of_singleton.
    rewrite Ea, Hla in E. subst x. destruct (B1 0 Hx). lia.
  - intros x [Hx Hxa]%elem_of_difference Hz. destruct (B7 x Hx Hz) as (? & E).
    split; [|done]. apply elem_of_difference. split; [done|]. intros Ea%elem_of_singleton.
    rewrite Ea, Hra in E. subst x. destruct (B1 0 Hx). lia.
  - intros q m. rewrite Er. intros [Hqa Hq]%lookup_delete_Some. apply elem_of_difference.
    split; [by eapply B8|]. by intros ->%elem_of_singleton.
  - by apply lists_inv_remove.
  - intros x [Hx _]%elem_of_difference. by apply Hc.
  - intros E. set_solver.
Qed.

(** [l_completePages] is only a counter. *)
Lemma complete_inv ps h L i v : heap_inv ps h L → heap_inv ps (set_complete h i v) L.
Proof. intros [[] [] ? ?]. split; [by split|by split|done|done]. Qed.

Lemma list_choice sz :
  ∃ e, getexp (u32 sz) = Ok e ∧
    MINEXP ≤ (if e <? MINEXP then MINEXP else e) < MAXEXP.
Proof.
  pose proof (wrap_range 32 sz ltac:(lia)) as Hr. fold u32 in Hr.
  rewrite getexp_spec by done. eexists. split; [reflexivity|].
  destruct (Z.ltb_spec (u32 sz) 256); [done|].
  pose proof (log2_list (u32 sz) ltac:(lia)). unfold MINEXP, MAXEXP. zcase; lia.
Qed.

(** Splitting the block of [a]: the tag [n] gets its last [r] bytes. *)
Record splitted h a n r h' : Prop := Splitted {
  sp_size : ∀ x, real_size h' x =
    if decide (x = n) then r else if decide (x = a) then real_size h a - r else real_size h x;
  sp_right : ∀ x, split_right h' x =
    if decide (x = a) then n else if decide (x = n) then split_right h a else split_right h x;
  sp_left : ∀ x, split_left h' x =
    if decide (x = split_right h a ∧ x ≠ 0) then n
    else if decide (x = n) then a else split_left h x;
  sp_magic : ∀ x, magic h' x = if decide (x = n) then LIBALLOC_MAGIC else magic h x;
  sp_next : ∀ x, next h' x = if decide (x = n) then 0 else next h x;
  sp_prev : ∀ x, prev h' x = if decide (x = n) then 0 else prev h x;
  sp_rest : index h' = index h ∧ l_freePages h' = l_freePages h ∧ l_initialized h' = l_initialized h ∧
    size h' = size h
}.

Lemma split_tag_spec h a n r :
  n = a + sizeof_tag + size h a → r = real_size h a - sizeof_tag - size h a →
  0 < a → 0 ≤ size h a → 0 ≤ r → real_size h a < 2 ^ 31 → split_right h a ≠ n → split_right h a ≠ a →
  ∃ h1, split_tag h a = (h2 ← insert_tag h1 n (-1); Ok (n, h2)) ∧ splitted h a n r h1.
Proof.
  intros En Er Ha Hs Hr Hlt Hrn Hra. unfold split_tag. rewrite <- En.
  replace (real_size h a - sizeof_tag - size h a) with r by done.
  unfold sizeof_tag in *. assert (u32 r = r) as -> by (apply wrap_small; lia).
  assert (a ≠ n) by lia.
  assert (Hu : u32 (real_size h a - r) = real_size h a - r) by (apply wrap_small; lia).
  eexists. split; [reflexivity|].
  assert (Hra' : split_right h a ≠ a) by done. clear En Er Hs Hr Hlt.
  split; [intros x|intros x|intros x|intros x|intros x|intros x|]; cbn; rewrite ?fupd_eq;
    rewrite ?(fupd_ne _ n _ a) by done; rewrite ?Hu;
    destruct (Z.eqb_spec (split_right h a) 0); cbn [negb]; cbn;
    rewrite ?fupd_eq; rewrite ?(fupd_ne _ n _ a) by done; rewrite ?Hu; try done; crunch.
Qed.

(** The two halves tile the block. *)
Lemma splitted_blocks ps h L a r h' :
  let n := a + real_size h a - r in
  blocks_inv ps h L → a ∈ L → sizeof_tag ≤ r → sizeof_tag ≤ real_size h a - r →
  splitted h a n r h' → (n ∉ L) ∧ blocks_inv ps h' ({[n]} ∪ L).
Proof.
  intros n Hb Ha Hr Har [Ss Sr Sl Sm _ _ _]. destruct (Hb) as [B1 B2 B3 B4 B5 B6 B7 B8].
  destruct (B3 a Ha) as (p & m & (Hp & Hpa & Hpe) & Hl0 & Hr0 & Hrr).
  destruct (B1 a Ha) as (Hpos & _ & _). pose proof (right_addr _ _ _ _ Hb Ha) as Hra.
  assert (Hrb : split_right h a ≠ 0 → split_right h a ∈ L ∧ split_right h a = a + real_size h a ∧
            split_left h (split_right h a) = a) by auto.
  assert (En : n = a + real_size h a - r) by done. clearbody n. unfold sizeof_tag in *.
  assert (Hn : n ∉ L). { intros Hn. destruct (B1 n Hn) as (_ & ? & _). destruct (B2 a n Ha Hn); lia. }
  assert (HnL : ∀ x, x ∈ L → x ≠ n) by (intros x Hx ->; done).
  assert (Hnr : n ≠ split_right h a) by (destruct Hra; lia).
  split; [done|]. split; try done.
  - intros x [->%elem_of_singleton|Hx]%elem_of_union; rewrite Ss, Sm.
    + dcase; try done. split_and!; try done; lia.
    + destruct (B1 x Hx) as (? & ? & ?). dcase; subst; split_and!; try done; lia.
  - assert (Hnew : ∀ x, x ∈ L → n + r ≤ x ∨ x + real_size h' x ≤ n).
    { intros x Hx. rewrite Ss. pose proof (HnL x Hx). dcase; try done; [lia|].
      destruct (B2 a x Ha Hx ltac:(done)); lia. }
    assert (Hsn : real_size h' n = r) by (rewrite Ss; by dcase).
    assert (Hle : ∀ x, x ∈ L → real_size h' x ≤ real_size h x).
    { intros x Hx. rewrite Ss. pose proof (HnL x Hx). dcase; subst; try done; lia. }
    intros x y [->%elem_of_singleton|Hx]%elem_of_union [->%elem_of_singleton|Hy]%elem_of_union Hxy;
      rewrite ?Hsn; [done|by apply Hnew|destruct (Hnew x Hx); auto|].
    pose proof (Hle x Hx). pose proof (Hle y Hy). destruct (B2 x y Hx Hy Hxy); lia.
  - assert (Hin : ∀ x q k, x ∈ L → in_region ps h x q k → in_region ps h' x q k).
    { intros x q k Hx (? & ? & ?). pose proof (HnL x Hx). unfold in_region. rewrite Ss.
      dcase; subst; try done; split_and!; try done; lia. }
    assert (Hinn : in_region ps h' n p m).
    { unfold in_region. rewrite Ss. dcase; try done. split_and!; [done|lia|lia]. }
    assert (Hsn : real_size h' n = r) by (rewrite Ss; by dcase).
    intros x [->%elem_of_singleton|Hx]%elem_of_union; rewrite Sl, Sr.
    + exists p, m. dcase; try tauto; try lia. split_and!; [done|lia|lia|].
      intros Hz. destruct (Hrb Hz) as (? & _ & _). auto.
    + pose proof (HnL x Hx). destruct (decide (x = a)) as [->|Hxa].
      * exists p, m. split; [by apply Hin|]. dcase; try done; [lia|].
        split_and!; [done|lia|done].
      * destruct (B3 x Hx) as (q & k & Hq & Hql & Hqr & Hqrr). exists q, k.
        split; [by apply Hin|]. rewrite Ss. dcase; try done.
        -- split_and!; [lia|done|]. intros Hz. destruct (B6 x Hx Hz) as (? & _ & _). auto.
        -- split_and!; [done|done|]. intros Hz. destruct (B6 x Hx Hz) as (? & _ & _). auto.
  - intros x [->%elem_of_singleton|Hx]%elem_of_union; rewrite Sr.
    + dcase; try done; [lia|]. intros Hz. destruct (Hrb Hz) as (? & ? & ?).
      split; [set_solver|]. rewrite Ss, Sl. dcase; intuition lia.
    + pose proof (HnL x Hx). dcase; try done; intros Hz.
      * subst x. rewrite Ss, Sl. split; [set_solver|]. dcase; subst; intuition lia.
      * destruct (B6 x Hx Hz) as (Hc & ? & El). split; [set_solver|]. rewrite Ss, Sl.
        pose proof (HnL _ Hc). dcase; try done. intuition congruence.
  - intros x [->%elem_of_singleton|Hx]%elem_of_union; rewrite Sl.
    + dcase; try tauto. intros Hz. rewrite Sr. dcase; try done. set_solver.
    + pose proof (HnL x Hx). dcase; try done; intros Hz.
      * split; [set_solver|]. rewrite Sr. dcase; intuition lia.
      * destruct (B7 x Hx Hz) as (Hc & E). split; [set_solver|]. rewrite Sr.
        pose proof (HnL _ Hc). dcase; try done. exfalso. apply n0. split; [congruence|].
        intros ->. destruct (B1 0 Hx). lia.
  - intros q k Hq. apply elem_of_union_r. by eapply B8.
Qed.

Lemma size_insert_le (L : gset Z) a : (base.size ({[a]} ∪ L) ≤ S (base.size L))%nat.
Proof.
  rewrite size_union_alt, size_singleton.
  pose proof (subseteq_size (L ∖ {[a]}) L ltac:(set_solver)). lia.
Qed.

Lemma list_of_range rs : MINEXP ≤ list_of rs < MAXEXP.
Proof.
  unfold list_of. pose proof (wrap_range 32 (rs - sizeof_tag) ltac:(lia)) as Hr. fold u32 in Hr.
  destruct (Z.ltb_spec (u32 (rs - sizeof_tag)) 256); [done|].
  apply log2_list. lia.
Qed.

(** [insert_tag] overwrites the index. *)
Lemma inserted_reset h a i h' : inserted h a i h' → inserted (set_index h a (-1)) a i h'.
Proof.
  intros [In Ip Ix If Ii]. split; [done|done| |done|done].
  intros x. rewrite Ix. dcase; [done|]. cbn. by rewrite fupd_ne.
Qed.

(** [split_tag] on a used block: its end becomes a free block. *)
Lemma split_inv ps h L a :
  heap_inv ps h L → a ∈ L → index h a = -1 →
  (split_right h a ≠ 0 → index h (split_right h a) = -1) →
  0 ≤ size h a → 2 * sizeof_tag + size h a ≤ real_size h a →
  ∃ h' L', split_tag h a = Ok (a + sizeof_tag + size h a, h') ∧ heap_inv ps h' L' ∧
    size h' a = size h a ∧ (base.size L' ≤ S (base.size L))%nat ∧
    ∀ q m, live h' L' q m ↔ (live h L q m ∧ q - sizeof_tag ≠ a) ∨ (q - sizeof_tag = a ∧ m = size h a).
Proof.
  intros [Hb Hl Hc Hi] Ha Hia Hright Hs Hle. unfold sizeof_tag in Hle.
  pose proof (right_addr _ _ _ _ Hb Ha) as Hra.
  destruct (inv_block _ _ _ Hb a Ha) as (Hpos & _ & _).
  destruct (inv_region _ _ _ Hb a Ha) as (p & k & (Hp & Hpa & Hpe) & _).
  destruct (inv_regions _ _ _ Hb p k Hp) as [_ Hk].
  set (r := real_size h a - sizeof_tag - size h a).
  set (n := a + sizeof_tag + size h a). unfold sizeof_tag in *.
  assert (En : n = a + real_size h a - r) by (unfold n, r; lia).
  destruct (split_tag_spec h a n r) as (h1 & -> & Hsp); try done; [unfold sizeof_tag; lia..|].
  destruct (splitted_blocks ps h L a r h1) as [Hn Hb1];
    rewrite <- ?En; unfold sizeof_tag; try done; [lia..|]. rewrite <- En in *.
  assert (HnL : ∀ x, x ∈ L → x ≠ n) by (intros x Hx ->; done).
  pose proof Hsp as [Ss Sr Sl Sm Sn Sp (Ei & Ef & Eini & Esz)].
  set (h2 := set_index h1 n (-1)).
  assert (Hx2 : ∀ x, index h2 x = if decide (x = n) then -1 else index h x).
  { intros x. unfold h2. cbn. rewrite Ei. crunch. }
  assert (Hi2 : heap_inv ps h2 ({[n]} ∪ L)).
  { split.
    - eapply blocks_inv_same; [exact Hb1|done].
    - apply lists_inv_add; [|lia|by rewrite Hx2; dcase|by cbn; rewrite Sn; dcase|
        by cbn; rewrite Sp; dcase].
      apply (lists_inv_agree h); [done| |by cbn; rewrite Ef].
      intros x Hx. rewrite Hx2. cbn. rewrite Sn, Sp. pose proof (HnL x Hx). by dcase.
    - intros y. rewrite !Hx2. intros [->%elem_of_singleton|Hy]%elem_of_union; [by dcase|].
      cbn. rewrite Sr. pose proof (HnL y Hy). destruct (decide (y = a)) as [->|]; dcase; try done.
      intros Hyi Hz. by apply Hc.
    - cbn. rewrite Eini. intros E. set_solver. }
  destruct (insert_tag_spec h1 n (-1)) as (h' & -> & Hins & Hsb & Esz'); [done|]. simpl_res.
  cbn [Z.ltb] in Hins. change (-1 <? 0) with true in Hins. cbn iota in Hins.
  apply inserted_reset in Hins.
  assert (Han : a ≠ n) by (by apply HnL).
  assert (Hnr : n ≠ split_right h a) by (unfold n; destruct Hra; lia).
  destruct (insert_inv ps h2 ({[n]} ∪ L) n (list_of (real_size h1 n)) h') as [Hi' Hlive];
    try done; [set_solver|by rewrite Hx2; dcase|apply list_of_range| | |].
  { intros _. rewrite Hx2. cbn. rewrite Sl. dcase; tauto. }
  { rewrite Hx2. cbn. rewrite Sr. dcase; try done. }
  exists h', ({[n]} ∪ L). split_and!; [done|done|congruence|apply size_insert_le|].
  intros q m. rewrite Hlive. unfold live, sizeof_tag in *. rewrite Hx2. cbn. rewrite Ss.
  destruct (decide (q - 48 = n)) as [E|E].
  { rewrite E. split; [tauto|]. intros [[[? _] _]|[? _]]; [done|congruence]. }
  rewrite elem_of_union, elem_of_singleton.
  destruct (decide (q - 48 = a)) as [E2|E2]; [rewrite E2|]; (intuition (try lia)).
Qed.

(** A tag taken off its free list is used. *)
Lemma take_inv ps h L a h' :
  heap_inv ps h L → a ∈ L → index h a ≠ -1 → removed h a h' → same_blocks h h' →
  heap_inv ps h' L ∧ index h' a = -1 ∧
  (split_right h' a ≠ 0 → index h' (split_right h' a) = -1) ∧
  (∀ m, ¬ live h L (a + sizeof_tag) m) ∧
  ∀ q m, (live h' L q m ∧ q - sizeof_tag ≠ a) ↔ live h L q m.
Proof.
  intros [Hb Hl Hc Hi] Ha Hia Hrm Hsb.
  pose proof Hrm as [_ _ Rx _ Ri]. pose proof Hsb as (_ & Es & _ & Er).
  split_and!.
  - split; [by eapply blocks_inv_same|by eapply removed_inv| |by rewrite Ri].
    intros y Hy. rewrite !Rx, Er. dcase; try done. intros Hyi Hz. by apply Hc.
  - rewrite Rx. by dcase.
  - rewrite Er, Rx. intros Hz. dcase; [done|]. by apply Hc.
  - intros m (_ & E & _). replace (a + sizeof_tag - sizeof_tag) with a in E by lia. done.
  - intros q m. unfold live. rewrite Rx, Es. dcase; [|tauto]. rewrite e in *. tauto.
Qed.

(** [size] is only a note. *)
Lemma size_inv ps h L a v : heap_inv ps h L → heap_inv ps (set_size h a v) L.
Proof. intros [[] [] ? ?]. split; [by split|by split|done|done]. Qed.

Lemma initialize_inv ps h L : heap_inv ps h L → heap_inv ps (initialize h) L.
Proof.
  unfold initialize. destruct (l_initialized h) eqn:E; [done|]. intros [[] [] ? Hi].
  rewrite (Hi E) in *. split; [by split| |done|done]. split; try done.
  intros i Hi'. cbn. rewrite (proj2 (Z.leb_le _ _)), (proj2 (Z.ltb_lt _ _)) by lia. done.
Qed.

Lemma initialize_live h L q m : live (initialize h) L q m ↔ live h L q m.
Proof. unfold initialize. by destruct (l_initialized h). Qed.
(** The pages asked for: enough for the request and its tag, at least 16. *)
Definition pages_for (sz : Z) : Z := Z.max l_pageCount ((sz + sizeof_tag + 4095) / l_pageSize).

Lemma pages_for_eq sz :
  (let pages := (sz + sizeof_tag) / l_pageSize in
   let pages := if negb ((sz + sizeof_tag) mod l_pageSize =? 0) then pages + 1 else pages in
   if pages <? l_pageCount then l_pageCount else pages) = pages_for sz.
Proof.
  unfold pages_for, l_pageSize. set (x := sz + sizeof_tag).
  pose proof (Z.div_mod x 4096 ltac:(lia)). pose proof (Z.mod_pos_bound x 4096 ltac:(lia)).
  assert (E : (x + 4095) / 4096 = if negb (x mod 4096 =? 0) then x / 4096 + 1 else x / 4096).
  { symmetry. destruct (Z.eqb_spec (x mod 4096) 0); cbn [negb].
    - apply Z.div_unique with 4095; lia.
    - apply Z.div_unique with (x mod 4096 - 1); lia. }
  rewrite E. cbv zeta. zcase; lia.
Qed.

Lemma pages_for_bound sz :
  0 ≤ sz < 2 ^ 30 →
  l_pageCount ≤ pages_for sz ∧ sz + sizeof_tag ≤ pages_for sz * l_pageSize < 2 ^ 31.
Proof.
  intros Hs. unfold pages_for, l_pageCount, l_pageSize, sizeof_tag.
  pose proof (Z.div_mod (sz + 48 + 4095) 4096 ltac:(lia)).
  pose proof (Z.mod_pos_bound (sz + 48 + 4095) 4096 ltac:(lia)). lia.
Qed.

(** The tag [a] of a new region of [n] bytes. *)
Record fresh h a n h' : Prop := Fresh {
  fr_new : real_size h' a = n ∧ magic h' a = LIBALLOC_MAGIC ∧ index h' a = -1 ∧
    split_left h' a = 0 ∧ split_right h' a = 0 ∧ next h' a = 0 ∧ prev h' a = 0;
  fr_old : ∀ x, x ≠ a → real_size h' x = real_size h x ∧ magic h' x = magic h x ∧
    index h' x = index h x ∧ split_left h' x = split_left h x ∧ split_right h' x = split_right h x ∧
    next h' x = next h x ∧ prev h' x = prev h x;
  fr_rest : l_freePages h' = l_freePages h ∧ l_initialized h' = l_initialized h
}.

Lemma fresh_blocks ps ps' h L a n h' :
  blocks_inv ps h L → fresh h a n h' → 0 < a → regions ps' = <[a := n]> (regions ps) →
  n mod 4096 = 0 → 65536 ≤ n < 2 ^ 31 → a + n ≤ 2 ^ 64 →
  (∀ q m, regions ps !! q = Some m → q + m ≤ a ∨ a + n ≤ q) →
  (a ∉ L) ∧ blocks_inv ps' h' ({[a]} ∪ L).
Proof.
  intros [B1 B2 B3 B4 B5 B6 B7 B8] [(Fr & Fm & _ & Fl & Fs & _) Hfx _] Hpos Er Hmod Hn Hend Hdisj.
  assert (Hout : ∀ x, x ∈ L → x + real_size h x ≤ a ∨ a + n ≤ x).
  { intros x Hx. destruct (B3 x Hx) as (p & m & (Hp & ? & ?) & _). destruct (Hdisj p m Hp); lia. }
  assert (Ha : a ∉ L).
  { intros Ha. destruct (B1 a Ha) as (_ & ? & _). destruct (Hout a Ha); unfold sizeof_tag in *; lia. }
  assert (HaL : ∀ x, x ∈ L → x ≠ a) by (intros x Hx ->; done).
  specialize (λ x Hx, Hfx x (HaL x Hx)) as Hfx'. clear Hfx. rename Hfx' into Hfx.
  assert (Hreg : ∀ p m, regions ps !! p = Some m → regions ps' !! p = Some m).
  { intros p m Hp. rewrite Er, lookup_insert_ne; [done|]. intros ->.
    destruct (B4 _ _ Hp). destruct (Hdisj _ _ Hp); lia. }
  split; [done|]. split.
  - intros x [->%elem_of_singleton|Hx]%elem_of_union.
    + rewrite Fr, Fm. unfold sizeof_tag. split_and!; [done|lia|done].
    + destruct (Hfx x Hx) as (-> & -> & _). auto.
  - intros x y [->%elem_of_singleton|Hx]%elem_of_union [->%elem_of_singleton|Hy]%elem_of_union Hxy.
    + done.
    + destruct (Hfx y Hy) as (-> & _). rewrite Fr. destruct (Hout y Hy); lia.
    + destruct (Hfx x Hx) as (-> & _). rewrite Fr. destruct (Hout x Hx); lia.
    + destruct (Hfx x Hx) as (-> & _), (Hfx y Hy) as (-> & _). auto.
  - intros x [->%elem_of_singleton|Hx]%elem_of_union.
    + exists a, n. unfold in_region. rewrite Fr, Fl, Fs, Er, lookup_insert_eq.
      split_and!; try done; lia.
    + destruct (B3 x Hx) as (p & m & (Hp & ? & ?) & ? & ? & Hrr). exists p, m.
      unfold in_region. destruct (Hfx x Hx) as (-> & _ & _ & -> & -> & _).
      split_and!; auto. intros Hz. destruct (Hrr Hz) as (? & ? & ?).
      destruct (B6 x Hx Hz) as (Hxr & _). destruct (Hfx _ Hxr) as (-> & _). auto.
  - intros p m. rewrite Er, lookup_insert_Some. intros [[<- <-]|[_ Hp]]; [done|eauto].
  - intros p k q m. rewrite Er, !lookup_insert_Some.
    intros [[<- <-]|[_ Hp]] [[<- <-]|[_ Hq]] Hpq; [done|..|eauto].
    + destruct (Hdisj q m Hq); lia.
    + destruct (Hdisj p k Hp); lia.
  - intros x [->%elem_of_singleton|Hx]%elem_of_union; [done|].
    destruct (Hfx x Hx) as (-> & _ & _ & _ & -> & _). intros Hz.
    destruct (B6 x Hx Hz) as (Hxr & ? & ?). destruct (Hfx _ Hxr) as (_ & _ & _ & -> & _). set_solver.
  - intros x [->%elem_of_singleton|Hx]%elem_of_union; [done|].
    destruct (Hfx x Hx) as (_ & _ & _ & -> & _). intros Hz.
    destruct (B7 x Hx Hz) as (Hxr & ?). destruct (Hfx _ Hxr) as (_ & _ & _ & _ & -> & _). set_solver.
  - intros p m. rewrite Er, lookup_insert_Some. intros [[<- <-]|[_ Hp]]; [set_solver|].
    apply elem_of_union_r. by eapply B8.
Qed.

Lemma fresh_inv ps ps' h L a n h' :
  heap_inv ps h L → l_initialized h = true → fresh h a n h' → (a ∉ L) ∧ 0 < a →
  blocks_inv ps' h' ({[a]} ∪ L) →
  heap_inv ps' h' ({[a]} ∪ L) ∧ (∀ m, ¬ live h L (a + sizeof_tag) m) ∧
  ∀ q m, (live h' ({[a]} ∪ L) q m ∧ q - sizeof_tag ≠ a) ↔ live h L q m.
Proof.
  intros [Hb Hl Hc Hi] Hini [(Fr & Fm & Fi & Fl & Fs & Fn & Fp) Hfx [Ef Eini]] [Ha Hpos] Hb'.
  assert (HaL : ∀ x, x ∈ L → x ≠ a) by (intros x Hx ->; done).
  specialize (λ x Hx, Hfx x (HaL x Hx)) as Hfx'. clear Hfx. rename Hfx' into Hfx.
  split_and!; [split; [done|..]| |].
  - apply lists_inv_add; try done; [|lia]. apply (lists_inv_agree h); [done| |by rewrite Ef].
    intros x Hx. by destruct (Hfx x Hx) as (_ & _ & -> & _ & _ & -> & ->).
  - intros x [->%elem_of_singleton|Hx]%elem_of_union; [done|].
    destruct (Hfx x Hx) as (_ & _ & -> & _ & -> & _). intros Hxi Hz.
    destruct (inv_right _ _ _ Hb x Hx Hz) as (Hxr & _).
    destruct (Hfx _ Hxr) as (_ & _ & -> & _). auto.
  - congruence.
  - intros m (Hin & _). by replace (a + sizeof_tag - sizeof_tag) with a in Hin by lia.
  - intros q m. unfold live. rewrite elem_of_union, elem_of_singleton. split.
    + intros [([?|Hx] & ? & ?) Hne]; [done|]. destruct (Hfx _ Hx) as (E1 & _ & E2 & _).
      rewrite <- E1, <- E2. done.
    + intros (Hx & ? & ?). destruct (Hfx _ Hx) as (-> & _ & -> & _). pose proof (HaL _ Hx). tauto.
Qed.

Lemma allocate_new_tag_spec ps h L sz :
  heap_inv ps h L → l_initialized h = true → 0 ≤ sz < 2 ^ 30 →
  match allocate_new_tag ps h sz with
  | None => liballoc_alloc ps (pages_for sz) = None
  | Some (a, ps', h') =>
      liballoc_alloc ps (pages_for sz) = Some (a, ps') ∧ real_size h' a = 4096 * pages_for sz ∧
      heap_inv ps' h' ({[a]} ∪ L) ∧ index h' a = -1 ∧ split_right h' a = 0 ∧
      sz + sizeof_tag ≤ real_size h' a ∧ (∀ m, ¬ live h L (a + sizeof_tag) m) ∧
      ∀ q m, (live h' ({[a]} ∪ L) q m ∧ q - sizeof_tag ≠ a) ↔ live h L q m
  end.
Proof.
  intros Hi Hini Hs. pose proof (pages_for_bound sz Hs) as (Hp1 & Hp2).
  unfold allocate_new_tag. cbv zeta.
  assert (u32 (sz + sizeof_tag) = sz + sizeof_tag) as -> by (apply wrap_small; unfold sizeof_tag; lia).
  pose proof (pages_for_eq sz) as Hpg. cbv zeta in Hpg. rewrite Hpg. clear Hpg.
  unfold l_pageCount, l_pageSize in *.
  destruct (liballoc_alloc ps (pages_for sz)) as [[a ps']|] eqn:Ea; simpl_res; [|done].
  destruct (alloc_region _ _ _ _ Ea) as (Hpos & Hend & Er & Hdisj); [lia|].
  assert (u32 (pages_for sz * 4096) = 4096 * pages_for sz) as ->
    by (rewrite Z.mul_comm; apply wrap_small; lia).
  set (h' := set_split_right _ _ _).
  assert (Hf : fresh h a (4096 * pages_for sz) h').
  { split; [cbn; by rewrite !fupd_eq| |done]. intros x Hx. cbn. by rewrite !fupd_ne. }
  clearbody h'. pose proof Hf as [(Fr & _ & Fi & _ & Fs & _) _ _].
  destruct (fresh_blocks ps ps' h L a (4096 * pages_for sz) h') as [Ha Hb'];
    try done; [by apply inv_blocks|rewrite Z.mul_comm; apply Z_mod_mult|lia|].
  destruct (fresh_inv ps ps' h L a (4096 * pages_for sz) h') as (Hi' & Hnl & Hlive); try done.
  split_and!; try done. lia.
Qed.

(** The set of tags in use is determined by the heap: every tag is reached from
    the start of its region by the links to the right. *)
Lemma tags_incl ps h L1 L2 : blocks_inv ps h L1 → blocks_inv ps h L2 → L1 ⊆ L2.
Proof.
  intros B1 B2. assert (Hind : ∀ n a, a < Z.of_nat n → a ∈ L1 → a ∈ L2).
  2:{ intros a. apply (Hind (S (Z.to_nat a))). lia. }
  induction n as [|n IH]; intros a Hn Ha; destruct (inv_block _ _ _ B1 a Ha) as (Hpos & _); [lia|].
  destruct (inv_region _ _ _ B1 a Ha) as (p & m & (Hp & _) & Hl & _).
  destruct (decide (split_left h a = 0)) as [->%Hl|Hz]; [by eapply inv_start|].
  destruct (inv_left _ _ _ B1 a Ha Hz) as [Hb Er].
  destruct (inv_block _ _ _ B1 _ Hb) as (_ & Hsz & _). unfold sizeof_tag in Hsz.
  destruct (inv_right _ _ _ B1 _ Hb) as (_ & Ea & _); [lia|].
  destruct (inv_right _ _ _ B2 (split_left h a)) as (Hin & _); [apply IH; [lia|done]|lia|].
  by rewrite Er in Hin.
Qed.

Lemma tags_unique ps h L1 L2 : heap_inv ps h L1 → heap_inv ps h L2 → L1 = L2.
Proof. intros [B1 _ _ _] [B2 _ _ _]. apply (anti_symm (⊆)); by eapply tags_incl. Qed.

(** [malloc] hands out [p]: a new block of [n] bytes apart from the live ones. *)
Definition granted h L p n h' L' : Prop :=
  p ≠ 0 ∧ (∀ q m, live h' L' q m ↔ live h L q m ∨ (q = p ∧ m = n)) ∧
  ∀ q m, live h L q m → p + n ≤ q ∨ q + m ≤ p.

Lemma live_disjoint ps h L p n q m :
  heap_inv ps h L → live h L p n → live h L q m → p ≠ q → p + n ≤ q ∨ q + m ≤ p.
Proof.
  intros [Hb _ _ _] (Hp & _ & ->) (Hq & _ & ->) Hpq.
  destruct (inv_disjoint _ _ _ Hb _ _ Hp Hq); unfold sizeof_tag in *; lia.
Qed.

(** Only the low 32 bits of the request count. *)
Lemma trim_u32 h a sz : trim h a sz = trim h a (u32 sz).
Proof.
  unfold trim. cbv zeta. cbn [real_size set_size].
  assert (u32 (u32 sz) = u32 sz) as -> by apply wrap_wrap.
  assert (E : u32 (real_size h a - sz - sizeof_tag * 2) = u32 (real_size h a - u32 sz - sizeof_tag * 2)).
  { unfold u32, wrap, sizeof_tag. rewrite (Zminus_mod (real_size h a - sz)), (Zminus_mod (real_size h a) sz).
    rewrite (Zminus_mod (real_size h a - sz mod 2 ^ 32)), (Zminus_mod (real_size h a) (sz mod 2 ^ 32)).
    by rewrite Z.mod_mod. }
  by rewrite E.
Qed.

(** The block is cut to the request when the rest is worth a block. *)
Lemma trim_spec ps h L a sz :
  heap_inv ps h L → a ∈ L → index h a = -1 →
  (split_right h a ≠ 0 → index h (split_right h a) = -1) →
  0 ≤ sz < 2 ^ 30 → sz + sizeof_tag ≤ real_size h a →
  ∃ h' L', trim h a sz = Ok h' ∧ heap_inv ps h' L' ∧ size h' a = sz ∧ 0 < a ∧
    (base.size L' ≤ S (base.size L))%nat ∧
    ∃ n, (sz ≤ n < 2 ^ 31 ∧ n ≤ real_size h a - sizeof_tag) ∧
      ∀ q m, live h' L' q m ↔ (live h L q m ∧ q - sizeof_tag ≠ a) ∨ (q - sizeof_tag = a ∧ m = n).
Proof.
  intros Hi Ha Hia Hright Hs Hle. unfold trim. 
  assert (u32 sz = sz) as -> by (apply wrap_small; lia).
  set (h1 := set_size h a sz). set (remainder := u32 _).
  assert (Hi1 : heap_inv ps h1 L) by by apply size_inv.
  assert (Esz : size h1 a = sz) by (cbn; by rewrite fupd_eq).
  destruct (inv_block _ _ _ (inv_blocks _ _ _ Hi) a Ha) as (Hpos & _).
  destruct (inv_region _ _ _ (inv_blocks _ _ _ Hi) a Ha) as (p & k & (Hp & ? & ?) & _).
  destruct (inv_regions _ _ _ (inv_blocks _ _ _ Hi) p k Hp) as [_ Hk].
  assert (Hkeep : ∃ n, (sz ≤ n < 2 ^ 31 ∧ n ≤ real_size h a - sizeof_tag) ∧ ∀ q m, live h1 L q m ↔
      (live h L q m ∧ q - sizeof_tag ≠ a) ∨ (q - sizeof_tag = a ∧ m = n)).
  { exists (real_size h a - sizeof_tag). split; [unfold sizeof_tag in *; lia|]. intros q m.
    change (live h1 L q m) with (live h L q m). unfold live.
    destruct (decide (q - sizeof_tag = a)) as [E|]; [rewrite E|]; tauto. }
  destruct (Z.ltb_spec 0 (s32 remainder)) as [Hpos'|]; [|by exists h1, L; split_and!; auto].
  pose proof (wrap_range 32 (real_size h1 a - sz - sizeof_tag * 2) ltac:(lia)) as Hr.
  fold u32 remainder in Hr. rewrite getexp_spec by done. simpl_res.
  destruct (Z.ltb_spec remainder 256) as [|Hge]; [by exists h1, L; split_and!; auto|].
  rewrite (proj2 (Z.leb_le _ _)) by (pose proof (log2_list remainder); lia).
  assert (Hbig : 2 * sizeof_tag + sz ≤ real_size h a).
  { destruct (Z_lt_ge_dec (real_size h a) (2 * sizeof_tag + sz)) as [Hlt|]; [|lia]. exfalso.
    assert (Er : s32 (real_size h a - sz - sizeof_tag * 2) = real_size h a - sz - sizeof_tag * 2)
      by (apply swrap_small; unfold sizeof_tag in *; lia).
    unfold remainder, u32, s32 in Hpos'. rewrite swrap_wrap in Hpos' by lia.
    change (real_size h1 a) with (real_size h a) in *.
    unfold s32 in Er. unfold sizeof_tag in *. lia. }
  destruct (split_inv ps h1 L a) as (h' & L' & -> & Hi' & Es' & Hsize & Hlive);
    rewrite ?Esz; try done; [lia|]. simpl_res. rewrite Esz in *.
  exists h', L'. split_and!; try done. exists sz. split; [unfold sizeof_tag in *; lia|done].
Qed.

(** The same of a block taken from outside the live ones. *)
Lemma trim_granted ps h L h0 L0 a sz :
  heap_inv ps h L → a ∈ L → index h a = -1 →
  (split_right h a ≠ 0 → index h (split_right h a) = -1) →
  0 ≤ sz < 2 ^ 30 → sz + sizeof_tag ≤ real_size h a → (∀ m, ¬ live h0 L0 (a + sizeof_tag) m) →
  (∀ q m, (live h L q m ∧ q - sizeof_tag ≠ a) ↔ live h0 L0 q m) →
  ∃ h' L' n, trim h a sz = Ok h' ∧ heap_inv ps h' L' ∧ size h' (a + sizeof_tag - sizeof_tag) = sz ∧
    (sz ≤ n < 2 ^ 31 ∧ n ≤ real_size h a - sizeof_tag) ∧ granted h0 L0 (a + sizeof_tag) n h' L' ∧
    (base.size L' ≤ S (base.size L))%nat.
Proof.
  intros Hi Ha Hia Hright Hs Hle Hnl Hlive.
  destruct (trim_spec ps h L a sz) as (h' & L' & E & Hi' & Esz & Hpos & Hsize & n & Hn & Hl'); try done.
  exists h', L', n. replace (a + sizeof_tag - sizeof_tag) with a by lia.
  assert (Hl'' : ∀ q m, live h' L' q m ↔ live h0 L0 q m ∨ (q = a + sizeof_tag ∧ m = n)).
  { intros q m. rewrite Hl', Hlive. intuition lia. }
  split_and!; try done; try lia. split_and!; [unfold sizeof_tag; lia|done|].
  intros q m Hq. apply (live_disjoint ps h' L'); [done|apply Hl''; auto..|].
  intros <-. by apply (Hnl m).
Qed.

(** Reusing a free tag. *)
Lemma reuse_spec ps h L tag sz idx :
  heap_inv ps h L → tag ∈ L → index h tag = idx → MINEXP ≤ idx < MAXEXP → 0 ≤ sz < 2 ^ 30 →
  u64 (sz + sizeof_tag) ≤ u64 (real_size h tag - sizeof_tag) →
  ∃ h' h2 L' n, remove_tag h tag = Ok h' ∧
    trim (if (split_left h' tag =? 0) && (split_right h' tag =? 0)
          then set_complete h' idx (l_completePages h' idx - 1) else h') tag sz = Ok h2 ∧
    heap_inv ps h2 L' ∧ size h2 (tag + sizeof_tag - sizeof_tag) = sz ∧
    sz ≤ n < 2 ^ 31 ∧ granted h L (tag + sizeof_tag) n h2 L' ∧ (base.size L' ≤ S (base.size L))%nat.
Proof.
  intros Hi Ht <- Hidx Hs Hfit.
  destruct (remove_tag_spec h tag) as (h1 & E1 & Hrm & Hsb & _); [unfold MINEXP in *; lia|].
  exists h1. destruct (take_inv ps h L tag h1) as (Hi1 & Hia & Hr & Hnl & Hlive);
    try done; [unfold MINEXP in *; lia|].
  set (h2 := if _ && _ then _ else _).
  assert (Hi2 : heap_inv ps h2 L) by (unfold h2; case_match; [by apply complete_inv|done]).
  assert (E2 : index h2 = index h1 ∧ split_right h2 = split_right h1 ∧
    real_size h2 = real_size h1 ∧ live h2 = live h1) by (unfold h2; by case_match).
  destruct E2 as (E2i & E2r & E2s & E2l).
  destruct (inv_block _ _ _ (inv_blocks _ _ _ Hi) tag Ht) as (_ & Hb1 & _).
  destruct (inv_region _ _ _ (inv_blocks _ _ _ Hi) tag Ht) as (p & k & (Hp & ? & ?) & _).
  destruct (inv_regions _ _ _ (inv_blocks _ _ _ Hi) p k Hp) as [_ Hk].
  assert (Hle : sz + sizeof_tag ≤ real_size h2 tag).
  { destruct Hsb as (_ & Er & _). rewrite E2s, Er in *. unfold u64, sizeof_tag in *.
    rewrite !wrap_small in Hfit by lia. lia. }
  destruct (trim_granted ps h2 L h L tag sz) as (h' & L' & n & E & ? & ? & [? _] & ?);
    rewrite ?E2i, ?E2r, ?E2l; try done.
  exists h', L', n. done.
Qed.

Lemma initialize_true h : l_initialized (initialize h) = true.
Proof. unfold initialize. by destruct (l_initialized h) eqn:E. Qed.

Lemma granted_initialize h L p n h' L' :
  granted (initialize h) L p n h' L' → granted h L p n h' L'.
Proof.
  intros (Hp & Hl & Hd). split_and!; [done|intros q m|intros q m].
  - by rewrite Hl, initialize_live.
  - intros Hq. apply Hd. by apply initialize_live.
Qed.

Lemma free_spec ps h L ptr n fuel :
  heap_inv ps h L → live h L ptr n → (2 ≤ fuel)%nat →
  ∃ ps' h' L', free fuel ps h ptr = Ok (ps', h') ∧ heap_inv ps' h' L' ∧
    (∀ q m, live h' L' q m ↔ live h L q m ∧ q ≠ ptr) ∧ L' ⊆ L ∧
    (ps' = ps ∨ ∃ a k, ps' = liballoc_free ps a k).
Proof.
  intros Hi (Ht & Hit & _) Hf. unfold free.
  destruct (inv_block _ _ _ (inv_blocks _ _ _ Hi) _ Ht) as (Hpos & _ & Em).
  rewrite Em. change (LIBALLOC_MAGIC =? LIBALLOC_MAGIC) with true. cbn [negb].
  unfold sizeof_tag in Hpos. rewrite (proj2 (Z.eqb_neq _ _)) by lia.
  destruct (melt_loop_spec ps h L _ fuel Hi Ht Hit Hf)
    as (a & h1 & L1 & -> & Hi1 & Ha1 & Hia1 & Hl1 & Ho1 & Hs1). simpl_res.
  destruct (absorb_loop_spec ps h1 L1 a fuel Hi1 Ha1 Hia1 Hf Hl1)
    as (h2 & L2 & -> & Hi2 & Ha2 & Hia2 & Hl2 & Hr2 & Ho2 & Hs2). simpl_res.
  assert (Hs : L2 ⊆ L) by (by etransitivity). clear Hs1 Hs2.
  pose proof (others_trans _ _ _ _ _ _ _ _ _ Ho1 Ho2) as Ho. clear Ho1 Ho2.
  assert (Hq : ∀ q, q - sizeof_tag ≠ ptr - sizeof_tag ↔ q ≠ ptr) by lia.
  destruct (list_choice (real_size h2 a - sizeof_tag)) as (e & -> & Hidx). simpl_res.
  set (idx := if e <? MINEXP then MINEXP else e) in *.
  assert (Hins : ∀ h3, heap_inv ps h3 L2 → live h3 L2 = live h2 L2 →
    index h3 = index h2 → split_left h3 = split_left h2 → split_right h3 = split_right h2 →
    ∃ ps' h' L', (h ← insert_tag h3 a idx; Ok (ps, h)) = Ok (ps', h') ∧ heap_inv ps' h' L' ∧
      (∀ q m, live h' L' q m ↔ live h L q m ∧ q ≠ ptr) ∧ L' ⊆ L ∧
      (ps' = ps ∨ ∃ a k, ps' = liballoc_free ps a k)).
  { intros h3 Hi3 E1 E2 E3 E4.
    destruct (insert_tag_spec h3 a idx) as (h4 & -> & Hins & Hsb & _); [lia|]. simpl_res.
    rewrite (proj2 (Z.ltb_ge _ _)) in Hins by (unfold MINEXP in *; lia).
    destruct (insert_inv ps h3 L2 a idx h4) as [Hi4 Hlive]; rewrite ?E2, ?E3, ?E4; try done.
    exists ps, h4, L2. split_and!; [done..| |done|by left]. intros q m. rewrite Hlive, E1, (Ho q m). by rewrite Hq. }
  destruct (Z.eqb_spec (split_left h2 a) 0) as [El|]; cbn [andb]; [|by apply Hins].
  destruct (Z.eqb_spec (split_right h2 a) 0) as [Er|]; [|by apply Hins].
  destruct (Z.eqb_spec (l_completePages h2 idx) MAXCOMPLETE).
  - destruct (release_inv ps h2 L2 a) as (Hmod & Hge & Hi3); try done.
    rewrite Hmod. cbn [negb Z.eqb]. rewrite (proj2 (Z.ltb_ge _ _)) by lia.
    eexists _, _, _. split; [reflexivity|]. split; [exact Hi3|]. split; [|split; [set_solver|by eauto]]. intros q m.
    rewrite <- Hq, <- (Ho q m). unfold live. set_solver.
  - apply Hins; [by apply complete_inv|done..].
Qed.

(** [free] leaves the sizes noted in the tags alone. *)
Lemma remove_tag_size h a h' : remove_tag h a = Ok h' → size h' = size h.
Proof.
  unfold remove_tag. intros E. inv_res E. cbn. by repeat case_match.
Qed.

Lemma insert_tag_size h a i h' : insert_tag h a i = Ok h' → size h' = size h.
Proof. unfold insert_tag. intros E. inv_res E. cbn. by repeat case_match. Qed.

Lemma absorb_right_size h a r : absorb_right h a = Ok r → size r.2 = size h.
Proof.
  unfold absorb_right. intros E. destruct (remove_tag h _) as [h1|] eqn:E1; simpl_res; [|done].
  apply remove_tag_size in E1. injection E as <-. cbn. by case_match.
Qed.

Lemma free_size fuel ps h p ps' h' : free fuel ps h p = Ok (ps', h') → size h' = size h.
Proof.
  unfold free, melt_loop, absorb_loop. intros E. destruct (p =? 0); [by simplify_eq|].
  destruct (negb (magic h (p - sizeof_tag) =? LIBALLOC_MAGIC)); [by simplify_eq|].
  destruct (iter fuel _ (p - sizeof_tag, h)) as [[a h1]|] eqn:E1; simpl_res; [|done].
  assert (S1 : size h1 = size h).
  { enough (size (a, h1).2 = size h) by done. revert E1.
    apply (iter_partial _ (λ r : Z * heap, size r.2 = size h) (λ r, size r.2 = size h)); [|done].
    intros [a' h2] c Hs. cbn [snd] in Hs. case_match; [|by intros [= <-]]. unfold melt_left. cbv zeta.
    intros Em. inv_res Em. cbn [snd]. erewrite remove_tag_size by done. rewrite <- Hs.
    by case_match. }
  destruct (iter fuel _ (a, h1)) as [[b h3]|] eqn:E2; simpl_res; [|done].
  assert (S2 : size h3 = size h).
  { enough (size (b, h3).2 = size h) by done. revert E2.
    apply (iter_partial _ (λ r : Z * heap, size r.2 = size h) (λ r, size r.2 = size h)); [|done].
    intros [a' h2] c Hs. cbn [snd] in Hs. destruct (negb _ && _); [|by intros [= <-]].
    destruct (absorb_right h2 a') as [[b' h4]|] eqn:Ea; simpl_res; [|done]. intros [= <-]. cbn [snd].
    rewrite <- Hs. exact (absorb_right_size _ _ _ Ea). }
  destruct (getexp _) as [e|]; simpl_res; [|done]. rewrite <- S2.
  case_match; [case_match; [by simplify_eq|]|];
    destruct (insert_tag _ b _) eqn:E3; simpl_res; simplify_eq; by rewrite (insert_tag_size _ _ _ _ E3).
Qed.

(** C3: [free] on a live block terminates (two rounds of each merge loop are
    enough), keeps the heap invariant, and takes exactly that block out of the
    live ones. *)
Theorem free_correct ps h L ptr n fuel :
  heap_inv ps h L → live h L ptr n → (2 ≤ fuel)%nat →
  ∃ ps' h' L', free fuel ps h ptr = Ok (ps', h') ∧ heap_inv ps' h' L' ∧
    ∀ q m, live h' L' q m ↔ live h L q m ∧ q ≠ ptr.
Proof.
  intros Hi Hl Hf. destruct (free_spec ps h L ptr n fuel Hi Hl Hf) as (ps' & h' & L' & ? & ? & ? & _).
  by exists ps', h', L'.
Qed.


Lemma malloc_spec ps h L sz fuel :
  heap_inv ps h L → 0 ≤ sz < 2 ^ 30 → (base.size L < fuel)%nat →
  ∃ p ps' h' L', malloc fuel ps h sz = Ok (p, ps', h') ∧ heap_inv ps' h' L' ∧
    (base.size L' ≤ S (S (base.size L)))%nat ∧
    (ps' = ps ∨ ∃ a, liballoc_alloc ps (pages_for sz) = Some (a, ps')) ∧
    ((p = 0 ∧ liballoc_alloc ps (pages_for sz) = None ∧ ∀ q m, live h' L' q m ↔ live h L q m) ∨
     (size h' (p - sizeof_tag) = sz ∧ ∃ n, sz ≤ n ∧ granted h L p n h' L')).
Proof.
  intros Hi0 Hs Hf. unfold malloc. cbv zeta.
  pose proof (initialize_inv _ _ _ Hi0) as Hi.
  assert (Hini : l_initialized (initialize h) = true) by apply initialize_true.
  assert (Eg : ∀ p n h' L', granted (initialize h) L p n h' L' → granted h L p n h' L')
    by apply granted_initialize.
  pose proof (initialize_live h L) as Hil. set (h0 := initialize h) in *. clearbody h0.
  assert (Hu : u32 sz = sz) by (apply wrap_small; lia).
  destruct (list_choice sz) as (e & -> & Hidx). simpl_res. unfold MODE. rewrite Z.add_0_r, Hu.
  set (idx := if e <? MINEXP then MINEXP else e) in *.
  destruct (find_tag_spec fuel h0 L sz idx) as (tag & -> & Htag);
    [by apply (inv_free_lists ps)|done|done|]. simpl_res.
  destruct (Z.eqb_spec tag 0) as [->|Hne].
  - pose proof (allocate_new_tag_spec ps h0 L sz Hi Hini Hs) as Ha.
    destruct (allocate_new_tag ps h0 sz) as [[[a ps'] h1]|]; simpl_res.
    + destruct Ha as (Ea & _ & Hi1 & Hia & Hr & Hle & Hnl & Hlive).
      destruct (trim_granted ps' h1 ({[a]} ∪ L) h0 L a sz)
        as (h' & L' & n & -> & Hi' & Hsz & [Hn _] & Hg & Hsize); try done; [set_solver|]. simpl_res.
      pose proof (size_insert_le L a).
      eexists _, _, _, L'. split_and!; [done|done|lia|right; by exists a|right]. split; [done|]. exists n.
      split; [lia|by apply Eg].
    + exists 0, ps, h0, L. split_and!; [done|done|lia|by left|left]. split_and!; [done|done|apply Hil].
  - destruct Htag as [|(Ht & Hit & Hfit)]; [done|].
    destruct (reuse_spec ps h0 L tag sz idx) as (h1 & h2 & L' & n & -> & Etr & Hi' & Hsz & Hn & Hg & Hsize);
      try done. simpl_res. rewrite Etr. simpl_res.
    eexists _, _, _, L'. split_and!; [done|done|lia|by left|right]. split; [done|]. exists n.
    split; [lia|by apply Eg].
Qed.

(** C2: [malloc] terminates (fuel above the number of tags), keeps the heap
    invariant, and either returns NULL because the page source refused, with
    the live blocks unchanged, or returns a block of at least the requested
    size that overlaps no live block and is the only new live one. *)
Theorem malloc_correct ps h L sz fuel :
  heap_inv ps h L → 0 ≤ sz < 2 ^ 30 → (base.size L < fuel)%nat →
  ∃ p ps' h' L', malloc fuel ps h sz = Ok (p, ps', h') ∧ heap_inv ps' h' L' ∧
    ((p = 0 ∧ liballoc_alloc ps (pages_for sz) = None ∧ ∀ q m, live h' L' q m ↔ live h L q m) ∨
     (size h' (p - sizeof_tag) = sz ∧ ∃ n, sz ≤ n ∧ granted h L p n h' L')).
Proof.
  intros Hi Hs Hf. destruct (malloc_spec ps h L sz fuel Hi Hs Hf) as (p & ps' & h' & L' & ? & ? & _ & _ & ?).
  by exists p, ps', h', L'.
Qed.

(** C36: a request of 4 GiB or more whose low 32 bits are small gets a block for
    those 32 bits: [malloc] asks the page source for the pages of [sz mod 2^32],
    and when it gets them it hands out a new block at the start of the region,
    with the cut size in its tag, at most the region long and so smaller than the
    request; only without pages it returns NULL. *)
Theorem malloc_truncates ps h L sz fuel :
  heap_inv ps h L → 2 ^ 32 ≤ sz < 2 ^ 64 - 48 → sz mod 2 ^ 32 < 2 ^ 30 → (base.size L < fuel)%nat →
  ∃ p ps' h' L', malloc fuel ps h sz = Ok (p, ps', h') ∧ heap_inv ps' h' L' ∧
    match liballoc_alloc ps (pages_for (sz mod 2 ^ 32)) with
    | None => p = 0 ∧ ∀ q m, live h' L' q m ↔ live h L q m
    | Some (a, ps1) =>
        p = a + sizeof_tag ∧ ps' = ps1 ∧ size h' a = sz mod 2 ^ 32 ∧
        ∃ n, sz mod 2 ^ 32 ≤ n ≤ 4096 * pages_for (sz mod 2 ^ 32) - sizeof_tag ∧ n < sz ∧ granted h L p n h' L'
    end.
Proof.
  intros Hi0 Hs Hsu Hf. unfold malloc. cbv zeta. change (sz mod 2 ^ 32) with (u32 sz) in *.
  pose proof (initialize_inv _ _ _ Hi0) as Hi.
  assert (Hini : l_initialized (initialize h) = true) by apply initialize_true.
  assert (Eg : ∀ p n h' L', granted (initialize h) L p n h' L' → granted h L p n h' L')
    by apply granted_initialize.
  pose proof (initialize_live h L) as Hil. set (h0 := initialize h) in *. clearbody h0.
  destruct (list_choice sz) as (e & -> & Hidx). simpl_res. unfold MODE. rewrite Z.add_0_r.
  set (idx := if e <? MINEXP then MINEXP else e) in *.
  destruct (find_tag_spec fuel h0 L sz idx) as (tag & -> & Htag);
    [by apply (inv_free_lists ps)|done|done|]. simpl_res.
  pose proof (wrap_range 32 sz ltac:(lia)) as Hr. fold u32 in Hr.
  destruct Htag as [->|(Ht & Hit & Hfit)].
  - cbn [Z.eqb]. simpl_res. pose proof (allocate_new_tag_spec ps h0 L (u32 sz) Hi Hini) as Ha.
    destruct (allocate_new_tag ps h0 (u32 sz)) as [[[a ps'] h1]|]; simpl_res.
    + destruct Ha as (Ea & Ers & Hi1 & Hia & Hrt & Hle & Hnl & Hlive); [lia|]. rewrite trim_u32, Ea.
      destruct (trim_granted ps' h1 ({[a]} ∪ L) h0 L a (u32 sz))
        as (h' & L' & n & -> & Hi' & Hsz & Hn & Hg & _); try done; [set_solver|lia|]. simpl_res.
      rewrite Ers in Hn. replace (a + sizeof_tag - sizeof_tag) with a in Hsz by lia.
      eexists _, _, _, L'. split_and!; [done|done|done|done|done|]. exists n.
      split; [lia|]. split; [lia|by apply Eg].
    + rewrite Ha by lia. exists 0, ps, h0, L. split_and!; [done|done|done|apply Hil].
  - exfalso. destruct (inv_block _ _ _ (inv_blocks _ _ _ Hi) tag Ht) as (_ & Hb1 & _).
    destruct (inv_region _ _ _ (inv_blocks _ _ _ Hi) tag Ht) as (p & k & (Hp & ? & ?) & _).
    destruct (inv_regions _ _ _ (inv_blocks _ _ _ Hi) p k Hp) as [_ Hk].
    unfold u64, sizeof_tag in *. rewrite !wrap_small in Hfit by lia. lia.
Qed.
End blocks.

(** *** Witnesses *)

(** Pages taken one after the other from [next_page] on. *)
Record page_bump := PageBump { next_page : Z; page_map : gmap Z Z }.

Definition bump_pages (s : page_bump) (pages : Z) : option (Z * page_bump) :=
  let p := next_page s in
  if decide (0 < p ∧ p + 4096 * pages ≤ 2 ^ 64 ∧ map_Forall (λ q n, q + n ≤ p) (page_map s))
  then Some (p, PageBump (p + 4096 * pages) (<[p := 4096 * pages]> (page_map s)))
  else None.

#[export, refine] Instance bump_source : PageSource page_bump := {|
  liballoc_alloc := bump_pages;
  liballoc_free s p pages := PageBump (next_page s) (delete p (page_map s));
  regions := page_map
|}.
Proof.
  - unfold bump_pages. intros s pages p s' Hs Hp. case_decide as Hd; [|done]. simplify_eq.
    destruct Hd as (? & ? & Hd). split_and!; try done.
    intros q n Hq. left. exact (Hd q n Hq).
  - done.
Defined.

Definition heap0 : heap :=
  Heap (λ _, 0) (λ _, 0) (λ _, 0) (λ _, 0) (λ _, 0) (λ _, 0) (λ _, 0) (λ _, 0) (λ _, 0) (λ _, 0) false.

Definition pages0 : page_bump := PageBump 4096 ∅.

Lemma heap0_inv : heap_inv pages0 heap0 ∅.
Proof. split; [split|split|..]; try set_solver; done. Qed.

Lemma malloc_correct_witness :
  ∃ p ps' h' L', malloc 1 pages0 heap0 100 = Ok (p, ps', h') ∧ heap_inv ps' h' L' ∧
    ((p = 0 ∧ liballoc_alloc pages0 (pages_for 100) = None ∧
       ∀ q m, live h' L' q m ↔ live heap0 ∅ q m) ∨
     (size h' (p - sizeof_tag) = 100 ∧ ∃ n, 100 ≤ n ∧ granted heap0 ∅ p n h' L')).
Proof. apply (malloc_correct pages0 heap0 ∅ 100 1); [apply heap0_inv|lia|vm_compute; lia]. Defined.

(** Eight bytes more than 4 GiB: the block has 65488 bytes. *)
Lemma malloc_truncates_witness :
  ∃ ps' h' L' n, malloc 1 pages0 heap0 (2 ^ 32 + 8) = Ok (4144, ps', h') ∧ heap_inv ps' h' L' ∧
    8 ≤ n ≤ 65488 ∧ granted heap0 ∅ 4144 n h' L'.
Proof.
  destruct (malloc_truncates pages0 heap0 ∅ (2 ^ 32 + 8) 1) as (p & ps' & h' & L' & E & Hi & Hcase);
    [apply heap0_inv|lia|vm_compute; done|vm_compute; lia|].
  assert (Ea : liballoc_alloc pages0 (pages_for ((2 ^ 32 + 8) mod 2 ^ 32)) =
    Some (4096, PageBump (4096 + 65536) {[4096 := 65536]})) by (vm_compute; reflexivity).
  rewrite Ea in Hcase. destruct Hcase as (-> & _ & _ & n & Hn & _ & Hg).
  exists ps', h', L', n. split; [exact E|]. split; [exact Hi|]. split; [exact Hn|exact Hg].
Defined.

(** The heap after one page region has been added. *)
Definition heap1 : heap := Eval cbv [allocate_new_tag mbind option_bind initialize heap0 l_initialized] in
  match allocate_new_tag pages0 (initialize heap0) 100 with
  | Some (_, _, h) => h
  | None => heap0
  end.

Lemma heap1_inv : heap_inv (PageBump (4096 + 65536) {[4096 := 65536]}) heap1 ({[4096]} ∪ ∅).
Proof.
  pose proof (allocate_new_tag_spec pages0 (initialize heap0) ∅ 100) as Ha.
  assert (E : allocate_new_tag pages0 (initialize heap0) 100 =
    Some (4096, PageBump (4096 + 65536) {[4096 := 65536]}, heap1)) by (vm_compute; reflexivity).
  rewrite E in Ha. destruct Ha as (_ & _ & Hi & _); [apply initialize_inv, heap0_inv|done|lia|exact Hi].
Qed.

Lemma free_correct_witness :
  ∃ ps' h' L', free 2 (PageBump (4096 + 65536) {[4096 := 65536]}) heap1 4144 = Ok (ps', h') ∧
    heap_inv ps' h' L' ∧
    ∀ q m, live h' L' q m ↔ live heap1 ({[4096]} ∪ ∅) q m ∧ q ≠ 4144.
Proof.
  apply (free_correct _ heap1 ({[4096]} ∪ ∅) 4144 65488 2);
    [apply heap1_inv|split_and!; [vm_compute; set_solver|reflexivity|reflexivity]|lia].
Defined.
