(* ===== verification/Realloc.v ===== *)
(** * calloc and realloc (lethe-kernel/memory/liballoc.c)

    The user data of the blocks lies in byte memory beside the boundary tags
    of LibAlloc.v.  Memory behind NULL is not mapped, so a copy to NULL is
    undefined. *)
From S2P Require Import Prelude LibString LibAlloc.

(** ** Definitions *)

(** [i] is an [int], [n] a [size_t]. *)
Definition liballoc_memset (m : mem) (s c n : Z) : res mem :=
  iter (S (Z.to_nat n)) (λ '(i, m),
    if i <? n then
      m ← store8 m (s + i) c;
      i ← int_ok (i + 1);
      Ok (Next (i, m))
    else Ok (Done m)) (0, m).

(** Words first, then the remaining bytes. *)
Definition liballoc_memcpy (m : mem) (s1 s2 n : Z) : res mem :=
  '(cdest, csrc, n, m) ← iter (S (Z.to_nat n)) (λ '(ldest, lsrc, n, m),
    if 4 <=? n then
      w ← load32 m lsrc;
      m ← store32 m ldest w;
      Ok (Next (ldest + 4, lsrc + 4, n - 4, m))
    else Ok (Done (ldest, lsrc, n, m))) (s1, s2, n, m);
  iter (S (Z.to_nat n)) (λ '(cdest, csrc, n, m),
    if 0 <? n then
      b ← load8 m csrc;
      m ← store8 m cdest b;
      Ok (Next (cdest + 1, csrc + 1, n - 1, m))
    else Ok (Done m)) (cdest, csrc, n, m).

Section realloc.
Context {P : Type} `{PageSource P}.

(** [real_size] is an [int]. *)
Definition calloc (fuel : nat) (ps : P) (h : heap) (m : mem) (nobj size : Z) : res (Z * P * heap * mem) :=
  let real_size := s32 (u64 (nobj * size)) in
  '(p, ps, h) ← malloc fuel ps h (u64 real_size);
  m ← liballoc_memset m p 0 (u64 real_size);
  Ok (p, ps, h, m).

Definition realloc (fuel : nat) (ps : P) (h : heap) (m : mem) (p sz : Z) : res (Z * P * heap * mem) :=
  if sz =? 0 then '(ps, h) ← free fuel ps h p; Ok (0, ps, h, m)
  else if p =? 0 then '(p, ps, h) ← malloc fuel ps h sz; Ok (p, ps, h, m)
  else
    let tag := p - sizeof_tag in
    let real_size := s32 (size h tag) in
    let real_size := if sz <? u64 real_size then s32 sz else real_size in
    '(ptr, ps, h) ← malloc fuel ps h sz;
    m ← liballoc_memcpy m ptr p (u64 real_size);
    '(ps, h) ← free fuel ps h p;
    Ok (ptr, ps, h, m).

(** *** alloc.c: the names the kernel uses *)

Definition kmalloc (fuel : nat) (ps : P) (h : heap) (size : Z) : res (Z * P * heap) := malloc fuel ps h size.
Definition kfree (fuel : nat) (ps : P) (h : heap) (ptr : Z) : res (P * heap) := free fuel ps h ptr.
Definition krealloc (fuel : nat) (ps : P) (h : heap) (m : mem) (ptr size : Z) : res (Z * P * heap * mem) :=
  realloc fuel ps h m ptr size.

(** One processor: the locks do nothing and report success. *)
Definition liballoc_lock : Z := 0.
Definition liballoc_unlock : Z := 0.
End realloc.

(** The pages a source hands out are mapped memory: [backed ps m] says so of the
    regions of [ps] and of all it may still hand out. *)
Class PageMemory (P : Type) `{PageSource P} := {
  backed : P → mem → Prop;
  backed_region ps m p n a :
    backed ps m → regions ps !! p = Some n → p ≤ a < p + n → is_Some (m !! a);
  backed_alloc ps m pages p ps' :
    backed ps m → liballoc_alloc ps pages = Some (p, ps') → backed ps' m;
  backed_free ps m p pages : backed ps m → backed (liballoc_free ps p pages) m;
  backed_mapped ps m m' :
    backed ps m → (∀ a, is_Some (m !! a) → is_Some (m' !! a)) → backed ps m'
}.

(** ** Lemmas *)

Lemma memset_correct m s c n :
  mapped m s n → is_byte c → Z.of_nat n < 2 ^ 31 →
  liballoc_memset m s c (Z.of_nat n) = Ok (write_bytes m s (replicate n c)).
Proof.
  intros Hm Hc Hn. unfold liballoc_memset. rewrite Nat2Z.id.
  assert (G : ∀ k i, (i + k = n)%nat →
    iter (S k) (λ '(i, m), if i <? Z.of_nat n then
        m ← store8 m (s + i) c; i ← int_ok (i + 1); Ok (Next (i, m)) else Ok (Done m))
      (Z.of_nat i, write_bytes m s (replicate i c)) = Ok (write_bytes m s (replicate n c))).
  { induction k as [|k IH]; intros i Hi; cbn [iter].
    - rewrite (proj2 (Z.ltb_ge _ _)) by lia. simpl_res. by replace i with n by lia.
    - rewrite (proj2 (Z.ltb_lt _ _)) by lia.
      rewrite store8_Ok by (done || apply write_bytes_mapped, Hm; lia). simpl_res.
      rewrite int_ok_Ok by lia. simpl_res.
      replace (Z.of_nat i + 1) with (Z.of_nat (S i)) by lia. rewrite <- (IH (S i)) by lia. do 2 f_equal.
      rewrite replicate_S_end, write_bytes_snoc, length_replicate. done. }
  by apply (G n 0%nat).
Qed.

(** The bytes of a source that the destination does not touch. *)
Lemma mapped_write m q n bs p : mapped m q n → mapped (write_bytes m p bs) q n.
Proof. intros Hm i Hi. by apply write_bytes_mapped, Hm. Qed.

Lemma memcpy_bytes fuel m q p bs :
  bytes_at m p bs → mapped m q (length bs) → Forall is_byte bs →
  p + Z.of_nat (length bs) ≤ q ∨ q + Z.of_nat (length bs) ≤ p → (length bs < fuel)%nat →
  iter fuel (λ '(cdest, csrc, n, m),
    if 0 <? n then
      b ← load8 m csrc;
      m ← store8 m cdest b;
      Ok (Next (cdest + 1, csrc + 1, n - 1, m))
    else Ok (Done m)) (q, p, Z.of_nat (length bs), m) = Ok (write_bytes m q bs).
Proof.
  revert fuel m q p. induction bs as [|b bs IH]; intros [|fuel] m q p Hb Hm Hby Hd Hf;
    cbn [iter length] in *; try lia; [done|].
  apply bytes_at_cons in Hb as [Hb1 Hb2]. apply Forall_cons in Hby as [Hby1 Hby2].
  rewrite (proj2 (Z.ltb_lt _ _)) by lia. rewrite (proj2 (load8_Ok _ _ _) Hb1). simpl_res.
  assert (Hq : is_Some (m !! q)) by (rewrite <- (Z.add_0_r q); apply (Hm 0%nat); lia).
  rewrite store8_Ok by done. simpl_res. replace (Z.of_nat (S (length bs)) - 1) with (Z.of_nat (length bs)) by lia.
  rewrite IH; [done| | |done|lia|lia].
  - intros i c Hi. apply lookup_lt_Some in Hi as Hl. rewrite lookup_insert_ne by lia. by apply Hb2.
  - intros i Hi. replace (q + 1 + Z.of_nat i) with (q + Z.of_nat (S i)) by lia.
    rewrite lookup_insert_ne by lia. apply (Hm (S i)). lia.
Qed.

Lemma memcpy_words fuel m q p ws bs :
  bytes_at m p (concat ws ++ bs) → mapped m q (length (concat ws)) → Forall is_byte (concat ws) →
  Forall (λ w, length w = 4%nat) ws → (length bs < 4)%nat →
  p + Z.of_nat (length (concat ws ++ bs)) ≤ q ∨ q + Z.of_nat (length (concat ws)) ≤ p → (length ws < fuel)%nat →
  iter fuel (λ '(ldest, lsrc, n, m),
    if 4 <=? n then
      w ← load32 m lsrc;
      m ← store32 m ldest w;
      Ok (Next (ldest + 4, lsrc + 4, n - 4, m))
    else Ok (Done (ldest, lsrc, n, m))) (q, p, Z.of_nat (length (concat ws ++ bs)), m) =
  Ok (q + Z.of_nat (length (concat ws)), p + Z.of_nat (length (concat ws)), Z.of_nat (length bs),
      write_bytes m q (concat ws)).
Proof.
  revert fuel m q p. induction ws as [|w ws IH]; intros [|fuel] m q p Hb Hm Hby Hw Hl Hd Hf;
    cbn [iter length concat app] in *; try lia.
  - rewrite (proj2 (Z.leb_gt _ _)) by lia. by rewrite !Z.add_0_r.
  - apply Forall_cons in Hw as [Hw Hws]. rewrite <- (assoc_L (++)) in *. rewrite !length_app in Hm, Hd |- *.
    apply bytes_at_app in Hb as [Hb1 Hb2]. apply Forall_app in Hby as [Hby1 Hby2].
    rewrite (proj2 (Z.leb_le _ _)) by lia.
    assert (E1 : load32 m p = Ok (le w)) by (unfold load32; rewrite <- Hw; by apply load_le_at).
    assert (E2 : store32 m q (le w) = Ok (write_bytes m q w)).
    { unfold store32. rewrite <- Hw. apply store_le_at; [|done]. intros i Hi. apply Hm. lia. }
    rewrite E1. simpl_res. rewrite E2. simpl_res. rewrite Hw in *. change (Z.of_nat 4) with 4 in *.
    replace (Z.of_nat (4 + length (concat ws ++ bs)) - 4) with (Z.of_nat (length (concat ws ++ bs))) by lia.
    rewrite IH; try done; [|apply bytes_at_write_disjoint; [done|]| | |]; rewrite ?length_app in *; try lia.
    + rewrite write_bytes_app, Hw. change (Z.of_nat 4) with 4. do 4 f_equal; lia.
    + intros i Hi. apply write_bytes_mapped. replace (q + 4 + Z.of_nat i) with (q + Z.of_nat (4 + i)) by lia.
      apply Hm. lia.
Qed.

(** Every list is whole words and a rest. *)
Lemma words_of (bs : list Z) :
  ∃ ws rest, bs = concat ws ++ rest ∧ Forall (λ w, length w = 4%nat) ws ∧ (length rest < 4)%nat.
Proof.
  remember (length bs) as k eqn:Ek. revert bs Ek. induction (lt_wf k) as [k _ IH]. intros bs ->.
  destruct (decide (length bs < 4)%nat) as [|Hge]; [by exists [], bs|].
  destruct (IH (length (drop 4 bs))) with (bs := drop 4 bs) as (ws & rest & E & Hw & Hr);
    [rewrite length_drop; lia|done|].
  exists (take 4 bs :: ws), rest. cbn [concat]. rewrite <- (assoc_L (++)), <- E, take_drop.
  split_and!; [done| |done]. apply Forall_cons. split; [rewrite length_take; lia|done].
Qed.

Lemma memcpy_correct m q p bs :
  bytes_at m p bs → mapped m q (length bs) → Forall is_byte bs →
  p + Z.of_nat (length bs) ≤ q ∨ q + Z.of_nat (length bs) ≤ p →
  liballoc_memcpy m q p (Z.of_nat (length bs)) = Ok (write_bytes m q bs).
Proof.
  intros Hb Hm Hby Hd. unfold liballoc_memcpy. rewrite Nat2Z.id.
  destruct (words_of bs) as (ws & rest & -> & Hw & Hr). rewrite !length_app in *.
  assert (Hlen : (length ws ≤ length (concat ws))%nat).
  { clear -Hw. induction Hw as [|w ws Hw _ IH]; cbn [concat length]; rewrite ?length_app; lia. }
  apply Forall_app in Hby as [Hby1 Hby2]. rewrite <- length_app, (memcpy_words _ m q p ws rest); try done;
    try (rewrite ?length_app; lia); [|intros i Hi; apply Hm; lia].
  simpl_res. apply bytes_at_app in Hb as [Hb1 Hb2]. rewrite Nat2Z.id, memcpy_bytes; try done; try lia.
  - by rewrite write_bytes_app.
  - apply bytes_at_write_disjoint; [done|lia].
  - intros i Hi. apply write_bytes_mapped.
    replace (q + Z.of_nat (length (concat ws)) + Z.of_nat i) with (q + Z.of_nat (length (concat ws) + i)) by lia.
    apply Hm. lia.
Qed.

(** How much realloc copies. *)
Lemma copied_length old sz :
  0 ≤ old < 2 ^ 31 → 0 < sz < 2 ^ 31 →
  u64 (if sz <? u64 (s32 old) then s32 sz else s32 old) = Z.min old sz.
Proof.
  intros Ho Hs. assert (Es : s32 old = old) by (apply swrap_small; lia).
  assert (Eu : u64 old = old) by (apply wrap_small; lia). rewrite Es, Eu. destruct (Z.ltb_spec sz old).
  - assert (s32 sz = sz) as -> by (apply swrap_small; lia). unfold u64. rewrite wrap_small; lia.
  - rewrite Eu. lia.
Qed.

Section page_memory.
Context {P : Type} `{PageMemory P}.
Implicit Types (ps : P) (h : heap) (L : gset Z).

Lemma live_mapped ps h L m p n k :
  backed ps m → heap_inv ps h L → live h L p n → k ≤ n → mapped m p (Z.to_nat k).
Proof.
  intros Hb [HB _ _ _] (Hin & _ & ->) Hk i Hi.
  destruct (inv_region _ _ _ HB _ Hin) as (r & w & (Hr & Hlo & Hhi) & _).
  eapply backed_region; [done..|]. unfold sizeof_tag in *. lia.
Qed.

Lemma backed_malloc ps ps' m n :
  backed ps m → ps' = ps ∨ (∃ a, liballoc_alloc ps n = Some (a, ps')) → backed ps' m.
Proof. intros Hb [->|[a Ha]]; [done|by eapply backed_alloc]. Qed.

Lemma backed_released ps ps' m :
  backed ps m → ps' = ps ∨ (∃ a k, ps' = liballoc_free ps a k) → backed ps' m.
Proof. intros Hb [->|(a & k & ->)]; [done|by apply backed_free]. Qed.

(** [calloc] of liballoc clears through NULL when there are no pages. *)
Lemma calloc_spec ps h L m fuel nobj sz :
  heap_inv ps h L → (base.size L < fuel)%nat → backed ps m → m !! 0 = None →
  0 ≤ nobj * sz < 2 ^ 30 →
  ∃ ps' h' L', heap_inv ps' h' L' ∧ (base.size L' ≤ S (S (base.size L)))%nat ∧ backed ps' m ∧
    (liballoc_alloc ps (pages_for (nobj * sz)) = None ∧ (∀ q k, live h' L' q k ↔ live h L q k) ∧
       calloc fuel ps h m nobj sz = (if nobj * sz =? 0 then Ok (0, ps', h', m) else Err Undefined) ∨
     ∃ p k, nobj * sz ≤ k ∧ granted h L p k h' L' ∧ mapped m p (Z.to_nat (nobj * sz)) ∧
       calloc fuel ps h m nobj sz =
         Ok (p, ps', h', write_bytes m p (replicate (Z.to_nat (nobj * sz)) 0))).
Proof.
  intros Hi Hf Hb Hnull Hn. unfold calloc. cbv zeta. set (n := nobj * sz) in *.
  assert (E1 : s32 (u64 n) = n) by (unfold u64; rewrite wrap_small by lia; apply swrap_small; lia).
  assert (E2 : u64 n = n) by (apply wrap_small; lia). rewrite E1, E2.
  destruct (malloc_spec ps h L n fuel) as (p & ps' & h' & L' & -> & Hi' & Hsz & Hps & Hcase); [done|lia|done|].
  simpl_res. exists ps', h', L'. pose proof (backed_malloc _ _ _ _ Hb Hps) as Hb'.
  split; [done|]. split; [done|]. split; [done|].
  assert (En : n = Z.of_nat (Z.to_nat n)) by lia.
  destruct Hcase as [(-> & Ha & Hl)|(_ & k & Hk & Hg)]; [left|right].
  - split; [done|]. split; [done|]. destruct (Z.eqb_spec n 0) as [->|Hne]; [done|].
    unfold liballoc_memset. cbn [iter]. rewrite (proj2 (Z.ltb_lt 0 n)) by lia.
    unfold store8. change (0 + 0) with 0. by rewrite Hnull.
  - exists p, k. pose proof Hg as (_ & Hl & _).
    assert (Hm : mapped m p (Z.to_nat n)) by (eapply live_mapped; [done..|apply Hl; by right|done]).
    split; [done|]. split; [done|]. split; [done|]. rewrite En at 1.
    rewrite memset_correct by (done || lia). done.
Qed.
End page_memory.

Section blocks.
Context {P : Type} `{PageSource P}.
Implicit Types (ps : P) (h : heap) (L : gset Z).

(** [realloc] on a live block of recorded size [size h tag], when [malloc]
    finds a new block. *)
Lemma realloc_spec ps h L fuel m p n sz bs q ps1 h1 :
  heap_inv ps h L → live h L p n → 0 < sz < 2 ^ 30 → (base.size L < fuel)%nat → (2 ≤ fuel)%nat → p ≠ 0 →
  0 ≤ LibAlloc.size h (p - sizeof_tag) ≤ n → LibAlloc.size h (p - sizeof_tag) < 2 ^ 31 →
  bytes_at m p bs → Forall is_byte bs → Z.of_nat (length bs) = Z.min (LibAlloc.size h (p - sizeof_tag)) sz →
  malloc fuel ps h sz = Ok (q, ps1, h1) → q ≠ 0 → mapped m q (Z.to_nat sz) →
  ∃ ps' h' L' k, realloc fuel ps h m p sz = Ok (q, ps', h', write_bytes m q bs) ∧
    heap_inv ps' h' L' ∧ sz ≤ k ∧
    (∀ r j, live h' L' r j ↔ (live h L r j ∧ r ≠ p) ∨ (r = q ∧ j = k)) ∧
    LibAlloc.size h' (q - sizeof_tag) = sz ∧ (base.size L' ≤ S (S (base.size L)))%nat ∧
    (ps' = ps1 ∨ ∃ a j, ps' = liballoc_free ps1 a j).
Proof.
  intros Hi Hl Hs Hf Hf2 Hp Hsz Hsz2 Hb Hby Hlen E Hq Hm. unfold realloc.
  rewrite !(proj2 (Z.eqb_neq _ _)) by lia. cbv zeta.
  set (old := LibAlloc.size h (p - sizeof_tag)) in *.
  destruct (malloc_spec ps h L sz fuel) as (q0 & ps0 & h0 & L1 & E0 & Hi1 & Hsize1 & _ & Hcase); [done|lia|done|].
  rewrite E in E0. injection E0 as <- <- <-.
  destruct Hcase as [[-> _]|(Esz & k & Hk & Hq0 & Hlive & Hdisj)]; [done|].
  pose proof (copied_length old sz ltac:(lia) ltac:(lia)) as Ea. rewrite <- Hlen in Ea.
  rewrite Ea, E. simpl_res. rewrite memcpy_correct; [|done|intros i Hi'; apply Hm; lia|done|].
  2: { destruct (Hdisj p n Hl); lia. }
  simpl_res.
  destruct (free_spec ps1 h1 L1 p n fuel) as (ps2 & h2 & L2 & Ef & Hi2 & Hlive2 & Hsub & Hps);
    [done|apply Hlive; by left|done|]. rewrite Ef. simpl_res. pose proof (subseteq_size _ _ Hsub).
  exists ps2, h2, L2, k. split_and!; [done|done|done| |by rewrite (free_size _ _ _ _ _ _ Ef)|lia|done]. intros r j. rewrite Hlive2, Hlive.
  split; [intros [[Hr|[-> ->]] Hne]; [by left|by right]|].
  intros [[Hr Hne]|[-> ->]]; [by split; [left|]|]. split; [by right|].
  intros ->. assert (H1 : live h1 L1 p n) by (apply Hlive; by left).
  assert (H2 : live h1 L1 p k) by (apply Hlive; by right).
  destruct H1 as (_ & _ & ->), H2 as (_ & _ & ->). destruct (Hdisj p _ Hl); lia.
Qed.
End blocks.

(** ** Theorems *)

(** C35: When a new block is found, realloc returns it with the first bytes of
    the old one (as many as fit both), releases the old block, keeps the heap
    invariant and leaves all other blocks live. *)
Theorem realloc_moves {P : Type} `{PageSource P} (ps : P) h L fuel m p n sz bs q ps1 h1 :
  heap_inv ps h L → live h L p n → 0 < sz < 2 ^ 30 → (base.size L < fuel)%nat → (2 ≤ fuel)%nat → p ≠ 0 →
  0 ≤ LibAlloc.size h (p - sizeof_tag) ≤ n → LibAlloc.size h (p - sizeof_tag) < 2 ^ 31 →
  bytes_at m p bs → Forall is_byte bs → Z.of_nat (length bs) = Z.min (LibAlloc.size h (p - sizeof_tag)) sz →
  malloc fuel ps h sz = Ok (q, ps1, h1) → q ≠ 0 → mapped m q (Z.to_nat sz) →
  ∃ ps' h' L' m' k, realloc fuel ps h m p sz = Ok (q, ps', h', m') ∧
    heap_inv ps' h' L' ∧ bytes_at m' q bs ∧ sz ≤ k ∧
    ∀ r j, live h' L' r j ↔ (live h L r j ∧ r ≠ p) ∨ (r = q ∧ j = k).
Proof.
  intros Hi Hl Hs Hf Hf2 Hp Hsz Hsz2 Hb Hby Hlen E Hq Hm.
  destruct (realloc_spec ps h L fuel m p n sz bs q ps1 h1) as (ps' & h' & L' & k & E' & Hi' & Hk & Hl' & _);
    try done. exists ps', h', L', (write_bytes m q bs), k. split_and!; try done. apply write_bytes_at.
Qed.

(** When [malloc] finds nothing, realloc copies to NULL. *)
Lemma realloc_no_memory {P : Type} `{PageSource P} (ps : P) h fuel m p sz bs ps1 h1 :
  0 < sz < 2 ^ 31 → p ≠ 0 → bytes_at m p bs → Forall is_byte bs → (4 ≤ length bs)%nat →
  Z.of_nat (length bs) = Z.min (LibAlloc.size h (p - sizeof_tag)) sz →
  LibAlloc.size h (p - sizeof_tag) < 2 ^ 31 → malloc fuel ps h sz = Ok (0, ps1, h1) → m !! 0 = None →
  realloc fuel ps h m p sz = Err Undefined.
Proof.
  intros Hs Hp Hb Hby Hl Hlen Hsz E H0. unfold realloc. rewrite !(proj2 (Z.eqb_neq _ _)) by lia. cbv zeta.
  set (old := LibAlloc.size h (p - sizeof_tag)) in *.
  pose proof (copied_length old sz ltac:(lia) ltac:(lia)) as Ea. rewrite <- Hlen in Ea.
  rewrite Ea, E. simpl_res. unfold liballoc_memcpy. cbn [iter]. rewrite (proj2 (Z.leb_le _ _)) by lia.
  assert (E1 : load32 m p = Ok (le (take 4 bs))).
  { rewrite <- (take_drop 4 bs) in Hb. apply bytes_at_app in Hb as [Hb _].
    pose proof (load_le_at _ _ _ Hb) as E1. rewrite length_take, Nat.min_l in E1 by lia. exact E1. }
  rewrite E1. simpl_res. unfold store32. cbn [store_le]. unfold store8. by rewrite H0.
Qed.

(** *** Witnesses *)

(** A block of 100 bytes at 4144; the next region starts at 69632. *)
Definition demo_data : mem := write_bytes (write_bytes ∅ 4144 (replicate 100 7)) 69680 (replicate 200 0).
Definition demo_pages : page_bump := PageBump (4096 + 65536) {[4096 := 65536]}.

Lemma realloc_moves_witness :
  ∃ ps' h' L' m' k, realloc 2 demo_pages heap1 demo_data 4144 200 = Ok (69680, ps', h', m') ∧
    heap_inv ps' h' L' ∧ bytes_at m' 69680 (replicate 100 7) ∧ 200 ≤ k ∧
    ∀ r j, live h' L' r j ↔ (live heap1 ({[4096]} ∪ ∅) r j ∧ r ≠ 4144) ∨ (r = 69680 ∧ j = k).
Proof.
  destruct (malloc 2 demo_pages heap1 200) as [[[q ps1] h1]|] eqn:E; [|by vm_compute in E].
  assert (q = 69680) as -> by (vm_compute in E; congruence).
  refine (realloc_moves demo_pages heap1 ({[4096]} ∪ ∅) 2 demo_data 4144 65488 200 (replicate 100 7) 69680 ps1 h1
    heap1_inv _ _ _ _ _ _ _ _ _ _ E _ _); try lia;
    try match goal with
    | |- live _ _ _ _ => by vm_compute
    | |- (_ < _)%nat => by vm_compute
    | |- context [LibAlloc.size] => by vm_compute
    end.
  - apply bytes_at_write_disjoint; [apply write_bytes_at|]. rewrite !length_replicate. lia.
  - apply Forall_replicate. by unfold is_byte.
  - apply (bytes_at_mapped _ _ (replicate 200 0)), write_bytes_at.
Defined.

(** Pages taken one after the other from [pool_next] on, up to [pool_end]. *)
Record page_pool := PagePool { pool_next : Z; pool_end : Z; pool_map : gmap Z Z }.

Definition pool_pages (s : page_pool) (pages : Z) : option (Z * page_pool) :=
  let p := pool_next s in
  if decide (4096 ≤ p ∧ p + 4096 * pages ≤ pool_end s ∧ pool_end s ≤ 2 ^ 64 ∧ map_Forall (λ q n, q + n ≤ p) (pool_map s))
  then Some (p, PagePool (p + 4096 * pages) (pool_end s) (<[p := 4096 * pages]> (pool_map s)))
  else None.

#[export, refine] Instance pool_source : PageSource page_pool := {|
  liballoc_alloc := pool_pages;
  liballoc_free s p pages := PagePool (pool_next s) (pool_end s) (delete p (pool_map s));
  regions := pool_map
|}.
Proof.
  - unfold pool_pages. intros s pages p s' Hs Hp. case_decide as Hd; [|done]. simplify_eq.
    destruct Hd as (? & ? & ? & Hd). split_and!; try done; try lia.
    intros q n Hq. left. exact (Hd q n Hq).
  - done.
Defined.

#[export, refine] Instance pool_memory : PageMemory page_pool := {|
  backed s m := (∀ a, 4096 ≤ a < pool_end s → is_Some (m !! a)) ∧
    map_Forall (λ q n, 4096 ≤ q ∧ q + n ≤ pool_end s) (pool_map s)
|}.
Proof.
  - intros s m p n a [Hm Hr] Hp Ha. destruct (Hr p n Hp). apply Hm. lia.
  - cbn. unfold pool_pages. intros s m pages p s' [Hm Hr] Hs. case_decide as Hd; [|done]. simplify_eq.
    split; [done|]. apply map_Forall_insert_2; [cbn in *; lia|done].
  - intros s m p pages [Hm Hr]. split; [done|]. by apply map_Forall_delete.
  - intros s m m' [Hm Hr] Hd. split; [|done]. intros a Ha. by apply Hd, Hm.
Defined.
