(* ===== verification/KernelHeap.v ===== *)
(** * The heap of the kernel behind the allocator interface

    lethe-utils is linked against the [malloc], [calloc] and [free] of the
    kernel, which are those of liballoc (LibAlloc.v, Realloc.v).  This file
    proves that they have the laws of the class [AllocatorLaws] (Heap.v), against
    which the hash map is proved, for any page source that hands out mapped
    memory, and composes the two: a map built, filled and searched in the heap
    of the kernel, and what happens when there are no pages left: [malloc]
    returns NULL, [calloc] clears through it. *)
From S2P Require Import Prelude LibString Heap HashMap LibAlloc Realloc.

(** ** Definitions *)

(** The state of liballoc: its page source and its tags.  [rounds] is no data of
    the program: it bounds the rounds of the search along a free list, by more
    than there are tags. *)
Record liballoc (P : Type) := Liballoc { source : P; tags : LibAlloc.heap; rounds : nat }.
Arguments Liballoc {P} _ _ _.
Arguments source {P} _.
Arguments tags {P} _.
Arguments rounds {P} _.

Section kernel_heap.
Context {P : Type} `{PageSource P}.

(** A request makes at most two new tags. *)
Definition heap_malloc (st : liballoc P) (n : Z) : res (Z * liballoc P) :=
  '(p, ps, h) ← LibAlloc.malloc (rounds st) (source st) (tags st) n;
  Ok (p, Liballoc ps h (S (S (rounds st)))).

Definition heap_calloc (st : liballoc P) (m : mem) (nobj size : Z) : res (Z * liballoc P * mem) :=
  '(p, ps, h, m) ← Realloc.calloc (rounds st) (source st) (tags st) m nobj size;
  Ok (p, Liballoc ps h (S (S (rounds st))), m).

(** The merge loops of [free] take two rounds each at most. *)
Definition heap_free (st : liballoc P) (p : Z) : res (liballoc P) :=
  '(ps, h) ← LibAlloc.free 2 (source st) (tags st) p;
  Ok (Liballoc ps h (rounds st)).

#[export] Instance kernel_heap : Allocator (liballoc P) := {|
  Heap.malloc := heap_malloc;
  Heap.calloc := heap_calloc;
  Heap.free := heap_free
|}.
End kernel_heap.

Section kernel_laws.
Context {P : Type} `{PageMemory P}.
Implicit Types (st : liballoc P) (m : mem) (L : gset Z).

(** Memory behind NULL is not mapped. *)
Definition kheap_ok st m : Prop :=
  (∃ L, heap_inv (source st) (tags st) L ∧ (base.size L < rounds st)%nat) ∧ backed (source st) m ∧ m !! 0 = None.

(** A block of [k] bytes is also one of any smaller size. *)
Definition klive st (p n : Z) : Prop :=
  ∃ L k, heap_inv (source st) (tags st) L ∧ LibAlloc.live (tags st) L p k ∧ n ≤ k.

(** ** Lemmas *)

Lemma klive_tags st L p n :
  heap_inv (source st) (tags st) L → klive st p n → ∃ k, LibAlloc.live (tags st) L p k ∧ n ≤ k.
Proof. intros Hi (L2 & k & Hi2 & Hl & Hk). rewrite (tags_unique _ _ _ _ Hi Hi2). eauto. Qed.

Lemma granted_klive st st' L L' p k n :
  heap_inv (source st) (tags st) L → heap_inv (source st') (tags st') L' → n ≤ k →
  granted (tags st) L p k (tags st') L' →
  (∀ q j, klive st q j → klive st' q j) ∧ new_object klive st p n st'.
Proof.
  intros Hi Hi' Hk (Hp & Hl & Hd). split.
  - intros q j (k' & Hq & Hj)%(klive_tags _ _ _ _ Hi). exists L', k'. split_and!; [done| |done].
    apply Hl. by left.
  - split; [done|]. split.
    + exists L', k. split_and!; [done| |done]. apply Hl. by right.
    + intros q j (k' & Hq & Hj)%(klive_tags _ _ _ _ Hi). destruct (Hd q k' Hq); lia.
Qed.

Lemma same_klive st st' L L' :
  heap_inv (source st) (tags st) L → heap_inv (source st') (tags st') L' →
  (∀ q k, LibAlloc.live (tags st') L' q k ↔ LibAlloc.live (tags st) L q k) →
  ∀ q j, klive st q j → klive st' q j.
Proof.
  intros Hi Hi' Hl q j (k & Hq & Hj)%(klive_tags _ _ _ _ Hi). exists L', k. split_and!; [done| |done]. by apply Hl.
Qed.

Lemma heap_malloc_spec st m n :
  kheap_ok st m → 0 ≤ n < 2 ^ 30 →
  ∃ p st', heap_malloc st n = Ok (p, st') ∧ kheap_ok st' m ∧ (∀ q k, klive st q k → klive st' q k) ∧
    (p = 0 ∧ liballoc_alloc (source st) (pages_for n) = None ∨ new_object klive st p n st').
Proof.
  intros ((L & Hi & Hf) & Hb & Hnull) Hn. unfold heap_malloc.
  destruct (malloc_spec (source st) (tags st) L n (rounds st))
    as (p & ps & h & L' & -> & Hi' & Hsz & Hps & Hcase); [done..|]. simpl_res.
  eexists p, _. split; [done|]. split.
  { split; [exists L'; split; [done|cbn; lia]|]. split; [by eapply backed_malloc|done]. }
  destruct Hcase as [(-> & Ha & Hl)|(_ & k & Hk & Hg)].
  - split; [by eapply same_klive|by left].
  - destruct (granted_klive st (Liballoc ps h (S (S (rounds st)))) L L' p k n Hi Hi' Hk Hg) as [? ?]. auto.
Qed.

Lemma heap_calloc_spec st m nobj size :
  kheap_ok st m → 0 ≤ nobj * size < 2 ^ 30 →
  match heap_calloc st m nobj size with
  | Ok (p, st', m') =>
      kheap_ok st' m' ∧ (∀ q k, klive st q k → klive st' q k) ∧
      (p = 0 ∧ m' = m ∧ nobj * size = 0 ∨
       new_object klive st p (nobj * size) st' ∧ bytes_at m' p (replicate (Z.to_nat (nobj * size)) 0) ∧
       ∀ q bs, klive st q (Z.of_nat (length bs)) → bytes_at m q bs → bytes_at m' q bs)
  | Err e => e = Undefined ∧ liballoc_alloc (source st) (pages_for (nobj * size)) = None
  end.
Proof.
  intros ((L & Hi & Hf) & Hb & Hnull) Hn. unfold heap_calloc.
  destruct (calloc_spec (source st) (tags st) L m (rounds st) nobj size Hi Hf Hb Hnull Hn)
    as (ps & h & L' & Hi' & Hsz & Hb' & [(Ha & Hl & ->)|(p & k & Hk & Hg & Hm & ->)]).
  - destruct (Z.eqb_spec (nobj * size) 0) as [E|E]; simpl_res; [|done].
    split; [|split; [by eapply same_klive|by left]].
    split; [exists L'; split; [done|cbn; lia]|done].
  - simpl_res. destruct (granted_klive st (Liballoc ps h (S (S (rounds st)))) L L' p k (nobj * size) Hi Hi' Hk Hg) as [Hl Hnew].
    assert (Hd : same_domain m (write_bytes m p (replicate (Z.to_nat (nobj * size)) 0))).
    { apply same_domain_write. by rewrite length_replicate. }
    split; [|split; [done|right]].
    + split; [exists L'; split; [done|cbn; lia]|]. split; [eapply backed_mapped; [done|]; intros a; apply Hd|].
      apply eq_None_not_Some. rewrite <- (Hd 0), Hnull. by intros [? ?].
    + split; [done|]. split; [apply write_bytes_at|]. intros q bs Hq Hbs.
      apply bytes_at_write_disjoint; [done|]. destruct Hnew as (_ & _ & Hdis).
      pose proof (Hdis _ _ Hq). rewrite length_replicate. lia.
Qed.

Lemma heap_free_spec st m p n :
  kheap_ok st m → klive st p n →
  ∃ st', heap_free st p = Ok st' ∧ kheap_ok st' m ∧ ∀ q k, klive st q k → q ≠ p → klive st' q k.
Proof.
  intros ((L & Hi & Hf) & Hb & Hnull) (k & Hp & Hk)%(klive_tags _ _ _ _ Hi). unfold heap_free.
  destruct (free_spec _ _ _ p k 2 Hi Hp) as (ps & h & L' & -> & Hi' & Hl & Hsub & Hps); [done|]. simpl_res.
  pose proof (subseteq_size _ _ Hsub). eexists. split; [done|]. split.
  - split; [exists L'; split; [done|cbn; lia]|]. split; [by eapply backed_released|done].
  - intros q j (k' & Hq & Hj)%(klive_tags _ _ _ _ Hi) Hne. exists L', k'. split_and!; [done| |done]. by apply Hl.
Qed.

(** liballoc implements the interface its clients are proved against, for
    requests below a GiB: [malloc] converts to [unsigned int], [calloc] to
    [int]. *)
#[export, refine] Instance kernel_laws : AllocatorLaws (liballoc P) := {|
  Heap.alloc_ok := kheap_ok;
  Heap.live := klive;
  Heap.max_request := 2 ^ 30 - 1
|}.
Proof.
  - done.
  - intros st p n (L & k & [Hb _ _ _] & (Hin & _ & ->) & Hk).
    destruct (inv_block _ _ _ Hb _ Hin) as (Hpos & _).
    destruct (inv_region _ _ _ Hb _ Hin) as (r & m & (Hr & _ & Hle) & _).
    destruct (inv_regions _ _ _ Hb _ _ Hr) as (_ & _ & Hend). unfold sizeof_tag in *. lia.
  - intros st m m' (Hi & Hb & Hnull) Hd. split; [done|]. split; [eapply backed_mapped; [done|]; intros a; apply Hd|].
    apply eq_None_not_Some. rewrite <- (Hd 0), Hnull. by intros [? ?].
  - intros st m n Hok Hn. destruct (heap_malloc_spec st m n Hok) as (p & st' & ? & ? & ? & Hcase); [lia|].
    exists p, st'. split_and!; [done..|]. by destruct Hcase as [[-> _]|?]; [left|right].
  - intros st m nobj size p st' m' Hok Hn _ _ E. pose proof (heap_calloc_spec st m nobj size Hok ltac:(lia)) as Hs.
    cbn in E. rewrite E in Hs. destruct Hs as (? & ? & [(? & ? & _)|?]); auto.
  - intros st m p n Hok Hp _. by eapply heap_free_spec.
Defined.

(** ** Properties *)

(** C10: the hash map in the heap of the kernel: from any state of liballoc that
    satisfies its invariant, [hm_create] followed by fewer than 2^23 [hm_set]s
    of live keys terminates.  When it comes to its end every key has been set:
    [hm_get] answers for every key what the finite map of all insertions does,
    liballoc satisfies its invariant again, and every block that was live
    before is still live with the same bytes.  [hm_create] returns NULL,
    without a change, only when the page source has no pages for the map; and
    the behaviour is undefined only at a request of [calloc] (for a table or for
    the copy of a new key) for which the page source has no pages, since
    [calloc] then clears through NULL. *)
Theorem kernel_hash_map st L m (kvs : list (Z * Z)) (bs : list (list Z * Z)) :
  heap_inv (source st) (tags st) L → (base.size L < rounds st)%nat → backed (source st) m → m !! 0 = None →
  Forall2 (key_binds st m) kvs bs → Z.of_nat (length kvs) < 2 ^ 23 →
  match hm_create st m with
  | Ok (st0, m0, None) =>
      liballoc_alloc (source st) (pages_for 24) = None ∧ m0 = m ∧ ∀ q n, klive st q n → 0 < n → klive st0 q n
  | Ok (st0, m0, Some map) =>
      match hm_set_all st0 m0 map kvs with
      | Ok (rs, st', m', map') =>
          length rs = length kvs ∧ Forall (λ r, r ≠ 0) rs ∧
          (∃ L', heap_inv (source st') (tags st') L') ∧
          (∀ key k, bytes_at m' key k → length k = 4%nat →
             hm_get m' map' key = Ok (default 0 (insert_all ∅ bs !! k))) ∧
          ∀ q b, klive st q (Z.of_nat (length b)) → b ≠ [] → bytes_at m q b →
            klive st' q (Z.of_nat (length b)) ∧ bytes_at m' q b
      | Err e => e = Undefined ∧
          stops_at st0 m0 map ∅ kvs bs (λ st2 _ n s, liballoc_alloc (source st2) (pages_for (n * s)) = None)
      end
  | Err e => e = Undefined ∧
      ∃ p st1, Heap.malloc st 24 = Ok (p, st1) ∧ liballoc_alloc (source st1) (pages_for 64) = None
  end.
Proof.
  intros Hi Hf Hb Hnull HF Hlen. assert (Hok : kheap_ok st m) by (split; [by exists L|done]).
  pose proof (hm_create_spec st m Hok) as Hc.
  destruct (hm_create st m) as [[[st0 m0] [map|]]|e] eqn:Ec.
  3:{ destruct Hc as (p & st1 & Em & _ & Hok1 & E1).
      pose proof (heap_calloc_spec st1 m INITIAL_CAPACITY 16 Hok1 ltac:(unfold INITIAL_CAPACITY; lia)) as Hs.
      cbn in E1. rewrite E1 in Hs. destruct Hs as [-> Ha]. split; [done|]. by exists p, st1. }
  2:{ destruct Hc as (_ & Hkeep & -> & Hcase). split; [|split; [done|by intros q n Hq Hn; apply Hkeep]].
      destruct (heap_malloc_spec st m 24 Hok) as (p & st' & Em & Hok' & _ & Hnew); [lia|].
      destruct Hcase as [E0|(p1 & st1 & st2 & E1 & Hok1 & E2)].
      - cbn in E0. rewrite Em in E0. injection E0 as -> ->. by destruct Hnew as [[_ ?]|[? _]].
      - pose proof (heap_calloc_spec st1 m INITIAL_CAPACITY 16 Hok1 ltac:(unfold INITIAL_CAPACITY; lia)) as Hs.
        cbn in E2. rewrite E2 in Hs. by destruct Hs as (_ & _ & [(_ & _ & ?)|([? _] & _)]). }
  destruct Hc as (Hok0 & Hkeep & Hm & Hcap & Hne).
  pose proof (hm_set_all_spec (Z.of_nat (length kvs)) kvs st0 m0 map ∅ bs) as Hs.
  rewrite map_size_empty in Hs.
  specialize (Hs ltac:(lia) ltac:(cbn; lia) ltac:(lia) ltac:(lia) Hm).
  assert (HF0 : Forall2 (key_binds st0 m0) kvs bs).
  { eapply Forall2_impl; [exact HF|]. intros kv b (Hl & Hbb & Hlb & Hrest).
    destruct (Hkeep _ _ Hl eq_refl) as [Hl' Hb']. split; [done|]. split; [|done].
    apply Hb'; [by rewrite Hlb|done]. }
  assert (Hne0 : Forall (λ kv, kv.1 ≠ entries_ptr map) kvs).
  { clear -HF Hne. induction HF as [|kv b ? ? [Hl _]]; constructor; [by apply (Hne _ _ Hl)|done]. }
  specialize (Hs HF0 Hne0). destruct (hm_set_all st0 m0 map kvs) as [[[[rs st'] m'] map']|e].
  2:{ assert (Hstop : ∀ st m n s, calloc_fails e st m n s →
        e = Undefined ∧ liballoc_alloc (source st) (pages_for (n * s)) = None).
      { intros st2 m2 n s (Hok2 & Hn & _ & _ & E2). pose proof (heap_calloc_spec st2 m2 n s Hok2) as Hs2.
        cbn in E2, Hn. rewrite E2 in Hs2. apply Hs2. lia. }
      split.
      - destruct Hs as (? & ? & ? & ? & ? & ? & ? & ? & ? & ? & st2 & m2 & n & s & _ & _ & _ & _ & _ & Hr).
        by apply (Hstop _ _ _ _ Hr).
      - eapply stops_at_mono; [|exact Hs]. intros st2 m2 n s Hr. by apply (Hstop _ _ _ _ Hr). }
  destruct Hs as (Hrl & Hm' & Hall & Hk).
  assert (Hrs : Forall (λ r, r ≠ 0) rs).
  { apply Hall. intros st2 m2 n s st3 Hok2 Hn _ _ E2.
    pose proof (heap_calloc_spec st2 m2 n s Hok2) as Hs2. cbn in E2, Hn. rewrite E2 in Hs2.
    destruct Hs2 as (_ & _ & [(_ & _ & ?)|([? _] & _)]); lia. }
  pose proof Hm' as [T HT]. pose proof (rep_alloc _ _ _ _ _ HT) as ((L' & HL' & _) & _).
  split_and!; [done|done|by exists L'| |].
  - intros key k Hbk Hlk. rewrite <- (bind_all_set ∅ bs rs); [|done|].
    + by apply (hm_get_spec st' m' map' T).
    + rewrite Hrl. by eapply Forall2_length.
  - intros q b Hq Hbn Hqb. assert (0 < Z.of_nat (length b)) by (destruct b; [done|cbn; lia]).
    destruct (Hkeep q _ Hq) as [Hq0 Hb0]; [done|].
    destruct (Hk q _ Hq0) as [Hq' Hb']; [done|by eapply Hne|]. auto.
Qed.
End kernel_laws.

(** *** Witness *)

(** A pool of four regions; the block of 65488 bytes of the first is in use, with
    a key in it. *)
Definition key_pool : page_pool := PagePool (4096 + 65536) (4096 + 4 * 65536) {[4096 := 65536]}.
Definition key_heap : liballoc page_pool := Liballoc key_pool heap1 2.

Lemma key_heap_inv : heap_inv key_pool heap1 ({[4096]} ∪ ∅).
Proof.
  destruct heap1_inv as [[] [] ? ?]. split; [by split|by split|done|done].
Qed.

Definition pool_bytes : nat := Z.to_nat 262144.

Definition key_mem : mem := write_bytes (write_bytes ∅ 4096 (replicate pool_bytes 0)) 4144 [95; 80; 84; 83].

Lemma key_mem_lookup a : is_Some (key_mem !! a) ↔ 4096 ≤ a < 4096 + 262144.
Proof.
  unfold key_mem. assert (En : Z.of_nat pool_bytes = 262144) by (apply Z2Nat.id; lia).
  revert En. generalize pool_bytes. intros n En.
  rewrite !write_bytes_lookup, length_replicate, En. cbn [length].
  case_decide as H1; [|case_decide as H2].
  - split; [lia|]. intros _. apply lookup_lt_is_Some_2. cbn. lia.
  - split; [lia|]. intros _. apply lookup_lt_is_Some_2. rewrite length_replicate. lia.
  - rewrite lookup_empty. split; [by intros [? ?]|lia].
Qed.

Lemma key_bound : key_binds key_heap key_mem (4144, 7) ([95; 80; 84; 83], 7).
Proof.
  split; [|split; [apply write_bytes_at|]].
  - exists ({[4096]} ∪ ∅), 65488. split; [exact key_heap_inv|]. split; [|done].
    split_and!; [vm_compute; set_solver|reflexivity|reflexivity].
  - split_and!; [done|repeat constructor; by vm_compute|done..].
Qed.

(** The run on the part of the memory it touches, each block in a region of its
    own: the key is copied once, and found again. *)
Example key_heap_run :
  match hm_create key_heap (write_bytes (write_bytes (write_bytes ∅ 4144 [95; 80; 84; 83])
    135216 (replicate 64 0)) 200752 (replicate 4 0)) with
  | Ok (st, m, Some map) =>
      match hm_set_all st m map [(4144, 7); (4144, 9)] with
      | Ok (rs, _, m, map) => rs = [200752; 200752] ∧ hm_get m map 4144 = Ok 9
      | Err _ => False
      end
  | _ => False
  end.
Proof. vm_compute. done. Qed.

Lemma kernel_hash_map_witness :
  match hm_create key_heap key_mem with
  | Ok (st0, m0, None) =>
      liballoc_alloc key_pool (pages_for 24) = None ∧ m0 = key_mem ∧ ∀ q n, klive key_heap q n → 0 < n → klive st0 q n
  | Ok (st0, m0, Some map) =>
      match hm_set_all st0 m0 map [(4144, 7)] with
      | Ok (rs, st', m', map') =>
          length rs = 1%nat ∧ Forall (λ r, r ≠ 0) rs ∧
          (∃ L', heap_inv (source st') (tags st') L') ∧
          (∀ key k, bytes_at m' key k → length k = 4%nat →
             hm_get m' map' key = Ok (default 0 (insert_all ∅ [([95; 80; 84; 83], 7)] !! k))) ∧
          ∀ q b, klive key_heap q (Z.of_nat (length b)) → b ≠ [] → bytes_at key_mem q b →
            klive st' q (Z.of_nat (length b)) ∧ bytes_at m' q b
      | Err e => e = Undefined ∧
          stops_at st0 m0 map ∅ [(4144, 7)] [([95; 80; 84; 83], 7)]
            (λ st2 _ n s, liballoc_alloc (source st2) (pages_for (n * s)) = None)
      end
  | Err e => e = Undefined ∧
      ∃ p st1, Heap.malloc key_heap 24 = Ok (p, st1) ∧ liballoc_alloc (source st1) (pages_for 64) = None
  end.
Proof.
  apply (kernel_hash_map key_heap ({[4096]} ∪ ∅) key_mem [(4144, 7)] [([95; 80; 84; 83], 7)]).
  - exact key_heap_inv.
  - vm_compute. lia.
  - split; [|by apply map_Forall_singleton]. intros a Ha. apply key_mem_lookup. cbn in Ha. lia.
  - apply eq_None_not_Some. rewrite key_mem_lookup. lia.
  - constructor; [exact key_bound|constructor].
  - cbn. lia.
Defined.
