(* ===== verification/ListAlloc.v ===== *)
(** * The page-run allocator below the heap (memory/list_allocator.c, alloc.c)

    Runs of pages are kept in a singly linked list whose nodes lie at the
    start of the runs.  When no run is long enough the heap grows: fresh
    frames are mapped behind its end through [map_page].  Node memory is a map
    from addresses to nodes; reading a node that was never written is
    undefined.  [list_rep] is the reference view: the list of runs. *)
From S2P Require Import Prelude FrameAlloc Paging.

(** ** Definitions *)

Record list_node_t := ListNode { node_pages : Z; next : Z }.

Record list_state := ListState { head : list_node_t; nodes : gmap Z list_node_t; heap_end : Z }.

Definition set_heap_end (st : list_state) (val : Z) : list_state :=
  ListState (head st) (nodes st) val.

Definition add_region (st : list_state) (start pages : Z) : list_state :=
  let node := ListNode pages (next (head st)) in
  ListState (ListNode (node_pages (head st)) start) (<[start := node]> (nodes st)) (heap_end st).

(** [None] is [&allocator.head]. *)
Definition node_at (st : list_state) (current : option Z) : res list_node_t :=
  match current with
  | None => Ok (head st)
  | Some a => of_option Undefined (nodes st !! a)
  end.

Definition set_next (st : list_state) (current : option Z) (v : Z) : res list_state :=
  n ← node_at st current;
  let n := ListNode (node_pages n) v in
  match current with
  | None => Ok (ListState n (nodes st) (heap_end st))
  | Some a => Ok (ListState (head st) (<[a := n]> (nodes st)) (heap_end st))
  end.

(** NULL is 0. *)
Definition try_alloc (st : list_state) (region pages : Z) : res Z :=
  n ← node_at st (Some region);
  if node_pages n <? pages then Ok 0 else Ok region.

Definition region_step (st : list_state) (pages : Z) (current : option Z) :
    res (ctrl (option Z) (Z * list_state)) :=
  n ← node_at st current;
  if next n =? 0 then Ok (Done (0, st))
  else
    alloc_result ← try_alloc st (next n) pages;
    if alloc_result =? 0 then Ok (Next (Some (next n)))
    else
      v ← node_at st (Some (next n));
      st' ← set_next st current (next v);
      Ok (Done (next n, st')).

Definition get_valid_region (fuel : nat) (st : list_state) (pages : Z) : res (Z * list_state) :=
  iter fuel (region_step st pages) None.

Definition PAGE_RW : Z := Z.lor PAGE_WRITABLE PAGE_PRESENT.

Section alloc.
Context {F : Type} `{FrameSource F}.

(** [for (i = start; i <= end; i += PAGE_SIZE)]: a fresh frame for each page. *)
Definition map_range (fuel : nat) (fs : F) (ph : phys) (root start end_ : Z) : res (F * phys) :=
  iter fuel (λ '(i, fs, ph),
    if i <=? end_ then
      '(frame, fs, ph) ← frame_alloc fs ph;
      if frame =? 0 then Err Halted
      else
        '(fs, ph) ← map_page fs ph root i frame PAGE_RW;
        Ok (Next (u64 (i + PAGE_SIZE), fs, ph))
    else Ok (Done (fs, ph))) (start, fs, ph).

(** [pages] is an [int], and so is [PAGE_SIZE * pages]. *)
Definition increase_heap_size (fuel : nat) (fs : F) (ph : phys) (root : Z) (st : list_state) (pages : Z) :
    res (F * phys * list_state) :=
  let heap_start := u64 (heap_end st + PAGE_SIZE) in
  bytes ← int_ok (PAGE_SIZE * pages);
  let new_heap_end := u64 (heap_start + bytes) in
  '(fs, ph) ← map_range fuel fs ph root heap_start new_heap_end;
  Ok (fs, ph, add_region (set_heap_end st new_heap_end) heap_start pages).

Definition list_alloc (fuel : nat) (fs : F) (ph : phys) (root : Z) (st : list_state) (pages : Z) :
    res (Z * F * phys * list_state) :=
  '(region, st) ← get_valid_region fuel st pages;
  '(region, fs, ph, st) ←
    (if region =? 0 then
       '(fs, ph, st) ← increase_heap_size fuel fs ph root st pages;
       '(region, st) ← get_valid_region fuel st pages;
       if region =? 0 then Err Halted else Ok (region, fs, ph, st)
     else Ok (region, fs, ph, st));
  n ← node_at st (Some region);
  let excess := node_pages n - pages in
  off ← int_ok (excess * PAGE_SIZE);
  let alloc_end := u64 (region + off) in
  Ok (region, fs, ph, if 0 <? excess then add_region st alloc_end excess else st).

(** The hooks of liballoc and the set-up of the first heap, alloc.c. *)
Definition liballoc_alloc (fuel : nat) (fs : F) (ph : phys) (root : Z) (st : list_state) (pages : Z) :
  res (Z * F * phys * list_state) := list_alloc fuel fs ph root st pages.

Definition liballoc_free (st : list_state) (ptr pages : Z) : list_state := add_region st ptr pages.

Definition heap_size : Z := 0x20000.

Definition ALIGN_UP (x a : Z) : Z := Z.land (u64 (x + a - 1)) (u64 (Z.lnot (a - 1))).
End alloc.

Definition setup_allocator (fuel : nat) (kernel_end : Z) (mm : list memmap_entry) (ph : phys)
    (root : Z) (st : list_state) : res (frame_allocator_t * phys * list_state) :=
  let heap_start := ALIGN_UP (u64 (kernel_end + 0x10000)) PAGE_SIZE in
  fs ← init_frame_allocator mm;
  '(fs, ph) ← map_range fuel fs ph root heap_start (u64 (heap_start + heap_size));
  Ok (fs, ph, add_region (set_heap_end st (u64 (heap_start + heap_size))) heap_start
                (heap_size / PAGE_SIZE)).

(** *** The reference view *)

(** The runs, from node [a] on: addresses and page counts. *)
Fixpoint chain (ns : gmap Z list_node_t) (a : Z) (rs : list (Z * Z)) : Prop :=
  match rs with
  | [] => a = 0
  | (r, n) :: rs => a = r ∧ r ≠ 0 ∧ ∃ nx, ns !! r = Some (ListNode n nx) ∧ chain ns nx rs
  end.

Definition list_rep (st : list_state) (rs : list (Z * Z)) : Prop :=
  chain (nodes st) (next (head st)) rs ∧ NoDup rs.*1.

(** First fit: the run taken and the runs that stay. *)
Fixpoint first_fit (rs : list (Z * Z)) (k : Z) : option (Z * Z * list (Z * Z)) :=
  match rs with
  | [] => None
  | (r, n) :: rs =>
      if n <? k then '(r', n', rs') ← first_fit rs k; Some (r', n', (r, n) :: rs')
      else Some (r, n, rs)
  end.

(** ** Lemmas *)

Lemma chain_insert ns a r n rs :
  chain ns a rs → r ∉ rs.*1 → chain (<[r := n]> ns) a rs.
Proof.
  revert a. induction rs as [|[q k] rs IH]; intros a; cbn [chain]; [done|].
  rewrite fmap_cons. cbn [fst]. intros (-> & Hq & nx & Hn & Hc) Hr.
  apply not_elem_of_cons in Hr as [Hne Hr]. split_and!; try done. exists nx.
  rewrite lookup_insert_ne by done. auto.
Qed.

Lemma add_region_rep st rs start n :
  list_rep st rs → start ≠ 0 → start ∉ rs.*1 → list_rep (add_region st start n) ((start, n) :: rs).
Proof.
  intros [Hc Hd] Hs Hn. split; [|by constructor]. cbn. split_and!; [done|done|].
  eexists. rewrite lookup_insert_eq. split; [done|]. by apply chain_insert.
Qed.

Lemma first_fit_elem rs k r n rs' :
  first_fit rs k = Some (r, n, rs') → k ≤ n ∧ (r, n) ∈ rs ∧ ∀ x, x ∈ rs' → x ∈ rs.
Proof.
  revert rs'. induction rs as [|[q m] rs IH]; intros rs'; cbn [first_fit]; [done|].
  destruct (Z.ltb_spec m k).
  - destruct (first_fit rs k) as [[[r' n'] rs'']|]; simpl_res; [|done].
    intros [= -> -> <-]. destruct (IH _ eq_refl) as (? & ? & ?). split_and!; [done|set_solver|set_solver].
  - intros [= <- <- <-]. split_and!; [done|set_solver|set_solver].
Qed.

Lemma first_fit_nodup rs k r n rs' :
  first_fit rs k = Some (r, n, rs') → NoDup rs.*1 → NoDup rs'.*1.
Proof.
  revert rs'. induction rs as [|[q m] rs IH]; intros rs'; cbn [first_fit]; [done|].
  rewrite fmap_cons. cbn [fst]. destruct (Z.ltb_spec m k).
  - destruct (first_fit rs k) as [[[r1 n1] rs1]|] eqn:E1; simpl_res; [|done].
    intros [= -> -> <-] [Hq Hd]%NoDup_cons. cbn. constructor; [|by apply IH].
    intros (x & Ex & Hx)%list_elem_of_fmap. apply Hq. apply list_elem_of_fmap. exists x.
    split; [done|]. by apply (first_fit_elem _ _ _ _ _ E1).
  - by intros [= <- <- <-] [Hq Hd]%NoDup_cons.
Qed.

Lemma region_step_at st k current node :
  node_at st current = Ok node →
  region_step st k current =
    (if next node =? 0 then Ok (Done (0, st))
     else
       alloc_result ← try_alloc st (next node) k;
       if alloc_result =? 0 then Ok (Next (Some (next node)))
       else
         v ← node_at st (Some (next node));
         st' ← set_next st current (next v);
         Ok (Done (next node, st'))).
Proof. intros Hn. unfold region_step. by rewrite Hn. Qed.

(** The walk from any node, with the runs [rs] behind it. *)
Lemma region_loop fuel st k current node rs :
  node_at st current = Ok node → chain (nodes st) (next node) rs →
  NoDup rs.*1 → (∀ a, current = Some a → a ∉ rs.*1) → (length rs < fuel)%nat →
  ∃ r st', iter fuel (region_step st k) current = Ok (r, st') ∧ heap_end st' = heap_end st ∧
    match first_fit rs k with
    | None => r = 0 ∧ st' = st
    | Some (r', n, rs') => r = r' ∧ r ≠ 0 ∧ (∃ nx, nodes st' !! r = Some (ListNode n nx)) ∧
        (r ∉ rs'.*1) ∧
        (∃ node', node_at st' current = Ok node' ∧ node_pages node' = node_pages node ∧
           chain (nodes st') (next node') rs') ∧
        (current ≠ None → head st' = head st) ∧
        ∀ a, a ∉ rs.*1 → Some a ≠ current → nodes st' !! a = nodes st !! a
    end.
Proof.
  revert current node rs. induction fuel as [|fuel IH]; intros current node rs Hn Hc Hd Hcur Hf; [lia|].
  cbn [iter].
  rewrite (region_step_at _ _ _ _ Hn).
  destruct rs as [|[r n] rs]; cbn [chain first_fit] in *.
  - rewrite Hc. cbn. by eexists _, _.
  - destruct Hc as (E & Hr & nx & Hl & Hc). rewrite E, (proj2 (Z.eqb_neq _ _) Hr).
    rewrite fmap_cons in *. cbn [fst] in *. apply NoDup_cons in Hd as [Hrd Hd].
    unfold try_alloc. cbn [node_at]. rewrite Hl. simpl_res. cbn [node_pages].
    destruct (Z.ltb_spec n k); simpl_res.
    + cbn [Z.eqb]. simpl_res.
      destruct (IH (Some r) (ListNode n nx) rs) as (q & st' & Eq & Eh & Hres); try done.
      { cbn [node_at]. by rewrite Hl. }
      { by intros a [= <-]. }
      { cbn in Hf. lia. }
      exists q, st'. split; [done|]. split; [done|].
      destruct (first_fit rs k) as [[[r' n'] rs']|] eqn:Eff; simpl_res; [|done].
      destruct Hres as (-> & Hr' & Hnode & Hnin & (node' & Hn' & Hp' & Hc') & Hh & Hsame).
      destruct (first_fit_elem _ _ _ _ _ Eff) as (_ & Hin & _).
      assert (Hrr : r' ≠ r).
      { intros ->. apply Hrd. apply list_elem_of_fmap. by exists (r, n'). }
      cbn [node_at] in Hn'.
      destruct (nodes st' !! r) as [nd|] eqn:Er; [|done]. cbn in Hn'. injection Hn' as ->.
      split_and!; [done|done|done| | | |].
      * rewrite fmap_cons. cbn [fst]. by apply not_elem_of_cons.
      * assert (Hcn : node_at st' current = Ok node).
        { destruct current as [a|]; cbn [node_at] in *.
          - rewrite Hsame; [done| |].
            + intros Ha. apply (Hcur a eq_refl). by apply elem_of_cons; right.
            + intros [= ->]. by apply (Hcur r eq_refl); left.
          - by rewrite Hh. }
        exists node. split; [done|]. split; [done|]. cbn [chain].
        split_and!; [done|done|]. exists (next node'). split; [|done].
        rewrite Er. destruct node'. cbn in *. by subst.
      * intros _. by apply Hh.
      * intros a Ha Hac. apply not_elem_of_cons in Ha as [Ha1 Ha2]. apply Hsame; [done|congruence].
    + rewrite (proj2 (Z.eqb_neq _ _) Hr). simpl_res. unfold set_next. rewrite Hn. simpl_res.
      destruct current as [a|].
      * assert (Har : a ≠ r) by (intros ->; by apply (Hcur r eq_refl); left).
        cbn. eexists _, _. split; [done|]. split; [done|]. cbn [nodes].
        rewrite lookup_insert_ne by done. rewrite lookup_insert_eq. cbn.
        split_and!; try done; [by exists nx| |].
        -- eexists. split; [done|]. split; [done|]. apply chain_insert; [done|].
           intros Ha. by apply (Hcur a eq_refl); right.
        -- intros b Hb Hba. rewrite lookup_insert_ne; [done|congruence].
      * cbn. eexists _, _. split; [done|]. split; [done|]. cbn [nodes].
        split_and!; try done; [by exists nx|]. eexists. split; [done|done].
Qed.

(** [get_valid_region] is first fit. *)
Lemma get_valid_region_spec fuel st rs k :
  list_rep st rs → (length rs < fuel)%nat →
  ∃ r st', get_valid_region fuel st k = Ok (r, st') ∧ heap_end st' = heap_end st ∧
    match first_fit rs k with
    | None => r = 0 ∧ st' = st
    | Some (r', n, rs') => r = r' ∧ r ≠ 0 ∧ (∃ nx, nodes st' !! r = Some (ListNode n nx)) ∧
        list_rep st' rs' ∧ (r ∉ rs'.*1)
    end.
Proof.
  intros [Hc Hd] Hf. unfold get_valid_region.
  destruct (region_loop fuel st k None (head st) rs) as (r & st' & E & Eh & Hres); try done.
  exists r, st'. split; [done|]. split; [done|].
  destruct (first_fit rs k) as [[[r' n'] rs']|] eqn:Eff; [|done].
  destruct Hres as (-> & ? & ? & Hnin & (node' & Hn' & _ & Hc') & _). cbn in Hn'. injection Hn' as <-.
  split_and!; try done. split; [done|]. by eapply first_fit_nodup.
Qed.

(** *** Growing the heap *)

Section grow.
Context {F : Type} `{FrameSource F}.

(** The number of a page as the tables see it. *)
Definition slot_no (v : Z) : Z := v / 4096 mod 2 ^ 36.

Lemma slot_no_shift v k : slot_no (v + 4096 * k) = (v / 4096 + k) mod 2 ^ 36.
Proof. unfold slot_no. by rewrite Z.mul_comm, Z.div_add by lia. Qed.

Lemma slot_no_ne v j k : 0 ≤ j < 2 ^ 36 → 0 ≤ k < 2 ^ 36 → j ≠ k →
  slot_no (v + 4096 * j) ≠ slot_no (v + 4096 * k).
Proof.
  intros Hj Hk Hne. rewrite !slot_no_shift. intros E. apply Hne.
  assert (E2 : (v / 4096 + j - (v / 4096 + k)) mod 2 ^ 36 = 0) by (rewrite Zminus_mod, E, Z.sub_diag; done).
  replace (v / 4096 + j - (v / 4096 + k)) with (j - k) in E2 by lia.
  apply Z.mod_divide in E2 as [q Hq]; [|lia]. assert (q = 0) by nia. lia.
Qed.

(** The pages [start], [start + 4096], ... get different fresh frames; no
    other page changes. *)
Definition mapped_to (ph ph' : phys) (root start : Z) (frames : list Z) : Prop :=
  (∀ k f, frames !! k = Some f →
     virtual_to_physical ph' root (start + 4096 * Z.of_nat k) = Ok f) ∧
  ∀ v, 0 ≤ v →
    (∀ k, (k < length frames)%nat → slot_no v ≠ slot_no (start + 4096 * Z.of_nat k)) →
    virtual_to_physical ph' root v = virtual_to_physical ph root v.

(** One page of the loop. *)
Lemma map_one fs ph root i :
  frame_ok fs → pt_ok root ph (frames_left fs) → (4 ≤ length (frames_left fs))%nat →
  0 ≤ i → leaf ph root i = None →
  ∃ f fs1 ph1 fs' ph', frame_alloc fs ph = Ok (f, fs1, ph1) ∧ f ≠ 0 ∧
    map_page fs1 ph1 root i f PAGE_RW = Ok (fs', ph') ∧
    frame_ok fs' ∧ pt_ok root ph' (frames_left fs') ∧
    (length (frames_left fs) ≤ length (frames_left fs') + 4)%nat ∧
    f ∈ frames_left fs ∧ (f ∉ frames_left fs') ∧ (∀ g, g ∈ frames_left fs' → g ∈ frames_left fs) ∧
    virtual_to_physical ph' root i = Ok f ∧
    (∀ v, 0 ≤ v → slot_no v ≠ slot_no i → leaf ph' root v = leaf ph root v) ∧
    (∀ v, 0 ≤ v → slot_no v ≠ slot_no i →
       virtual_to_physical ph' root v = virtual_to_physical ph root v).
Proof.
  intros Hfs Hpt Hlen Hi Hleaf.
  destruct (frames_left fs) as [|f fl] eqn:Efl; [cbn in Hlen; lia|].
  destruct (frame_alloc_cons fs ph f fl Hfs Efl) as (fs1 & E1 & Hfs1 & Efl1).
  destruct (fresh_frame root ph f fl Hpt) as [Hpt1 Hsame1].
  destruct (pt_free _ _ _ Hpt f) as (Hf & Hmod & _); [by left|].
  pose proof (pt_nodup _ _ _ Hpt) as [Hnin _]%NoDup_cons.
  assert (Hl1 : ∀ v, leaf (<[f := zero_frame]> ph) root v = leaf ph root v).
  { intros v. unfold leaf. by rewrite (proj2 (Hsame1 (table_path v) (p1_index v) ltac:(cbn; lia))). }
  destruct (map_page_spec root fs1 (<[f := zero_frame]> ph) i f PAGE_RW)
    as (fs' & ph' & E2 & Hfs' & Hpt' & _ & Hv & Hlen' & Hsuf & Hlf & Ho);
    rewrite ?Efl1, ?Hl1; try done; [cbn in Hlen; lia|lia|].
  exists f, fs1, (<[f := zero_frame]> ph), fs', ph'. rewrite Efl1 in *.
  assert (Hin : ∀ g, g ∈ frames_left fs' → g ∈ fl) by (intros g Hg; destruct Hsuf as [l ->]; apply elem_of_app; by right).
  split_and!; try done; try lia.
  - cbn. lia.
  - by left.
  - intros Hc. by apply Hnin, Hin.
  - intros g Hg. right. by apply Hin.
  - intros v Hv0 Hne. rewrite Hlf, Hl1; [done|]. intros Hs. by apply Hne, same_slot_spec.
  - intros v Hv0 Hne. rewrite Ho by done.
    by rewrite !(virtual_to_physical_leaf _ _ _ _ Hpt1), (virtual_to_physical_leaf _ _ _ _ Hpt), Hl1.
Qed.

Lemma map_range_spec n fuel fs ph root start end_ :
  frame_ok fs → pt_ok root ph (frames_left fs) → (4 * n ≤ length (frames_left fs))%nat →
  0 ≤ start → start + 4096 * Z.of_nat n - 4096 ≤ end_ < start + 4096 * Z.of_nat n →
  end_ + 4096 < 2 ^ 64 → Z.of_nat n ≤ 2 ^ 36 → (n < fuel)%nat →
  (∀ k, (k < n)%nat → leaf ph root (start + 4096 * Z.of_nat k) = None) →
  ∃ fs' ph' frames, map_range fuel fs ph root start end_ = Ok (fs', ph') ∧
    frame_ok fs' ∧ pt_ok root ph' (frames_left fs') ∧
    length frames = n ∧ NoDup frames ∧ (∀ f, f ∈ frames → f ∈ frames_left fs) ∧
    mapped_to ph ph' root start frames.
Proof.
  unfold map_range. revert fuel fs ph start.
  induction n as [|n IH]; intros fuel fs ph start Hfs Hpt Hlen Hst Hend Hw Hn Hfu Hleaf;
    (destruct fuel as [|fuel]; [lia|]); cbn [iter].
  - rewrite (proj2 (Z.leb_gt _ _)) by lia. simpl_res. exists fs, ph, [].
    split_and!; try done; [constructor|set_solver].
  - rewrite (proj2 (Z.leb_le _ _)) by lia.
    pose proof (Hleaf 0%nat ltac:(lia)) as Hl0. rewrite Z.add_0_r in Hl0.
    destruct (map_one fs ph root start) as (f & fs1 & ph1 & fs2 & ph2 & E1 & Hf & E2 & Hfs2 & Hpt2 &
      Hlen2 & Hin & Hnin & Hsub & Hv & Hlf & Ho); try done; [lia|].
    rewrite E1. simpl_res. rewrite (proj2 (Z.eqb_neq _ _) Hf), E2. simpl_res.
    assert (Eu : u64 (start + PAGE_SIZE) = start + 4096) by (apply wrap_small; unfold PAGE_SIZE; lia).
    rewrite Eu.
    assert (Hslot : ∀ k, (k < n)%nat → slot_no (start + 4096 + 4096 * Z.of_nat k) ≠ slot_no start).
    { intros k Hk. replace (start + 4096 + 4096 * Z.of_nat k) with (start + 4096 * Z.of_nat (S k)) by lia.
      replace (slot_no start) with (slot_no (start + 4096 * 0)) by (f_equal; lia).
      apply slot_no_ne; lia. }
    destruct (IH fuel fs2 ph2 (start + 4096)) as (fs' & ph' & frames & E & Hfs' & Hpt' & El & Hnd & Hsub' & Hm & Hrest);
      try done; try lia.
    { intros k Hk. rewrite Hlf; [|lia|by apply Hslot].
      rewrite <- (Hleaf (S k) ltac:(lia)). f_equal. lia. }
    exists fs', ph', (f :: frames). split_and!; try done.
    + cbn. lia.
    + constructor; [|done]. intros Hc. by apply Hnin, Hsub'.
    + intros g [->|Hg]%elem_of_cons; [done|]. by apply Hsub, Hsub'.
    + split.
      * intros [|k] g; cbn [lookup list_lookup]; intros Hg.
        -- injection Hg as <-. rewrite Z.add_0_r, Hrest; [done|lia|].
           intros k Hk. apply not_eq_sym, Hslot. lia.
        -- replace (start + 4096 * Z.of_nat (S k)) with (start + 4096 + 4096 * Z.of_nat k) by lia. auto.
      * intros v Hv0 Hne. rewrite Hrest; [|done|].
        -- apply Ho; [done|]. specialize (Hne 0%nat). rewrite Z.add_0_r in Hne. apply Hne. cbn. lia.
        -- intros k Hk. replace (start + 4096 + 4096 * Z.of_nat k) with (start + 4096 * Z.of_nat (S k)) by lia.
           apply Hne. cbn. lia.
Qed.
End grow.

(** The pages of a run of [n] pages at [r]. *)
Definition run_has (r n a : Z) : Prop := r ≤ a < r + 4096 * n.

(** [list_alloc] is first fit: it takes the first run that is long enough,
    keeps the others in order, touches no page table, and puts [n - k] pages
    from [r + 4096 * (n - k)] on back in front when the run has [n > k]. *)
Lemma list_alloc_first_fit {F} `{FrameSource F} fuel (fs : F) ph root st rs k r n rs' :
  list_rep st rs → (length rs < fuel)%nat → first_fit rs k = Some (r, n, rs') →
  0 < k → n < 2 ^ 19 → 0 ≤ r → r + 4096 * n < 2 ^ 64 → (r + 4096 * (n - k)) ∉ rs'.*1 →
  ∃ st', list_alloc fuel fs ph root st k = Ok (r, fs, ph, st') ∧
    list_rep st' (if n =? k then rs' else (r + 4096 * (n - k), n - k) :: rs').
Proof.
  intros Hrep Hf Hff Hk Hn Hr Hend Hfresh.
  destruct (first_fit_elem _ _ _ _ _ Hff) as (Hkn & _).
  destruct (get_valid_region_spec fuel st rs k Hrep Hf) as (r' & st1 & E & _ & Hres).
  rewrite Hff in Hres. destruct Hres as (-> & Hr0 & (nx & Hnode) & Hrep' & _).
  unfold list_alloc. rewrite E. simpl_res. rewrite (proj2 (Z.eqb_neq _ _) Hr0). simpl_res.
  cbn [node_at]. rewrite Hnode. simpl_res. cbn [node_pages].
  rewrite int_ok_Ok by (unfold PAGE_SIZE; lia). simpl_res.
  eexists. split; [reflexivity|].
  assert (Eu : u64 (r + (n - k) * PAGE_SIZE) = r + 4096 * (n - k))
    by (unfold PAGE_SIZE; rewrite Z.mul_comm; apply wrap_small; lia).
  rewrite Eu. destruct (Z.eqb_spec n k) as [->|Hne].
  - rewrite (proj2 (Z.ltb_ge _ _)) by lia. done.
  - rewrite (proj2 (Z.ltb_lt _ _)) by lia. apply add_region_rep; [done|lia|done].
Qed.

(** ** Properties *)

(** C7: what [list_alloc] puts back when it splits a run is the rest of the run
    only if the run is exactly twice the request: from a shorter run the pages
    put back overlap the pages handed out, from a longer run they reach beyond
    the run. *)
Theorem list_alloc_split_wrong {F} `{FrameSource F} fuel (fs : F) ph root st rs k r n rs' :
  list_rep st rs → (length rs < fuel)%nat → first_fit rs k = Some (r, n, rs') →
  0 < k < n → n < 2 ^ 19 → 0 ≤ r → r + 4096 * n < 2 ^ 64 → (r + 4096 * (n - k)) ∉ rs'.*1 →
  ∃ st' q m, list_alloc fuel fs ph root st k = Ok (r, fs, ph, st') ∧
    list_rep st' ((q, m) :: rs') ∧
    (n < 2 * k ↔ ∃ a, run_has r k a ∧ run_has q m a) ∧
    (2 * k < n ↔ ∃ a, run_has q m a ∧ ¬ run_has r n a).
Proof.
  intros Hrep Hf Hff Hk Hn Hr Hend Hfresh.
  destruct (list_alloc_first_fit fuel fs ph root st rs k r n rs') as (st' & E & Hrep'); try done; [lia|].
  rewrite (proj2 (Z.eqb_neq n k)) in Hrep' by lia.
  exists st', (r + 4096 * (n - k)), (n - k). split; [done|]. split; [done|]. unfold run_has. split; split.
  - intros Hlt. exists (r + 4096 * (n - k)). lia.
  - intros (a & ? & ?). lia.
  - intros Hlt. exists (r + 4096 * n). lia.
  - intros (a & ? & ?). lia.
Qed.

(** C6: when no run fits, [list_alloc] returns fresh pages behind the heap: all
    of them, and one more, are mapped to pairwise different fresh frames, the
    page tables stay a tree, no other translation changes, and the free runs
    are as before. *)
Theorem list_alloc_grows {F} `{FrameSource F} fuel (fs : F) ph root st rs k :
  list_rep st rs → first_fit rs (Z.of_nat k) = None → (0 < k)%nat → Z.of_nat k < 2 ^ 19 →
  0 ≤ heap_end st → heap_end st + 4096 * (Z.of_nat k + 3) < 2 ^ 64 →
  heap_end st + 4096 ∉ rs.*1 →
  frame_ok fs → pt_ok root ph (frames_left fs) → (4 * (k + 1) ≤ length (frames_left fs))%nat →
  (∀ i, (i < k + 1)%nat → leaf ph root (heap_end st + 4096 + 4096 * Z.of_nat i) = None) →
  (length rs < fuel)%nat → (k + 1 < fuel)%nat →
  ∃ fs' ph' st' frames,
    list_alloc fuel fs ph root st (Z.of_nat k) = Ok (heap_end st + 4096, fs', ph', st') ∧
    list_rep st' rs ∧ heap_end st' = heap_end st + 4096 + 4096 * Z.of_nat k ∧
    frame_ok fs' ∧ pt_ok root ph' (frames_left fs') ∧
    length frames = (k + 1)%nat ∧ NoDup frames ∧ (∀ f, f ∈ frames → f ∈ frames_left fs) ∧
    mapped_to ph ph' root (heap_end st + 4096) frames.
Proof.
  intros Hrep Hff Hk Hk2 He Hend Hfresh Hfs Hpt Hlen Hleaf Hf1 Hf2.
  destruct (get_valid_region_spec fuel st rs (Z.of_nat k) Hrep Hf1) as (r' & st1 & E & _ & Hres).
  rewrite Hff in Hres. destruct Hres as [-> ->].
  unfold list_alloc. rewrite E. simpl_res. cbn [Z.eqb]. unfold increase_heap_size.
  assert (Es : u64 (heap_end st + PAGE_SIZE) = heap_end st + 4096)
    by (apply wrap_small; unfold PAGE_SIZE; lia).
  rewrite Es, int_ok_Ok by (unfold PAGE_SIZE; lia). simpl_res.
  assert (Ee : u64 (heap_end st + 4096 + PAGE_SIZE * Z.of_nat k) = heap_end st + 4096 + 4096 * Z.of_nat k)
    by (apply wrap_small; unfold PAGE_SIZE; lia).
  rewrite Ee.
  destruct (map_range_spec (k + 1) fuel fs ph root (heap_end st + 4096)
              (heap_end st + 4096 + 4096 * Z.of_nat k))
    as (fs' & ph' & frames & Em & Hfs' & Hpt' & El & Hnd & Hsub & Hm); try done; try lia.
  rewrite Em. simpl_res.
  set (st2 := add_region _ _ _).
  assert (Hrep2 : list_rep st2 ((heap_end st + 4096, Z.of_nat k) :: rs)).
  { apply add_region_rep; [by destruct Hrep|lia|done]. }
  assert (Hff2 : first_fit ((heap_end st + 4096, Z.of_nat k) :: rs) (Z.of_nat k) =
    Some (heap_end st + 4096, Z.of_nat k, rs)) by (cbn; by rewrite Z.ltb_irrefl).
  assert (Hlen2 : ∃ r st3, get_valid_region fuel st2 (Z.of_nat k) = Ok (r, st3) ∧
    heap_end st3 = heap_end st2 ∧ r = heap_end st + 4096 ∧
    (∃ nx, nodes st3 !! r = Some (ListNode (Z.of_nat k) nx)) ∧ list_rep st3 rs).
  { destruct fuel as [|fuel]; [lia|]. unfold get_valid_region. cbn [iter].
    rewrite (region_step_at _ _ _ (head st2)) by done. destruct Hrep2 as [(E2 & _ & nx & En & Hc) Hd].
    cbn [head st2 add_region next] in *. rewrite (proj2 (Z.eqb_neq _ _)) by lia.
    unfold try_alloc. cbn [node_at]. rewrite En. simpl_res. cbn [node_pages].
    rewrite Z.ltb_irrefl. simpl_res. rewrite (proj2 (Z.eqb_neq _ _)) by lia. simpl_res.
    eexists _, _. split; [done|]. split_and!; [done|done|by exists nx|].
    split; [done|]. by apply NoDup_cons in Hd as [_ ?]. }
  destruct Hlen2 as (r & st3 & -> & Eh & -> & (nx & Hnode) & Hrep3). simpl_res.
  rewrite (proj2 (Z.eqb_neq _ _)) by lia. simpl_res. cbn [node_at]. rewrite Hnode. simpl_res.
  cbn [node_pages]. rewrite Z.sub_diag. cbn [int_ok]. simpl_res. cbn.
  eexists _, _, st3, frames. split_and!; try done.
Qed.

(** *** Witnesses *)

Definition demo_runs : list_state :=
  ListState (ListNode 0 0x5000) {[ 0x5000 := ListNode 3 0 ]} 0x8000.

Lemma demo_runs_rep : list_rep demo_runs [(0x5000, 3)].
Proof.
  split; [|apply NoDup_singleton]. cbn. split_and!; [done|done|]. exists 0. done.
Qed.

Definition demo_source : frame_allocator_t := FrameAllocator [] (Frame false 0x2000 0x10000).

Lemma list_alloc_split_wrong_witness :
  ∃ st' q m, list_alloc 5 demo_source ∅ 0x1000 demo_runs 2 = Ok (0x5000, demo_source, ∅, st') ∧
    list_rep st' [(q, m)] ∧
    (3 < 2 * 2 ↔ ∃ a, run_has 0x5000 2 a ∧ run_has q m a) ∧
    (2 * 2 < 3 ↔ ∃ a, run_has q m a ∧ ¬ run_has 0x5000 3 a).
Proof.
  apply (list_alloc_split_wrong 5 demo_source ∅ 0x1000 demo_runs [(0x5000, 3)] 2 0x5000 3 []);
    [apply demo_runs_rep|cbn; lia|done|lia|lia|lia|lia|set_solver].
Defined.

Lemma demo_source_ok :
  frame_ok demo_source ∧ pt_ok 0x1000 {[ 0x1000 := zero_frame ]} (frames_left demo_source).
Proof.
  split.
  - cbn. unfold alloc_ok. cbn. split_and!; try done; lia.
  - apply pt_ok_empty.
    + vm_compute. repeat (constructor; [set_solver by lia|]). constructor.
    + intros f Hf. vm_compute in Hf.
      repeat (apply elem_of_cons in Hf as [->|Hf]; [done|]). by apply elem_of_nil in Hf.
Qed.

Lemma list_alloc_grows_witness :
  ∃ fs' ph' st' frames,
    list_alloc 5 demo_source {[ 0x1000 := zero_frame ]} 0x1000
      (ListState (ListNode 0 0) ∅ 0x8000) (Z.of_nat 1) = Ok (0x8000 + 4096, fs', ph', st') ∧
    list_rep st' [] ∧ heap_end st' = 0x8000 + 4096 + 4096 * Z.of_nat 1 ∧
    frame_ok fs' ∧ pt_ok 0x1000 ph' (frames_left fs') ∧
    length frames = (1 + 1)%nat ∧ NoDup frames ∧ (∀ f, f ∈ frames → f ∈ frames_left demo_source) ∧
    mapped_to {[ 0x1000 := zero_frame ]} ph' 0x1000 (0x8000 + 4096) frames.
Proof.
  apply (list_alloc_grows 5 demo_source {[ 0x1000 := zero_frame ]} 0x1000
    (ListState (ListNode 0 0) ∅ 0x8000) [] 1);
    [split; [done|constructor]|done|lia|lia|cbn; lia|cbn; lia|set_solver|apply demo_source_ok|
     apply demo_source_ok|vm_compute; lia| |cbn; lia|lia].
  intros [|[|i]] Hi; [by vm_compute|by vm_compute|lia].
Defined.
