(* ===== verification/Pci.v ===== *)
(** * PCI enumeration and message-signalled interrupts (lethe-kernel/pci/pci.c, msi.c)

    The configuration space behind the two ports is hardware: [cfg_read] and
    [cfg_write] on a state [H] are parameters.  The device lists are lists,
    newest first as the code links them; the parent pointers, which nothing
    reads, are left out.  The reference view of the lists is [preorder]: every
    device followed by its functions. *)
From S2P Require Import Prelude.

(** ** Definitions *)

Definition CONFIG_ADDRESS : Z := 0xCF8.
Definition CONFIG_DATA : Z := 0xCFC.

(** The views of a [union pci_register]. *)
Definition bits_16_lower (r : Z) : Z := r mod 2 ^ 16.
Definition bits_16_upper (r : Z) : Z := r / 2 ^ 16 mod 2 ^ 16.
Definition bits_8_lower (r : Z) : Z := r mod 2 ^ 8.
Definition bits_8_lower_mid (r : Z) : Z := r / 2 ^ 8 mod 2 ^ 8.
Definition bits_8_upper_mid (r : Z) : Z := r / 2 ^ 16 mod 2 ^ 8.
Definition bits_8_upper (r : Z) : Z := r / 2 ^ 24 mod 2 ^ 8.

Record pci_device_descriptor := Descriptor {
  d_bus : Z; d_device : Z; d_function : Z; registers : list Z
}.

Record pci_device := PciDevice { descriptor : pci_device_descriptor; functions : list pci_device_descriptor }.

(** [registers[i]]; the array has 0x12 elements. *)
Definition register (d : pci_device_descriptor) (i : Z) : res Z :=
  if i <? 0 then Err Undefined else of_option Undefined (registers d !! Z.to_nat i).

Definition new_device (devs : list pci_device) (d : pci_device_descriptor) : list pci_device :=
  PciDevice d [] :: devs.

Definition new_function (dev : pci_device) (d : pci_device_descriptor) : pci_device :=
  PciDevice (descriptor dev) (d :: functions dev).

Definition get_pci_device_address (bus device function reg : Z) : Z :=
  let loffset := u32 (reg * 4) in
  Z.lor (Z.lor (Z.lor (Z.lor (u32 (Z.shiftl bus 16)) (u32 (Z.shiftl device 11)))
    (u32 (Z.shiftl function 8))) (Z.land loffset 0xFC)) (2 ^ 31).

(** [for (i = a; i < b; i++)] *)
Fixpoint for_list {S : Type} (xs : list Z) (f : Z → S → res S) (s : S) : res S :=
  match xs with
  | [] => Ok s
  | x :: xs => s ← f x s; for_list xs f s
  end.

Section pci.
Context {H : Type} (cfg_read : H → Z → Z) (cfg_write : H → Z → Z → H).

(** [kmalloc] leaves the last two registers of a descriptor uninitialised. *)
Context (junk : Z → Z).

Definition get_pci_device_register (h : H) (bus device function reg : Z) : Z :=
  cfg_read h (get_pci_device_address bus device function reg).

Definition set_pci_device_register (h : H) (bus device function reg value : Z) : Z * H :=
  let address := get_pci_device_address bus device function reg in
  let h := cfg_write h address value in
  (cfg_read h address, h).

Definition get_device_descriptor (h : H) (bus device function : Z) : pci_device_descriptor :=
  let rs := get_pci_device_register h bus device function <$> seqZ 0 0x10 in
  let header := bits_8_upper_mid (get_pci_device_register h bus device function 3) in
  Descriptor bus device function
    (rs ++ if Z.land header 0x7F =? 0x2
           then [get_pci_device_register h bus device function 0x10;
                 get_pci_device_register h bus device function 0x11]
           else [junk 0x10; junk 0x11]).

Definition check_device (check_function : pci_device_descriptor → res unit) (h : H) (bus device : Z)
    (devs : list pci_device) : res (list pci_device) :=
  let register_0 := get_pci_device_register h bus device 0 0 in
  let vendor_id := Z.land register_0 0xFFFF in
  if vendor_id =? 0xFFFF then Ok devs
  else
    let desc := get_device_descriptor h bus device 0 in
    _ ← check_function desc;
    r3 ← register desc 3;
    let header_type := bits_8_upper_mid r3 in
    self ←
      (if negb (Z.land header_type 0x80 =? 0) then
         for_list (seqZ 1 7) (λ function self,
           let desc := get_device_descriptor h bus device function in
           r0 ← register desc 0;
           let vendor_id := bits_16_lower r0 in
           if vendor_id =? 0xFFFF then Ok self
           else
             _ ← check_function desc;
             Ok (new_function self desc)) (PciDevice desc [])
       else Ok (PciDevice desc []));
    Ok (self :: devs).

Definition check_function_with (check_bus : Z → res (list pci_device)) (d : pci_device_descriptor) :
    res unit :=
  r2 ← register d 2;
  r6 ← register d 6;
  if (bits_8_upper r2 =? 0x6) && (bits_8_upper_mid r2 =? 0x4)
  then _ ← check_bus (bits_8_lower_mid r6); Ok tt
  else Ok tt.

(** The new bus is reachable from nothing but its own devices. *)
Fixpoint check_bus (fuel : nat) (h : H) (bus : Z) : res (list pci_device) :=
  match fuel with
  | O => Err OutOfFuel
  | S fuel =>
      for_list (seqZ 0 32) (check_device (check_function_with (check_bus fuel h)) h bus) []
  end.

Definition check_function (fuel : nat) (h : H) : pci_device_descriptor → res unit :=
  check_function_with (check_bus fuel h).

(** The device list of the root bus. *)
Definition scan_pci_space (fuel : nat) (h : H) : res (list pci_device) :=
  let desc := get_device_descriptor h 0 0 0 in
  r3 ← register desc 3;
  if negb (Z.land (bits_8_upper_mid r3) 0x80 =? 0) then
    root ← iter 9 (λ '(i, root),
      if i <? 8 then
        let desc := get_device_descriptor h 0 0 i in
        r0 ← register desc 0;
        if bits_16_lower r0 =? 0xFFFF then Ok (Done root)
        else
          (* root_device() exists from the first round on *)
          let root := default (PciDevice (get_device_descriptor h 0 0 0) []) root in
          let root := new_function root desc in
          _ ← check_bus fuel h i;
          Ok (Next (i + 1, Some root))
      else Ok (Done root)) (0, None);
    Ok (match root with Some root => [root] | None => [] end)
  else for_list (seqZ 0 32) (check_device (check_function fuel h) h 0) [].

(** The search of the functions of one device, and of a device list: the
    match, or the skips left. *)
Definition match_one (d : pci_device_descriptor) (register_number compare_value mask skip : Z) :
    res (pci_device_descriptor + Z) :=
  r ← register d register_number;
  if Z.land r mask =? compare_value then
    if skip =? 0 then Ok (inl d) else Ok (inr (u32 (skip - 1)))
  else Ok (inr skip).

Fixpoint search_functions (ds : list pci_device_descriptor) (register_number compare_value mask skip : Z) :
    res (pci_device_descriptor + Z) :=
  match ds with
  | [] => Ok (inr skip)
  | d :: ds =>
      r ← match_one d register_number compare_value mask skip;
      match r with
      | inl d => Ok (inl d)
      | inr skip => search_functions ds register_number compare_value mask skip
      end
  end.

Fixpoint search_bus_for_match (devs : list pci_device) (register_number compare_value mask skip : Z) :
    res (pci_device_descriptor + Z) :=
  match devs with
  | [] => Ok (inr skip)
  | dev :: devs =>
      r ← match_one (descriptor dev) register_number compare_value mask skip;
      match r with
      | inl d => Ok (inl d)
      | inr skip =>
          r ← search_functions (functions dev) register_number compare_value mask skip;
          match r with
          | inl d => Ok (inl d)
          | inr skip => search_bus_for_match devs register_number compare_value mask skip
          end
      end
  end.

(** The root bus has no successor. *)
Definition search_for_match (devs : list pci_device) (register_number compare_value mask skip : Z) :
    res (option pci_device_descriptor) :=
  r ← search_bus_for_match devs register_number compare_value mask skip;
  Ok (match r with inl d => Some d | inr _ => None end).

Definition locate_pci_device (devs : list pci_device) (class_code sub_class_code skip_count : Z) :
    res (option pci_device_descriptor) :=
  let register_mask := 0xFFFF0000 in
  let compare_value :=
    Z.land (Z.lor (u32 (Z.shiftl class_code 24)) (u32 (Z.shiftl sub_class_code 16))) register_mask in
  search_for_match devs 2 compare_value register_mask skip_count.

(** NULL handles are [None]. *)
Definition pci_compare_value (handle : option pci_device_descriptor) (register_number value mask : Z) :
    res bool :=
  match handle with
  | None => Ok false
  | Some d => r ← register d register_number; Ok (value =? Z.land r mask)
  end.

Definition set_register_value (h : H) (handle : option pci_device_descriptor) (register_number value : Z) :
    Z * H :=
  match handle with
  | None => (0, h)
  | Some d =>
      let '(_, h) := set_pci_device_register h (d_bus d) (d_device d) (d_function d)
                       (u32 register_number) value in
      (1, h)
  end.

Definition get_register_value (h : H) (handle : option pci_device_descriptor) (register_number : Z) :
    res Z :=
  match handle with
  | None => Ok 0
  | Some d =>
      if register_number <? 0x12 then register d register_number
      else Ok (get_pci_device_register h (d_bus d) (d_device d) (d_function d) register_number)
  end.

(** *** msi.c *)

(** [None]: the code returned 0 because of an MSI-X capability.  Else the new
    hardware state; the handler goes to vector 0x79. *)
Definition enable_msi (h : H) (lapic_addr_phys : Z) (handle : option pci_device_descriptor)
    (msi_cap_offset : Z) : res (option H) :=
  let msi_cap_reg := u8 (Z.quot msi_cap_offset 4) in
  register_0 ← get_register_value h handle msi_cap_reg;
  if Z.land register_0 0xFF =? 0x11 then Ok None
  else
    let data_reg := u8 (msi_cap_reg + 0x3) in
    let laddr_reg := u8 (msi_cap_reg + 0x1) in
    let msi_msg_ctrl := Z.shiftr register_0 16 in
    if Z.land msi_msg_ctrl (2 ^ 7) =? 0 then Err Halted
    else
      let '(_, h) := set_register_value h handle data_reg 0x79 in
      let '(_, h) := set_register_value h handle laddr_reg lapic_addr_phys in
      let '(_, h) := set_register_value h handle (laddr_reg + 1) 0 in
      let '(_, h) := set_register_value h handle msi_cap_reg (2 ^ 16) in
      Ok (Some h).

(** The walk along the capability list. *)
Definition capability_loop (fuel : nat) (h : H) (handle : option pci_device_descriptor) (cap_ptr : Z) :
    res Z :=
  iter fuel (λ cap_ptr,
    if cap_ptr =? 0 then Ok (Done 0)
    else
      pci_cap ← get_register_value h handle (cap_ptr / 4);
      if (Z.land pci_cap 0xFF =? 0x5) || (Z.land pci_cap 0xFF =? 0x11) then Ok (Done cap_ptr)
      else Ok (Next (Z.shiftr (Z.land pci_cap 0xFF00) 8))) cap_ptr.

Definition check_msi_capability (fuel : nat) (h : H) (handle : option pci_device_descriptor) : res Z :=
  status_reg ← get_register_value h handle 0x1;
  if Z.land status_reg (2 ^ 20) =? 0 then Ok 0
  else
    cap_reg ← get_register_value h handle 0xD;
    capability_loop fuel h handle (Z.land cap_reg 0xFC).
End pci.

(** *** The reference view *)

Definition preorder (devs : list pci_device) : list pci_device_descriptor :=
  devs ≫= λ dev, descriptor dev :: functions dev.

Definition well_formed (d : pci_device_descriptor) : Prop := length (registers d) = 0x12%nat.

(** Class and sub-class of a descriptor. *)
Definition has_class (c s : Z) (d : pci_device_descriptor) : Prop :=
  match registers d !! 2%nat with
  | Some r => Z.land r 0xFFFF0000 = c * 2 ^ 24 + s * 2 ^ 16
  | None => False
  end.

#[global] Instance has_class_dec c s d : Decision (has_class c s d).
Proof. unfold has_class. destruct (registers d !! 2%nat); apply _. Defined.

(** What is on a bus: device [dev] exists, and function [fn] of it. *)
Section present.
Context {H : Type} (cfg_read : H → Z → Z) (h : H).

Definition cfg (bus dev fn reg : Z) : Z := cfg_read h (get_pci_device_address bus dev fn reg).

Definition present (bus dev fn : Z) : Prop :=
  bits_16_lower (cfg bus dev 0 0) ≠ 0xFFFF ∧
  (fn = 0 ∨
   1 ≤ fn < 8 ∧ Z.land (bits_8_upper_mid (cfg bus dev 0 3)) 0x80 ≠ 0 ∧
   bits_16_lower (cfg bus dev fn 0) ≠ 0xFFFF).

Definition is_bridge (bus dev fn : Z) : Prop :=
  bits_8_upper (cfg bus dev fn 2) = 6 ∧ bits_8_upper_mid (cfg bus dev fn 2) = 4.

(** Bridges lead to buses with larger numbers. *)
Definition bridges_up : Prop :=
  ∀ bus dev fn, 0 ≤ bus < 256 → 0 ≤ dev < 32 → 0 ≤ fn < 8 → is_bridge bus dev fn → bus < bits_8_lower_mid (cfg bus dev fn 6).
End present.

(** ** Lemmas *)

Lemma vendor_mod r : Z.land r 0xFFFF = bits_16_lower r.
Proof. unfold bits_16_lower. change 0xFFFF with (2 ^ 16 - 1). by apply land_mask. Qed.

Lemma get_pci_device_address_eq bus dev fn reg :
  0 ≤ bus < 256 → 0 ≤ dev < 32 → 0 ≤ fn < 8 → 0 ≤ reg < 64 →
  get_pci_device_address bus dev fn reg =
  2 ^ 31 + bus * 2 ^ 16 + dev * 2 ^ 11 + fn * 2 ^ 8 + reg * 4.
Proof.
  intros Hb Hd Hf Hr. unfold get_pci_device_address. cbv zeta.
  rewrite !Z.shiftl_mul_pow2 by lia.
  assert (E1 : u32 (bus * 2 ^ 16) = bus * 2 ^ 16) by (apply wrap_small; lia).
  assert (E2 : u32 (dev * 2 ^ 11) = dev * 2 ^ 11) by (apply wrap_small; lia).
  assert (E3 : u32 (fn * 2 ^ 8) = fn * 2 ^ 8) by (apply wrap_small; lia).
  assert (E4 : u32 (reg * 4) = reg * 4) by (apply wrap_small; lia).
  rewrite E1, E2, E3, E4.
  assert (E5 : Z.land (reg * 4) 0xFC = reg * 4).
  { change 0xFC with (Z.shiftl (2 ^ 6 - 1) 2). change (reg * 4) with (reg * 2 ^ 2).
    rewrite <- Z.shiftl_mul_pow2, <- Z.shiftl_land, land_mask, Z.mod_small by lia. done. }
  rewrite E5.
  assert (L : ∀ w x y z, 0 ≤ w → 0 ≤ x < 2 ^ w → z = y * 2 ^ w → Z.lor x z = x + z).
  { intros w x y z Hw Hx ->. rewrite <- (Z.shiftl_mul_pow2 y) at 1 by done. by apply lor_shiftl_add. }
  rewrite (Z.lor_comm _ (2 ^ 31)), !Z.lor_assoc, (Z.lor_comm (2 ^ 31)).
  rewrite (L 31 (bus * 2 ^ 16) 1) by lia.
  rewrite (Z.lor_comm _ (dev * 2 ^ 11)), (L 16 (dev * 2 ^ 11) (bus + 2 ^ 15)) by lia.
  rewrite (Z.lor_comm _ (fn * 2 ^ 8)), (L 11 (fn * 2 ^ 8) (dev + (bus + 2 ^ 15) * 2 ^ 5)) by lia.
  rewrite (Z.lor_comm _ (reg * 4)), (L 8 (reg * 4) (fn + (dev + (bus + 2 ^ 15) * 2 ^ 5) * 2 ^ 3)) by lia.
  lia.
Qed.

Lemma for_list_total {S : Type} (xs : list Z) (f : Z → S → res S) (g : S → Z → S) (s : S) :
  (∀ x s, x ∈ xs → f x s = Ok (g s x)) → for_list xs f s = Ok (foldl g s xs).
Proof.
  revert s. induction xs as [|x xs IH]; intros s Hf; cbn [for_list foldl]; [done|].
  rewrite Hf by (by left). simpl_res. apply IH. intros y s' Hy. apply Hf. by right.
Qed.

Section scan.
Context {H : Type} (cfg_read : H → Z → Z) (junk : Z → Z) (h : H).

Abbreviation gdd := (get_device_descriptor cfg_read junk h).
Abbreviation cfgr := (cfg cfg_read h).

Lemma gdd_register bus dev fn i : 0 ≤ i < 16 → register (gdd bus dev fn) i = Ok (cfgr bus dev fn i).
Proof.
  intros Hi. unfold register, get_device_descriptor. rewrite (proj2 (Z.ltb_ge _ _)) by lia.
  cbn [registers]. rewrite lookup_app_l by (rewrite length_fmap, length_seqZ; lia).
  rewrite list_lookup_fmap, lookup_seqZ_lt by lia. cbn. by rewrite Z2Nat.id by lia.
Qed.

Lemma gdd_well_formed bus dev fn : well_formed (gdd bus dev fn).
Proof.
  unfold well_formed, get_device_descriptor. cbn [registers].
  rewrite length_app, length_fmap, length_seqZ. by case_match.
Qed.

(** The functions above 0, newest first, and the entry of one device. *)
Definition more_functions (bus dev : Z) : list pci_device_descriptor :=
  foldl (λ fs fn, if bits_16_lower (cfgr bus dev fn 0) =? 0xFFFF then fs else gdd bus dev fn :: fs)
    [] (seqZ 1 7).

Definition found (bus dev : Z) : list pci_device :=
  if bits_16_lower (cfgr bus dev 0 0) =? 0xFFFF then []
  else [PciDevice (gdd bus dev 0)
          (if Z.land (bits_8_upper_mid (cfgr bus dev 0 3)) 0x80 =? 0 then [] else more_functions bus dev)].

Lemma check_device_spec cf bus dev devs :
  (∀ fn, 0 ≤ fn < 8 → cf (gdd bus dev fn) = Ok tt) →
  check_device cfg_read junk cf h bus dev devs = Ok (found bus dev ++ devs).
Proof.
  intros Hcf. unfold check_device, found. rewrite vendor_mod.
  change (get_pci_device_register cfg_read h bus dev 0 0) with (cfgr bus dev 0 0).
  case_match; [done|]. rewrite Hcf, gdd_register by lia. simpl_res.
  destruct (Z.land (bits_8_upper_mid (cfgr bus dev 0 3)) 128 =? 0); cbn [negb]; simpl_res; [done|].
  rewrite (for_list_total _ _ (λ self fn,
    if bits_16_lower (cfgr bus dev fn 0) =? 0xFFFF then self else new_function self (gdd bus dev fn))).
  - simpl_res. f_equal. cbn [app]. f_equal. unfold more_functions.
    assert (E : ∀ xs fs, foldl (λ self fn, if bits_16_lower (cfgr bus dev fn 0) =? 0xFFFF then self
        else new_function self (gdd bus dev fn)) (PciDevice (gdd bus dev 0) fs) xs =
      PciDevice (gdd bus dev 0) (foldl (λ fs fn, if bits_16_lower (cfgr bus dev fn 0) =? 0xFFFF then fs
        else gdd bus dev fn :: fs) fs xs)).
    { intros xs. induction xs as [|x xs IH]; intros fs; cbn [foldl]; [done|]. case_match; apply IH. }
    apply E.
  - intros fn self Hfn. apply elem_of_seqZ in Hfn. rewrite gdd_register by lia. simpl_res.
    case_match; [done|]. rewrite Hcf by lia. done.
Qed.

Lemma check_function_spec cb bus dev fn :
  (is_bridge cfg_read h bus dev fn → ∃ ds, cb (bits_8_lower_mid (cfgr bus dev fn 6)) = Ok ds) →
  check_function_with cb (gdd bus dev fn) = Ok tt.
Proof.
  intros Hcb. unfold check_function_with. rewrite !gdd_register by lia. simpl_res.
  destruct (Z.eqb_spec (bits_8_upper (cfgr bus dev fn 2)) 6); cbn [andb]; [|done].
  destruct (Z.eqb_spec (bits_8_upper_mid (cfgr bus dev fn 2)) 4); [|done].
  destruct Hcb as [ds ->]; done.
Qed.

Definition bus_list (bus : Z) : list pci_device :=
  foldl (λ devs dev, found bus dev ++ devs) [] (seqZ 0 32).

Lemma secondary_bus_range bus dev fn : 0 ≤ bits_8_lower_mid (cfgr bus dev fn 6) < 256.
Proof. unfold bits_8_lower_mid. apply (Z.mod_pos_bound _ (2 ^ 8)). lia. Qed.

Lemma check_bus_spec fuel bus :
  bridges_up cfg_read h → 0 ≤ bus < 256 → 256 - bus ≤ Z.of_nat fuel →
  check_bus cfg_read junk fuel h bus = Ok (bus_list bus).
Proof.
  intros Hup. revert bus. induction fuel as [|fuel IH]; intros bus Hlt Hf; cbn [check_bus]; [lia|].
  apply for_list_total. intros dev devs Hdev%elem_of_seqZ. apply check_device_spec. intros fn Hfn.
  apply check_function_spec. intros Hb. exists (bus_list (bits_8_lower_mid (cfgr bus dev fn 6))).
  pose proof (Hup bus dev fn Hlt ltac:(lia) Hfn Hb). pose proof (secondary_bus_range bus dev fn). apply IH; lia.
Qed.

Lemma elem_more d bus dev xs fs :
  d ∈ foldl (λ fs fn, if bits_16_lower (cfgr bus dev fn 0) =? 0xFFFF then fs else gdd bus dev fn :: fs)
        fs xs ↔
  d ∈ fs ∨ ∃ fn, fn ∈ xs ∧ bits_16_lower (cfgr bus dev fn 0) ≠ 0xFFFF ∧ d = gdd bus dev fn.
Proof.
  revert fs. induction xs as [|x xs IH]; intros fs; cbn [foldl]; [set_solver|]. rewrite IH.
  destruct (Z.eqb_spec (bits_16_lower (cfgr bus dev x 0)) 0xFFFF); set_solver.
Qed.

Lemma elem_found d bus dev :
  d ∈ preorder (found bus dev) ↔ ∃ fn, present cfg_read h bus dev fn ∧ d = gdd bus dev fn.
Proof.
  unfold found, present.
  destruct (Z.eqb_spec (bits_16_lower (cfgr bus dev 0 0)) 0xFFFF) as [E|E]; [set_solver|].
  unfold preorder. cbn [mbind list_bind]. rewrite app_nil_r, elem_of_cons. cbn [descriptor functions].
  destruct (Z.eqb_spec (Z.land (bits_8_upper_mid (cfgr bus dev 0 3)) 0x80) 0) as [E2|E2].
  - split.
    + intros [->|Hd]; [|set_solver]. exists 0. auto.
    + intros (fn & (_ & [->|(_ & ? & _)]) & ->); [by left|done].
  - unfold more_functions. rewrite elem_more. setoid_rewrite elem_of_seqZ. split.
    + intros [->|[Hd|(fn & ? & ? & ->)]]; [exists 0; auto|set_solver|exists fn].
      split; [|done]. split; [done|right]. split_and!; done || lia.
    + intros (fn & (_ & [->|(? & _ & ?)]) & ->); [by left|]. right. right. exists fn.
      split_and!; done || lia.
Qed.

Lemma elem_bus_list d bus :
  d ∈ preorder (bus_list bus) ↔
  ∃ dev fn, 0 ≤ dev < 32 ∧ present cfg_read h bus dev fn ∧ d = gdd bus dev fn.
Proof.
  assert (G : ∀ xs acc, d ∈ preorder (foldl (λ devs dev, found bus dev ++ devs) acc xs) ↔
    d ∈ preorder acc ∨ ∃ dev, dev ∈ xs ∧ d ∈ preorder (found bus dev)).
  { intros xs. induction xs as [|x xs IH]; intros acc; cbn [foldl]; [set_solver|]. rewrite IH.
    assert (E : preorder (found bus x ++ acc) = preorder (found bus x) ++ preorder acc)
      by apply bind_app.
    rewrite E. set_solver. }
  unfold bus_list. rewrite G. setoid_rewrite elem_found. setoid_rewrite elem_of_seqZ. split.
  - intros [Hd|(dev & ? & fn & ? & ->)]; [set_solver|]. exists dev, fn. split_and!; done || lia.
  - intros (dev & fn & ? & ? & ->). right. exists dev. split; [lia|]. eauto.
Qed.
End scan.

Section search.
Context (rn value mask : Z).

(** The two searches are one over the flattened list. *)
Lemma search_functions_app ds1 ds2 skip :
  search_functions (ds1 ++ ds2) rn value mask skip =
  (r ← search_functions ds1 rn value mask skip;
   match r with inl d => Ok (inl d) | inr skip => search_functions ds2 rn value mask skip end).
Proof.
  revert skip. induction ds1 as [|d ds1 IH]; intros skip; cbn [app search_functions]; [done|].
  destruct (match_one d rn value mask skip) as [[d'|k]|e]; simpl_res; [done|apply IH|done].
Qed.

Lemma search_bus_preorder devs skip :
  search_bus_for_match devs rn value mask skip = search_functions (preorder devs) rn value mask skip.
Proof.
  revert skip. induction devs as [|dev devs IH]; intros skip; cbn [search_bus_for_match]; [done|].
  change (preorder (dev :: devs)) with ((descriptor dev :: functions dev) ++ preorder devs).
  rewrite search_functions_app. cbn [search_functions].
  destruct (match_one (descriptor dev) rn value mask skip) as [[d'|k]|e]; simpl_res; try done.
  destruct (search_functions (functions dev) rn value mask k) as [[d'|k']|e]; simpl_res; done.
Qed.

Lemma search_functions_spec (Q : pci_device_descriptor → Prop) `{∀ d, Decision (Q d)} ds skip :
  0 ≤ rn → 0 ≤ skip < 2 ^ 32 →
  (∀ d, d ∈ ds → ∃ r, registers d !! Z.to_nat rn = Some r ∧ (Q d ↔ Z.land r mask = value)) →
  ∃ o, search_functions ds rn value mask skip = Ok o ∧
    match o with
    | inl d => filter Q ds !! Z.to_nat skip = Some d
    | inr _ => filter Q ds !! Z.to_nat skip = None
    end.
Proof.
  intros Hrn. revert skip. induction ds as [|d ds IH]; intros skip Hs Hds; cbn [search_functions].
  - by eexists.
  - destruct (Hds d ltac:(by left)) as (r & Er & HQ). unfold match_one, register.
    rewrite (proj2 (Z.ltb_ge _ _)) by lia. rewrite Er. simpl_res.
    assert (Hds' : ∀ d, d ∈ ds → ∃ r, registers d !! Z.to_nat rn = Some r ∧ (Q d ↔ Z.land r mask = value))
      by (intros d' Hd'; apply Hds; by right).
    destruct (Z.eqb_spec (Z.land r mask) value) as [E|E].
    + rewrite filter_cons_True by (by apply HQ).
      destruct (Z.eqb_spec skip 0) as [->|Hk]; simpl_res; [by eexists|].
      assert (Eu : u32 (skip - 1) = skip - 1) by (apply wrap_small; lia). rewrite Eu.
      destruct (IH (skip - 1) ltac:(lia) Hds') as (o & -> & Ho). exists o. split; [done|].
      replace (Z.to_nat skip) with (S (Z.to_nat (skip - 1))) by lia. done.
    + rewrite filter_cons_False by (by rewrite HQ). apply IH; done.
Qed.
End search.

Lemma class_value c s :
  0 ≤ c < 256 → 0 ≤ s < 256 →
  Z.land (Z.lor (u32 (Z.shiftl c 24)) (u32 (Z.shiftl s 16))) 0xFFFF0000 = c * 2 ^ 24 + s * 2 ^ 16.
Proof.
  intros Hc Hs. rewrite !Z.shiftl_mul_pow2 by lia.
  assert (E1 : u32 (c * 2 ^ 24) = c * 2 ^ 24) by (apply wrap_small; lia).
  assert (E2 : u32 (s * 2 ^ 16) = s * 2 ^ 16) by (apply wrap_small; lia).
  rewrite E1, E2, Z.lor_comm, <- (Z.shiftl_mul_pow2 c), lor_shiftl_add by lia.
  change 0xFFFF0000 with (Z.shiftl (2 ^ 16 - 1) 16).
  replace (s * 2 ^ 16 + c * 2 ^ 24) with (Z.shiftl (s + c * 2 ^ 8) 16)
    by (rewrite Z.shiftl_mul_pow2 by lia; lia).
  rewrite <- Z.shiftl_land, land_mask, Z.mod_small by lia. rewrite !Z.shiftl_mul_pow2 by lia. lia.
Qed.

(** A capability list: the offsets from [ptr] on. *)
Fixpoint capabilities (get : Z → res Z) (ptr : Z) (cs : list (Z * Z)) : Prop :=
  match cs with
  | [] => ptr = 0
  | (c, v) :: cs => ptr = c ∧ c ≠ 0 ∧ get (c / 4) = Ok v ∧
      capabilities get (Z.shiftr (Z.land v 0xFF00) 8) cs
  end.

Definition msi_id (cv : Z * Z) : bool :=
  (Z.land cv.2 0xFF =? 0x5) || (Z.land cv.2 0xFF =? 0x11).

Fixpoint first_msi (cs : list (Z * Z)) : Z :=
  match cs with
  | [] => 0
  | cv :: cs => if msi_id cv then cv.1 else first_msi cs
  end.

(** ** Properties *)

(** The configuration addresses of different registers differ: bus, device,
    function and register number can be read back from the address. *)
Lemma pci_address_injective bus dev fn reg bus' dev' fn' reg' :
  0 ≤ bus < 256 → 0 ≤ dev < 32 → 0 ≤ fn < 8 → 0 ≤ reg < 64 →
  0 ≤ bus' < 256 → 0 ≤ dev' < 32 → 0 ≤ fn' < 8 → 0 ≤ reg' < 64 →
  get_pci_device_address bus dev fn reg = get_pci_device_address bus' dev' fn' reg' →
  bus = bus' ∧ dev = dev' ∧ fn = fn' ∧ reg = reg'.
Proof. intros. rewrite !get_pci_device_address_eq in * by done. lia. Qed.

(** [locate_pci_device] returns the [skip]-th of the listed functions with
    the asked class, in list order, or NULL when there are not that many. *)
Lemma locate_pci_device_nth devs c s skip :
  Forall well_formed (preorder devs) → 0 ≤ c < 256 → 0 ≤ s < 256 → 0 ≤ skip < 2 ^ 32 →
  locate_pci_device devs c s skip = Ok (filter (has_class c s) (preorder devs) !! Z.to_nat skip).
Proof.
  intros Hwf Hc Hs Hk. unfold locate_pci_device, search_for_match. cbv zeta.
  rewrite class_value, search_bus_preorder by done.
  destruct (search_functions_spec 2 (c * 2 ^ 24 + s * 2 ^ 16) 0xFFFF0000 (has_class c s)
              (preorder devs) skip) as (o & -> & Ho); [lia|done| |].
  - intros d Hd. rewrite Forall_forall in Hwf. specialize (Hwf d Hd). unfold well_formed in Hwf.
    destruct (lookup_lt_is_Some_2 (registers d) 2) as [r Er]; [lia|]. exists r. split; [done|].
    unfold has_class. by rewrite Er.
  - simpl_res. by destruct o; rewrite Ho.
Qed.

(** C14: when bridges lead to larger bus numbers the scan ends, and on a host
    without functions the root list then holds exactly the functions that are
    present on bus 0: nothing behind a bridge is ever listed, so
    [locate_pci_device] cannot find it. *)
Theorem scan_pci_space_bus0 {H : Type} (cfg_read : H → Z → Z) junk (h : H) fuel :
  bridges_up cfg_read h → (256 ≤ fuel)%nat →
  Z.land (bits_8_upper_mid (cfg cfg_read h 0 0 0 3)) 0x80 = 0 →
  ∃ devs, scan_pci_space cfg_read junk fuel h = Ok devs ∧ Forall well_formed (preorder devs) ∧
    ∀ d, d ∈ preorder devs ↔
      ∃ dev fn, 0 ≤ dev < 32 ∧ present cfg_read h 0 dev fn ∧
        d = get_device_descriptor cfg_read junk h 0 dev fn.
Proof.
  intros Hup Hf Hh. exists (bus_list cfg_read junk h 0). split; [|split; [|intros d; apply elem_bus_list]].
  - unfold scan_pci_space. rewrite gdd_register by lia. simpl_res. rewrite Hh. cbn [negb Z.eqb].
    apply for_list_total. intros dev devs Hdev%elem_of_seqZ. apply check_device_spec. intros fn Hfn.
    apply check_function_spec. intros Hb. eexists. pose proof (secondary_bus_range cfg_read h 0 dev fn).
    pose proof (Hup 0 dev fn ltac:(lia) ltac:(lia) Hfn Hb). apply check_bus_spec; [done|lia|lia].
  - apply Forall_forall. intros d (dev & fn & _ & _ & ->)%elem_bus_list. apply gdd_well_formed.
Qed.

(** On a finite capability list [check_msi_capability] ends and returns the
    offset of the first MSI or MSI-X capability, or 0. *)
Lemma check_msi_capability_first {H : Type} (cfg_read : H → Z → Z) (h : H) handle st cap cs fuel :
  get_register_value cfg_read h handle 1 = Ok st → Z.land st (2 ^ 20) ≠ 0 →
  get_register_value cfg_read h handle 0xD = Ok cap →
  capabilities (get_register_value cfg_read h handle) (Z.land cap 0xFC) cs → (length cs < fuel)%nat →
  check_msi_capability cfg_read fuel h handle = Ok (first_msi cs).
Proof.
  intros E1 Hst E2 Hcs Hf. unfold check_msi_capability. rewrite E1. simpl_res.
  rewrite (proj2 (Z.eqb_neq _ _) Hst), E2. simpl_res. unfold capability_loop.
  revert Hcs Hf. generalize (Z.land cap 0xFC). revert fuel.
  induction cs as [|[c v] cs IH]; intros fuel p Hcs Hf; (destruct fuel as [|fuel]; [lia|]);
    cbn [iter capabilities first_msi] in *.
  - by rewrite Hcs.
  - destruct Hcs as (-> & Hc & Ev & Hcs). rewrite (proj2 (Z.eqb_neq _ _) Hc), Ev. simpl_res.
    unfold msi_id. cbn [fst snd]. case_match; simpl_res; [done|]. apply IH; [done|cbn in Hf; lia].
Qed.

(** Registers 0x10 and 0x11 of a device that is not a CardBus bridge are never
    fetched: [get_register_value] returns the uninitialised array element,
    whatever the hardware holds, so a capability at offset 0x40 or 0x44 is read
    as garbage. *)
Lemma register_0x10_uninitialised {H : Type} (cfg_read : H → Z → Z) junk (h h' : H) bus dev fn i :
  Z.land (bits_8_upper_mid (cfg cfg_read h bus dev fn 3)) 0x7F ≠ 2 → 0x10 ≤ i < 0x12 →
  get_register_value cfg_read h' (Some (get_device_descriptor cfg_read junk h bus dev fn)) i =
  Ok (junk i).
Proof.
  intros Hh Hi. unfold get_register_value. rewrite (proj2 (Z.ltb_lt _ _)) by lia.
  unfold register, get_device_descriptor, cfg, get_pci_device_register in *. cbn [registers].
  rewrite (proj2 (Z.eqb_neq _ _) Hh), (proj2 (Z.ltb_ge _ _)) by lia.
  rewrite lookup_app_r by (rewrite length_fmap, length_seqZ; lia).
  rewrite length_fmap, length_seqZ. assert (i = 16 ∨ i = 17) as [-> | ->] by lia; done.
Qed.

(** *** Witnesses *)

(** A machine with a host bridge (class 6) as its device 0, a PCI-PCI bridge to
    bus 1 as its device 2 and a disk controller of two functions (class 1) as
    its device 3; behind the bridge is a network controller (class 2). *)
Definition demo_cfg (h : unit) (a : Z) : Z :=
  let reg := a / 4 mod 64 in
  let fn := a / 2 ^ 8 mod 8 in
  let dev := a / 2 ^ 11 mod 32 in
  let bus := a / 2 ^ 16 mod 256 in
  if bus =? 0 then
    if (dev =? 0) && (fn =? 0) then
      (if reg =? 0 then 0x12378086 else if reg =? 2 then 0x06000000 else 0)
    else if (dev =? 2) && (fn =? 0) then
      (if reg =? 0 then 0x244E8086 else if reg =? 2 then 0x06040000
       else if reg =? 3 then 0x00010000 else if reg =? 6 then 0x00010100 else 0)
    else if (dev =? 3) && (fn <? 2) then
      (if reg =? 0 then 0x70108086 else if reg =? 2 then 0x01060100
       else if reg =? 3 then 0x00800000 else if reg =? 1 then 0x00100000
       else if reg =? 0xD then 0x48 else if reg =? 18 then 0x5001 else if reg =? 20 then 0x0005
       else 0)
    else 0xFFFFFFFF
  else if (bus =? 1) && (dev =? 0) && (fn =? 0) then
    (if reg =? 0 then 0x100E8086 else if reg =? 2 then 0x02000000 else 0)
  else 0xFFFFFFFF.

Definition demo_disk : pci_device_descriptor := get_device_descriptor demo_cfg (λ _, 0) tt 0 3 0.

Lemma demo_cfg_eq bus dev fn reg :
  0 ≤ bus < 256 → 0 ≤ dev < 32 → 0 ≤ fn < 8 → 0 ≤ reg < 64 →
  let a := get_pci_device_address bus dev fn reg in
  a / 4 mod 64 = reg ∧ a / 2 ^ 8 mod 8 = fn ∧ a / 2 ^ 11 mod 32 = dev ∧ a / 2 ^ 16 mod 256 = bus.
Proof.
  intros Hb Hd Hf Hr. cbv zeta. rewrite get_pci_device_address_eq by done.
  assert (E : ∀ q d n r, 0 < d → 0 ≤ r < d → ∀ x k, x = (q + k * n) * d + r → 0 ≤ q < n → x / d mod n = q).
  { intros q d n r Hd0 Hr0 x k -> Hq. rewrite Z.div_add_l by lia. rewrite (Z.div_small r d), Z.add_0_r by lia.
    rewrite Z.mod_add by lia. by apply Z.mod_small. }
  split_and!.
  - apply (E reg 4 64 0) with (k := 2 ^ 23 + bus * 2 ^ 8 + dev * 2 ^ 3 + fn); lia.
  - apply (E fn (2 ^ 8) 8 (reg * 4)) with (k := 2 ^ 20 + bus * 2 ^ 5 + dev); lia.
  - apply (E dev (2 ^ 11) 32 (fn * 2 ^ 8 + reg * 4)) with (k := 2 ^ 15 + bus); lia.
  - apply (E bus (2 ^ 16) 256 (dev * 2 ^ 11 + fn * 2 ^ 8 + reg * 4)) with (k := 2 ^ 7); lia.
Qed.

(** The only bridge leads from bus 0 to bus 1. *)
Lemma demo_bridges_up : bridges_up demo_cfg tt.
Proof.
  intros bus dev fn Hb Hd Hf [E1 E2]. revert E1 E2. unfold cfg, demo_cfg.
  destruct (demo_cfg_eq bus dev fn 2 Hb Hd Hf ltac:(lia)) as (R1 & R2 & R3 & R4).
  destruct (demo_cfg_eq bus dev fn 6 Hb Hd Hf ltac:(lia)) as (S1 & S2 & S3 & S4).
  cbv zeta in R1, R2, R3, R4, S1, S2, S3, S4 |- *. rewrite R1, R2, R3, R4, S1, S2, S3, S4.
  destruct (Z.eqb_spec bus 0) as [->|]; repeat case_match; (done || intros E1 E2; by vm_compute in E1, E2).
Qed.

(** The bridge is found, the controller behind it is there but not found. *)
Lemma scan_pci_space_bus0_witness :
  is_bridge demo_cfg tt 0 2 0 ∧ bits_8_lower_mid (cfg demo_cfg tt 0 2 0 6) = 1 ∧ present demo_cfg tt 1 0 0 ∧
  ∃ devs, scan_pci_space demo_cfg (λ _, 0) 256 tt = Ok devs ∧ length (preorder devs) = 4%nat ∧
    Forall well_formed (preorder devs) ∧
    ∀ d, d ∈ preorder devs ↔
      ∃ dev fn, 0 ≤ dev < 32 ∧ present demo_cfg tt 0 dev fn ∧
        d = get_device_descriptor demo_cfg (λ _, 0) tt 0 dev fn.
Proof.
  split; [split; vm_compute; reflexivity|]. split; [vm_compute; reflexivity|].
  split; [split; [vm_compute; discriminate|by left]|].
  destruct (scan_pci_space_bus0 demo_cfg (λ _, 0) tt 256) as (devs & E & Hwf & Hd);
    [apply demo_bridges_up|lia|by vm_compute|].
  exists devs. split; [exact E|]. split; [|split; [exact Hwf|exact Hd]].
  assert (E4 : ('(n) ← (devs ← scan_pci_space demo_cfg (λ _, 0) 256 tt; Ok (length (preorder devs))); Ok n) = Ok 4%nat)
    by (vm_compute; reflexivity).
  rewrite E in E4. by injection E4.
Defined.
