(* ===== verification/Ahci.v ===== *)
(** * The AHCI driver (lethe-kernel/pci/ahci.c)

    The registers of the controller are read and written through [Mmio], each
    access a step of the hardware, in the order of the source; the command
    list and the command tables are byte memory.  The reads a log message
    makes are kept.  [int] shifts into the sign bit behave as the compiler
    documents them. *)
From S2P Require Import Prelude LibString Heap FrameAlloc Paging Pci.

(** ** Definitions *)

(** A controller: 32-bit registers at addresses, accesses change it. *)
Class Mmio (H : Type) := {
  mmio_read : Z → H → Z * H;
  mmio_write : Z → Z → H → H
}.

Definition SATA_SIG_ATA : Z := 0x00000101.
Definition FIS_TYPE_REG_H2D : Z := 0x27.
Definition PAGE_CACHE_DISABLE : Z := 2 ^ 4.

(** *** include/types.h *)

Definition IS_PAGE_ALIGNED (x : Z) : bool := Z.land x (PAGE_SIZE - 1) =? 0.

(** [x & ~4096], on 64 bits *)
Definition PAGE_ALIGN (x : Z) : Z := Z.land x (u64 (Z.lnot 4096)).

(** *** Layouts: offsets of the members the code uses *)

(** ahci_ghc_t, at the start of ahci_mem_t *)
Definition GHC_GHC : Z := 0x04.
Definition GHC_IS : Z := 0x08.
Definition GHC_PI : Z := 0x0C.

(** ahci_port_t *)
Definition PORT_CLB : Z := 0x00.
Definition PORT_CLBU : Z := 0x04.
Definition PORT_FB : Z := 0x08.
Definition PORT_FBU : Z := 0x0C.
Definition PORT_IS : Z := 0x10.
Definition PORT_IE : Z := 0x14.
Definition PORT_CMD : Z := 0x18.
Definition PORT_TFD : Z := 0x20.
Definition PORT_SIG : Z := 0x24.
Definition PORT_SSTS : Z := 0x28.
Definition PORT_SACT : Z := 0x34.
Definition PORT_CI : Z := 0x38.
Definition sizeof_port : Z := 0x80.

(** [&abar->ports[i]] *)
Definition ports (abar i : Z) : Z := abar + 0x100 + i * sizeof_port.

(** ahci_cmd_hdr_t, ahci_fis_h2d_t and ahci_cmd_tbl_t *)
Definition HDR_PRDTL : Z := 2.
Definition HDR_CTBA : Z := 8.
Definition HDR_CTBAU : Z := 12.
Definition sizeof_cmd_hdr : Z := 32.
Definition FIS_C : Z := 1.
Definition FIS_CMD : Z := 2.
Definition FIS_DEV : Z := 7.
Definition sizeof_fis_h2d : Z := 20.
Definition sizeof_cmd_tbl : Z := 64 + 16 + 48 + 16.

Record ahci_dev_t := Device {
  type : Z; port_number : Z; port : Z; command_header : Z; fis_base : Z; next : Z
}.
Definition sizeof_dev : Z := 40.

(** The controller, the frames, the page tables, memory, the kernel heap and
    the two statics; the devices are kept by their addresses. *)
Record ahci_state (H F A : Type) := State {
  hw : H; frames : F; tables : phys; memory : mem; kheap : A;
  devices : gmap Z ahci_dev_t; device_list : Z; abar : Z
}.
Arguments State {H F A}.
Arguments hw {H F A}.
Arguments frames {H F A}.
Arguments tables {H F A}.
Arguments memory {H F A}.
Arguments kheap {H F A}.
Arguments devices {H F A}.
Arguments device_list {H F A}.
Arguments abar {H F A}.

Section ahci.
Context {H F A : Type} `{Mmio H} `{FrameSource F} `{Allocator A}.
Context (page_table hhdm_mapping : Z).

Abbreviation st := (ahci_state H F A).

Definition with_hw (s : st) (h : H) : st :=
  State h (frames s) (tables s) (memory s) (kheap s) (devices s) (device_list s) (abar s).
Definition with_tables (s : st) (fs : F) (ph : phys) : st :=
  State (hw s) fs ph (memory s) (kheap s) (devices s) (device_list s) (abar s).
Definition with_memory (s : st) (m : mem) : st :=
  State (hw s) (frames s) (tables s) m (kheap s) (devices s) (device_list s) (abar s).
Definition with_device (s : st) (a : A) (p : Z) (d : ahci_dev_t) : st :=
  State (hw s) (frames s) (tables s) (memory s) a (<[p := d]> (devices s)) p (abar s).
Definition with_abar (s : st) (p : Z) : st :=
  State (hw s) (frames s) (tables s) (memory s) (kheap s) (devices s) (device_list s) p.

Definition read (s : st) (a : Z) : Z * st :=
  let '(v, h) := mmio_read a (hw s) in (v, with_hw s h).
Definition write (s : st) (a v : Z) : st := with_hw s (mmio_write a v (hw s)).

Definition map (s : st) (virtual physical : Z) : res st :=
  '(fs, ph) ← map_page (frames s) (tables s) page_table virtual physical
                (Z.lor (Z.lor PAGE_PRESENT PAGE_WRITABLE) PAGE_CACHE_DISABLE);
  Ok (with_tables s fs ph).

(** The search in [slots]; -1 when all bits are set. *)
Definition first_slot (slots : Z) : res Z :=
  iter 33 (λ '(i, slots),
    if i <? 32 then
      if Z.land slots 1 =? 0 then Ok (Done i) else Ok (Next (i + 1, Z.shiftr slots 1))
    else Ok (Done (-1))) (0, slots).

Definition find_cmdslot (s : st) (port : Z) : res (Z * st) :=
  let '(sact, s) := read s (port + PORT_SACT) in
  let '(ci, s) := read s (port + PORT_CI) in
  slot ← first_slot (Z.lor sact ci);
  Ok (slot, s).

Definition get_cmd_table (s : st) (header : Z) : res (Z * st) :=
  ctba ← load32 (memory s) (header + HDR_CTBA);
  ctbau ← load32 (memory s) (header + HDR_CTBAU);
  let physical := Z.lor ctba (Z.shiftl ctbau 32) in
  let virtual := u64 (physical + hhdm_mapping) in
  if negb (IS_PAGE_ALIGNED virtual) then Err Halted
  else
    p ← virtual_to_physical (tables s) page_table virtual;
    s ← (if negb (p =? physical) then map s virtual physical else Ok s);
    Ok (virtual, s).

(** [reg &= ~(1 << bit)] and [reg |= 1 << bit] *)
Definition clear_bit (s : st) (a bit : Z) : st :=
  let '(v, s) := read s a in write s a (Z.land v (u32 (Z.lnot (2 ^ bit)))).
Definition set_bit (s : st) (a bit : Z) : st :=
  let '(v, s) := read s a in write s a (Z.lor v (2 ^ bit)).

Definition stop_cmd (fuel : nat) (s : st) (device : ahci_dev_t) : res st :=
  let cmd := port device + PORT_CMD in
  let s := clear_bit s cmd 0 in
  let s := clear_bit s cmd 4 in
  iter fuel (λ s,
    let '(v, s) := read s cmd in
    if Z.testbit v 14 then Ok (Next s)
    else
      let '(v, s) := read s cmd in
      if Z.testbit v 15 then Ok (Next s) else Ok (Done s)) s.

Definition start_cmd (fuel : nat) (s : st) (device : ahci_dev_t) : res st :=
  let cmd := port device + PORT_CMD in
  s ← iter fuel (λ s,
    let '(v, s) := read s cmd in
    if Z.testbit v 15 then Ok (Next s) else Ok (Done s)) s;
  let s := set_bit s cmd 4 in
  Ok (set_bit s cmd 0).

(** The part of [send_cmd] that fills the header. *)
Definition write_header (m : mem) (header : Z) : res mem :=
  b ← load8 m header;
  m ← store8 m header (Z.lor (Z.land b 0xE0) (sizeof_fis_h2d / 4));
  b ← load8 m header;
  m ← store8 m header (Z.land b 0xBF);
  store_le 2 m (header + HDR_PRDTL) 0.

(** The part of [send_cmd] that fills the command table. *)
Definition write_fis (m : mem) (table port_number : Z) : res mem :=
  '(_, m) ← memset m table 0 sizeof_cmd_tbl;
  m ← store8 m table FIS_TYPE_REG_H2D;
  b ← load8 m (table + FIS_C);
  m ← store8 m (table + FIS_C) (Z.lor (Z.land b 0x7F) 0x80);
  m ← store8 m (table + FIS_CMD) 0xEC;
  store8 m (table + FIS_DEV) port_number.

(** The wait for an idle device: [spin] when it ends. *)
Definition wait_idle (s : st) (port : Z) : res (Z * st) :=
  iter (Z.to_nat 1000001) (λ '(spin, s),
    let '(v, s) := read s (port + PORT_TFD) in
    if negb (Z.land v 0x88 =? 0) && (spin <? 1000000) then Ok (Next (spin + 1, s))
    else Ok (Done (spin, s))) (0, s).

(** The loop at the end of [send_cmd]. *)
Definition wait_command (fuel : nat) (s : st) (port slot : Z) : res st :=
  iter fuel (λ s,
    let '(_, s) := read s (port + PORT_IS) in
    let '(ci, s) := read s (port + PORT_CI) in
    if Z.land ci (u32 (2 ^ slot)) =? 0 then Ok (Done s)
    else
      let '(sts, s) := read s (port + PORT_IS) in
      if Z.testbit sts 0 then Err Halted else Ok (Next s)) s.

(** [send_cmd] up to its last loop: the slot it uses. *)
Definition issue_cmd (fuel : nat) (s : st) (device : ahci_dev_t) : res (Z * st) :=
  s ← stop_cmd fuel s device;
  let s := write s (port device + PORT_IS) 0 in
  let s := write s (port device + PORT_IE) UINT32_MAX in
  '(slot, s) ← find_cmdslot s (port device);
  if slot =? -1 then Err Halted
  else
    let header := command_header device + slot * sizeof_cmd_hdr in
    m ← write_header (memory s) header;
    '(table, s) ← get_cmd_table (with_memory s m) header;
    m ← write_fis (memory s) table (port_number device);
    let s := with_memory s m in
    '(spin, s) ← wait_idle s (port device);
    if spin =? 1000000 then Err Halted
    else
      let '(_, s) := read s (port device + PORT_IE) in
      Ok (slot, write s (port device + PORT_CI) (2 ^ slot)).

(** The argument [command] is not used. *)
Definition send_cmd (fuel : nat) (s : st) (device : ahci_dev_t) (command : Z) : res st :=
  '(slot, s) ← issue_cmd fuel s device;
  wait_command fuel s (port device) slot.

Definition init_sata_drive (fuel : nat) (s : st) (device : ahci_dev_t) : res st := send_cmd fuel s device 0.

Definition read64 (s : st) (a b : Z) : Z * st :=
  let '(lo, s) := read s a in
  let '(hi, s) := read s b in
  (Z.lor lo (Z.shiftl hi 32), s).

(** A failed [kmalloc] is followed by a store through NULL. *)
Definition init_port (fuel : nat) (s : st) (port port_number : Z) : res st :=
  let '(ssts, s) := read s (port + PORT_SSTS) in
  if negb (Z.land ssts 7 =? 3) then Ok s
  else
    let '(clb, s) := read64 s (port + PORT_CLB) (port + PORT_CLBU) in
    let '(fb, s) := read64 s (port + PORT_FB) (port + PORT_FBU) in
    let clb := if negb (IS_PAGE_ALIGNED clb) then PAGE_ALIGN clb else clb in
    let fb := if negb (IS_PAGE_ALIGNED fb) then PAGE_ALIGN fb else fb in
    s ← map s (u64 (clb + hhdm_mapping)) clb;
    s ← map s (u64 (fb + hhdm_mapping)) fb;
    '(p, a) ← malloc (kheap s) sizeof_dev;
    _ ← guard_or Undefined (negb (p =? 0));
    let '(sig, s) := read s (port + PORT_SIG) in
    let device := Device sig (u8 port_number) port (u64 (clb + hhdm_mapping)) (u64 (fb + hhdm_mapping))
                    (device_list s) in
    let s := with_device s a p device in
    if type device =? SATA_SIG_ATA then init_sata_drive fuel s device
    else let '(_, s) := read s (port + PORT_SIG) in Ok s.

Definition enumerate_ahci_devices (fuel : nat) (s : st) (abar : Z) : res st :=
  let '(pi, s) := read s (abar + GHC_PI) in
  iter 33 (λ '(i, s),
    if i <? 32 then
      s ← (if negb (Z.testbit pi i) then Ok s else init_port fuel s (ports abar i) i);
      Ok (Next (i + 1, s))
    else Ok (Done s)) (0, s).

(** The messages about issued commands read [ci] for each of the 32 bits. *)
Definition ahci_irq (s : st) : res st :=
  if abar s =? 0 then Err Halted
  else
    let '(sts, s) := read s (abar s + GHC_IS) in
    iter 33 (λ '(i, s),
      if i <? 32 then
        if negb (Z.testbit sts i) then Ok (Next (i + 1, s))
        else
          let port := ports (abar s) i in
          let '(port_is, s) := read s (port + PORT_IS) in
          if port_is =? 0 then Ok (Next (i + 1, s))
          else if negb (Z.land port_is (Z.shiftl 0x1F 26) =? 0) then Err Halted
          else
            let s := Nat.iter 32 (λ s, (read s (port + PORT_CI)).2) s in
            Ok (Next (i + 1, s))
      else Ok (Done s)) (0, s).

Definition test_ahci (s : st) (port : Z) : st :=
  let s := write s (port + PORT_IS) UINT32_MAX in write s (port + PORT_IE) 1.

(** The devices PCI enumeration found are [devs].  The two registers of the
    last message are read and the sizes printed. *)
Definition init_ahci (cfg_read : H → Z → Z) (cfg_write : H → Z → Z → H) (fuel : nat) (devs : list pci_device)
    (lapic_addr_phys : Z) (s : st) : res st :=
  handle ← locate_pci_device devs 0x1 0x6 0;
  if negb (bool_decide (is_Some handle)) then Ok s
  else
    header_0 ← pci_compare_value handle 3 0 0x007F0000;
    if negb header_0 then Ok s
    else
      msi_cap ← check_msi_capability cfg_read fuel (hw s) handle;
      h ← (if negb (msi_cap =? 0) then enable_msi cfg_read cfg_write (hw s) lapic_addr_phys handle msi_cap
           else Ok None);
      let s := with_hw s (default (hw s) h) in
      phys_addr ← get_register_value cfg_read (hw s) handle 0x9;
      '(abar, fs, ph) ← map_page_nearest fuel hhdm_mapping (frames s) (tables s) page_table
                          (u64 (phys_addr + hhdm_mapping)) phys_addr
                          (Z.lor (Z.lor PAGE_PRESENT PAGE_WRITABLE) PAGE_CACHE_DISABLE);
      let s := with_abar (with_tables s fs ph) abar in
      let s := set_bit s (abar + GHC_GHC) 31 in
      let s := set_bit s (abar + GHC_GHC) 1 in
      let '(_, s) := read s (abar + GHC_GHC) in
      s ← enumerate_ahci_devices fuel s abar;
      _ ← get_register_value cfg_read (hw s) handle (msi_cap / 4 + 0x14);
      _ ← get_register_value cfg_read (hw s) handle (msi_cap / 4 + 0x10);
      Ok s.
End ahci.

(** A port of a controller whose command engine is off.  [stopped]: ST and FRE
    of the port's command register are clear.  [pending slot]: moreover the command in [slot] has been
    issued.  The interface of AHCI 1.3.1, 3.3.7 and 3.3.14: the controller
    neither fetches a command nor clears its bit in CI while ST is clear. *)
Record engine_off {H} `{Mmio H} (port : Z) (stopped : H → Prop) (pending : Z → H → Prop) : Prop := EngineOff {
  off_st v h : Z.testbit v 0 = false →
    Z.testbit (mmio_read (port + PORT_CMD) (mmio_write (port + PORT_CMD) v h)).1 0 = false;
  off_fre v h : Z.testbit v 0 = false → Z.testbit v 4 = false → stopped (mmio_write (port + PORT_CMD) v h);
  off_read a h : stopped h → stopped (mmio_read a h).2;
  off_write a v h : stopped h → a ≠ port + PORT_CMD → stopped (mmio_write a v h);
  off_issue slot h : stopped h → 0 ≤ slot < 32 → pending slot (mmio_write (port + PORT_CI) (2 ^ slot) h);
  pending_read slot a h : pending slot h → pending slot (mmio_read a h).2;
  pending_ci slot h : pending slot h → Z.testbit (mmio_read (port + PORT_CI) h).1 slot = true
}.

(** A drive at port [i] of the controller at [abar]: the port is implemented, a
    device is there, it is an ATA disk, and no access changes that. *)
Record drive_present {H} `{Mmio H} (abar i : Z) (drive : H → Prop) : Prop := DrivePresent {
  drive_read a h : drive h → drive (mmio_read a h).2;
  drive_write a v h : drive h → drive (mmio_write a v h);
  drive_pi h : drive h → Z.testbit (mmio_read (abar + GHC_PI) h).1 i = true;
  drive_ssts h : drive h → Z.land (mmio_read (ports abar i + PORT_SSTS) h).1 7 = 3;
  drive_sig h : drive h → (mmio_read (ports abar i + PORT_SIG) h).1 = SATA_SIG_ATA
}.

(** ** Lemmas *)

Lemma first_slot_spec slots :
  0 ≤ slots →
  ∃ i, first_slot slots = Ok i ∧
    (∀ j, 0 ≤ j < (if i =? -1 then 32 else i) → Z.testbit slots j = true) ∧
    (i = -1 ∨ 0 ≤ i < 32 ∧ Z.testbit slots i = false).
Proof.
  intros Hs. unfold first_slot.
  apply (iter_total _
    (λ '(i, r), 0 ≤ i ≤ 32 ∧ r = Z.shiftr slots i ∧ ∀ j, 0 ≤ j < i → Z.testbit slots j = true)
    (λ i, (∀ j, 0 ≤ j < (if i =? -1 then 32 else i) → Z.testbit slots j = true) ∧
          (i = -1 ∨ 0 ≤ i < 32 ∧ Z.testbit slots i = false))
    (λ '(i, _), Z.to_nat (32 - i))).
  - intros [i r] (Hi & -> & Hj). destruct (Z.ltb_spec i 32) as [Hlt|Hge]; cbn [negb].
    + assert (E : Z.land (Z.shiftr slots i) 1 = Z.b2z (Z.testbit slots i)).
      { rewrite (land_mask 1) by lia. change (2 ^ 1) with 2. by rewrite <- Z.bit0_mod, Z.shiftr_spec, Z.add_0_l. }
      rewrite E. destruct (Z.testbit slots i) eqn:Eb; cbn [Z.b2z Z.eqb].
      * split; [|lia]. split; [lia|]. split; [by rewrite Z.shiftr_shiftr by lia|].
        intros j Hj'. destruct (decide (j = i)) as [->|]; [done|apply Hj; lia].
      * rewrite (proj2 (Z.eqb_neq i (-1))) by lia. split; [done|]. right. by split; [lia|].
    + split; [|by left]. change (-1 =? -1) with true. cbv iota. intros j ?. apply Hj. lia.
  - split; [lia|]. by split; [|intros; lia].
  - lia.
Qed.

Lemma memset_bytes m p val n :
  mapped m p n → is_byte val → memset m p val (Z.of_nat n) = Ok (p, write_bytes m p (replicate n val)).
Proof.
  intros Hm Hv. unfold memset. rewrite Nat2Z.id.
  assert (G : ∀ k i, (i + k = n)%nat →
    iter (S k) (λ '(i, m), if i <? Z.of_nat n then m ← store8 m (p + i) val; Ok (Next (i + 1, m)) else Ok (Done m))
      (Z.of_nat i, write_bytes m p (replicate i val)) = Ok (write_bytes m p (replicate n val))).
  { induction k as [|k IH]; intros i Hi; cbn [iter].
    - rewrite (proj2 (Z.ltb_ge _ _)) by lia. simpl_res. by replace i with n by lia.
    - rewrite (proj2 (Z.ltb_lt _ _)) by lia.
      rewrite store8_Ok by (done || apply write_bytes_mapped, Hm; lia). simpl_res.
      replace (Z.of_nat i + 1) with (Z.of_nat (S i)) by lia. rewrite <- (IH (S i)) by lia. do 2 f_equal.
      by rewrite replicate_S_end, write_bytes_snoc, length_replicate. }
  pose proof (G n 0%nat eq_refl) as E. cbn [replicate write_bytes] in E. change (Z.of_nat 0) with 0 in E.
  by rewrite E.
Qed.

(** A store into bytes that are known. *)
Lemma store8_bytes_at m p bs k v :
  bytes_at m p bs → (k < length bs)%nat → is_byte v →
  store8 m (p + Z.of_nat k) v = Ok (<[p + Z.of_nat k := v]> m) ∧ bytes_at (<[p + Z.of_nat k := v]> m) p (<[k := v]> bs).
Proof.
  intros Hb Hk Hv. split; [by apply store8_Ok; [apply bytes_at_mapped in Hb; apply Hb|]|].
  intros i b Hi. destruct (decide (i = k)) as [->|Hne].
  - rewrite list_lookup_insert_eq in Hi by done. injection Hi as <-. by rewrite lookup_insert_eq.
  - rewrite list_lookup_insert_ne in Hi by done. rewrite lookup_insert_ne by lia. by apply Hb.
Qed.

(** The IDENTIFY DEVICE command: register FIS with the command bit. *)
Definition identify_fis (port_number : Z) : list Z :=
  [FIS_TYPE_REG_H2D; 0x80; 0xEC; 0; 0; 0; 0; port_number] ++ replicate 136 0.

Lemma write_fis_bytes m table n :
  mapped m table 144 → is_byte n →
  ∃ m', write_fis m table n = Ok m' ∧ bytes_at m' table (identify_fis n) ∧
    ∀ a, a < table ∨ table + 144 ≤ a → m' !! a = m !! a.
Proof.
  intros Hm Hn. unfold write_fis. change sizeof_cmd_tbl with (Z.of_nat 144). rewrite memset_bytes by done. simpl_res.
  assert (Ho : ∀ a, a < table ∨ table + 144 ≤ a → write_bytes m table (replicate 144 0) !! a = m !! a).
  { intros a Ha. rewrite write_bytes_lookup, decide_False; [done|]. rewrite length_replicate. lia. }
  revert Ho. generalize (write_bytes_at m table (replicate 144 0)).
  generalize (write_bytes m table (replicate 144 0)). clear Hm. intros m1 H1 Ho.
  destruct (store8_bytes_at _ _ _ 0 FIS_TYPE_REG_H2D H1) as [E2 H2]; [cbn; lia|done|].
  rewrite Z.add_0_r in E2, H2. rewrite E2. simpl_res.
  rewrite (proj2 (load8_Ok _ (table + FIS_C) 0) (H2 1%nat 0 eq_refl)). simpl_res.
  destruct (store8_bytes_at _ _ _ 1 0x80 H2) as [E3 H3]; [cbn; lia|done|].
  change (table + FIS_C) with (table + Z.of_nat 1). change (Z.lor (Z.land 0 0x7F) 0x80) with 0x80.
  change (table + FIS_CMD) with (table + Z.of_nat 2). change (table + FIS_DEV) with (table + Z.of_nat 7).
  rewrite E3. simpl_res.
  destruct (store8_bytes_at _ _ _ 2 0xEC H3) as [E4 H4]; [cbn; lia|done|]. rewrite E4. simpl_res.
  destruct (store8_bytes_at _ _ _ 7 n H4) as [E5 H5]; [cbn; lia|done|]. rewrite E5.
  eexists. split; [done|]. split; [exact H5|].
  intros a Ha. rewrite !lookup_insert_ne by lia. by apply Ho.
Qed.

(** The low five bits get the length of the FIS, the write bit is cleared. *)
Lemma write_header_bytes m header b :
  m !! header = Some b → is_byte b → mapped m (header + 2) 2 →
  ∃ m', write_header m header = Ok m' ∧ m' !! header = Some (Z.lor (Z.land b 0xA0) 5) ∧
    bytes_at m' (header + 2) [0; 0] ∧
    ∀ a, a ≠ header → a < header + 2 ∨ header + 4 ≤ a → m' !! a = m !! a.
Proof.
  intros Hb Hby Hm. unfold write_header. rewrite (proj2 (load8_Ok _ _ _) Hb). simpl_res.
  change (sizeof_fis_h2d / 4) with 5. set (v := Z.lor (Z.land b 0xE0) 5).
  assert (Hv : is_byte v) by (apply (lor_range 8); [lia|apply (land_range 8); lia|lia]).
  rewrite store8_Ok by done. simpl_res.
  rewrite (proj2 (load8_Ok _ header v)) by apply lookup_insert_eq. simpl_res.
  assert (Ew : Z.land v 0xBF = Z.lor (Z.land b 0xA0) 5).
  { unfold v. by rewrite Z.land_lor_distr_l, <- Z.land_assoc. }
  rewrite Ew. rewrite store8_Ok; [|by rewrite lookup_insert_eq|rewrite <- Ew; apply (land_range 8); lia]. simpl_res.
  rewrite insert_insert_eq. unfold HDR_PRDTL. set (w := Z.lor (Z.land b 0xA0) 5).
  eexists. split; [apply (store_le_at _ _ [0; 0]); [|by repeat constructor]|].
  - intros i Hi. rewrite lookup_insert_ne by lia. by apply Hm.
  - split_and!; [|apply write_bytes_at|].
    + rewrite write_bytes_lookup, decide_False by (cbn; lia). apply lookup_insert_eq.
    + intros a Ha Ho. rewrite write_bytes_lookup, decide_False by (cbn; lia). by rewrite lookup_insert_ne.
Qed.

(** The device at port register [a] is busy for [n] polls, then idle. *)
Inductive idle_after {H : Type} `{Mmio H} (a : Z) : nat → H → H → Prop :=
| idle_now h v h' : mmio_read a h = (v, h') → Z.land v 0x88 = 0 → idle_after a 0 h h'
| idle_later n h v h' h'' :
    mmio_read a h = (v, h') → Z.land v 0x88 ≠ 0 → idle_after a n h' h'' → idle_after a (S n) h h''.

Definition is_ok {X : Type} (r : res X) : Prop := if r is Ok _ then True else False.

Lemma first_slot_lowest slots slot :
  0 ≤ slots → 0 ≤ slot < 32 → Z.testbit slots slot = false → (∀ j, 0 ≤ j < slot → Z.testbit slots j = true) →
  first_slot slots = Ok slot.
Proof.
  intros Hs Hr Hb Hlow. destruct (first_slot_spec slots Hs) as (i & -> & Hall & Hi).
  destruct Hi as [->|[Hi Hbi]]; [by rewrite (Hall slot) in Hb|].
  rewrite (proj2 (Z.eqb_neq i (-1))) in Hall by lia.
  destruct (Z.lt_trichotomy i slot) as [Hlt|[->|Hgt]]; [by rewrite (Hlow i) in Hbi by lia|done|].
  by rewrite (Hall slot) in Hb by lia.
Qed.

Section issue.
Context {H F A : Type} `{Mmio H} `{FrameSource F} `{Allocator A}.
Context (page_table hhdm_mapping : Z).

Abbreviation st := (ahci_state H F A).

Lemma wait_idle_spec (s : st) port n h' :
  idle_after (port + PORT_TFD) n (hw s) h' → Z.of_nat n < 1000000 →
  wait_idle s port = Ok (Z.of_nat n, with_hw s h').
Proof.
  intros Hi Hn. unfold wait_idle.
  assert (G : ∀ fuel k h, idle_after (port + PORT_TFD) n h h' → 0 ≤ k → k + Z.of_nat n < 1000000 → (n < fuel)%nat →
    iter fuel (λ '(spin, s),
      let '(v, s) := read s (port + PORT_TFD) in
      if negb (Z.land v 0x88 =? 0) && (spin <? 1000000) then Ok (Next (spin + 1, s)) else Ok (Done (spin, s)))
      (k, with_hw s h) = Ok (k + Z.of_nat n, with_hw s h')).
  { clear Hi Hn. induction n as [|n IH]; intros [|fuel] k h Hi Hk Hn Hf; try lia; inversion Hi; subst; cbn [iter];
      unfold read; cbn [with_hw hw];
      match goal with Hr : mmio_read _ h = _ |- _ => rewrite Hr end.
    - match goal with Hz : Z.land _ _ = 0 |- _ => rewrite Hz end. cbn [Z.eqb negb andb]. by rewrite Z.add_0_r.
    - rewrite (proj2 (Z.eqb_neq _ _)) by done. rewrite (proj2 (Z.ltb_lt _ _)) by lia. cbn [negb andb]. simpl_res.
      etransitivity; [apply (IH fuel (k + 1)); (done || lia)|]. do 2 f_equal. lia. }
  specialize (G (Z.to_nat 1000001) 0 (hw s) Hi ltac:(lia) ltac:(lia)).
  replace (with_hw s (hw s)) with s in G by (by destruct s). apply G. lia.
Qed.

Lemma issue_cmd_spec (s : st) (device : ahci_dev_t) fuel h1 h2 h3 h4 sact ci slot b lo hi p n :
  let port0 := port device in
  let header := command_header device + slot * 32 in
  let table := (lo + hi * 2 ^ 32 + hhdm_mapping) mod 2 ^ 64 in
  stop_cmd fuel s device = Ok (with_hw s h1) →
  mmio_read (port0 + PORT_SACT) (mmio_write (port0 + PORT_IE) UINT32_MAX (mmio_write (port0 + PORT_IS) 0 h1)) =
    (sact, h2) →
  mmio_read (port0 + PORT_CI) h2 = (ci, h3) → 0 ≤ sact → 0 ≤ ci →
  0 ≤ slot < 32 → Z.testbit sact slot = false → Z.testbit ci slot = false →
  (∀ j, 0 ≤ j < slot → Z.testbit sact j = true ∨ Z.testbit ci j = true) →
  memory s !! header = Some b → is_byte b → mapped (memory s) (header + 2) 2 →
  bytes_at (memory s) (header + 8) (le_bytes 4 lo) → bytes_at (memory s) (header + 12) (le_bytes 4 hi) →
  0 ≤ lo < 2 ^ 32 → 0 ≤ hi < 2 ^ 32 →
  mapped (memory s) table 144 → header + 4 ≤ table ∨ table + 144 ≤ header → table mod 4096 = 0 →
  virtual_to_physical (tables s) page_table table = Ok p →
  (p = lo + hi * 2 ^ 32 ∨ is_ok (map page_table (with_hw s h3) table (lo + hi * 2 ^ 32))) →
  is_byte (port_number device) → idle_after (port0 + PORT_TFD) n h3 h4 → Z.of_nat n < 1000000 →
  ∃ s', issue_cmd page_table hhdm_mapping fuel s device = Ok (slot, s') ∧
    hw s' = mmio_write (port0 + PORT_CI) (2 ^ slot) (mmio_read (port0 + PORT_IE) h4).2 ∧
    memory s' !! header = Some (Z.lor (Z.land b 0xA0) 5) ∧ bytes_at (memory s') (header + 2) [0; 0] ∧
    bytes_at (memory s') table (identify_fis (port_number device)) ∧
    ∀ a, a ≠ header → a < header + 2 ∨ header + 4 ≤ a → a < table ∨ table + 144 ≤ a →
      memory s' !! a = memory s !! a.
Proof.
  intros port0 header table Hstop Esact Eci Hs Hc Hslot Hbs Hbc Hlow Hb Hby Hm Hlo Hhi Hlo' Hhi' Ht Hd Hal Hv Hp Hn
    Hidle Hspin. unfold issue_cmd. rewrite Hstop. simpl_res. fold port0. unfold find_cmdslot, read, write.
  cbn [with_hw hw]. rewrite Esact. cbn [with_hw hw]. rewrite Eci. cbn [with_hw hw].
  rewrite (first_slot_lowest (Z.lor sact ci) slot); [|by apply Z.lor_nonneg|done|by rewrite Z.lor_spec, Hbs, Hbc|].
  2:{ intros j Hj. rewrite Z.lor_spec. by destruct (Hlow j Hj) as [-> | ->]; [|rewrite orb_true_r]. }
  simpl_res. rewrite (proj2 (Z.eqb_neq slot (-1))) by lia. change sizeof_cmd_hdr with 32. fold header.
  destruct (write_header_bytes (memory s) header b Hb Hby Hm) as (m1 & E1 & Hh1 & Hh2 & Ho).
  cbn [with_hw memory]. rewrite E1. simpl_res. unfold get_cmd_table. cbn [with_memory with_hw memory tables frames].
  assert (Hkeep : ∀ k v, bytes_at (memory s) (header + k) (le_bytes 4 v) → 4 ≤ k → bytes_at m1 (header + k) (le_bytes 4 v)).
  { intros k v Hb4 Hk i c Hi. rewrite Ho by lia. by apply Hb4. }
  unfold HDR_CTBA, HDR_CTBAU, load32.
  rewrite (load_le_bytes 4 m1 (header + 8) lo) by first [exact Hlo'|by apply Hkeep; [|lia]]. simpl_res.
  rewrite (load_le_bytes 4 m1 (header + 12) hi) by first [exact Hhi'|by apply Hkeep; [|lia]]. simpl_res.
  rewrite lor_shiftl_add by lia. cbv zeta. unfold u64, wrap. fold table.
  assert (Hpa : IS_PAGE_ALIGNED table = true).
  { unfold IS_PAGE_ALIGNED. change (PAGE_SIZE - 1) with (2 ^ 12 - 1). rewrite land_mask by lia.
    change (2 ^ 12) with 4096. by rewrite Hal. }
  rewrite Hpa. cbn [negb]. rewrite Hv. simpl_res.
  assert (Hmap : ∃ fs ph,
    (if negb (p =? lo + hi * 2 ^ 32) then map page_table (with_memory (with_hw s h3) m1) table (lo + hi * 2 ^ 32)
     else Ok (with_memory (with_hw s h3) m1)) = Ok (State h3 fs ph m1 (kheap s) (devices s) (device_list s) (abar s))).
  { destruct (Z.eqb_spec p (lo + hi * 2 ^ 32)) as [|Hne]; cbn [negb]; [by exists (frames s), (tables s)|].
    destruct Hp as [|Hp]; [done|]. unfold map in *. cbn [with_hw with_memory frames tables] in *.
    destruct (map_page _ _ _ _ _ _) as [[fs ph]|]; [|done]. by exists fs, ph. }
  destruct Hmap as (fs & ph & Em).
  match goal with |- context [map page_table ?x] => change x with (with_memory (with_hw s h3) m1) end.
  match goal with |- context [if _ then map _ _ _ _ else Ok ?x] => change x with (with_memory (with_hw s h3) m1) end.
  rewrite Em. simpl_res.
  destruct (write_fis_bytes m1 table (port_number device)) as (m2 & E2 & H3 & Ho2); [|done|].
  { intros i Hi. rewrite Ho by lia. by apply Ht. }
  cbn [memory]. rewrite E2. simpl_res.
  rewrite (wait_idle_spec _ _ n h4) by done. simpl_res.
  rewrite (proj2 (Z.eqb_neq (Z.of_nat n) 1000000)) by lia. cbn [with_hw with_memory hw].
  destruct (mmio_read (port0 + PORT_IE) h4) as [ie h5]. eexists. split; [done|]. cbn [hw memory with_hw snd].
  split_and!; [done| | |done|].
  - rewrite Ho2 by lia. done.
  - intros i c Hi. apply lookup_lt_Some in Hi as Hl. cbn in Hl. rewrite Ho2 by lia. by apply Hh2.
  - intros a Ha Ha1 Ha2. rewrite Ho2 by done. by apply Ho.
Qed.
End issue.

Section engine.
Context {H F A : Type} `{Mmio H} `{FrameSource F} `{Allocator A}.
Context (page_table hhdm_mapping : Z).
Context (port0 : Z) (stopped : H → Prop) (pending : Z → H → Prop).
Context (Hoff : engine_off port0 stopped pending).

Abbreviation st := (ahci_state H F A).

Lemma wait_command_never fuel (s s' : st) slot :
  0 ≤ slot < 32 → pending slot (hw s) → wait_command fuel s port0 slot ≠ Ok s'.
Proof.
  intros Hs Hp E. unfold wait_command in E.
  revert E. apply (iter_partial _ (λ s : st, pending slot (hw s)) (λ _, False)); [|done].
  clear s Hp. intros s c Hp. unfold read. apply (pending_read _ _ _ Hoff _ (port0 + PORT_IS)) in Hp as Hp1.
  destruct (mmio_read (port0 + PORT_IS) (hw s)) as [v1 h1]. cbn [with_hw hw snd] in *.
  pose proof (pending_ci _ _ _ Hoff _ _ Hp1) as Hci. apply (pending_read _ _ _ Hoff _ (port0 + PORT_CI)) in Hp1 as Hp2.
  destruct (mmio_read (port0 + PORT_CI) h1) as [ci h2]. cbn [with_hw hw fst snd] in *.
  apply (pending_read _ _ _ Hoff _ (port0 + PORT_IS)) in Hp2 as Hp3.
  destruct (mmio_read (port0 + PORT_IS) h2) as [v3 h3]. cbn [with_hw hw snd] in *.
  rewrite (proj2 (Z.eqb_neq _ _)).
  - destruct (Z.testbit v3 0); [done|]. by intros [= <-].
  - intros E%(f_equal (λ z, Z.testbit z slot)). revert E.
    rewrite Z.land_spec, Hci, Z.bits_0. unfold u32, wrap. rewrite Z.mod_pow2_bits_low, Z.pow2_bits_true by lia. done.
Qed.

Lemma read_stopped (s : st) a : stopped (hw s) → stopped (hw (read s a).2).
Proof.
  intros Hs. unfold read. pose proof (off_read _ _ _ Hoff a _ Hs). by destruct (mmio_read a (hw s)).
Qed.

Lemma write_stopped (s : st) a v : stopped (hw s) → a ≠ port0 + PORT_CMD → stopped (hw (write s a v)).
Proof. intros Hs Ha. by apply (off_write _ _ _ Hoff). Qed.

Lemma stop_cmd_stopped fuel (s s' : st) device :
  port device = port0 → stop_cmd fuel s device = Ok s' → stopped (hw s').
Proof.
  intros Hport E. unfold stop_cmd in E. rewrite Hport in E. revert E. apply (iter_partial _ (λ s : st, stopped (hw s)) (λ s : st, stopped (hw s))).
  - clear s. intros s c Hs. pose proof (read_stopped s (port0 + PORT_CMD) Hs) as Hs1.
    destruct (read s (port0 + PORT_CMD)) as [v1 s1]. cbn [snd] in Hs1.
    pose proof (read_stopped s1 (port0 + PORT_CMD) Hs1) as Hs2.
    destruct (read s1 (port0 + PORT_CMD)) as [v2 s2]. cbn [snd] in Hs2.
    destruct (Z.testbit v1 14); [by intros [= <-]|]. by destruct (Z.testbit v2 15); intros [= <-].
  - unfold clear_bit, read, write.
    destruct (mmio_read (port0 + PORT_CMD) (hw s)) as [v1 h1]. cbn [with_hw hw].
    pose proof (off_st _ _ _ Hoff (Z.land v1 (u32 (Z.lnot (2 ^ 0)))) h1) as Hst.
    destruct (mmio_read (port0 + PORT_CMD) (mmio_write (port0 + PORT_CMD) _ h1)) as [v2 h2]. cbn [with_hw hw fst] in *.
    apply (off_fre _ _ _ Hoff); rewrite Z.land_spec; [rewrite Hst; [done|]; by rewrite Z.land_spec, andb_false_r|by rewrite andb_false_r].
Qed.

Lemma wait_idle_stopped (s s' : st) n : stopped (hw s) → wait_idle s port0 = Ok (n, s') → stopped (hw s').
Proof.
  intros Hs E. unfold wait_idle in E. revert E. generalize (Z.to_nat 1000001). intros fuel E.
  enough (H' : stopped (hw (n, s').2)) by done. revert E.
  apply (iter_partial _ (λ r : Z * st, stopped (hw r.2)) (λ r, stopped (hw r.2))); [|done].
  clear s Hs. intros [k s] c Hs. pose proof (read_stopped s (port0 + PORT_TFD) Hs) as Hs1.
  destruct (read s (port0 + PORT_TFD)) as [v s1]. by case_match; intros [= <-].
Qed.

Lemma get_cmd_table_hw (s s' : st) header table :
  get_cmd_table page_table hhdm_mapping s header = Ok (table, s') → hw s' = hw s.
Proof.
  unfold get_cmd_table, map. intros E. inv_res E. case_match; [done|]. inv_res E. case_match; [|by injection E3 as <-].
  by destruct (map_page _ _ _ _ _ _) as [[fs ph]|]; [injection E3 as <-|].
Qed.

Lemma first_slot_range slots i : first_slot slots = Ok i → i = -1 ∨ 0 ≤ i < 32.
Proof.
  apply (iter_partial _ (λ r : Z * Z, 0 ≤ r.1) (λ i, i = -1 ∨ 0 ≤ i < 32)); [|done].
  intros [k r] c Hk. cbn in Hk. destruct (Z.ltb_spec k 32); [|intros [= <-]; by left].
  case_match; intros [= <-]; cbn; lia.
Qed.

Lemma send_cmd_never fuel (s s' : st) device command :
  port device = port0 → send_cmd page_table hhdm_mapping fuel s device command ≠ Ok s'.
Proof.
  intros Hport E. unfold send_cmd, issue_cmd in E. destruct (stop_cmd fuel s device) as [s1|] eqn:E1; simpl_res; [|done].
  rewrite Hport in E. apply stop_cmd_stopped in E1; [|done].
  apply (write_stopped _ (port0 + PORT_IS) 0) in E1; [|unfold PORT_IS, PORT_CMD; lia].
  apply (write_stopped _ (port0 + PORT_IE) UINT32_MAX) in E1; [|unfold PORT_IE, PORT_CMD; lia].
  revert E. generalize dependent (write (write s1 (port0 + PORT_IS) 0) (port0 + PORT_IE) UINT32_MAX). clear s s1.
  intros s Hs. unfold find_cmdslot.
  apply (read_stopped _ (port0 + PORT_SACT)) in Hs. destruct (read s (port0 + PORT_SACT)) as [sact s1].
  apply (read_stopped _ (port0 + PORT_CI)) in Hs. cbn [snd] in Hs. destruct (read s1 (port0 + PORT_CI)) as [ci s2]. cbn [snd] in Hs.
  destruct (first_slot (Z.lor sact ci)) as [slot|] eqn:Eslot; simpl_res; [|done].
  apply first_slot_range in Eslot. destruct (Z.eqb_spec slot (-1)); [done|].
  destruct (write_header _ _) as [m|]; simpl_res; [|done].
  destruct (get_cmd_table _ _ _ _) as [[table s3]|] eqn:Et; simpl_res; [|done]. apply get_cmd_table_hw in Et.
  destruct (write_fis _ _ _) as [m'|]; simpl_res; [|done].
  destruct (wait_idle _ _) as [[spin s4]|] eqn:Ew; simpl_res; [|done].
  apply wait_idle_stopped in Ew; [|cbn; rewrite Et; exact Hs].
  destruct (spin =? 1000000); [done|].
  apply (read_stopped _ (port0 + PORT_IE)) in Ew. destruct (read s4 (port0 + PORT_IE)) as [ie s5]. cbn [snd] in Ew.
  apply wait_command_never; [lia|]. apply (off_issue _ _ _ Hoff); [done|lia].
Qed.
End engine.

(** What no access changes holds after every operation of the driver. *)
Section stable.
Context {H F A : Type} `{Mmio H} `{FrameSource F} `{Allocator A}.
Context (page_table hhdm_mapping : Z) (keep : H → Prop).
Context (Hread : ∀ a h, keep h → keep (mmio_read a h).2) (Hwrite : ∀ a v h, keep h → keep (mmio_write a v h)).

Abbreviation st := (ahci_state H F A).

Lemma read_keep (s : st) a : keep (hw s) → keep (hw (read s a).2).
Proof. intros Hs. unfold read. pose proof (Hread a _ Hs). by destruct (mmio_read a (hw s)). Qed.

Lemma write_keep (s : st) a v : keep (hw s) → keep (hw (write s a v)).
Proof. apply Hwrite. Qed.

Lemma read_inv (s s' : st) a v : read s a = (v, s') → keep (hw s) → keep (hw s').
Proof. intros E Hs. apply (read_keep s a) in Hs. by rewrite E in Hs. Qed.

Lemma set_bit_keep (s : st) a b : keep (hw s) → keep (hw (set_bit s a b)).
Proof. intros Hs. unfold set_bit. destruct (read s a) as [v s1] eqn:E. by eapply write_keep, read_inv. Qed.

Lemma clear_bit_keep (s : st) a b : keep (hw s) → keep (hw (clear_bit s a b)).
Proof. intros Hs. unfold clear_bit. destruct (read s a) as [v s1] eqn:E. by eapply write_keep, read_inv. Qed.

Lemma stop_cmd_keep fuel (s s' : st) device :
  stop_cmd fuel s device = Ok s' → keep (hw s) → keep (hw s').
Proof.
  intros E Hs. unfold stop_cmd in E. revert E.
  apply (iter_partial _ (λ s : st, keep (hw s)) (λ s : st, keep (hw s))); [|by do 2 apply clear_bit_keep].
  clear s Hs. intros s c Hs. destruct (read s _) as [v1 s1] eqn:E1. pose proof (read_inv _ _ _ _ E1 Hs) as Hs1.
  destruct (read s1 _) as [v2 s2] eqn:E2. pose proof (read_inv _ _ _ _ E2 Hs1).
  destruct (Z.testbit v1 14); [by intros [= <-]|]. by destruct (Z.testbit v2 15); intros [= <-].
Qed.

Lemma wait_idle_keep (s s' : st) port n : wait_idle s port = Ok (n, s') → keep (hw s) → keep (hw s').
Proof.
  intros E Hs. unfold wait_idle in E. revert E. generalize (Z.to_nat 1000001). intros fuel E.
  enough (H' : keep (hw (n, s').2)) by done. revert E.
  apply (iter_partial _ (λ r : Z * st, keep (hw r.2)) (λ r, keep (hw r.2))); [|done].
  clear s Hs. intros [k s] c Hs. destruct (read s _) as [v s1] eqn:E1. pose proof (read_inv _ _ _ _ E1 Hs).
  by case_match; intros [= <-].
Qed.

Lemma wait_command_keep fuel (s s' : st) port slot :
  wait_command fuel s port slot = Ok s' → keep (hw s) → keep (hw s').
Proof.
  intros E Hs. unfold wait_command in E. revert E.
  apply (iter_partial _ (λ s : st, keep (hw s)) (λ s : st, keep (hw s))); [|done].
  clear s Hs. intros s c Hs. destruct (read s _) as [v1 s1] eqn:E1. pose proof (read_inv _ _ _ _ E1 Hs) as Hs1.
  destruct (read s1 _) as [v2 s2] eqn:E2. pose proof (read_inv _ _ _ _ E2 Hs1) as Hs2.
  destruct (read s2 _) as [v3 s3] eqn:E3. pose proof (read_inv _ _ _ _ E3 Hs2).
  destruct (_ =? 0); [by intros [= <-]|]. destruct (Z.testbit v3 0); [done|by intros [= <-]].
Qed.

Lemma map_hw (s s' : st) v p : map page_table s v p = Ok s' → hw s' = hw s.
Proof. unfold map. intros E. inv_res E. destruct a as [fs ph]. by injection E as <-. Qed.

Lemma send_cmd_keep fuel (s s' : st) device command :
  send_cmd page_table hhdm_mapping fuel s device command = Ok s' → keep (hw s) → keep (hw s').
Proof.
  intros E Hs. unfold send_cmd, issue_cmd in E. destruct (stop_cmd fuel s device) as [s1|] eqn:E1; simpl_res; [|done].
  apply (stop_cmd_keep _ _ _ _ E1) in Hs. apply (write_keep _ (port device + PORT_IS) 0) in Hs.
  apply (write_keep _ (port device + PORT_IE) UINT32_MAX) in Hs. cbv zeta in E.
  destruct (find_cmdslot _ _) as [[slot s2]|] eqn:E2; simpl_res; [|done]. unfold find_cmdslot in E2.
  destruct (read _ (port device + PORT_SACT)) as [sact s3] eqn:E3. apply (read_inv _ _ _ _ E3) in Hs.
  destruct (read s3 _) as [ci s4] eqn:E4. apply (read_inv _ _ _ _ E4) in Hs.
  destruct (first_slot _); simpl_res; [|done]. injection E2 as -> ->.
  destruct (slot =? -1); [done|]. destruct (write_header _ _) as [m|]; simpl_res; [|done].
  destruct (get_cmd_table _ _ _ _) as [[table s5]|] eqn:Et; simpl_res; [|done]. apply get_cmd_table_hw in Et.
  destruct (write_fis _ _ _) as [m'|]; simpl_res; [|done].
  destruct (wait_idle _ _) as [[spin s6]|] eqn:Ew; simpl_res; [|done].
  assert (Hs5 : keep (hw s5)) by (rewrite Et; exact Hs).
  apply (wait_idle_keep _ _ _ _ Ew) in Hs5. destruct (spin =? 1000000); [done|].
  destruct (read s6 _) as [ie s7] eqn:E7. apply (read_inv _ _ _ _ E7) in Hs5.
  by eapply wait_command_keep, write_keep.
Qed.
Lemma init_port_keep fuel (s s' : st) port n :
  init_port page_table hhdm_mapping fuel s port n = Ok s' → keep (hw s) → keep (hw s').
Proof.
  intros E Hs. unfold init_port, read64 in E.
  destruct (read s _) as [ssts s1] eqn:E1. apply (read_inv _ _ _ _ E1) in Hs.
  destruct (_ =? 3); cbn [negb] in E; [|by injection E as <-].
  destruct (read s1 _) as [lo s2] eqn:E2. apply (read_inv _ _ _ _ E2) in Hs.
  destruct (read s2 _) as [hi s3] eqn:E3. apply (read_inv _ _ _ _ E3) in Hs.
  destruct (read s3 _) as [flo s4] eqn:E4. apply (read_inv _ _ _ _ E4) in Hs.
  destruct (read s4 _) as [fhi s5] eqn:E5. apply (read_inv _ _ _ _ E5) in Hs. cbv zeta in E.
  destruct (map _ s5 _ _) as [s6|] eqn:E6; simpl_res; [|done]. apply map_hw in E6. rewrite <- E6 in Hs.
  destruct (map _ s6 _ _) as [s7|] eqn:E7; simpl_res; [|done]. apply map_hw in E7. rewrite <- E7 in Hs.
  destruct (malloc _ _) as [[p a]|]; simpl_res; [|done]. destruct (p =? 0); cbn [negb guard_or] in E; simpl_res; [done|].
  destruct (read s7 _) as [sig s8] eqn:E8. apply (read_inv _ _ _ _ E8) in Hs.
  destruct (type _ =? SATA_SIG_ATA); [by eapply (send_cmd_keep _ _ _ _ 0)|].
  destruct (read (with_device _ _ _ _) _) as [v s9] eqn:E9. injection E as <-. by eapply read_inv.
Qed.
End stable.

(** With a drive on port [i], the loop over the ports does not get past it. *)
Section drive.
Context {H F A : Type} `{Mmio H} `{FrameSource F} `{Allocator A}.
Context (page_table hhdm_mapping abar i : Z).
Context (drive stopped : H → Prop) (pending : Z → H → Prop).
Context (Hdrive : drive_present abar i drive) (Hoff : engine_off (ports abar i) stopped pending).

Abbreviation st := (ahci_state H F A).

Lemma init_port_never fuel (s s' : st) n :
  drive (hw s) → init_port page_table hhdm_mapping fuel s (ports abar i) n ≠ Ok s'.
Proof.
  pose proof (drive_read _ _ _ Hdrive) as Hread. intros Hs E. unfold init_port, read64 in E.
  pose proof (drive_ssts _ _ _ Hdrive _ Hs) as Hssts.
  destruct (read s _) as [ssts s1] eqn:E1. unfold read in E1.
  rewrite (surjective_pairing (mmio_read _ _)) in E1. injection E1 as <- <-. rewrite Hssts in E.
  apply (Hread (ports abar i + PORT_SSTS)) in Hs. cbn [Z.eqb negb Pos.eqb] in E.
  set (s1 := with_hw _ _) in *. change (drive (hw s1)) in Hs. clearbody s1.
  destruct (read s1 _) as [lo s2] eqn:E2. apply (read_inv drive Hread _ _ _ _ E2) in Hs.
  destruct (read s2 _) as [hi s3] eqn:E3. apply (read_inv drive Hread _ _ _ _ E3) in Hs.
  destruct (read s3 _) as [flo s4] eqn:E4. apply (read_inv drive Hread _ _ _ _ E4) in Hs.
  destruct (read s4 _) as [fhi s5] eqn:E5. apply (read_inv drive Hread _ _ _ _ E5) in Hs. cbv zeta in E.
  destruct (map _ s5 _ _) as [s6|] eqn:E6; simpl_res; [|done]. apply map_hw in E6. rewrite <- E6 in Hs.
  destruct (map _ s6 _ _) as [s7|] eqn:E7; simpl_res; [|done]. apply map_hw in E7. rewrite <- E7 in Hs.
  destruct (malloc _ _) as [[p a]|]; simpl_res; [|done]. destruct (p =? 0); cbn [negb guard_or] in E; simpl_res; [done|].
  pose proof (drive_sig _ _ _ Hdrive _ Hs) as Hsig.
  destruct (read s7 _) as [sig s8] eqn:E8. unfold read in E8.
  rewrite (surjective_pairing (mmio_read _ _)) in E8. injection E8 as <- <-. cbn [type] in E.
  rewrite Hsig in E. change (SATA_SIG_ATA =? SATA_SIG_ATA) with true in E. cbv iota in E. revert E.
  by apply (send_cmd_never page_table hhdm_mapping (ports abar i) stopped pending Hoff).
Qed.

Lemma enumerate_never fuel (s s' : st) :
  0 ≤ i < 32 → drive (hw s) → enumerate_ahci_devices page_table hhdm_mapping fuel s abar ≠ Ok s'.
Proof.
  intros Hi Hs E. unfold enumerate_ahci_devices in E. pose proof (drive_pi _ _ _ Hdrive _ Hs) as Hpi.
  apply (drive_read _ _ _ Hdrive (abar + GHC_PI)) in Hs. unfold read in E.
  destruct (mmio_read (abar + GHC_PI) (hw s)) as [pi h]. cbn [fst snd] in *.
  set (s1 := with_hw s h) in *. change (drive (hw s1)) in Hs. clearbody s1. revert E.
  apply (iter_partial _ (λ r : Z * st, 0 ≤ r.1 ≤ i ∧ drive (hw r.2)) (λ _, False)); [|split; [cbn; lia|done]].
  clear s s1 Hs. intros [k s] c [Hk Hs]. cbn [fst snd] in *. zbool.
  destruct (decide (k = i)) as [->|Hne].
  - rewrite Hpi. cbn [negb]. intros E. inv_res E. by apply init_port_never in E0.
  - destruct (negb (Z.testbit pi k)); simpl_res; intros E; inv_res E; (split; cbn [fst snd]; [lia|]); [done|].
    eapply (init_port_keep page_table hhdm_mapping drive); [by apply Hdrive..|done|done].
Qed.

Lemma init_ahci_never cfg_read cfg_write fuel devs lapic d phys fs ph (s s' : st) :
  locate_pci_device devs 1 6 0 = Ok (Some d) → pci_compare_value (Some d) 3 0 0x007F0000 = Ok true →
  register d 9 = Ok phys →
  map_page_nearest fuel hhdm_mapping (frames s) (tables s) page_table (u64 (phys + hhdm_mapping)) phys
    (Z.lor (Z.lor PAGE_PRESENT PAGE_WRITABLE) PAGE_CACHE_DISABLE) = Ok (abar, fs, ph) →
  (∀ h a v, drive h → drive (cfg_write h a v)) → 0 ≤ i < 32 → drive (hw s) →
  init_ahci page_table hhdm_mapping cfg_read cfg_write fuel devs lapic s ≠ Ok s'.
Proof.
  intros Hd Hc Hp Hm Hcfg Hi Hs E. unfold init_ahci in E. rewrite Hd in E. simpl_res.
  rewrite bool_decide_true in E by done. cbn [negb] in E. rewrite Hc in E. simpl_res. cbn [negb] in E.
  destruct (check_msi_capability _ _ _ _) as [cap|]; simpl_res; [|done].
  destruct (if negb (cap =? 0) then _ else _) as [h|] eqn:Eh; simpl_res; [|done].
  assert (Hs1 : drive (hw (with_hw s (default (hw s) h)))).
  { cbn [with_hw hw]. destruct (cap =? 0); cbn [negb] in Eh; [injection Eh as <-; done|].
    unfold enable_msi in Eh. inv_res Eh. destruct (_ =? 17); [by injection Eh as <-|].
    destruct (_ =? 0); [done|]. cbn in Eh. injection Eh as <-. cbn. unfold set_pci_device_register. auto. }
  assert (Hr : ∀ h, get_register_value cfg_read h (Some d) 9 = Ok phys) by done. rewrite Hr in E. simpl_res.
  cbn [with_hw frames tables] in E. rewrite Hm in E. simpl_res. cbv zeta in E.
  destruct (read _ (abar + GHC_GHC)) as [v s2] eqn:E2.
  assert (Hs2 : drive (hw s2)).
  { eapply (read_inv drive); [by apply Hdrive|exact E2|].
    do 2 (apply (set_bit_keep drive); [by apply Hdrive..|]). exact Hs1. }
  destruct (enumerate_ahci_devices _ _ _ _ _) as [s3|] eqn:E3; simpl_res; [|done].
  by apply enumerate_never in E3.
Qed.
End drive.

(** ** Properties *)

(** C33: the request [send_cmd] issues before its last loop.  When the engine of
    the port has stopped ([h1]), SACT and CI read [sact] and [ci], [slot] is the
    lowest slot neither has set, and the device gets idle within a million polls:
    it is [slot] that is issued, by the one write of its bit to CI, the last
    access of all.  The header number [slot] of the command list is left with a
    FIS of five dwords, a cleared write bit and a PRDT of length 0, its other
    flags as they were; the command table the header points to, seen through
    the direct map, is the register FIS of IDENTIFY DEVICE for the port of the
    device, all other bytes zero; and no other byte of memory changes. *)
Theorem send_cmd_request {H F A : Type} `{Mmio H} `{FrameSource F} `{Allocator A} (page_table hhdm_mapping : Z)
    (s : ahci_state H F A) (device : ahci_dev_t) fuel command h1 h2 h3 h4 sact ci slot b lo hi p n :
  let port0 := port device in
  let header := command_header device + slot * 32 in
  let table := (lo + hi * 2 ^ 32 + hhdm_mapping) mod 2 ^ 64 in
  stop_cmd fuel s device = Ok (with_hw s h1) →
  mmio_read (port0 + PORT_SACT) (mmio_write (port0 + PORT_IE) UINT32_MAX (mmio_write (port0 + PORT_IS) 0 h1)) =
    (sact, h2) →
  mmio_read (port0 + PORT_CI) h2 = (ci, h3) → 0 ≤ sact → 0 ≤ ci →
  0 ≤ slot < 32 → Z.testbit sact slot = false → Z.testbit ci slot = false →
  (∀ j, 0 ≤ j < slot → Z.testbit sact j = true ∨ Z.testbit ci j = true) →
  memory s !! header = Some b → is_byte b → mapped (memory s) (header + 2) 2 →
  bytes_at (memory s) (header + 8) (le_bytes 4 lo) → bytes_at (memory s) (header + 12) (le_bytes 4 hi) →
  0 ≤ lo < 2 ^ 32 → 0 ≤ hi < 2 ^ 32 →
  mapped (memory s) table 144 → header + 4 ≤ table ∨ table + 144 ≤ header → table mod 4096 = 0 →
  virtual_to_physical (tables s) page_table table = Ok p →
  (p = lo + hi * 2 ^ 32 ∨ is_ok (map page_table (with_hw s h3) table (lo + hi * 2 ^ 32))) →
  is_byte (port_number device) → idle_after (port0 + PORT_TFD) n h3 h4 → Z.of_nat n < 1000000 →
  ∃ s', issue_cmd page_table hhdm_mapping fuel s device = Ok (slot, s') ∧
    send_cmd page_table hhdm_mapping fuel s device command = wait_command fuel s' port0 slot ∧
    hw s' = mmio_write (port0 + PORT_CI) (2 ^ slot) (mmio_read (port0 + PORT_IE) h4).2 ∧
    memory s' !! header = Some (Z.lor (Z.land b 0xA0) 5) ∧ bytes_at (memory s') (header + 2) [0; 0] ∧
    bytes_at (memory s') table (identify_fis (port_number device)) ∧
    ∀ a, a ≠ header → a < header + 2 ∨ header + 4 ≤ a → a < table ∨ table + 144 ≤ a →
      memory s' !! a = memory s !! a.
Proof.
  intros port0 header table Hstop Esact Eci Hs Hc Hslot Hbs Hbc Hlow Hb Hby Hm Hlo Hhi Hlo' Hhi' Ht Hd Hal Hv Hp Hn
    Hidle Hspin.
  destruct (issue_cmd_spec page_table hhdm_mapping s device fuel h1 h2 h3 h4 sact ci slot b lo hi p n)
    as (s' & E & ?); try done. exists s'. split; [done|]. split; [|done].
  unfold send_cmd. by rewrite E.
Qed.

(** C32: [send_cmd] never returns to its caller.  It turns the command engine of
    the port off and on again nowhere, and a controller with the engine off
    neither executes the command nor clears its CI bit: the last loop goes
    round forever, unless a halt ends the function before. *)
Theorem send_cmd_never_returns {H F A : Type} `{Mmio H} `{FrameSource F} `{Allocator A} (page_table hhdm_mapping : Z)
    (stopped : H → Prop) (pending : Z → H → Prop) (device : ahci_dev_t) :
  engine_off (port device) stopped pending →
  ∀ fuel (s s' : ahci_state H F A) command, send_cmd page_table hhdm_mapping fuel s device command ≠ Ok s'.
Proof. intros Hoff fuel s s' command. by eapply send_cmd_never. Qed.

(** ** Witnesses *)

(** One port at address 0: the command register and CI, which a running
    engine serves at once. *)
Record demo_hw := DemoHw { demo_cmd : Z; demo_ci : Z }.

#[export] Instance demo_mmio : Mmio demo_hw := {|
  mmio_read a h := (if a =? PORT_CMD then demo_cmd h else if a =? PORT_CI then demo_ci h else 0, h);
  mmio_write a v h :=
    if a =? PORT_CMD then DemoHw v (demo_ci h)
    else if a =? PORT_CI then
      DemoHw (demo_cmd h) (if Z.testbit (demo_cmd h) 0 then 0 else Z.lor (demo_ci h) v)
    else h
|}.

Definition demo_stopped (h : demo_hw) : Prop := Z.testbit (demo_cmd h) 0 = false.
Definition demo_pending (slot : Z) (h : demo_hw) : Prop := Z.testbit (demo_ci h) slot = true.

Lemma demo_engine_off : engine_off 0 demo_stopped demo_pending.
Proof.
  split; unfold demo_stopped, demo_pending; cbn; try done.
  - intros a v h Hs Ha. rewrite (proj2 (Z.eqb_neq a PORT_CMD)) by done. by case_match.
  - intros slot h Hs Hr. change (0 + PORT_CI =? PORT_CMD) with false. change (0 + PORT_CI =? PORT_CI) with true.
    cbv iota. cbn [demo_ci]. by rewrite Hs, Z.lor_spec, Z.pow2_bits_true, orb_true_r by lia.
Qed.

(** A started port with slot 0 in use, the header of slot 1 at 0x20020 and its
    command table at 0x8000, mapped 0x100000 higher. *)
Definition demo_device : ahci_dev_t := Device SATA_SIG_ATA 0 0 0x20000 0 0.
Definition demo_memory : mem :=
  write_bytes (write_bytes ∅ 0x20020 (replicate 8 0 ++ le_bytes 4 0x8000 ++ replicate 20 0)) 0x108000 (replicate 144 7).
Definition demo_state : ahci_state demo_hw frame_allocator_t Z :=
  State (DemoHw 0x11 1) demo_frames demo_phys demo_memory 0x1000 ∅ 0 0.

(** Slot 0 is taken, so the request of the example uses slot 1. *)
Lemma send_cmd_request_witness :
  first_slot 1 = Ok 1 ∧
  ∃ s', issue_cmd 0x1000 0x100000 50 demo_state demo_device = Ok (1, s') ∧
    demo_ci (hw s') = 3 ∧ bytes_at (memory s') 0x108000 (identify_fis 0).
Proof.
  assert (Hm : mapped demo_memory (0x20020 + 2) 2).
  { apply (bytes_at_mapped _ _ [0; 0]), (read_bytes_at _ _ 2). vm_compute. reflexivity. }
  assert (Hlo : bytes_at demo_memory (0x20020 + 8) (le_bytes 4 0x8000)).
  { apply (read_bytes_at _ _ 4). vm_compute. reflexivity. }
  assert (Hhi : bytes_at demo_memory (0x20020 + 12) (le_bytes 4 0)).
  { apply (read_bytes_at _ _ 4). vm_compute. reflexivity. }
  assert (Ht : mapped demo_memory 0x108000 144).
  { apply (bytes_at_mapped _ _ (replicate 144 7)). apply write_bytes_at. }
  split; [vm_compute; reflexivity|].
  destruct (send_cmd_request 0x1000 0x100000 demo_state demo_device 50 0 (DemoHw 0 1) (DemoHw 0 1) (DemoHw 0 1) (DemoHw 0 1)
    0 1 1 0 0x8000 0 0 0) as (s' & E & _ & Ehw & _ & _ & Et & _);
    [vm_compute; reflexivity..|done|done|done|done|done| |vm_compute; reflexivity|done|exact Hm|exact Hlo|exact Hhi|done|done|
     exact Ht|left; vm_compute; discriminate|done|vm_compute; reflexivity| |done| |done|].
  - intros j Hj. right. by replace j with 0 by (revert Hj; lia).
  - right. vm_compute. exact I.
  - by apply (idle_now _ _ 0).
  - exists s'. split; [exact E|]. split; [rewrite Ehw; reflexivity|exact Et].
Defined.

(** The example gets to the last loop, and stays there. *)
Lemma send_cmd_never_returns_witness :
  send_cmd 0x1000 0x100000 50 demo_state demo_device 0 = Err OutOfFuel ∧
  ∀ fuel s', send_cmd 0x1000 0x100000 fuel demo_state demo_device 0 ≠ Ok s'.
Proof.
  split; [vm_compute; reflexivity|]. intros fuel s'.
  apply (send_cmd_never_returns 0x1000 0x100000 demo_stopped demo_pending demo_device demo_engine_off).
Defined.
