(* ===== verification/Acpi.v ===== *)
(** * ACPI tables and interrupt controllers (lethe-kernel/acpi)

    The tables lie in byte memory behind the higher-half mapping; a pointer is
    its address, an access outside the memory is undefined.  Port and
    memory-mapped writes are returned as the list of (address, value) pairs in
    program order; reads of device registers are arguments.  The walk over the
    interrupt controller structures has no bound of its own, so it takes
    fuel. *)
From S2P Require Import Prelude LibString FrameAlloc Paging.

(** ** Definitions *)

Definition sizeof_header : Z := 36.

(** Field offsets of the packed tables. *)
Definition hdr_length : Z := 4.
Definition fadt_x_dsdt : Z := 140.
Definition xsdp_xsdt : Z := 24.
Definition madt_lapic : Z := 36.
Definition madt_flags : Z := 40.
Definition madt_structure : Z := 44.

(** [sdt_checksum]: [i] is an [int], [length] a [uint32_t]. *)
Definition sdt_checksum (m : mem) (sdt : Z) : res bool :=
  length ← load32 m (sdt + hdr_length);
  sum ← iter (S (Z.to_nat length)) (λ '(i, sum),
    if i <? length then
      b ← load8 m (sdt + i);
      i ← int_ok (i + 1);
      Ok (Next (i, u8 (sum + b)))
    else Ok (Done sum)) (0, 0);
  Ok (sum =? 0).

(** The literals "DSDT" and "FACP" lie at [dsdt_lit] and [facp_lit]. *)
Section tables.
Context (hhdm_mapping dsdt_lit facp_lit : Z).

(** The tables whose signatures [acpi_dump_tables] logs. *)
Definition acpi_dump_tables (m : mem) (XSDT : Z) : res (list Z) :=
  length ← load32 m (XSDT + hdr_length);
  let entries := s32 (u64 (length - sizeof_header) / 8) in
  iter (S (Z.to_nat entries)) (λ '(i, logged),
    if i <? entries then
      t ← load64 m (XSDT + sizeof_header + 8 * i);
      Ok (Next (i + 1, logged ++ [u64 (t + hhdm_mapping)]))
    else Ok (Done logged)) (0, []).

Definition scan_loop (m : mem) (XSDT sig index : Z) : res Z :=
  length ← load32 m (XSDT + hdr_length);
  let entries := s32 (u64 (length - sizeof_header) / 8) in
  iter (S (Z.to_nat entries)) (λ '(i, current_index),
    if i <? entries then
      t ← load64 m (XSDT + sizeof_header + 8 * i);
      let sdt := u64 (t + hhdm_mapping) in
      c ← strncmp m sig sdt 4;
      if c =? 0 then
        if negb (u64 current_index =? index) then Ok (Next (i + 1, current_index + 1))
        else Ok (Done sdt)
      else Ok (Next (i + 1, current_index))
    else Ok (Done 0)) (0, 0).

Definition scan_tables (m : mem) (XSDT sig index : Z) : res Z :=
  c ← strncmp m sig dsdt_lit 4;
  if c =? 0 then
    fadt ← scan_loop m XSDT facp_lit 0;
    x ← load64 m (fadt + fadt_x_dsdt);
    Ok (u64 (x + hhdm_mapping))
  else scan_loop m XSDT sig index.

Definition acpi_xsdt (m : mem) (rsdp : Z) : res Z :=
  x ← load64 m (rsdp + xsdp_xsdt);
  let XSDT := u64 (x + hhdm_mapping) in
  ok ← sdt_checksum m XSDT;
  if ok : bool then Ok XSDT else Err Halted.
End tables.

(** *** madt.c *)

Definition PIC1_DATA : Z := 0x21.
Definition PIC2_DATA : Z := 0xA1.
Definition PIC1_COMMAND : Z := 0x20.
Definition PIC2_COMMAND : Z := 0xA0.
Definition ICW1_INIT : Z := 0x10.
Definition ICW1_ICW4 : Z := 0x01.
Definition ICW4_8086 : Z := 0x01.
Definition CASCADE_IRQ : Z := 2.

Definition io_wait : Z * Z := (0x80, 0).

Definition start_pic : list (Z * Z) :=
  [(PIC1_COMMAND, Z.lor ICW1_INIT ICW1_ICW4); io_wait;
   (PIC2_COMMAND, Z.lor ICW1_INIT ICW1_ICW4); io_wait;
   (PIC1_DATA, 0x20); io_wait; (PIC2_DATA, 0x28); io_wait;
   (PIC1_DATA, Z.shiftl 1 CASCADE_IRQ); io_wait; (PIC2_DATA, 2); io_wait;
   (PIC1_DATA, ICW4_8086); io_wait; (PIC2_DATA, ICW4_8086); io_wait;
   (PIC1_DATA, 0); (PIC2_DATA, 0)].

Definition mask_pic : list (Z * Z) := [(PIC1_DATA, 0xFF); (PIC2_DATA, 0xFF)].

(** The interrupt source of the configuration and the writes to the PIC. *)
Definition madt_init (m : mem) (madt : Z) : res (Z * list (Z * Z)) :=
  let interrupt_source := if madt =? 0 then 1 else 2 in
  flags ← load32 m (madt + madt_flags);
  Ok (interrupt_source, if Z.land flags 1 =? 1 then mask_pic else []).

(** [madt->interrupt_controller_structure[i]], a signed [char]. *)
Definition structure_byte (m : mem) (madt i : Z) : res Z :=
  b ← load8 m (madt + madt_structure + i); Ok (s8 b).

(** One head of [MADT_LOOP]: stop with [end_], or run [body] at [i] and
    advance by the length byte. *)
Definition madt_loop {R : Type} (fuel : nat) (m : mem) (madt : Z) (body : Z → res (option R)) (end_ : R) :
    res R :=
  length ← load32 m (madt + hdr_length);
  iter fuel (λ i,
    if i <? u32 (length - 44) then
      r ← body i;
      match r with
      | Some r => Ok (Done r)
      | None => l ← structure_byte m madt (i + 1); Ok (Next (u64 (i + l)))
      end
    else Ok (Done end_)) 0.

Definition madt_get_override_for_irq (fuel : nat) (m : mem) (madt irq : Z) : res Z :=
  madt_loop fuel m madt (λ i,
    type ← structure_byte m madt i;
    if negb (u8 type =? 2) then Ok None
    else
      current_irq ← structure_byte m madt (i + 3);
      if negb (u8 current_irq =? irq) then Ok None
      else Ok (Some (madt + madt_structure + i))) 0.

(** [MADT_ADDR32] *)
Definition madt_addr32 (m : mem) (madt index : Z) : res Z :=
  b3 ← structure_byte m madt (index + 3);
  b2 ← structure_byte m madt (index + 2);
  b1 ← structure_byte m madt (index + 1);
  b0 ← structure_byte m madt index;
  Ok (u32 (Z.lor (Z.lor (Z.lor (Z.shiftl (Z.land b3 0xFF) 24) (Z.shiftl (Z.land b2 0xFF) 16))
        (Z.shiftl (Z.land b1 0xFF) 8)) (Z.land b0 0xFF))).

Section ioapic.
Context {F : Type} `{FrameSource F} (hhdm_mapping root : Z).

Definition madt_get_lapic_addr (m : mem) (madt : Z) (fs : F) (ph : phys) : res (Z * F * phys) :=
  a ← load32 m (madt + madt_lapic);
  let virtual_address := u64 (a + hhdm_mapping) in
  '(fs, ph) ← map_page fs ph root virtual_address a 3;
  Ok (virtual_address, fs, ph).

Definition ioapic_address (fuel : nat) (m : mem) (madt gsi : Z) : res (option Z) :=
  madt_loop fuel m madt (λ i,
    type ← structure_byte m madt i;
    if negb (u8 type =? 1) then Ok None
    else
      current_gsi ← madt_addr32 m madt (i + 8);
      if negb (current_gsi =? gsi) then Ok None
      else address ← madt_addr32 m madt (i + 4); Ok (Some (Some address))) None.

Definition madt_get_ioapic (fuel : nat) (m : mem) (madt gsi : Z) (fs : F) (ph : phys) :
    res (Z * F * phys) :=
  a ← ioapic_address fuel m madt gsi;
  match a with
  | None => Err Halted
  | Some address =>
      let virtual := u64 (address + hhdm_mapping) in
      p ← virtual_to_physical ph root virtual;
      '(fs, ph) ← (if p =? 0 then map_page fs ph root virtual address 3 else Ok (fs, ph));
      Ok (virtual, fs, ph)
  end.

(** *** ioapic.c *)

(** The fields the code sets; [pin_polarity] and [trigger_mode] have one bit,
    [delivery_mode] three. *)
Record ioapic_redtbl_t := Redtbl {
  pin : Z; vector : Z; delivery_mode : Z; destination_mode : Z; pin_polarity : Z;
  trigger_mode : Z; destination : Z
}.

Definition write_ioapic (ioregsel offset value : Z) : list (Z * Z) :=
  [(ioregsel, offset); (ioregsel + 0x10, u32 value)].

Definition set_redirection_table_entry (ioregsel : Z) (r : ioapic_redtbl_t) : list (Z * Z) :=
  write_ioapic ioregsel (pin r)
    (Z.lor (Z.lor (Z.lor (Z.lor (Z.shiftl (trigger_mode r) 15) (Z.shiftl (pin_polarity r) 13))
       (Z.shiftl (destination_mode r) 11)) (Z.shiftl (delivery_mode r) 8)) (vector r)) ++
  write_ioapic ioregsel (u8 (pin r + 1)) (u64 (Z.shiftl (destination r) 56)).

(** Fields of an override structure at [o]. *)
Definition override_gsi (m : mem) (o : Z) : res Z := load32 m (o + 4).
Definition override_polarity (m : mem) (o : Z) : res Z := b ← load8 m (o + 8); Ok (b mod 4).
Definition override_trigger_mode (m : mem) (o : Z) : res Z := b ← load8 m (o + 8); Ok (b / 4 mod 4).

Definition ioapic_disable_irq (fuel : nat) (m : mem) (madt : Z) (fs : F) (ph : phys) (irq : Z) :
    res (list (Z * Z) * F * phys) :=
  '(sel, fs, ph) ← madt_get_ioapic fuel m madt 0 fs ph;
  o ← madt_get_override_for_irq fuel m madt (u8 irq);
  pin ← (if negb (o =? 0) then g ← override_gsi m o; Ok (u32 (0x10 + g * 2))
         else Ok (u32 (0x10 + irq * 2)));
  Ok (write_ioapic sel (u8 pin) (2 ^ 16), fs, ph).

Definition ioapic_enable_irq (fuel : nat) (m : mem) (madt : Z) (fs : F) (ph : phys) (irq vector : Z) :
    res (list (Z * Z) * F * phys) :=
  '(sel, fs, ph) ← madt_get_ioapic fuel m madt 0 fs ph;
  o ← madt_get_override_for_irq fuel m madt (u8 irq);
  r ← (if negb (o =? 0) then
         pol ← override_polarity m o;
         trig ← override_trigger_mode m o;
         g ← override_gsi m o;
         Ok (Redtbl (u8 (0x10 + u32 (g * 2))) (u8 vector) 0 0 (pol mod 2) (trig mod 2) 0)
       else Ok (Redtbl (u8 (0x10 + irq * 2)) (u8 vector) 0 0 0 0 0));
  Ok (set_redirection_table_entry sel r, fs, ph).
End ioapic.

(** *** lapic.c, timer.c: [r] is the register value read. *)

Definition lapic_write (lapic_addr offset value : Z) : list (Z * Z) := [(u64 (lapic_addr + offset), value)].

Definition lapic_addr_phys (lapic_addr hhdm_mapping : Z) : Z := u64 (lapic_addr - hhdm_mapping).

(** The new low half of the APIC base register, and the write to register 0xF0. *)
Definition lapic_enable (lapic_addr msr_low r : Z) : Z * list (Z * Z) :=
  (Z.land (Z.lor msr_low 0x800) (u32 (Z.lnot 0x100)), lapic_write lapic_addr 0xF0 (Z.lor r 0x100)).

Definition lapic_disable (lapic_addr r : Z) : list (Z * Z) :=
  lapic_write lapic_addr 0xF0 (Z.land r (u32 (Z.lnot 0x100))).

Definition lapic_send_eoi (lapic_addr : Z) : list (Z * Z) := lapic_write lapic_addr 0xB0 0.

Definition LAPIC_TIMER_REGISTER : Z := 0x320.
Definition LAPIC_TIMER_MODE_TSC_DEADLINE : Z := 2 ^ 18.
Definition LAPIC_TIMER_IRQ : Z := 32.

Definition apic_enable_timer (lapic_addr : Z) : list (Z * Z) :=
  lapic_write lapic_addr LAPIC_TIMER_REGISTER (Z.lor LAPIC_TIMER_IRQ LAPIC_TIMER_MODE_TSC_DEADLINE).

(** *** mcfg.c *)

Record mcfg_entry := McfgEntry { base_address : Z; group_num : Z; bus_start : Z; bus_end : Z }.

(** [MCFG->config_space[i]]: the array follows the 36-byte header. *)
Definition new_entry (m : mem) (MCFG i : Z) : res mcfg_entry :=
  let p := MCFG + sizeof_header + 16 * i in
  base ← load64 m p;
  group ← load16 m (p + 8);
  start ← load8 m (p + 10);
  end_ ← load8 m (p + 11);
  Ok (McfgEntry base group start end_).

(** The list at [mcfg_start]. *)
Definition parse_mcfg (m : mem) (MCFG : Z) (mcfg_start : list mcfg_entry) : res (list mcfg_entry) :=
  if MCFG =? 0 then Ok mcfg_start
  else
    match mcfg_start with
    | _ :: _ => Ok mcfg_start
    | [] =>
        e0 ← new_entry m MCFG 0;
        length ← load32 m (MCFG + hdr_length);
        let config_space_length := u32 (length - 44) in
        let entries := config_space_length / 16 in
        rest ← iter (S (Z.to_nat entries)) (λ '(i, rest),
          if i <? entries then e ← new_entry m MCFG i; Ok (Next (i + 1, e :: rest))
          else Ok (Done rest)) (1, []);
        Ok (e0 :: rest)
    end.

(** The flag [has_mcfg] and the list; [mcfg_ptr] is the table found. *)
Definition init_mcfg (m : mem) (mcfg_ptr : Z) (has_mcfg : bool) (mcfg_start : list mcfg_entry) :
    res (bool * list mcfg_entry) :=
  if mcfg_ptr =? 0 then Ok (has_mcfg, mcfg_start)
  else entries ← parse_mcfg m mcfg_ptr mcfg_start; Ok (true, entries).

(** It panics before its search. *)
Definition get_mmio_ecam_addr (group bus : Z) : res Z := Err Halted.

(** *** The reference view of the interrupt controller structures *)

Definition structure_ok (s : list Z) : Prop :=
  s !! 1%nat = Some (Z.of_nat (length s)) ∧ (2 ≤ length s < 128)%nat ∧ Forall is_byte s ∧
  (s !! 0%nat = Some 2 → (9 ≤ length s)%nat) ∧ (s !! 0%nat = Some 1 → (12 ≤ length s)%nat).

(** A table at [madt] whose structures are [ss]. *)
Definition madt_at (m : mem) (madt : Z) (ss : list (list Z)) : Prop :=
  bytes_at m (madt + madt_structure) (concat ss) ∧ Forall structure_ok ss ∧
  load32 m (madt + hdr_length) = Ok (44 + Z.of_nat (length (concat ss))) ∧
  44 + Z.of_nat (length (concat ss)) < 2 ^ 32.

(** The first structure that [f] accepts, by offset and contents. *)
Fixpoint first_structure {R : Type} (f : Z → list Z → option R) (i : Z) (ss : list (list Z)) : option R :=
  match ss with
  | [] => None
  | s :: ss =>
      match f i s with
      | Some r => Some r
      | None => first_structure f (i + Z.of_nat (length s)) ss
      end
  end.

(** ** Lemmas *)

Lemma u8_s8_byte b : is_byte b → u8 (s8 b) = b.
Proof.
  unfold is_byte, u8, s8, wrap, swrap. intros Hb. rewrite (Z.mod_small b) by lia.
  case_match; [by apply Z.mod_small|]. symmetry. by apply (Z.mod_unique_pos _ _ (-1)); lia.
Qed.

Lemma structure_byte_at m madt i s k b :
  bytes_at m (madt + madt_structure + i) s → s !! k = Some b →
  structure_byte m madt (i + Z.of_nat k) = Ok (s8 b).
Proof.
  intros Hs Hk. unfold structure_byte. rewrite Z.add_assoc.
  by rewrite (bytes_at_lookup _ _ _ _ _ Hs Hk).
Qed.

Section walk.
Context {R : Type} (m : mem) (madt : Z) (body : Z → res (option R)) (f : Z → list Z → option R) (end_ : R).
Context (Hbody : ∀ i s, structure_ok s → bytes_at m (madt + madt_structure + i) s →
           body i = Ok (f i s)).

(** The loop is a search through the structures. *)
Lemma madt_loop_first fuel ss :
  madt_at m madt ss → (length ss < fuel)%nat →
  madt_loop fuel m madt body end_ = Ok (default end_ (first_structure f 0 ss)).
Proof using Hbody.
  intros (Hb & Hok & Hlen & Hlt) Hf. unfold madt_loop. rewrite Hlen. simpl_res.
  assert (Eu : u32 (44 + Z.of_nat (length (concat ss)) - 44) = Z.of_nat (length (concat ss)))
    by (replace (44 + Z.of_nat (length (concat ss)) - 44) with (Z.of_nat (length (concat ss))) by lia;
        apply wrap_small; lia).
  rewrite Eu. clear Eu Hlen.
  assert (G : ∀ ss i fuel, 0 ≤ i → i + Z.of_nat (length (concat ss)) < 2 ^ 32 →
    bytes_at m (madt + madt_structure + i) (concat ss) → Forall structure_ok ss →
    (length ss < fuel)%nat →
    iter fuel (λ j,
      if j <? i + Z.of_nat (length (concat ss)) then
        r ← body j;
        match r with
        | Some r => Ok (Done r)
        | None => l ← structure_byte m madt (j + 1); Ok (Next (u64 (j + l)))
        end
      else Ok (Done end_)) i = Ok (default end_ (first_structure f i ss))).
  { clear fuel ss Hb Hok Hlt Hf. intros ss. induction ss as [|s ss IH]; intros i fuel Hi Hlt Hb Hok Hf;
      (destruct fuel as [|fuel]; [lia|]); cbn [iter first_structure concat] in *.
    - cbn [length]. rewrite Z.add_0_r, Z.ltb_irrefl. done.
    - apply Forall_cons in Hok as [Hs Hok]. rewrite length_app, Nat2Z.inj_add in *.
      apply bytes_at_app in Hb as [Hb1 Hb2].
      pose proof Hs as (Hs1 & Hs2 & Hs3 & _). rewrite (proj2 (Z.ltb_lt _ _)) by lia.
      rewrite (Hbody i s Hs Hb1). simpl_res. destruct (f i s) as [r|]; simpl_res; [done|].
      pose proof (structure_byte_at _ _ _ s 1 _ Hb1 Hs1) as El. change (Z.of_nat 1) with 1 in El.
      rewrite El. simpl_res.
      assert (E : u64 (i + s8 (Z.of_nat (length s))) = i + Z.of_nat (length s)).
      { unfold s8. rewrite swrap_small by lia. apply wrap_small. lia. }
      rewrite E, <- (IH (i + Z.of_nat (length s)) fuel); [|lia|lia| |done|cbn in Hf; lia].
      + by rewrite Z.add_assoc.
      + by rewrite Z.add_assoc in *. }
  rewrite <- (G ss 0 fuel); [by rewrite Z.add_0_l|lia|lia| |done|done].
  by rewrite Z.add_0_r.
Qed.
End walk.

(** Comparing two four-byte signatures. *)
Lemma strncmp_sig m p q xs ys :
  bytes_at m p xs → bytes_at m q ys → length xs = 4%nat → length ys = 4%nat →
  Forall is_byte xs → Forall is_byte ys → Forall (λ b, b ≠ 0) xs → Forall (λ b, b ≠ 0) ys →
  ∃ r, strncmp m p q 4 = Ok r ∧ (r = 0 ↔ xs = ys).
Proof.
  intros Hp Hq Lx Ly Bx By Nx Ny. unfold strncmp. change (S (Z.to_nat 4)) with 5%nat.
  assert (G : ∀ (xs ys : list Z) i, (i + length xs = 4)%nat → length ys = length xs →
    bytes_at m (p + Z.of_nat i) xs → bytes_at m (q + Z.of_nat i) ys →
    Forall is_byte xs → Forall is_byte ys → Forall (λ b, b ≠ 0) xs → Forall (λ b, b ≠ 0) ys →
    ∃ r, iter (S (length xs)) (λ i,
      if i <? 4 then
        a ← load8 m (p + i);
        if a =? 0 then Ok (Done 0)
        else
          b ← load8 m (q + i);
          if b =? 0 then Ok (Done 0)
          else if s8 a <? s8 b then Ok (Done (-1))
          else if s8 b <? s8 a then Ok (Done 1)
          else Ok (Next (i + 1))
      else Ok (Done 0)) (Z.of_nat i) = Ok r ∧ (r = 0 ↔ xs = ys)).
  { clear. intros xs. induction xs as [|x xs IH]; intros [|y ys] i Hi Hl Hp Hq Bx By Nx Ny; try done.
    - cbn [length iter]. rewrite (proj2 (Z.ltb_ge _ _)) by (cbn in Hi; lia). simpl_res. by eexists.
    - cbn [length] in *. cbn [iter]. rewrite (proj2 (Z.ltb_lt _ _)) by lia.
      apply bytes_at_cons in Hp as [Hp1 Hp2], Hq as [Hq1 Hq2].
      apply Forall_cons in Bx as [Bx1 Bx2], By as [By1 By2], Nx as [Nx1 Nx2], Ny as [Ny1 Ny2].
      rewrite (proj2 (load8_Ok _ _ _) Hp1). simpl_res. rewrite (proj2 (Z.eqb_neq _ _) Nx1).
      rewrite (proj2 (load8_Ok _ _ _) Hq1). simpl_res. rewrite (proj2 (Z.eqb_neq _ _) Ny1).
      destruct (Z.ltb_spec (s8 x) (s8 y)); simpl_res.
      { eexists. split; [done|]. split; [done|]. intros [= -> _]. lia. }
      destruct (Z.ltb_spec (s8 y) (s8 x)); simpl_res.
      { eexists. split; [done|]. split; [done|]. intros [= -> _]. lia. }
      assert (x = y) as -> by (apply s8_inj; [done..|lia]).
      replace (Z.of_nat i + 1) with (Z.of_nat (S i)) by lia.
      destruct (IH ys (S i)) as (r & E & Hr); try done; try lia.
      { by replace (p + Z.of_nat (S i)) with (p + Z.of_nat i + 1) by lia. }
      { by replace (q + Z.of_nat (S i)) with (q + Z.of_nat i + 1) by lia. }
      exists r. split; [exact E|]. rewrite Hr. split; [by intros ->|by intros [=]]. }
  destruct (G xs ys 0%nat) as (r & E & Hr); try done; try lia;
    [by rewrite Z.add_0_r|by rewrite Z.add_0_r|]. rewrite Lx in E. by exists r.
Qed.

(** A signature in memory. *)
Definition sig_at (m : mem) (p : Z) (sg : list Z) : Prop :=
  bytes_at m p sg ∧ length sg = 4%nat ∧ Forall is_byte sg ∧ Forall (λ b, b ≠ 0) sg.

Lemma sig_compare m p q xs ys :
  sig_at m p xs → sig_at m q ys → ∃ r, strncmp m p q 4 = Ok r ∧ (r = 0 ↔ xs = ys).
Proof. intros (?&?&?&?) (?&?&?&?). by apply strncmp_sig. Qed.

(** The table addresses of an XSDT, with their signatures. *)
Definition xsdt_at (hhdm : Z) (m : mem) (XSDT : Z) (ts : list (Z * list Z)) : Prop :=
  load32 m (XSDT + hdr_length) = Ok (sizeof_header + 8 * Z.of_nat (length ts)) ∧
  sizeof_header + 8 * Z.of_nat (length ts) < 2 ^ 31 ∧
  ∀ i t, ts !! i = Some t →
    ∃ a, load64 m (XSDT + sizeof_header + 8 * Z.of_nat i) = Ok a ∧ t.1 = u64 (a + hhdm) ∧
         sig_at m t.1 t.2.

Lemma scan_loop_nth hhdm m XSDT ts sg sig (index : nat) :
  xsdt_at hhdm m XSDT ts → sig_at m sg sig → Z.of_nat index < 2 ^ 32 →
  scan_loop hhdm m XSDT sg (Z.of_nat index) =
  Ok (default 0 ((filter (λ t, t.2 = sig) ts).*1 !! index)).
Proof.
  intros (Hlen & Hlt & Hts) Hsig Hi. unfold scan_loop. rewrite Hlen. simpl_res.
  assert (E : s32 (u64 (sizeof_header + 8 * Z.of_nat (length ts) - sizeof_header) / 8) = Z.of_nat (length ts)).
  { replace (sizeof_header + 8 * Z.of_nat (length ts) - sizeof_header) with (Z.of_nat (length ts) * 8) by lia.
    unfold sizeof_header in *. unfold u64. rewrite wrap_small, Z.div_mul by lia. apply swrap_small; lia. }
  rewrite E, Nat2Z.id. clear E.
  assert (G : ∀ k c, (k ≤ length ts)%nat → (c ≤ index)%nat →
    iter (S (length ts - k)) (λ '(i, current_index),
      if i <? Z.of_nat (length ts) then
        t ← load64 m (XSDT + sizeof_header + 8 * i);
        let sdt := u64 (t + hhdm) in
        c ← strncmp m sg sdt 4;
        if c =? 0 then
          if negb (u64 current_index =? Z.of_nat index) then Ok (Next (i + 1, current_index + 1))
          else Ok (Done sdt)
        else Ok (Next (i + 1, current_index))
      else Ok (Done 0)) (Z.of_nat k, Z.of_nat c) =
    Ok (default 0 ((filter (λ t, t.2 = sig) (drop k ts)).*1 !! (index - c)%nat))); last first.
  { specialize (G 0%nat 0%nat). rewrite Nat.sub_0_r in G. rewrite drop_0, Nat.sub_0_r in G.
    apply G; lia. }
  intros k. remember (length ts - k)%nat as d eqn:Ed. revert k Ed.
  induction d as [|d IH]; intros k Ed c Hk Hc; cbn [iter].
  - rewrite (proj2 (Z.ltb_ge _ _)) by lia. simpl_res. by rewrite drop_ge by lia.
  - rewrite (proj2 (Z.ltb_lt _ _)) by lia.
    destruct (lookup_lt_is_Some_2 ts k) as [[a s] Ht]; [lia|].
    destruct (Hts k _ Ht) as (a0 & -> & Ea & Hs). cbn [fst snd] in *. simpl_res. rewrite <- Ea.
    destruct (sig_compare m sg a sig s Hsig Hs) as (r & -> & Hr). simpl_res.
    rewrite (drop_S _ _ _ Ht). replace (Z.of_nat k + 1) with (Z.of_nat (S k)) by lia.
    destruct (Z.eqb_spec r 0) as [E0|E0].
    + rewrite filter_cons_True by (cbn; symmetry; by apply Hr).
      assert (Eu : u64 (Z.of_nat c) = Z.of_nat c) by (apply wrap_small; lia).
      rewrite Eu.
      destruct (Z.eqb_spec (Z.of_nat c) (Z.of_nat index)) as [Ec|Ec]; cbn [negb]; simpl_res.
      * replace (index - c)%nat with 0%nat by lia. done.
      * replace (Z.of_nat c + 1) with (Z.of_nat (S c)) by lia.
        etransitivity; [apply (IH (S k) ltac:(lia) (S c)); lia|].
        replace (index - c)%nat with (S (index - S c)) by lia. done.
    + rewrite filter_cons_False by (cbn; intros Es; apply E0, Hr; done). apply (IH (S k) ltac:(lia) c); lia.
Qed.

(** A slice of a structure as a number. *)
Definition le_at (k n : nat) (s : list Z) : Z := le (take n (drop k s)).

Lemma bytes_at_slice m p s k n :
  bytes_at m p s → (k + n ≤ length s)%nat →
  bytes_at m (p + Z.of_nat k) (take n (drop k s)) ∧ length (take n (drop k s)) = n.
Proof.
  intros H Hl. split; [|rewrite length_take, length_drop; lia].
  intros i b Hi. apply lookup_take_Some in Hi as [Hi _]. rewrite lookup_drop in Hi.
  specialize (H _ _ Hi). by replace (p + Z.of_nat k + Z.of_nat i) with (p + Z.of_nat (k + i)) by lia.
Qed.

Lemma load_le_slice m p s k n :
  bytes_at m p s → (k + n ≤ length s)%nat → load_le n m (p + Z.of_nat k) = Ok (le_at k n s).
Proof.
  intros H Hl. destruct (bytes_at_slice _ _ _ _ _ H Hl) as [Hb Hn].
  unfold le_at. rewrite <- Hn at 1. by apply load_le_at.
Qed.

(** [MADT_ADDR32] assembles a little-endian word. *)
Lemma land_s8 b : is_byte b → Z.land (s8 b) 0xFF = b.
Proof. intros Hb. rewrite (land_mask 8) by lia. by apply u8_s8_byte. Qed.

Lemma addr32_word b0 b1 b2 b3 :
  Forall is_byte [b0; b1; b2; b3] →
  u32 (Z.lor (Z.lor (Z.lor (Z.shiftl b3 24) (Z.shiftl b2 16)) (Z.shiftl b1 8)) b0) =
  le [b0; b1; b2; b3].
Proof.
  intros H. unfold u32. rewrite wrap_small.
  - cbn [le]. rewrite Z.shiftl_0_l, Z.lor_0_r, !Z.shiftl_lor, !Z.shiftl_shiftl by lia.
    change (8 + (8 + 8)) with 24. change (8 + 8) with 16.
    apply Z.bits_inj'. intros n _. rewrite !Z.lor_spec.
    destruct (Z.testbit b0 n), (Z.testbit (Z.shiftl b1 8) n), (Z.testbit (Z.shiftl b2 16) n),
      (Z.testbit (Z.shiftl b3 24) n); done.
  - decompose_Forall_hyps. unfold is_byte in *.
    assert (Hsh : ∀ b k, 0 ≤ b < 256 → 0 ≤ k ≤ 24 → 0 ≤ Z.shiftl b k < 2 ^ 32).
    { intros b k Hb Hk. rewrite Z.shiftl_mul_pow2 by lia.
      assert (2 ^ k ≤ 2 ^ 24) by (apply Z.pow_le_mono_r; lia).
      assert (0 < 2 ^ k) by (apply Z.pow_pos_nonneg; lia). nia. }
    repeat apply lor_range; try (apply Hsh; lia); lia.
Qed.

Lemma madt_addr32_at m madt i s k :
  bytes_at m (madt + madt_structure + i) s → Forall is_byte s → (k + 4 ≤ length s)%nat →
  madt_addr32 m madt (i + Z.of_nat k) = Ok (le_at k 4 s).
Proof.
  intros Hs Hb Hl. unfold le_at, madt_addr32.
  assert (G : ∀ j, (j < 4)%nat → ∃ b, s !! (k + j)%nat = Some b ∧ is_byte b ∧
            structure_byte m madt (i + Z.of_nat k + Z.of_nat j) = Ok (s8 b)).
  { intros j Hj. destruct (lookup_lt_is_Some_2 s (k + j)) as [b Eb]; [lia|]. exists b.
    split; [done|]. split; [by eapply Forall_lookup_1|].
    replace (i + Z.of_nat k + Z.of_nat j) with (i + Z.of_nat (k + j)) by lia.
    by apply structure_byte_at with s. }
  destruct (G 0%nat) as (b0 & L0 & B0 & E0); [lia|]. destruct (G 1%nat) as (b1 & L1 & B1 & E1); [lia|].
  destruct (G 2%nat) as (b2 & L2 & B2 & E2); [lia|]. destruct (G 3%nat) as (b3 & L3 & B3 & E3); [lia|].
  change (Z.of_nat 3) with 3 in *. change (Z.of_nat 2) with 2 in *. change (Z.of_nat 1) with 1 in *.
  change (Z.of_nat 0) with 0 in *. rewrite Z.add_0_r in E0.
  rewrite E3, E2, E1, E0. simpl_res.
  assert (BB : Forall is_byte [b0; b1; b2; b3]) by (repeat (apply Forall_cons_2; [done|]); apply Forall_nil_2).
  rewrite !land_s8, addr32_word by done.
  rewrite (drop_S _ _ k) by (by rewrite <- (Nat.add_0_r k)).
  rewrite (drop_S _ _ (S k)) by (by replace (S k) with (k + 1)%nat by lia).
  rewrite (drop_S _ _ (S (S k))) by (by replace (S (S k)) with (k + 2)%nat by lia).
  rewrite (drop_S _ _ (S (S (S k)))) by (by replace (S (S (S k))) with (k + 3)%nat by lia). done.
Qed.

(** The structures the two searches look for. *)
Definition override_struct (irq i : Z) (s : list Z) : option (Z * list Z) :=
  if decide (s !! 0%nat = Some 2 ∧ s !! 3%nat = Some irq) then Some (i, s) else None.

Definition ioapic_struct (gsi i : Z) (s : list Z) : option (Z * list Z) :=
  if decide (s !! 0%nat = Some 1 ∧ le_at 8 4 s = gsi) then Some (i, s) else None.

Lemma first_structure_Some (m : mem) (P : list Z → Prop) `{∀ s, Decision (P s)} q ss i0 i s :
  bytes_at m (q + i0) (concat ss) → 0 ≤ i0 →
  first_structure (λ i s, if decide (P s) then Some (i, s) else None) i0 ss = Some (i, s) →
  s ∈ ss ∧ P s ∧ bytes_at m (q + i) s ∧ 0 ≤ i.
Proof.
  revert i0. induction ss as [|t ss IH]; intros i0 Hb Hi E; cbn in *; [done|].
  apply bytes_at_app in Hb as [Hb1 Hb2]. case_decide.
  - injection E as <- <-. split; [left|done].
  - destruct (IH (i0 + Z.of_nat (length t))) as (? & ? & ? & ?); [|lia|done|].
    { by rewrite Z.add_assoc. }
    split; [by right|done].
Qed.

Lemma first_structure_fmap {R R' : Type} (g : R → R') (f : Z → list Z → option R) i ss :
  first_structure (λ i s, g <$> f i s) i ss = g <$> first_structure f i ss.
Proof.
  revert i. induction ss as [|s ss IH]; intros i; cbn [first_structure]; [done|].
  destruct (f i s); [done|apply IH].
Qed.

Lemma structure_type m madt i s :
  structure_ok s → bytes_at m (madt + madt_structure + i) s →
  ∃ b, s !! 0%nat = Some b ∧ is_byte b ∧ structure_byte m madt i = Ok (s8 b).
Proof.
  intros (_ & Hl & Hb & _) Hs. destruct (lookup_lt_is_Some_2 s 0) as [b Eb]; [lia|].
  exists b. split; [done|]. split; [by eapply Forall_lookup_1|].
  pose proof (structure_byte_at _ _ _ _ _ _ Hs Eb) as E. by rewrite Z.add_0_r in E.
Qed.

(** The address of a found structure, or NULL. *)
Definition found (madt : Z) (r : option (Z * list Z)) : Z :=
  match r with Some (i, _) => madt + madt_structure + i | None => 0 end.

Lemma override_found fuel m madt ss irq :
  madt_at m madt ss → (length ss < fuel)%nat →
  madt_get_override_for_irq fuel m madt irq = Ok (found madt (first_structure (override_struct irq) 0 ss)).
Proof.
  intros H Hf. unfold madt_get_override_for_irq.
  rewrite madt_loop_first with
    (ss := ss) (f := λ i s, (λ t, madt + madt_structure + t.1) <$> override_struct irq i s);
    [| |done|done].
  { rewrite first_structure_fmap. by destruct (first_structure _ _ _) as [[??]|]. }
  intros i s Hok Hs. destruct (structure_type _ _ _ _ Hok Hs) as (b & Eb & Bb & ->). simpl_res.
  rewrite u8_s8_byte by done. unfold override_struct. destruct (Z.eqb_spec b 2) as [->|Hne]; cbn [negb].
  - destruct Hok as (_ & _ & Hby & Hl2 & _). specialize (Hl2 Eb).
    destruct (lookup_lt_is_Some_2 s 3) as [c Ec]; [lia|].
    pose proof (structure_byte_at _ _ _ _ _ _ Hs Ec) as E. change (Z.of_nat 3) with 3 in E. rewrite E. simpl_res.
    rewrite u8_s8_byte by (by eapply Forall_lookup_1). destruct (Z.eqb_spec c irq) as [->|Hc]; cbn [negb].
    + by rewrite decide_True.
    + rewrite decide_False; [done|]. rewrite Ec. naive_solver.
  - rewrite decide_False; [done|]. rewrite Eb. naive_solver.
Qed.

Lemma ioapic_found fuel m madt ss gsi :
  madt_at m madt ss → (length ss < fuel)%nat →
  ioapic_address fuel m madt gsi = Ok ((λ t, le_at 4 4 t.2) <$> first_structure (ioapic_struct gsi) 0 ss).
Proof.
  intros H Hf. unfold ioapic_address.
  rewrite madt_loop_first with
    (ss := ss) (f := λ i s, (λ t, Some (le_at 4 4 t.2)) <$> ioapic_struct gsi i s);
    [| |done|done].
  { rewrite (first_structure_fmap (λ t, Some (le_at 4 4 t.2))). by destruct (first_structure _ _ _) as [[??]|]. }
  intros i s Hok Hs. destruct (structure_type _ _ _ _ Hok Hs) as (b & Eb & Bb & ->). simpl_res.
  rewrite u8_s8_byte by done. unfold ioapic_struct. destruct (Z.eqb_spec b 1) as [->|Hne]; cbn [negb].
  - destruct Hok as (_ & _ & Hby & _ & Hl1). specialize (Hl1 Eb).
    pose proof (madt_addr32_at m madt i s 8 Hs Hby ltac:(lia)) as E8.
    pose proof (madt_addr32_at m madt i s 4 Hs Hby ltac:(lia)) as E4.
    change (Z.of_nat 8) with 8 in E8. change (Z.of_nat 4) with 4 in E4. rewrite E8. simpl_res.
    destruct (Z.eqb_spec (le_at 8 4 s) gsi) as [Hg|Hg]; cbn [negb].
    + by rewrite E4, decide_True.
    + rewrite decide_False; [done|]. naive_solver.
  - rewrite decide_False; [done|]. rewrite Eb. naive_solver.
Qed.

(** A structure whose length byte is 0, and that is not looked for, is visited
    for ever. *)
Lemma madt_loop_zero_length {R} m madt (body : Z → res (option R)) end_ len fuel :
  load32 m (madt + hdr_length) = Ok len → 0 < u32 (len - 44) →
  body 0 = Ok None → structure_byte m madt 1 = Ok 0 →
  madt_loop fuel m madt body end_ = Err OutOfFuel.
Proof.
  intros Hlen Hpos Hb Hz. unfold madt_loop. rewrite Hlen. simpl_res.
  induction fuel as [|fuel IH]; cbn [iter]; [done|].
  rewrite (proj2 (Z.ltb_lt _ _)) by done. rewrite Hb. simpl_res. change (0 + 1) with 1. rewrite Hz. simpl_res.
  exact IH.
Qed.

(** The fields of a 16-byte configuration space description. *)
Definition mcfg_fields (s : list Z) : mcfg_entry :=
  McfgEntry (le_at 0 8 s) (le_at 8 2 s) (le_at 10 1 s) (le_at 11 1 s).

Lemma new_entry_at m MCFG i s :
  bytes_at m (MCFG + sizeof_header + 16 * i) s → length s = 16%nat → Forall is_byte s →
  new_entry m MCFG i = Ok (mcfg_fields s).
Proof.
  intros Hs Hl Hb. unfold new_entry, mcfg_fields.
  pose proof (load_le_slice _ _ _ 0 8 Hs ltac:(lia)) as E0. pose proof (load_le_slice _ _ _ 8 2 Hs ltac:(lia)) as E8.
  destruct (lookup_lt_is_Some_2 s 10) as [b10 L10]; [lia|]. destruct (lookup_lt_is_Some_2 s 11) as [b11 L11]; [lia|].
  pose proof (bytes_at_lookup _ _ _ _ _ Hs L10) as E10. pose proof (bytes_at_lookup _ _ _ _ _ Hs L11) as E11.
  change (Z.of_nat 0) with 0 in E0. change (Z.of_nat 8) with 8 in E8. change (Z.of_nat 10) with 10 in E10.
  change (Z.of_nat 11) with 11 in E11. rewrite Z.add_0_r in E0.
  unfold load64, load16. rewrite E0. simpl_res. rewrite E8. simpl_res. rewrite E10. simpl_res. rewrite E11. simpl_res.
  unfold le_at. rewrite (drop_S _ _ _ L10), (drop_S _ _ _ L11), !firstn_cons, !firstn_O. cbn [le].
  by rewrite Z.shiftl_0_l, !Z.lor_0_r.
Qed.

(** The [i]th 16-byte piece of the bytes behind the header. *)
Definition piece (body : list Z) (i : nat) : list Z := take 16 (drop (16 * i) body).

Lemma piece_entry m MCFG body i :
  bytes_at m (MCFG + sizeof_header) body → Forall is_byte body → (16 * i + 16 ≤ length body)%nat →
  new_entry m MCFG (Z.of_nat i) = Ok (mcfg_fields (piece body i)).
Proof.
  intros Hb Hby Hl. destruct (bytes_at_slice _ _ _ (16 * i) 16 Hb Hl) as [H1 H2].
  apply new_entry_at; [|done|by apply Forall_take, Forall_drop].
  by replace (16 * Z.of_nat i) with (Z.of_nat (16 * i)) by lia.
Qed.

Lemma parse_mcfg_pieces m MCFG body n :
  bytes_at m (MCFG + sizeof_header) body → Forall is_byte body → MCFG ≠ 0 →
  load32 m (MCFG + hdr_length) = Ok (44 + 16 * Z.of_nat (S n)) → 44 + 16 * Z.of_nat (S n) < 2 ^ 32 →
  (16 * S n ≤ length body)%nat →
  parse_mcfg m MCFG [] =
  Ok (mcfg_fields (piece body 0) :: reverse ((λ i, mcfg_fields (piece body i)) <$> seq 1 n)).
Proof.
  intros Hb Hby Hn Hlen Hlt Hl. unfold parse_mcfg. rewrite (proj2 (Z.eqb_neq _ _) Hn).
  pose proof (piece_entry _ _ _ 0 Hb Hby ltac:(lia)) as E0. change (Z.of_nat 0) with 0 in E0.
  rewrite E0. simpl_res. rewrite Hlen. simpl_res. clear E0.
  replace (44 + 16 * Z.of_nat (S n) - 44) with (Z.of_nat (S n) * 16) by lia.
  unfold u32. rewrite wrap_small, Z.div_mul, Nat2Z.id by lia.
  assert (G : ∀ k j rest fuel, (j + k = S n)%nat → (k < fuel)%nat →
    iter fuel (λ '(i, rest),
      if i <? Z.of_nat (S n) then e ← new_entry m MCFG i; Ok (Next (i + 1, e :: rest))
      else Ok (Done rest)) (Z.of_nat j, rest) =
    Ok (reverse ((λ i, mcfg_fields (piece body i)) <$> seq j k) ++ rest)).
  { clear Hlen Hlt. induction k as [|k IH]; intros j rest fuel Hj Hf; (destruct fuel as [|fuel]; [lia|]); cbn [iter].
    - by rewrite (proj2 (Z.ltb_ge _ _)) by lia.
    - rewrite (proj2 (Z.ltb_lt _ _)) by lia. rewrite (piece_entry _ _ _ j Hb Hby) by lia. simpl_res.
      replace (Z.of_nat j + 1) with (Z.of_nat (S j)) by lia. rewrite IH by lia.
      cbn [seq]. by rewrite fmap_cons, reverse_cons, <- (assoc_L (++)). }
  rewrite (G n 1%nat) by lia. simpl_res. by rewrite app_nil_r.
Qed.

(** The low word of a redirection entry. *)
Lemma redirection_low v pol trig :
  0 ≤ v < 256 → pol = 0 ∨ pol = 1 → trig = 0 ∨ trig = 1 →
  u32 (Z.lor (Z.lor (Z.lor (Z.lor (Z.shiftl trig 15) (Z.shiftl pol 13)) (Z.shiftl 0 11)) (Z.shiftl 0 8)) v) =
  v + 2 ^ 13 * pol + 2 ^ 15 * trig.
Proof.
  intros Hv Hp Ht. rewrite Z.lor_comm.
  assert (E : Z.lor (Z.lor (Z.lor (Z.shiftl trig 15) (Z.shiftl pol 13)) (Z.shiftl 0 11)) (Z.shiftl 0 8) =
    Z.shiftl (pol + 4 * trig) 13) by (destruct Hp as [-> | ->], Ht as [-> | ->]; reflexivity).
  rewrite E, lor_shiftl_add by lia. unfold u32. rewrite wrap_small; lia.
Qed.

(** What one redirection entry costs in register writes. *)
Definition redirect (sel pin low : Z) : list (Z * Z) :=
  [(sel, pin); (sel + 0x10, low); (sel, u8 (pin + 1)); (sel + 0x10, 0)].

Lemma set_redirection_writes sel p v pol trig :
  0 ≤ v < 256 → pol = 0 ∨ pol = 1 → trig = 0 ∨ trig = 1 →
  set_redirection_table_entry sel (Redtbl p v 0 0 pol trig 0) =
  redirect sel p (v + 2 ^ 13 * pol + 2 ^ 15 * trig).
Proof.
  intros Hv Hp Ht. unfold set_redirection_table_entry, write_ioapic, redirect. cbn [pin vector delivery_mode
    destination_mode pin_polarity trigger_mode destination app].
  by rewrite redirection_low.
Qed.

(** ** Theorems *)

(** Scan_tables returns the index-th table of the XSDT that carries the
    signature, and NULL when there are too few. *)
Lemma scan_tables_nth hhdm dsdt_lit facp_lit m XSDT ts sg sig index :
  xsdt_at hhdm m XSDT ts → sig_at m sg sig → sig_at m dsdt_lit [68; 83; 68; 84] → sig ≠ [68; 83; 68; 84] →
  Z.of_nat index < 2 ^ 32 →
  scan_tables hhdm dsdt_lit facp_lit m XSDT sg (Z.of_nat index) =
  Ok (default 0 ((filter (λ t, t.2 = sig) ts).*1 !! index)).
Proof.
  intros Hx Hs Hd Hne Hi. unfold scan_tables. destruct (sig_compare _ _ _ _ _ Hs Hd) as (r & -> & Hr).
  simpl_res. destruct (Z.eqb_spec r 0); [naive_solver|]. by apply scan_loop_nth.
Qed.

(** C15: Enabling an interrupt line programs the redirection entry of the first
    override for it, else of its own number.  Of the two-bit polarity and
    trigger mode of the override only the low bit reaches the entry, so that
    "active high" (1) is programmed as bit 13 set, like "active low" (3). *)
Theorem ioapic_enable_irq_programs {F} `{FrameSource F} hhdm root fuel m madt ss (fs : F) ph irq vector i s p :
  madt_at m madt ss → (length ss < fuel)%nat → 0 ≤ madt → 0 ≤ irq < 256 → 0 ≤ vector < 256 →
  first_structure (ioapic_struct 0) 0 ss = Some (i, s) →
  virtual_to_physical ph root (u64 (le_at 4 4 s + hhdm)) = Ok p → p ≠ 0 →
  ioapic_enable_irq hhdm root fuel m madt fs ph irq vector =
  Ok (match first_structure (override_struct irq) 0 ss with
      | Some (_, o) =>
          redirect (u64 (le_at 4 4 s + hhdm)) (u8 (0x10 + u32 (le_at 4 4 o * 2)))
            (vector + 2 ^ 13 * (le_at 8 1 o mod 2) + 2 ^ 15 * (le_at 8 1 o / 4 mod 2))
      | None => redirect (u64 (le_at 4 4 s + hhdm)) (u8 (0x10 + irq * 2)) vector
      end, fs, ph).
Proof.
  intros Hm Hf Hpos Hirq Hv Hio Hvp Hp. unfold ioapic_enable_irq, madt_get_ioapic.
  rewrite (ioapic_found _ _ _ ss) by done. rewrite Hio. simpl_res. cbn [snd]. rewrite Hvp. simpl_res.
  rewrite (proj2 (Z.eqb_neq p 0) Hp). simpl_res.
  replace (u8 irq) with irq by (symmetry; apply wrap_small; lia).
  replace (u8 vector) with vector by (symmetry; apply wrap_small; lia).
  rewrite (override_found _ _ _ ss) by done. simpl_res.
  destruct (first_structure (override_struct irq) 0 ss) as [[j o]|] eqn:Eo; cbn [found].
  - pose proof Hm as (Hb & Hok & _).
    destruct (first_structure_Some m (λ s, s !! 0%nat = Some 2 ∧ s !! 3%nat = Some irq) (madt + madt_structure) ss 0 j o ltac:(by rewrite Z.add_0_r) ltac:(lia) Eo)
      as (Hin & [Ho0 Ho3] & Hob & Hj).
    assert (Hoo : structure_ok o) by (rewrite Forall_forall in Hok; by apply Hok).
    destruct Hoo as (_ & _ & Hby & Hl & _). specialize (Hl Ho0).
    unfold madt_structure in *. rewrite (proj2 (Z.eqb_neq _ 0)) by lia. cbn [negb].
    unfold override_polarity, override_trigger_mode, override_gsi.
    destruct (lookup_lt_is_Some_2 o 8) as [b Eb]; [lia|].
    pose proof (bytes_at_lookup _ _ _ _ _ Hob Eb) as E8. change (Z.of_nat 8) with 8 in E8. rewrite E8. simpl_res.
    pose proof (load_le_slice _ _ _ 4 4 Hob ltac:(lia)) as E4. change (Z.of_nat 4) with 4 in E4.
    unfold load32. rewrite E4. simpl_res.
    assert (El : le_at 8 1 o = b).
    { unfold le_at. rewrite (drop_S _ _ _ Eb), firstn_cons, firstn_O. cbn [le].
      by rewrite Z.shiftl_0_l, Z.lor_0_r. }
    pose proof (Z.mod_pos_bound (b mod 4) 2). pose proof (Z.mod_pos_bound (b / 4 mod 4) 2).
    rewrite El, set_redirection_writes by lia.
    do 3 f_equal. rewrite !Z.mod_mod_divide; [done| |]; by exists 2.
  - change (negb (0 =? 0)) with false. simpl_res. rewrite set_redirection_writes by (done || by left). do 2 f_equal. f_equal. f_equal. lia.
Qed.

(** The MCFG structure lacks the eight reserved bytes behind the header, so
    parse_mcfg reads every description eight bytes early: the list starts with
    an entry of base address 0 whose group and bus range are bytes of the real
    base address. *)
Lemma parse_mcfg_shifted m MCFG e es :
  bytes_at m (MCFG + sizeof_header) (replicate 8 0 ++ concat (e :: es)) →
  Forall (λ s, length s = 16%nat ∧ Forall is_byte s) (e :: es) → MCFG ≠ 0 →
  load32 m (MCFG + hdr_length) = Ok (44 + 16 * Z.of_nat (length (e :: es))) →
  44 + 16 * Z.of_nat (length (e :: es)) < 2 ^ 32 →
  ∃ rest, parse_mcfg m MCFG [] = Ok (McfgEntry 0 (le_at 0 2 e) (le_at 2 1 e) (le_at 3 1 e) :: rest) ∧
    length rest = length es.
Proof.
  intros Hb Hok Hn Hlen Hlt.
  assert (Hl : length (concat (e :: es)) = (16 * S (length es))%nat).
  { clear -Hok. change (S (length es)) with (length (e :: es)). induction Hok as [|s ss [Hs _] _ IH]; [done|].
    cbn [concat length]. rewrite length_app, IH, Hs. lia. }
  assert (Hby : Forall is_byte (concat (e :: es))).
  { clear -Hok. induction Hok as [|s ss [_ Hs] _ IH]; [done|]. cbn [concat]. by apply Forall_app. }
  eexists. split.
  - rewrite (parse_mcfg_pieces m MCFG (replicate 8 0 ++ concat (e :: es)) (length es)); try done.
    + apply Forall_cons in Hok as [[He _] _].
      do 2 f_equal. unfold mcfg_fields, piece. rewrite drop_0. cbn [concat]. unfold le_at.
      do 17 (destruct e as [|? e]; [done|]). done.
    + apply Forall_app. split; [|done]. apply Forall_replicate. unfold is_byte. lia.
    + rewrite length_app, Hl. lia.
  - by rewrite length_reverse, length_fmap, length_seq.
Qed.

(** ** Witnesses *)

Definition demo_dsdt : list Z := [68; 83; 68; 84].
Definition demo_apic : list Z := [65; 80; 73; 67].
Definition demo_hpet : list Z := [72; 80; 69; 84].

(** Signatures at 0x50 and 0x60, a table of two addresses at 0x100, and the
    two tables. *)
Definition demo_acpi : mem :=
  write_bytes (write_bytes (write_bytes (write_bytes (write_bytes (write_bytes ∅
    0x50 demo_apic) 0x60 demo_dsdt)
    0x104 [52; 0; 0; 0]) 0x124 ([0; 2; 0; 0; 0; 0; 0; 0] ++ [0; 3; 0; 0; 0; 0; 0; 0]))
    0x1200 demo_hpet) 0x1300 demo_apic.

Lemma bytes_at_decide m p n bs : read_bytes m p n = Some bs → bytes_at m p bs.
Proof. intros H. by apply read_bytes_at in H as [_ H]. Qed.

Lemma sig_at_decide m p bs :
  read_bytes m p 4 = Some bs → forallb (λ b, (0 <? b) && (b <? 256)) bs = true → sig_at m p bs.
Proof.
  intros H Hb. apply read_bytes_at in H as [Hl H].
  split; [done|]. split; [done|].
  split; apply Forall_forall; intros b Hin; rewrite forallb_forall in Hb;
    specialize (Hb b (proj1 (list_elem_of_In _ _) Hin)); unfold is_byte; lia.
Qed.

(** An I/O APIC and an override of line 0 to input 2, active high. *)
Definition demo_structures : list (list Z) :=
  [[1; 12; 0; 0; 0; 0x50; 0; 0; 0; 0; 0; 0]; [2; 10; 0; 0; 2; 0; 0; 0; 1; 0]].

Definition demo_madt : mem :=
  write_bytes (write_bytes ∅ 0x104 [66; 0; 0; 0]) (0x100 + madt_structure) (concat demo_structures).

Lemma demo_madt_at : madt_at demo_madt 0x100 demo_structures.
Proof.
  split; [apply write_bytes_at|]. split; [|split; by vm_compute].
  repeat apply Forall_cons_2; [..|by apply Forall_nil_2];
    (split; [done|split; [by vm_compute; lia|split; [|split; intros E; cbn in E |- *; congruence || lia]]]);
    repeat (apply Forall_cons_2; [by unfold is_byte|]); apply Forall_nil_2.
Qed.

Lemma ioapic_enable_irq_programs_witness :
  ioapic_enable_irq 0x2000 0x1000 3 demo_madt 0x100 demo_mapped.1 demo_mapped.2 0 32 =
  Ok ([(0x7000, 0x14); (0x7010, 32 + 2 ^ 13); (0x7000, 0x15); (0x7010, 0)], demo_mapped.1, demo_mapped.2).
Proof.
  refine (ioapic_enable_irq_programs 0x2000 0x1000 3 demo_madt 0x100 demo_structures demo_mapped.1 demo_mapped.2
    0 32 0 [1; 12; 0; 0; 0; 0x50; 0; 0; 0; 0; 0; 0] 0x90000 demo_madt_at _ _ _ _ _ _ _); try lia; [cbn; lia|by vm_compute..].
Defined.

