(* ===== verification/Terminal.v ===== *)
(** * The text terminal (lethe-kernel/terminal)

    Video memory maps the byte address of each 32-bit pixel to its value; a
    store to an address outside it is undefined.  The PSF font is byte memory.
    The terminal state is the cursor column and line, both [uint32_t]; the
    debug output to the serial port is left out. *)
From S2P Require Import Prelude LibString.

(** ** Definitions *)

Abbreviation video := (gmap Z Z).

Record framebuffer := Framebuffer {
  fb_base : Z; fb_pitch : Z; fb_yres : Z; fb_xres : Z; initialized : bool
}.

Definition pixel_address (fb : framebuffer) (x y : Z) : Z :=
  u64 (u64 (fb_base fb + u32 (fb_pitch fb * y)) + 4 * x).

Definition put_pixel (fb : framebuffer) (v : video) (x y color : Z) : res video :=
  if negb (initialized fb) then Ok v
  else
    match v !! pixel_address fb x y with
    | Some _ => Ok (<[pixel_address fb x y := color]> v)
    | None => Err Undefined
    end.

Definition fill (fb : framebuffer) (v : video) (start_x start_y width height color : Z) : res video :=
  if negb (initialized fb) then Ok v
  else
    iter (S (Z.to_nat width)) (λ '(x, v),
      if x <? start_x + width then
        v ← iter (S (Z.to_nat height)) (λ '(y, v),
              if y <? start_y + height then v ← put_pixel fb v x y color; Ok (Next (y + 1, v))
              else Ok (Done v)) (start_y, v);
        Ok (Next (x + 1, v))
      else Ok (Done v)) (start_x, v).

(** Eight stripes of one colour each. *)
Definition test_pixels (fb : framebuffer) (v : video) : res video :=
  let x := Z.quot (fb_xres fb) 8 in
  foldl (λ v '(i, color), v ← v; fill fb v (x * i) 0 x (fb_yres fb) color) (Ok v)
    [(0, 0xFF0000); (1, 0x00FF00); (2, 0x0000FF); (3, 0xFFFF00); (4, 0xFF00FF); (5, 0x00FFFF); (6, 0xFFFFFF);
     (7, 0x000000)].

(** The response of the boot loader: address, pitch, width and height. *)
Definition init_fb (address pitch width height : Z) : framebuffer :=
  Framebuffer address (u32 pitch) (s32 height) (s32 width) true.

Record tty := Tty { cursor : Z; line : Z }.

Definition set_cursor (new_cursor new_line : Z) : tty := Tty new_cursor new_line.

Definition get_cursor (t : tty) : Z := Z.lor (Z.shiftl (cursor t) 32) (line t).

Definition clear_screen (fb : framebuffer) (v : video) : res (tty * video) :=
  v ← fill fb v 0 0 (fb_xres fb) (fb_yres fb) 0;
  Ok (set_cursor 1 1, v).

Section tty.
Context (fb : framebuffer) (font : mem) (_binary_font_psf_start : Z).

Definition draw_row (v : video) (j cursor g : Z) : res video :=
  iter 9 (λ '(i, mask, v),
    if i <? u32 (cursor * 8 + 8) then
      v ← put_pixel fb v i j (if negb (Z.land g mask =? 0) then 0xFFFFFF else 0x00);
      Ok (Next (i + 1, Z.shiftr mask 1, v))
    else Ok (Done v)) (u32 (cursor * 8), 128, v).

Definition draw_glyph (v : video) (t : tty) (glyph : Z) : res video :=
  iter 17 (λ '(j, glyph, v),
    if j <? u32 (line t * 16 + 16) then
      g ← load8 font glyph;
      v ← draw_row v j (cursor t) g;
      Ok (Next (j + 1, glyph + 1, v))
    else Ok (Done v)) (u32 (line t * 16), glyph, v).

(** [ch] is a signed [char]. *)
Definition tty_putc (t : tty) (v : video) (ch : Z) : res (tty * video) :=
  if ch =? 10 then Ok (Tty 1 (u32 (line t + 1)), v)
  else if ch =? 9 then Ok (Tty (u32 (cursor t + 4)) (line t), v)
  else
    let t := if 80 <=? cursor t then Tty 1 (u32 (line t + 1)) else t in
    '(t, v) ← (if 25 <=? line t then clear_screen fb v else Ok (t, v));
    v ← draw_glyph v t (_binary_font_psf_start + 32 + ch * 16);
    Ok (Tty (u32 (cursor t + 1)) (line t), v).

Definition tty_delc (t : tty) (v : video) : res (tty * video) :=
  if cursor t =? 0 then
    if line t =? 0 then
      '(t, v) ← tty_putc t v 32;
      Ok (Tty (u32 (cursor t - 1)) (line t), v)
    else
      '(t, v) ← tty_putc (Tty 79 (u32 (line t - 1))) v 32;
      Ok (Tty (u32 (cursor t - 1)) (line t), v)
  else
    '(t, v) ← tty_putc (Tty (u32 (cursor t - 1)) (line t)) v 32;
    Ok (Tty (u32 (cursor t - 1)) (line t), v).

(** What [print] of the libc sends to the terminal. *)
Definition tty_print (t : tty) (v : video) (chs : list Z) : res (tty * video) :=
  foldl (λ r ch, '(t, v) ← r; tty_putc t v ch) (Ok (t, v)) chs.
End tty.

(** *** The reference view of the screen *)

(** The framebuffer holds [80] columns and [25] lines of 8 by 16 pixels, its
    pixels have addresses of their own, and all of them are memory. *)
Record fb_ok (fb : framebuffer) (v : video) : Prop := FbOk {
  fb_init : initialized fb = true;
  fb_width : 640 ≤ fb_xres fb < 2 ^ 31;
  fb_height : 400 ≤ fb_yres fb < 2 ^ 31;
  fb_rows : 4 * fb_xres fb ≤ fb_pitch fb;
  fb_base_range : 0 ≤ fb_base fb;
  fb_size : fb_pitch fb * fb_yres fb < 2 ^ 32;
  fb_end : fb_base fb + fb_pitch fb * fb_yres fb < 2 ^ 64;
  fb_mapped : ∀ x y, 0 ≤ x < fb_xres fb → 0 ≤ y < fb_yres fb →
    is_Some (v !! (fb_base fb + fb_pitch fb * y + 4 * x))
}.

(** The glyphs of the characters 0 to 127. *)
Definition font_ok (font : mem) (start : Z) : Prop := mapped font (start + 32) (128 * 16).

(** The pixel of row [r], column [c] of the glyph of [ch]. *)
Definition glyph_pixel (font : mem) (start ch r c : Z) : Z :=
  if Z.testbit (default 0 (font !! (start + 32 + ch * 16 + r))) (7 - c) then 0xFFFFFF else 0.

(** The pixel at [x], [y]. *)
Definition pixel (fb : framebuffer) (v : video) (x y : Z) : option Z :=
  v !! (fb_base fb + fb_pitch fb * y + 4 * x).

Definition on_screen (fb : framebuffer) (x y : Z) : Prop := 0 ≤ x < fb_xres fb ∧ 0 ≤ y < fb_yres fb.

(** ** Lemmas *)

Section screen.
Context (fb : framebuffer).
Implicit Types (v : video) (x y : Z).

Lemma pixel_address_eq v x y :
  fb_ok fb v → on_screen fb x y → pixel_address fb x y = fb_base fb + fb_pitch fb * y + 4 * x.
Proof.
  intros Hok [Hx Hy]. destruct Hok as [_ Hw Hh Hr Hb Hs He _]. unfold pixel_address.
  assert (0 ≤ fb_pitch fb * y) by nia.
  assert (fb_pitch fb * (y + 1) ≤ fb_pitch fb * fb_yres fb) by (apply Z.mul_le_mono_nonneg_l; lia).
  unfold u32. rewrite (wrap_small 32) by lia. unfold u64.
  rewrite (wrap_small 64 (fb_base fb + fb_pitch fb * y)) by lia. rewrite wrap_small; lia.
Qed.

Lemma pixel_inj v x y x' y' :
  fb_ok fb v → on_screen fb x y → on_screen fb x' y' →
  fb_base fb + fb_pitch fb * y + 4 * x = fb_base fb + fb_pitch fb * y' + 4 * x' → x = x' ∧ y = y'.
Proof.
  intros Hok [Hx Hy] [Hx' Hy'] E. destruct Hok as [_ Hw Hh Hr Hb Hs He _].
  assert (y = y') as ->; [|lia].
  destruct (Z.lt_trichotomy y y') as [|[|]]; [|done|]; exfalso; nia.
Qed.

Lemma fb_ok_insert v x y c : fb_ok fb v → fb_ok fb (<[pixel_address fb x y := c]> v).
Proof.
  intros [? ? ? ? ? ? ? Hm]. split; try done. intros x' y' Hx Hy.
  destruct (decide (pixel_address fb x y = fb_base fb + fb_pitch fb * y' + 4 * x')) as [->|].
  - by rewrite lookup_insert_eq.
  - rewrite lookup_insert_ne by done. by apply Hm.
Qed.

(** One store to a pixel of the screen. *)
Lemma put_pixel_spec v x y c :
  fb_ok fb v → on_screen fb x y →
  ∃ v', put_pixel fb v x y c = Ok v' ∧ fb_ok fb v' ∧ pixel fb v' x y = Some c ∧
    ∀ x' y', on_screen fb x' y' → (x', y') ≠ (x, y) → pixel fb v' x' y' = pixel fb v x' y'.
Proof.
  intros Hok Hxy. exists (<[pixel_address fb x y := c]> v). unfold put_pixel.
  rewrite (fb_init _ _ Hok). cbn [negb].
  assert (Hs : is_Some (v !! pixel_address fb x y)).
  { rewrite (pixel_address_eq v) by done. by apply (fb_mapped _ _ Hok); apply Hxy. }
  destruct Hs as [c0 ->]. split_and!; [done|by apply fb_ok_insert| |].
  - unfold pixel. by rewrite <- (pixel_address_eq v), lookup_insert_eq.
  - intros x' y' Hxy' Hne. unfold pixel. rewrite lookup_insert_ne; [done|].
    rewrite (pixel_address_eq v) by done. intros E. apply Hne.
    apply (pixel_inj v) in E as [-> ->]; done.
Qed.

(** [v'] differs from [v] on the area [D], where it shows [f]. *)
Definition painted v v' (D : Z → Z → Prop) (f : Z → Z → Z) : Prop :=
  fb_ok fb v' ∧ ∀ x y, on_screen fb x y →
    (pixel fb v' x y = Some (f x y) ∨ pixel fb v' x y = pixel fb v x y) ∧
    (D x y → pixel fb v' x y = Some (f x y)) ∧ (¬ D x y → pixel fb v' x y = pixel fb v x y).

Lemma painted_none v f : fb_ok fb v → painted v v (λ _ _, False) f.
Proof. intros Hok. split; [done|]. intros x y _. split_and!; [by right|done|done]. Qed.

Lemma painted_iff v v' D D' f :
  (∀ x y, D x y ↔ D' x y) → painted v v' D f → painted v v' D' f.
Proof. intros HD [Hok H]. split; [done|]. intros x y Hxy. rewrite <- HD. by apply H. Qed.

Lemma painted_trans v v1 v2 D1 D2 f :
  painted v v1 D1 f → painted v1 v2 D2 f → painted v v2 (λ x y, D1 x y ∨ D2 x y) f.
Proof.
  intros [_ H1] [Hok H2]. split; [done|]. intros x y Hxy.
  destruct (H1 x y Hxy) as (A1 & B1 & C1), (H2 x y Hxy) as (A2 & B2 & C2). split_and!.
  - destruct A2 as [A2|A2]; [by left|]. rewrite A2. tauto.
  - intros [HD|HD]; [|by apply B2]. destruct A2 as [A2|A2]; [done|]. rewrite A2. by apply B1.
  - intros HD. rewrite C2 by tauto. apply C1. tauto.
Qed.

Lemma put_pixel_painted v x y c f :
  fb_ok fb v → on_screen fb x y → c = f x y →
  ∃ v', put_pixel fb v x y c = Ok v' ∧ painted v v' (λ x' y', x' = x ∧ y' = y) f.
Proof.
  intros Hok Hxy ->. destruct (put_pixel_spec v x y (f x y) Hok Hxy) as (v' & E & Hok' & Hp & Hne).
  exists v'. split; [done|]. split; [done|]. intros x' y' Hxy'.
  destruct (decide ((x', y') = (x, y))) as [[= -> ->]|Hd].
  - split_and!; [by left|done|tauto].
  - split_and!; [right; by apply Hne|by intros [-> ->]|intros _; by apply Hne].
Qed.

(** A loop whose [k]th round paints [D k]. *)
Lemma paint_loop {S : Type} (body : S * video → res (ctrl (S * video) video)) (st : nat → S) n
    (D : nat → Z → Z → Prop) f :
  (∀ k v, (k < n)%nat → fb_ok fb v →
     ∃ v1, body (st k, v) = Ok (Next (st (Datatypes.S k), v1)) ∧ painted v v1 (D k) f) →
  (∀ v, body (st n, v) = Ok (Done v)) →
  ∀ v, fb_ok fb v →
    ∃ v', iter (Datatypes.S n) body (st 0%nat, v) = Ok v' ∧ painted v v' (λ x y, ∃ k, (k < n)%nat ∧ D k x y) f.
Proof.
  intros Hstep Hend.
  assert (G : ∀ j k v, (k + j = n)%nat → fb_ok fb v →
    ∃ v', iter (Datatypes.S j) body (st k, v) = Ok v' ∧ painted v v' (λ x y, ∃ i, (k ≤ i < n)%nat ∧ D i x y) f).
  { induction j as [|j IH]; intros k v Hj Hok; cbn [iter].
    - assert (k = n) as -> by lia. rewrite Hend. simpl_res. exists v. split; [done|].
      apply painted_iff with (λ _ _, False); [|by apply painted_none].
      intros x y. split; [done|]. intros (i & Hi & _). lia.
    - destruct (Hstep k v) as (v1 & -> & H1); [lia|done|]. simpl_res.
      destruct (IH (Datatypes.S k) v1) as (v' & E & H2); [lia|apply H1|].
      exists v'. split; [exact E|]. apply painted_iff with (2 := painted_trans _ _ _ _ _ _ H1 H2).
      intros x y. split.
      + intros [Hd|(i & Hi & Hd)]; [exists k|exists i]; (split; [lia|done]).
      + intros (i & Hi & Hd). destruct (decide (i = k)) as [->|]; [by left|right].
        exists i. split; [lia|done]. }
  intros v Hok. destruct (G n 0%nat v) as (v' & E & H); [lia|done|]. exists v'. split; [exact E|].
  apply painted_iff with (2 := H). intros x y. split; intros (i & Hi & Hd); exists i; (split; [lia|done]).
Qed.

Lemma fill_painted v sx sy w h c :
  fb_ok fb v → 0 ≤ sx → 0 ≤ sy → 0 ≤ w → 0 ≤ h → sx + w ≤ fb_xres fb → sy + h ≤ fb_yres fb →
  ∃ v', fill fb v sx sy w h c = Ok v' ∧
    painted v v' (λ x y, sx ≤ x < sx + w ∧ sy ≤ y < sy + h) (λ _ _, c).
Proof.
  intros Hok Hsx Hsy Hw Hh Hx Hy. unfold fill. rewrite (fb_init _ _ Hok). cbn [negb].
  edestruct (paint_loop (λ '(x, v), if x <? sx + w then
      v ← iter (S (Z.to_nat h)) (λ '(y, v),
            if y <? sy + h then v ← put_pixel fb v x y c; Ok (Next (y + 1, v)) else Ok (Done v)) (sy, v);
      Ok (Next (x + 1, v))
    else Ok (Done v)) (λ k, sx + Z.of_nat k) (Z.to_nat w)
    (λ k x y, x = sx + Z.of_nat k ∧ ∃ j, (j < Z.to_nat h)%nat ∧ y = sy + Z.of_nat j) (λ _ _, c))
    as (v' & E & H); [| |exact Hok|].
  - intros k v0 Hk Hok0. rewrite (proj2 (Z.ltb_lt _ _)) by lia.
    edestruct (paint_loop (λ '(y, v), if y <? sy + h then
        v ← put_pixel fb v (sx + Z.of_nat k) y c; Ok (Next (y + 1, v)) else Ok (Done v))
      (λ j, sy + Z.of_nat j) (Z.to_nat h) (λ j x y, x = sx + Z.of_nat k ∧ y = sy + Z.of_nat j) (λ _ _, c))
      as (v1 & E1 & H1); [| |exact Hok0|].
    + intros j v2 Hj Hok2. rewrite (proj2 (Z.ltb_lt _ _)) by lia.
      destruct (put_pixel_painted v2 (sx + Z.of_nat k) (sy + Z.of_nat j) c (λ _ _, c)) as (v3 & -> & H3);
        [done|split; lia|done|]. simpl_res. exists v3. split; [|done]. do 3 f_equal. lia.
    + intros v2. by rewrite (proj2 (Z.ltb_ge _ _)) by lia.
    + rewrite Z.add_0_r in E1. rewrite E1. simpl_res. exists v1. split; [do 3 f_equal; lia|].
      apply painted_iff with (2 := H1). intros x y. naive_solver.
  - intros v0. by rewrite (proj2 (Z.ltb_ge _ _)) by lia.
  - rewrite Z.add_0_r in E. exists v'. split; [exact E|]. apply painted_iff with (2 := H). intros x y. split.
    + intros (k & Hk & -> & j & Hj & ->). lia.
    + intros [Hx' Hy']. exists (Z.to_nat (x - sx)). split; [lia|]. split; [lia|].
      exists (Z.to_nat (y - sy)). lia.
Qed.

Lemma land_pow2_eqb g n : 0 ≤ n → (Z.land g (2 ^ n) =? 0) = negb (Z.testbit g n).
Proof.
  intros Hn. destruct (Z.testbit g n) eqn:E; cbn [negb].
  - apply Z.eqb_neq. intros H0. assert (H1 : Z.testbit (Z.land g (2 ^ n)) n = false) by (rewrite H0; apply Z.bits_0).
    rewrite Z.land_spec, Z.pow2_bits_true, E in H1 by lia. done.
  - apply Z.eqb_eq. apply Z.bits_inj'. intros i Hi. rewrite Z.land_spec, Z.bits_0, Z.pow2_bits_eqb by lia.
    destruct (Z.eqb_spec n i) as [->|]; [by rewrite E|apply andb_false_r].
Qed.

(** The cell of a column and a line. *)
Definition in_cell (col ln x y : Z) : Prop := col * 8 ≤ x < col * 8 + 8 ∧ ln * 16 ≤ y < ln * 16 + 16.

Definition bit_color (g n : Z) : Z := if Z.testbit g n then 0xFFFFFF else 0.

Lemma draw_row_painted v j col g f :
  fb_ok fb v → 0 ≤ col < 80 → 0 ≤ j < 400 →
  (∀ k, 0 ≤ k < 8 → f (col * 8 + k) j = bit_color g (7 - k)) →
  ∃ v', draw_row fb v j col g = Ok v' ∧ painted v v' (λ x y, col * 8 ≤ x < col * 8 + 8 ∧ y = j) f.
Proof.
  intros Hok Hc Hj Hf. unfold draw_row. unfold u32. rewrite !wrap_small by lia.
  edestruct (paint_loop (λ '(i, mask, v), if i <? col * 8 + 8 then
      v ← put_pixel fb v i j (if negb (Z.land g mask =? 0) then 0xFFFFFF else 0x00);
      Ok (Next (i + 1, Z.shiftr mask 1, v))
    else Ok (Done v)) (λ k, (col * 8 + Z.of_nat k, Z.shiftr 128 (Z.of_nat k))) 8
    (λ k x y, x = col * 8 + Z.of_nat k ∧ y = j) f) as (v' & E & H); [| |exact Hok|].
  - intros k v0 Hk Hok0. rewrite (proj2 (Z.ltb_lt _ _)) by lia.
    assert (Em : Z.shiftr 128 (Z.of_nat k) = 2 ^ (7 - Z.of_nat k)).
    { rewrite Z.shiftr_div_pow2 by lia. change 128 with (2 ^ 7). rewrite <- Z.pow_sub_r by lia. done. }
    rewrite Em, land_pow2_eqb, negb_involutive by lia.
    destruct (put_pixel_painted v0 (col * 8 + Z.of_nat k) j
      (if Z.testbit g (7 - Z.of_nat k) then 0xFFFFFF else 0x00) f) as (v1 & -> & H1); [done| | |].
    + destruct Hok0. split; lia.
    + symmetry. apply Hf. lia.
    + simpl_res. exists v1. split; [|done]. do 4 f_equal; [lia|].
      rewrite <- Em, Z.shiftr_shiftr by lia. f_equal. lia.
  - intros v0. by rewrite (proj2 (Z.ltb_ge _ _)) by lia.
  - cbn [Z.of_nat] in E. rewrite Z.add_0_r in E. exists v'. split; [exact E|].
    apply painted_iff with (2 := H). intros x y. split.
    + intros (k & Hk & -> & ->). lia.
    + intros [Hx ->]. exists (Z.to_nat (x - col * 8)). lia.
Qed.

Lemma draw_glyph_painted font v t glyph gs f :
  fb_ok fb v → 0 ≤ cursor t < 80 → 0 ≤ line t < 25 → bytes_at font glyph gs → length gs = 16%nat →
  (∀ r c g, gs !! r = Some g → 0 ≤ c < 8 →
     f (cursor t * 8 + c) (line t * 16 + Z.of_nat r) = bit_color g (7 - c)) →
  ∃ v', draw_glyph fb font v t glyph = Ok v' ∧ painted v v' (in_cell (cursor t) (line t)) f.
Proof.
  intros Hok Hc Hl Hgs Hlen Hf. unfold draw_glyph. unfold u32. rewrite !wrap_small by lia.
  edestruct (paint_loop (λ '(j, glyph, v), if j <? line t * 16 + 16 then
      g ← load8 font glyph; v ← draw_row fb v j (cursor t) g; Ok (Next (j + 1, glyph + 1, v))
    else Ok (Done v)) (λ k, (line t * 16 + Z.of_nat k, glyph + Z.of_nat k)) 16
    (λ k x y, cursor t * 8 ≤ x < cursor t * 8 + 8 ∧ y = line t * 16 + Z.of_nat k) f)
    as (v' & E & H); [| |exact Hok|].
  - intros k v0 Hk Hok0. rewrite (proj2 (Z.ltb_lt _ _)) by lia.
    destruct (lookup_lt_is_Some_2 gs k) as [g Eg]; [lia|].
    rewrite (bytes_at_lookup _ _ _ _ _ Hgs Eg). simpl_res.
    destruct (draw_row_painted v0 (line t * 16 + Z.of_nat k) (cursor t) g f) as (v1 & -> & H1); try done; try lia.
    { intros c Hc'. by apply Hf. }
    simpl_res. exists v1. split; [|done]. do 4 f_equal; lia.
  - intros v0. by rewrite (proj2 (Z.ltb_ge _ _)) by lia.
  - cbn [Z.of_nat] in E. rewrite !Z.add_0_r in E. exists v'. split; [exact E|].
    apply painted_iff with (2 := H). intros x y. split.
    + intros (k & Hk & Hx & ->). split; lia.
    + intros [Hx Hy]. exists (Z.to_nat (y - line t * 16)). lia.
Qed.

(** Where a character lands: at the cursor, on the next line behind the last
    column, at the top behind the last line. *)
Definition place (t : tty) : tty :=
  let t := if 80 <=? cursor t then Tty 1 (u32 (line t + 1)) else t in
  if 25 <=? line t then Tty 1 1 else t.

Definition tty_ok (t : tty) : Prop := 0 ≤ cursor t < 2 ^ 32 ∧ 0 ≤ line t < 2 ^ 32.

Lemma place_bounds t : tty_ok t → 0 ≤ cursor (place t) < 80 ∧ 0 ≤ line (place t) < 25.
Proof.
  intros [Hc Hl]. unfold place. cbv zeta.
  pose proof (wrap_range 32 (line t + 1) ltac:(lia)) as Hw. fold u32 in Hw.
  destruct (Z.leb_spec 80 (cursor t)); cbn [line cursor]; case_match; cbn [line cursor]; lia.
Qed.

(** The glyph of [ch]. *)
Lemma font_glyph font start ch :
  font_ok font start → 0 ≤ ch < 128 →
  ∃ gs, bytes_at font (start + 32 + ch * 16) gs ∧ length gs = 16%nat.
Proof.
  intros Hf Hch.
  assert (G : ∀ n p, (∀ i, (i < n)%nat → is_Some (font !! (p + Z.of_nat i))) →
    ∃ gs, bytes_at font p gs ∧ length gs = n).
  { induction n as [|n IH]; intros p Hp; [exists []; split; [apply bytes_at_nil|done]|].
    destruct (Hp 0%nat) as [b Hb]; [lia|]. rewrite Z.add_0_r in Hb.
    destruct (IH (p + 1)) as (gs & Hgs & Hl).
    { intros i Hi. replace (p + 1 + Z.of_nat i) with (p + Z.of_nat (S i)) by lia. apply Hp. lia. }
    exists (b :: gs). split; [by apply bytes_at_cons|cbn; lia]. }
  apply G. intros i Hi. replace (start + 32 + ch * 16 + Z.of_nat i) with
    (start + 32 + Z.of_nat (Z.to_nat (ch * 16) + i)) by lia. apply Hf. lia.
Qed.
End screen.

Section putc.
Context (fb : framebuffer) (font : mem) (start : Z).

(** The colours of the glyph of [ch] drawn at [t]. *)
Definition glyph_at (ch : Z) (t : tty) (x y : Z) : Z :=
  glyph_pixel font start ch (y - line t * 16) (x - cursor t * 8).

Definition cleared (t : tty) : bool :=
  25 <=? line (if 80 <=? cursor t then Tty 1 (u32 (line t + 1)) else t).

Lemma tty_putc_char v t ch :
  fb_ok fb v → font_ok font start → tty_ok t → 0 ≤ ch < 128 → ch ≠ 9 → ch ≠ 10 →
  ∃ v0 v', tty_putc fb font start t v ch = Ok (Tty (cursor (place t) + 1) (line (place t)), v') ∧
    (if cleared t then painted fb v v0 (on_screen fb) (λ _ _, 0) else v0 = v) ∧
    painted fb v0 v' (in_cell (cursor (place t)) (line (place t))) (glyph_at ch (place t)).
Proof.
  intros Hok Hfont Ht Hch H9 H10. pose proof (place_bounds t Ht) as [Hc Hl].
  destruct (font_glyph font start ch Hfont Hch) as (gs & Hgs & Hlen).
  assert (Hdraw : ∀ v0, fb_ok fb v0 → ∃ v', draw_glyph fb font v0 (place t) (start + 32 + ch * 16) = Ok v' ∧
    painted fb v0 v' (in_cell (cursor (place t)) (line (place t))) (glyph_at ch (place t))).
  { intros v0 Hok0. apply draw_glyph_painted with gs; try done.
    intros r c g Eg Hc'. unfold glyph_at, glyph_pixel, bit_color.
    replace (line (place t) * 16 + Z.of_nat r - line (place t) * 16) with (Z.of_nat r) by lia.
    replace (cursor (place t) * 8 + c - cursor (place t) * 8) with c by lia.
    by rewrite (Hgs _ _ Eg). }
  unfold tty_putc. rewrite (proj2 (Z.eqb_neq _ _) H10), (proj2 (Z.eqb_neq _ _) H9). cbv zeta.
  unfold cleared. unfold place in *. cbv zeta in *.
  set (t1 := if 80 <=? cursor t then _ else _) in *. destruct (25 <=? line t1) eqn:E25.
  - unfold clear_screen. destruct (fill_painted fb v 0 0 (fb_xres fb) (fb_yres fb) 0) as (v0 & -> & H0);
      try done; try (destruct Hok; lia). simpl_res.
    destruct (Hdraw v0) as (v' & E & H'); [apply H0|]. unfold set_cursor. rewrite E. simpl_res.
    exists v0, v'. cbn [cursor line] in *. split_and!; [done| |done].
    apply painted_iff with (2 := H0). intros x y. unfold on_screen. lia.
  - destruct (Hdraw v Hok) as (v' & E & H'). cbn [mbind res_bind]. rewrite E. simpl_res.
    exists v, v'. split_and!; [|done|done]. do 3 f_equal. apply wrap_small. lia.
Qed.

(** Every character keeps the screen usable. *)
Lemma tty_putc_ok v t ch :
  fb_ok fb v → font_ok font start → tty_ok t → 0 ≤ ch < 128 →
  ∃ t' v', tty_putc fb font start t v ch = Ok (t', v') ∧ fb_ok fb v' ∧ tty_ok t'.
Proof.
  intros Hok Hfont Ht Hch. pose proof (place_bounds t Ht) as [Hc Hl]. destruct Ht as [Htc Htl].
  destruct (decide (ch = 10)) as [->|H10].
  { eexists _, _. split; [done|]. split; [done|]. pose proof (wrap_range 32 (line t + 1)). split; cbn; [lia|].
    apply wrap_range. lia. }
  destruct (decide (ch = 9)) as [->|H9].
  { eexists _, _. split; [done|]. split; [done|]. split; cbn; [|lia]. apply wrap_range. lia. }
  destruct (tty_putc_char v t ch) as (v0 & v' & E & _ & Hp); try done.
  eexists _, _. split; [exact E|]. split; [apply Hp|]. split; cbn; lia.
Qed.
End putc.

(** ** Theorems *)

(** C17: Printing a character draws its glyph in the cell of the cursor (on the
    next line behind column 79, on a cleared screen behind line 24), changes
    no other pixel, and moves the cursor one column on. *)
Theorem tty_putc_draws fb font start v t ch :
  fb_ok fb v → font_ok font start → tty_ok t → 0 ≤ ch < 128 → ch ≠ 9 → ch ≠ 10 →
  ∃ v', tty_putc fb font start t v ch = Ok (Tty (cursor (place t) + 1) (line (place t)), v') ∧
    ∀ x y, on_screen fb x y → pixel fb v' x y =
      if decide (in_cell (cursor (place t)) (line (place t)) x y) then Some (glyph_at font start ch (place t) x y)
      else if cleared t then Some 0 else pixel fb v x y.
Proof.
  intros Hok Hfont Ht Hch H9 H10.
  destruct (tty_putc_char fb font start v t ch) as (v0 & v' & E & H0 & _ & H); try done.
  exists v'. split; [exact E|]. intros x y Hxy. destruct (H x y Hxy) as (_ & Hin & Hout).
  case_decide as Hd; [by apply Hin|]. rewrite Hout by done. destruct (cleared t); [|by subst].
  by apply H0.
Qed.

(** C16: Whatever ASCII text is printed, from whatever cursor, no store leaves
    the framebuffer and no load the font. *)
Theorem tty_print_safe fb font start v t chs :
  fb_ok fb v → font_ok font start → tty_ok t → Forall (λ ch, 0 ≤ ch < 128) chs →
  ∃ t' v', tty_print fb font start t v chs = Ok (t', v') ∧ fb_ok fb v' ∧ tty_ok t'.
Proof.
  intros Hok Hfont Ht Hchs. unfold tty_print. revert t v Hok Ht.
  induction Hchs as [|ch chs Hch _ IH]; intros t v Hok Ht; cbn [foldl]; [by exists t, v|].
  destruct (tty_putc_ok fb font start v t ch) as (t1 & v1 & E & Hok1 & Ht1); try done.
  cbn [mbind res_bind]. rewrite E. by apply IH.
Qed.

(** ** Witnesses *)

Definition demo_fb : framebuffer := init_fb 0x100000 2560 640 400.
Definition demo_video : video := gset_to_gmap 0 (list_to_set ((λ i, 0x100000 + 4 * i) <$> seqZ 0 256000)).
Definition demo_font : mem := write_bytes ∅ 32 (replicate 2048 0xAA).

Lemma demo_fb_ok : fb_ok demo_fb demo_video.
Proof.
  split; [by vm_compute..|].
  intros x y Hx Hy. cbn in Hx, Hy. change (s32 640) with 640 in Hx. change (s32 400) with 400 in Hy.
  exists 0. apply lookup_gset_to_gmap_Some. split; [|done]. apply elem_of_list_to_set, list_elem_of_fmap.
  exists (640 * y + x). change (fb_pitch demo_fb) with 2560. change (fb_base demo_fb) with 0x100000.
  split; [lia|]. apply elem_of_seqZ. lia.
Qed.

Lemma demo_font_ok : font_ok demo_font 0.
Proof. apply (bytes_at_mapped _ _ (replicate 2048 0xAA)), write_bytes_at. Qed.

Lemma tty_putc_draws_witness :
  ∃ v', tty_putc demo_fb demo_font 0 (Tty 80 24) demo_video 65 = Ok (Tty 2 1, v') ∧
    ∀ x y, on_screen demo_fb x y → pixel demo_fb v' x y =
      if decide (in_cell 1 1 x y) then Some (glyph_at demo_font 0 65 (Tty 1 1) x y) else Some 0.
Proof.
  exact (tty_putc_draws demo_fb demo_font 0 demo_video (Tty 80 24) 65 demo_fb_ok demo_font_ok
    ltac:(by vm_compute) ltac:(lia) ltac:(lia) ltac:(lia)).
Defined.

Lemma tty_print_safe_witness :
  ∃ t' v', tty_print demo_fb demo_font 0 (Tty 79 24) demo_video [76; 101; 116; 104; 101; 10] = Ok (t', v') ∧
    fb_ok demo_fb v' ∧ tty_ok t'.
Proof.
  apply (tty_print_safe demo_fb demo_font 0 demo_video (Tty 79 24));
    [apply demo_fb_ok|apply demo_font_ok|by vm_compute|repeat (apply Forall_cons_2; [lia|]); apply Forall_nil_2].
Defined.
