(* ===== verification/Kernel.v ===== *)
(** * The start of the kernel (lethe-kernel/kernel.c, kernel_limine.c)

    The first part of [kmain], composed of the components it starts: the
    descriptor tables and the configuration (Cpu.v), the checks of what the
    boot loader answered, the frame buffer (Terminal.v), the allocators
    (ListAlloc.v), the ACPI tables (Acpi.v), and the timers.  What follows in
    [kmain] (PCI, AHCI, the shell) is in Main.v. *)
From S2P Require Import Prelude FrameAlloc Paging ListAlloc Acpi Terminal Tasks Cpu.

(** ** Definitions *)

(** *** What the boot loader answers; NULL is [None] *)

Record limine_framebuffer := LimineFb { lfb_address : Z; lfb_pitch : Z; lfb_width : Z; lfb_height : Z; bpp : Z }.

Record limine_responses := Responses {
  base_revision_supported : bool;
  framebuffer_response : option (list limine_framebuffer);
  memmap_response : option (list memmap_entry);
  hhdm_response : option Z;
  rsdp_response : option Z;
  executable_response : option Z;
  tsc_frequency_response : option Z
}.

(** *** The components after the start *)

Record acpi_tables := AcpiTables { XSDT : Z; madt : Z; lapic_addr : Z; mcfg_start : list mcfg_entry }.

Record kernel (E : Type) := Kernel {
  gdt : gdt_t; idt : list idt_entry_t; tss : tss_t; hhdm_mapping : Z; kernel_file_address : Z;
  screen : framebuffer; frame_allocator : frame_allocator_t; page_tables : phys; runs : list_state;
  acpi : acpi_tables; cpu : state E
}.
Arguments Kernel {E}.
Arguments cpu {E}.
Arguments hhdm_mapping {E}.

Section kernel.
Context {E : Type} `{Machine E}.
(** The answers of CPUID, the stubs of the assembly, the segment's address. *)
Context (get_cpuid : Z → option (Z * Z * Z * Z)) (isr_stub_table : list Z) (tss_address : Z).
Context (task_switch_handler pic_timer_handler apic_timer_handler : Z).

Definition common_init_start (s : state E) : res (gdt_t * list idt_entry_t * tss_t * state E) :=
  let s := signal s Cli in
  let gdt := load_gdt in
  let '(idt, s) := load_idt s isr_stub_table in
  let '(tss, gdt) := init_tss gdt tss_address in
  s ← init_config_cpuid get_cpuid s;
  Ok (gdt, idt, tss, s).

(** [hhdm_mapping], [kernel_file_address] and the configuration. *)
Definition feature_check (r : limine_responses) (s : state E) : res (Z * Z * state E) :=
  _ ← guard_or Halted (base_revision_supported r);
  framebuffers ← of_option Halted (framebuffer_response r);
  framebuffer ← of_option Halted (framebuffers !! 0%nat);
  _ ← of_option Halted (memmap_response r);
  let hhdm_mapping := default 0 (hhdm_response r) in
  _ ← guard_or Halted (bpp framebuffer =? 32);
  _ ← of_option Halted (rsdp_response r);
  executable ← of_option Halted (executable_response r);
  let t := timers (kernel_config s) in
  let s := match tsc_frequency_response r with
    | Some frequency =>
        with_timers s (Timers (timer_source t) (apic_tsc_deadline t) (tsc_invariant t) (u32 (u64 (frequency * 1000))))
    | None => s
    end in
  Ok (hhdm_mapping, executable, s).

Definition set_interrupt_source (s : state E) (source : Z) : state E :=
  let c := kernel_config s in
  with_config s (Config (interrupts_enabled c) source (multitasking_enabled c) (timers c)).

(** The literals lie at [dsdt_lit], [facp_lit], [apic_lit] and [mcfg_lit]; the
    flag [has_mcfg] is read nowhere. *)
Context (dsdt_lit facp_lit apic_lit mcfg_lit : Z).

Definition acpi_early_init (hhdm root : Z) (m : mem) (fs : frame_allocator_t) (ph : phys) (rsdp : Z) (s : state E) :
    res (acpi_tables * frame_allocator_t * phys * state E) :=
  xsdt ← acpi_xsdt hhdm m rsdp;
  madt ← scan_tables hhdm dsdt_lit facp_lit m xsdt apic_lit 0;
  '(source, outs) ← madt_init m madt;
  let s := foldl (λ s '(port, value), signal s (Outb port value)) (set_interrupt_source s source) outs in
  '(lapic, fs, ph) ← madt_get_lapic_addr hhdm root m madt fs ph;
  mcfg ← scan_tables hhdm dsdt_lit facp_lit m xsdt mcfg_lit 0;
  '(_, entries) ← init_mcfg m mcfg false [];
  Ok (AcpiTables xsdt madt lapic entries, fs, ph, s).

(** The page tables are those of the boot loader, at [root]; [m] is memory as
    the kernel sees it. *)
Definition bootloader_specific_init (fuel : nat) (kernel_end root : Z) (m : mem) (ph : phys)
    (r : limine_responses) (s : state E) :
    res (Z * Z * framebuffer * frame_allocator_t * phys * list_state * acpi_tables * state E) :=
  '(hhdm, file, s) ← feature_check r s;
  framebuffers ← of_option Undefined (framebuffer_response r);
  f ← of_option Undefined (framebuffers !! 0%nat);
  let screen := init_fb (lfb_address f) (lfb_pitch f) (lfb_width f) (lfb_height f) in
  mm ← of_option Undefined (memmap_response r);
  '(fs, ph, runs) ← setup_allocator fuel kernel_end mm ph root (ListState (ListNode 0 0) ∅ 0);
  rsdp ← of_option Undefined (rsdp_response r);
  '(tables, fs, ph, s) ← acpi_early_init hhdm root m fs ph rsdp s;
  Ok (hhdm, file, screen, fs, ph, runs, tables, s).

Definition init_kb_status (keyboard_handler : Z) (s : state E) : res (state E) := enable_irq s 1 33 keyboard_handler.

(** The three calls that turn on tasks, the timer and interrupts. *)
Definition start_timers (fuel : nat) (s : state E) : res (state E) :=
  s ← enable_tasking task_switch_handler s;
  s ← enable_apic pic_timer_handler apic_timer_handler fuel s;
  Ok (enable_interrupts s).

Definition kmain_start (keyboard_handler : Z) (fuel : nat) (kernel_end root : Z) (m : mem) (ph : phys) (r : limine_responses)
    (s : state E) : res (kernel E) :=
  '(gdt, idt, tss, s) ← common_init_start s;
  '(hhdm, file, screen, fs, ph, runs, tables, s) ← bootloader_specific_init fuel kernel_end root m ph r s;
  s ← init_kb_status keyboard_handler s;
  s ← start_timers fuel s;
  Ok (Kernel gdt idt tss hhdm file screen fs ph runs tables s).
End kernel.

(** *** The reference view: the answers the kernel can start from *)

Definition bootable (r : limine_responses) : bool :=
  base_revision_supported r &&
  match framebuffer_response r with Some (f :: _) => bpp f =? 32 | _ => false end &&
  bool_decide (is_Some (memmap_response r)) && bool_decide (is_Some (rsdp_response r)) &&
  bool_decide (is_Some (executable_response r)).

(** ** Lemmas *)

Section boot.
Context {E : Type} `{Machine E}.

Lemma feature_check_halts (r : limine_responses) (s : state E) : bootable r = false → feature_check r s = Err Halted.
Proof.
  unfold bootable, feature_check. intros Hb. destruct (base_revision_supported r); [|done]. simpl_res. cbn [andb] in Hb.
  destruct (framebuffer_response r) as [[|f fs]|]; [done| |done]. simpl_res. change ((f :: fs) !! 0%nat) with (Some f). simpl_res.
  destruct (memmap_response r); simpl_res; [|done]. destruct (bpp f =? 32); simpl_res; [|done].
  destruct (rsdp_response r); simpl_res; [|done]. by destruct (executable_response r).
Qed.

Lemma feature_check_ok (r : limine_responses) (s : state E) :
  bootable r = true →
  ∃ file s1, feature_check r s = Ok (default 0 (hhdm_response r), file, s1) ∧ executable_response r = Some file ∧
    isr_handler_table s1 = isr_handler_table s ∧ machine s1 = machine s ∧
    interrupts_enabled (kernel_config s1) = interrupts_enabled (kernel_config s) ∧
    timer_source (timers (kernel_config s1)) = timer_source (timers (kernel_config s)) ∧
    tsc_freq_khz (timers (kernel_config s1)) =
      match tsc_frequency_response r with
      | Some f => u32 (u64 (f * 1000)) | None => tsc_freq_khz (timers (kernel_config s))
      end.
Proof.
  unfold bootable, feature_check. intros Hb. destruct (base_revision_supported r); [|done]. simpl_res. cbn [andb] in Hb.
  destruct (framebuffer_response r) as [[|f fs]|]; [done| |done]. simpl_res. change ((f :: fs) !! 0%nat) with (Some f). simpl_res.
  destruct (memmap_response r); simpl_res; [|by rewrite andb_false_r in Hb]. destruct (bpp f =? 32); simpl_res; [|done].
  destruct (rsdp_response r); simpl_res; [|done]. destruct (executable_response r) as [file|]; simpl_res; [|done].
  eexists file, _. split; [done|]. by destruct (tsc_frequency_response r).
Qed.

Lemma start_timers_apic task pic apic fuel (s : state E) :
  interrupts_enabled (kernel_config s) = false → length (isr_handler_table s) = 256%nat →
  tsc_freq_khz (timers (kernel_config s)) ≠ 0 →
  ∃ s', start_timers task pic apic fuel s = Ok s' ∧
    interrupts_enabled (kernel_config s') = true ∧ multitasking_enabled (kernel_config s') = true ∧
    timer_source (timers (kernel_config s')) = Z.lor (Z.land (timer_source (timers (kernel_config s))) 6) 2 ∧
    tsc_freq_khz (timers (kernel_config s')) = tsc_freq_khz (timers (kernel_config s)) ∧
    isr_handler_table s' = <[34%nat := 0]> (<[32%nat := apic]> (<[128%nat := task]> (isr_handler_table s))).
Proof.
  destruct s as [[ie src mt [ts dl inv f]] hs t e]. cbn [kernel_config isr_handler_table timers interrupts_enabled
    tsc_freq_khz timer_source]. intros -> Hl Hf.
  unfold start_timers, enable_apic, enable_tasking, Cpu.init_tasks, MAYBE_CLI, MAYBE_STI.
  cbn [kernel_config interrupts_enabled]. rewrite register_handler_spec by (cbn; lia). simpl_res.
  cbn -[start_apic_timer enable_interrupts]. rewrite (proj2 (Z.eqb_neq _ _) Hf).
  unfold start_apic_timer. rewrite register_handler_spec by (cbn; rewrite length_insert; lia). simpl_res.
  unfold disable_irq, unregister_handler. cbn [interrupt_source kernel_config signal with_handlers with_config with_machine].
  destruct (src =? 2); (rewrite register_handler_spec by (cbn; rewrite !length_insert; lia)); simpl_res;
    (eexists; split; [reflexivity|]; unfold enable_interrupts, MAYBE_STI, sti; cbn; by destruct (Z.land src 2 =? 0)).
Qed.
End boot.

(** ** Properties *)

(** C29: the start of the kernel halts unless the boot loader answered what it
    needs.  If it did and gave a counter of [f] Hz, then, whatever CPUID says
    of the counter and of the deadline timer, and whichever interrupt
    controller ACPI found, the kernel runs with interrupts and tasks enabled,
    their handlers registered, on the deadline timer, and takes the counter to run at [f * 1000] kHz, reduced
    to 32 bits. *)
Theorem kernel_timer_frequency {E} `{Machine E} (r : limine_responses) (s : state E) f source task pic apic fuel :
  tsc_frequency_response r = Some f → (f * 1000) mod 2 ^ 32 ≠ 0 →
  interrupts_enabled (kernel_config s) = false → length (isr_handler_table s) = 256%nat →
  (bootable r = false → feature_check r s = Err Halted) ∧
  (bootable r = true → ∃ file s1 s2,
    feature_check r s = Ok (default 0 (hhdm_response r), file, s1) ∧ executable_response r = Some file ∧
    start_timers task pic apic fuel (set_interrupt_source s1 source) = Ok s2 ∧
    interrupts_enabled (kernel_config s2) = true ∧ multitasking_enabled (kernel_config s2) = true ∧
    isr_handler_table s2 !! 32%nat = Some apic ∧ isr_handler_table s2 !! 34%nat = Some 0 ∧
    isr_handler_table s2 !! 128%nat = Some task ∧
    Z.testbit (timer_source (timers (kernel_config s2))) 1 = true ∧
    tsc_freq_khz (timers (kernel_config s2)) = (f * 1000) mod 2 ^ 32).
Proof.
  intros Hr Hf Hi Hl. split; [apply feature_check_halts|]. intros Hb.
  destruct (feature_check_ok r s Hb) as (file & s1 & E1 & Ex & Hh & _ & Hi1 & _ & Ht). rewrite Hr in Ht.
  unfold u32, u64 in Ht. rewrite wrap_wrap_le in Ht by lia.
  destruct (start_timers_apic task pic apic fuel (set_interrupt_source s1 source)) as (s2 & E2 & H1 & H2 & H3 & H4 & H5);
    [cbn; congruence|cbn; by rewrite Hh|cbn; by rewrite Ht|].
  cbn [set_interrupt_source with_config isr_handler_table kernel_config timers] in H4, H5. rewrite Hh in H5.
  exists file, s1, s2. split_and!; [done..| | | | |by rewrite H4, Ht].
  - rewrite H5, list_lookup_insert_ne by done. apply list_lookup_insert_eq. rewrite length_insert. lia.
  - rewrite H5. apply list_lookup_insert_eq. rewrite !length_insert. lia.
  - rewrite H5, !list_lookup_insert_ne by done. apply list_lookup_insert_eq. lia.
  - rewrite H3, Z.lor_spec. apply orb_true_r.
Qed.

(** ** Witnesses *)

(** A counter of 3 GHz: the kernel takes it to run at 2112 GHz. *)
Definition demo_responses : limine_responses :=
  Responses true (Some [LimineFb 0x100000 2560 640 400 32]) (Some []) (Some 0xFFFF800000000000) (Some 0xE0000)
    (Some 0x200000) (Some 3000000000).

Lemma kernel_timer_frequency_witness :
  ∃ file s1 s2, feature_check demo_responses (with_handlers boot_state (replicate 256 0)) =
      Ok (0xFFFF800000000000, file, s1) ∧
    start_timers 0x3000 0x1000 0x2000 1 (set_interrupt_source s1 2) = Ok s2 ∧
    tsc_freq_khz (timers (kernel_config s2)) = 2112827392.
Proof.
  destruct (kernel_timer_frequency demo_responses (with_handlers boot_state (replicate 256 0)) 3000000000 2
    0x3000 0x1000 0x2000 1) as [_ Hk]; [done|done|done|exact (length_replicate 256 0)|].
  destruct (Hk eq_refl) as (file & s1 & s2 & E1 & _ & E2 & _ & _ & _ & _ & _ & _ & E3).
  exists file, s1, s2. split; [exact E1|]. split; [exact E2|exact E3].
Defined.
