(* ===== verification/Trace.v ===== *)
(** * Kernel symbols (lethe-kernel/misc/trace.c, include/elf.h)

    The ELF file of the kernel lies in byte memory at [kernel_file_address].
    The statics that are filled on first use are the optional record
    [elf_tables].  The three functions repeat the same search for the symbol
    table; here it is [load_tables]. *)
From S2P Require Import Prelude LibString.

(** ** Definitions *)

Record Elf64_Ehdr := Ehdr { e_shoff : Z; e_shentsize : Z; e_shnum : Z; e_shstrndx : Z }.
Record Elf64_Shdr := Shdr { sh_name : Z; sh_type : Z; sh_offset : Z; sh_size : Z }.
Record Elf64_Sym := Sym { st_name : Z; st_info : Z; st_value : Z }.

(** The fields the code uses, at their offsets. *)
Definition read_ehdr (m : mem) (p : Z) : res Elf64_Ehdr :=
  shoff ← load64 m (p + 40);
  shentsize ← load16 m (p + 58);
  shnum ← load16 m (p + 60);
  shstrndx ← load16 m (p + 62);
  Ok (Ehdr shoff shentsize shnum shstrndx).

Definition read_shdr (m : mem) (p : Z) : res Elf64_Shdr :=
  name ← load32 m p;
  type ← load32 m (p + 4);
  offset ← load64 m (p + 24);
  size ← load64 m (p + 32);
  Ok (Shdr name type offset size).

Definition read_sym (m : mem) (p : Z) : res Elf64_Sym :=
  name ← load32 m p;
  info ← load8 m (p + 4);
  value ← load64 m (p + 8);
  Ok (Sym name info value).

Definition sizeof_Shdr : Z := 64.
Definition sizeof_Sym : Z := 24.

Record elf_tables := ElfTables { symtab : Z; sym_entries : Z; strtab : Z }.

Section trace.
Context (kernel_file_address : Z) (lit_strtab : Z).

(** One section: the last symbol table and the last string table named
    ".strtab" count. *)
Definition scan_section (m : mem) (shstrtab : Z) (section : Elf64_Shdr) (t : elf_tables) : res elf_tables :=
  let t := if sh_type section =? 2
           then ElfTables (kernel_file_address + sh_offset section) (s32 (sh_size section / sizeof_Sym)) (strtab t)
           else t in
  if sh_type section =? 3 then
    c ← strncmp m (shstrtab + sh_name section) lit_strtab 7;
    Ok (if c =? 0 then ElfTables (symtab t) (sym_entries t) (kernel_file_address + sh_offset section) else t)
  else Ok t.

Definition load_tables (m : mem) : res elf_tables :=
  h ← read_ehdr m kernel_file_address;
  kernel_shstrtab ← read_shdr m (kernel_file_address + e_shoff h + e_shstrndx h * e_shentsize h);
  let shstrtab := kernel_file_address + sh_offset kernel_shstrtab in
  iter (S (Z.to_nat (e_shnum h))) (λ '(i, t),
    if i <? e_shnum h then
      section ← read_shdr m (kernel_file_address + e_shoff h + sizeof_Shdr * i);
      t ← scan_section m shstrtab section t;
      Ok (Next (i + 1, t))
    else Ok (Done t)) (0, ElfTables 0 0 0).

Definition tables_of (m : mem) (st : option elf_tables) : res elf_tables :=
  match st with Some t => Ok t | None => load_tables m end.

Definition resolve_function_address (fuel : nat) (m : mem) (st : option elf_tables) (name : Z) :
    res (Z * option elf_tables) :=
  t ← tables_of m st;
  if (strtab t =? 0) || (symtab t =? 0) then Ok (0, Some t)
  else
    r ← iter (S (Z.to_nat (sym_entries t))) (λ i,
      if i <? sym_entries t then
        symbol ← read_sym m (symtab t + sizeof_Sym * i);
        if negb (Z.land (st_info symbol) 0xF =? 2) then Ok (Next (i + 1))
        else
          l1 ← strlen fuel m (strtab t + st_name symbol);
          l2 ← strlen fuel m name;
          if negb (l1 =? l2) then Ok (Next (i + 1))
          else
            c ← strncmp m (strtab t + st_name symbol) name l1;
            if c =? 0 then Ok (Done (st_value symbol)) else Ok (Next (i + 1))
      else Ok (Done 0)) 0;
    Ok (r, Some t).

(** The addresses of the names that are printed. *)
Definition dump_function_names (m : mem) (st : option elf_tables) : res (list Z * option elf_tables) :=
  t ← tables_of m st;
  if (strtab t =? 0) || (symtab t =? 0) then Ok ([], Some t)
  else
    r ← iter (S (Z.to_nat (sym_entries t))) (λ '(i, out),
      if i <? sym_entries t then
        symbol ← read_sym m (symtab t + sizeof_Sym * i);
        if negb (Z.land (st_info symbol) 0xF =? 2) then Ok (Next (i + 1, out))
        else Ok (Next (i + 1, out ++ [strtab t + st_name symbol]))
      else Ok (Done out)) (0, []);
    Ok (r, Some t).

(** [None]: the literal "???". *)
Definition resolve_function_name (m : mem) (st : option elf_tables) (rip : Z) :
    res (option Z * option elf_tables) :=
  t ← tables_of m st;
  if strtab t =? 0 then Ok (None, Some t)
  else if symtab t =? 0 then Ok (None, Some t)
  else
    best ← read_sym m (symtab t);
    best ← iter (S (Z.to_nat (sym_entries t))) (λ '(i, best),
      if i <? sym_entries t then
        symbol ← read_sym m (symtab t + sizeof_Sym * i);
        if negb (Z.land (st_info symbol) 0xF =? 2) then Ok (Next (i + 1, best))
        else if (st_value best <? st_value symbol) && (st_value symbol <=? rip) then Ok (Next (i + 1, symbol))
        else Ok (Next (i + 1, best))
      else Ok (Done best)) (0, best);
    Ok (Some (strtab t + st_name best), Some t).

(** The chain of frames from [frame]: each return address with its name. *)
Definition walk_stack (fuel : nat) (m : mem) (st : option elf_tables) (frame : Z) :
    res (list (Z * option Z) * option elf_tables) :=
  iter fuel (λ '(frame, st, out),
    if frame =? 0 then Ok (Done (out, st))
    else
      rip ← load64 m (frame + 8);
      '(function, st) ← resolve_function_name m st rip;
      rbp ← load64 m frame;
      Ok (Next (rbp, st, out ++ [(rip, function)]))) (frame, st, []).
End trace.

(** *** The reference view of the symbol table *)

(** The symbols [syms] with their names lie in the tables [t]. *)
Definition symbols_at (m : mem) (t : elf_tables) (syms : list (Elf64_Sym * list Z)) : Prop :=
  sym_entries t = Z.of_nat (length syms) ∧ strtab t ≠ 0 ∧ symtab t ≠ 0 ∧
  ∀ i s, syms !! i = Some s →
    read_sym m (symtab t + sizeof_Sym * Z.of_nat i) = Ok s.1 ∧
    cstring_at m (strtab t + st_name s.1) s.2 ∧ Forall is_byte s.2.

Definition is_function (s : Elf64_Sym) : bool := Z.land (st_info s) 0xF =? 2.

(** The function at or below [rip] with the greatest address. *)
Definition nearest (rip : Z) (syms : list (Elf64_Sym * list Z)) (s : Elf64_Sym) : Prop :=
  (∃ n, (s, n) ∈ syms) ∧ is_function s = true ∧ st_value s ≤ rip ∧
  ∀ s' n, (s', n) ∈ syms → is_function s' = true → st_value s' ≤ rip → st_value s' ≤ st_value s.

(** ** Lemmas *)

(** Equal lengths make [strncmp] an equality test. *)
Lemma strncmp_same_length m p q xs ys :
  cstring_at m p xs → cstring_at m q ys → Forall is_byte xs → Forall is_byte ys → length xs = length ys →
  ∃ r, strncmp m p q (Z.of_nat (length xs)) = Ok r ∧ (r = 0 ↔ xs = ys).
Proof.
  intros Hp Hq Bx By Hl. rewrite (strncmp_cmp _ _ _ xs ys) by (done || lia).
  eexists. split; [done|]. rewrite Nat2Z.id, firstn_all, bytes_cmp_s8_zero by done. split.
  - intros [zs [E|E]]; apply (f_equal length) in E as El; rewrite length_app in El;
      assert (zs = []) as -> by (apply nil_length_inv; lia); by rewrite app_nil_r in E.
  - intros ->. exists []. left. by rewrite app_nil_r.
Qed.

(** The tables and their symbols are found in every larger memory. *)
Lemma tables_of_larger kfa lit m m' st : m ⊆ m' → extends (tables_of kfa lit m st) (tables_of kfa lit m' st).
Proof.
  intros Hm. unfold tables_of, load_tables, scan_section, read_ehdr, read_shdr, load16, load32, load64. cbv zeta.
  pose proof (strncmp_larger m m') as Hs. destruct st; in_larger.
Qed.

Lemma bytes_at_larger m m' p bs : m ⊆ m' → bytes_at m p bs → bytes_at m' p bs.
Proof. intros Hm Hb i b Hi. by eapply lookup_weaken; [apply Hb|]. Qed.

Lemma symbols_at_larger m m' t syms : m ⊆ m' → symbols_at m t syms → symbols_at m' t syms.
Proof.
  intros Hm (Hl & Hs & Ht & Hsyms). split_and!; [done..|]. intros i s Hi.
  destruct (Hsyms i s Hi) as (E & [Hc Hnz] & Hb). split; [|split; [split; [|done]|done]].
  - revert E. generalize (s.1). change (extends (read_sym m (symtab t + sizeof_Sym * Z.of_nat i))
      (read_sym m' (symtab t + sizeof_Sym * Z.of_nat i))). unfold read_sym, load32, load64. in_larger.
  - by eapply bytes_at_larger.
Qed.

Section table.
Context (kfa lit : Z) (m : mem) (t : elf_tables) (syms : list (Elf64_Sym * list Z)).
Context (Hsyms : symbols_at m t syms).

(** A loop over the symbol table: [f] decides per symbol, [enc] is the loop
    variable. *)
Lemma sym_loop {T S R : Type} (body : T → res (ctrl T R)) (enc : nat → S → T) (end_ : S → R)
    (f : S → Elf64_Sym → list Z → R + S) (s0 : S) :
  (∀ i s sym n, syms !! i = Some (sym, n) →
     body (enc i s) = Ok (match f s sym n with inl r => Done r | inr s' => Next (enc (Datatypes.S i) s') end)) →
  (∀ s, body (enc (length syms) s) = Ok (Done (end_ s))) →
  iter (Datatypes.S (Z.to_nat (sym_entries t))) body (enc 0%nat s0) =
  Ok (match foldl (λ a s, match a with inl r => inl r | inr a => f a s.1 s.2 end) (inr s0) syms with
      | inl r => r | inr s => end_ s end).
Proof using Hsyms.
  intros Hbody Hend. destruct Hsyms as (El & _). rewrite El, Nat2Z.id.
  assert (Hdone : ∀ r l, foldl (λ (a : R + S) (s : Elf64_Sym * list Z),
    match a with inl r => inl r | inr a => f a s.1 s.2 end) (inl r) l = inl r) by (intros r l; by induction l).
  assert (G : ∀ d k s, (k + d = length syms)%nat →
    iter (Datatypes.S d) body (enc k s) =
    Ok (match foldl (λ a s, match a with inl r => inl r | inr a => f a s.1 s.2 end) (inr s) (drop k syms) with
        | inl r => r | inr s => end_ s end)).
  { induction d as [|d IH]; intros k s Hk; cbn [iter].
    - assert (k = length syms) as -> by lia. rewrite Hend. by rewrite drop_ge by lia.
    - destruct (lookup_lt_is_Some_2 syms k) as [[sym n] Hn]; [lia|].
      rewrite (Hbody k s sym n Hn). simpl_res.
      rewrite (drop_S _ _ _ Hn). cbn [foldl fst snd]. destruct (f s sym n) as [r|s'].
      + by rewrite Hdone.
      + apply IH. lia. }
  apply (G (length syms) 0%nat s0). lia.
Qed.

Lemma tables_nonzero : ((strtab t =? 0) || (symtab t =? 0)) = false.
Proof using Hsyms. destruct Hsyms as (_ & H1 & H2 & _). by rewrite !(proj2 (Z.eqb_neq _ _)). Qed.

Lemma read_symbol i sym n :
  syms !! i = Some (sym, n) →
  (Z.of_nat i <? sym_entries t) = true ∧ read_sym m (symtab t + sizeof_Sym * Z.of_nat i) = Ok sym ∧
  cstring_at m (strtab t + st_name sym) n ∧ Forall is_byte n.
Proof using Hsyms.
  intros Hi. destruct Hsyms as (El & _ & _ & Hs). destruct (Hs i _ Hi) as (E & Hn & Hb). split_and!; try done.
  apply lookup_lt_Some in Hi. rewrite El. lia.
Qed.

Lemma past_symbols : (Z.of_nat (length syms) <? sym_entries t) = false.
Proof using Hsyms. destruct Hsyms as (El & _). rewrite El. lia. Qed.
End table.

(** What the search for a name does with one symbol. *)
Definition name_step (nm : list Z) (_ : unit) (s : Elf64_Sym) (n : list Z) : Z + unit :=
  if decide (is_function s = true ∧ n = nm) then inl (st_value s) else inr tt.

Lemma name_step_first nm (syms : list (Elf64_Sym * list Z)) :
  foldl (λ a s, match a with inl r => inl r | inr a => name_step nm a s.1 s.2 end) (inr tt) syms =
  match head (filter (λ s, is_function s.1 = true ∧ s.2 = nm) syms) with
  | Some s => inl (st_value s.1)
  | None => inr tt
  end.
Proof.
  assert (Hdone : ∀ r l, foldl (λ (a : Z + unit) (s : Elf64_Sym * list Z),
    match a with inl r => inl r | inr a => name_step nm a s.1 s.2 end) (inl r) l = inl r) by (intros r l; by induction l).
  induction syms as [|[s n] syms IH]; [done|]. cbn [foldl fst snd]. unfold name_step at 2.
  rewrite filter_cons. cbn [fst snd]. case_decide as Hd; [|done]. by rewrite Hdone.
Qed.

(** The best symbol so far. *)
Definition best_step (rip : Z) (best s : Elf64_Sym) (_ : list Z) : Elf64_Sym + Elf64_Sym :=
  inr (if is_function s && (st_value best <? st_value s) && (st_value s <=? rip) then s else best).

Lemma best_step_nearest rip (syms : list (Elf64_Sym * list Z)) best :
  ∃ b, foldl (λ a s, match a with inl r => inl r | inr a => best_step rip a s.1 s.2 end) (inr best) syms = inr b ∧
    (b = best ∨ ((∃ n, (b, n) ∈ syms) ∧ is_function b = true ∧ st_value b ≤ rip)) ∧ st_value best ≤ st_value b ∧
    ∀ s n, (s, n) ∈ syms → is_function s = true → st_value s ≤ rip → st_value s ≤ st_value b.
Proof.
  revert best. induction syms as [|[s n] syms IH]; intros best; cbn [foldl fst snd].
  - exists best. split_and!; [done|by left|lia|]. intros s n Hin. by apply not_elem_of_nil in Hin.
  - unfold best_step at 2. set (b1 := if is_function s && (st_value best <? st_value s) && (st_value s <=? rip) then s else best).
    destruct (IH b1) as (b & E & Hb & Hle & Hmax). exists b.
    assert (Hb1 : (b1 = best ∧ (is_function s = true → st_value s ≤ rip → st_value s ≤ st_value best)) ∨
                  (b1 = s ∧ is_function s = true ∧ st_value best < st_value s ≤ rip)).
    { unfold b1. destruct (is_function s); cbn [andb]; [|by left].
      destruct (Z.ltb_spec (st_value best) (st_value s)); cbn [andb]; [|left; split; [done|lia]].
      destruct (Z.leb_spec (st_value s) rip); [right|left]; (split; [done|lia]). }
    split_and!; [exact E| | |].
    + destruct Hb as [->|([n' Hin] & Hf & Hr)].
      * destruct Hb1 as [[-> _]|(-> & Hf & Hr)]; [by left|right]. split_and!; [|done|lia].
        exists n. by left.
      * right. split_and!; [|done|done]. exists n'. by right.
    + destruct Hb1 as [[E1 _]|(E1 & _ & Hr)]; rewrite E1 in Hle; lia.
    + intros s' n' Hin Hf Hr. apply elem_of_cons in Hin as [[= -> ->]|Hin]; [|by eapply Hmax].
      destruct Hb1 as [[E1 Hle1]|(E1 & _ & Hr1)]; rewrite E1 in Hle; [specialize (Hle1 Hf Hr)|]; lia.
Qed.

(** The search for a name, at a table that is known. *)
Lemma resolve_address kfa lit fuel m t syms name nm :
  symbols_at m t syms → cstring_at m name nm → Forall is_byte nm → (length nm < fuel)%nat →
  Forall (λ s, length s.2 < fuel)%nat syms →
  resolve_function_address kfa lit fuel m (Some t) name =
  Ok (match head (filter (λ s, is_function s.1 = true ∧ s.2 = nm) syms) with
      | Some s => st_value s.1 | None => 0 end, Some t).
Proof.
  intros Hsyms Hn Hb Hf Hfs. unfold resolve_function_address. cbn [tables_of mbind res_bind].
  rewrite (tables_nonzero m t syms Hsyms).
  rewrite (sym_loop m t syms Hsyms _ (λ i (_ : unit), Z.of_nat i) (λ _, 0) (name_step nm) tt).
  - rewrite name_step_first. simpl_res. by destruct (head _).
  - intros i [] sym n Hi. destruct (read_symbol m t syms Hsyms i sym n Hi) as (Hlt & E & Hsn & Hbn).
    rewrite Hlt, E. simpl_res. unfold name_step, is_function. destruct (Z.land (st_info sym) 15 =? 2); cbn [negb].
    2: { rewrite decide_False by naive_solver. do 2 f_equal. lia. }
    assert (Hln : (length n < fuel)%nat).
    { rewrite Forall_forall in Hfs. apply (Hfs (sym, n)). by eapply list_elem_of_lookup_2. }
    rewrite (strlen_cstring fuel m (strtab t + st_name sym) n) by done. simpl_res.
    rewrite (strlen_cstring fuel m name nm) by done.
    simpl_res. destruct (Z.eqb_spec (Z.of_nat (length n)) (Z.of_nat (length nm))) as [El|El]; cbn [negb].
    + destruct (strncmp_same_length m _ _ n nm Hsn Hn) as (r & -> & Hr); try done; [lia|]. simpl_res.
      destruct (Z.eqb_spec r 0).
      * rewrite decide_True by (split; [done|by apply Hr]). done.
      * rewrite decide_False by (intros [_ ?]; tauto). do 2 f_equal. lia.
    + rewrite decide_False by (intros [_ ->]; lia). do 2 f_equal. lia.
  - intros _. by rewrite (past_symbols m t syms Hsyms).
Qed.

(** ** Theorems *)

(** Resolve_function_address finds the address of the first function symbol
    of the given name, and 0 when there is none. *)
Lemma resolve_function_address_first kfa lit fuel m t syms name nm :
  symbols_at m t syms → cstring_at m name nm → Forall is_byte nm → (length nm < fuel)%nat →
  Forall (λ s, length s.2 < fuel)%nat syms →
  resolve_function_address kfa lit fuel m (Some t) name =
  Ok (match head (filter (λ s, is_function s.1 = true ∧ s.2 = nm) syms) with
      | Some s => st_value s.1 | None => 0 end, Some t).
Proof. apply resolve_address. Qed.

(** Resolve_function_name names the nearest function at or below the return
    address, where the first symbol is the null symbol and there is one. *)
Lemma resolve_function_name_nearest kfa lit m t syms s0 n0 rip :
  symbols_at m t ((s0, n0) :: syms) → is_function s0 = false → st_value s0 = 0 →
  (∃ s n, (s, n) ∈ syms ∧ is_function s = true ∧ 0 < st_value s ≤ rip) →
  ∃ s, nearest rip syms s ∧
    resolve_function_name kfa lit m (Some t) rip = Ok (Some (strtab t + st_name s), Some t).
Proof.
  intros Hsyms Hf0 Hv0 (s1 & n1 & Hin1 & Hf1 & Hv1). unfold resolve_function_name. cbn [tables_of mbind res_bind].
  pose proof (tables_nonzero m t _ Hsyms) as Hnz. apply orb_false_iff in Hnz as [-> ->].
  destruct (read_symbol m t _ Hsyms 0 s0 n0 eq_refl) as (_ & E0 & _). change (Z.of_nat 0) with 0 in E0.
  rewrite Z.mul_0_r, Z.add_0_r in E0. rewrite E0. simpl_res.
  rewrite (sym_loop m t _ Hsyms _ (λ i b, (Z.of_nat i, b)) (λ b, b) (best_step rip) s0).
  - destruct (best_step_nearest rip ((s0, n0) :: syms) s0) as (b & -> & Hb & _ & Hmax). simpl_res.
    exists b. split; [|done].
    assert (Hpos : 0 < st_value b).
    { assert (st_value s1 ≤ st_value b); [|lia]. apply (Hmax s1 n1); [by right|done|lia]. }
    destruct Hb as [->|([n Hin] & Hf & Hr)]; [lia|]. split_and!; [|done|done|].
    + exists n. apply elem_of_cons in Hin as [[= -> ->]|Hin]; [congruence|done].
    + intros s' n' Hin' Hf' Hr'. apply (Hmax s' n'); [by right|done|done].
  - intros i b sym n Hi. destruct (read_symbol m t _ Hsyms i sym n Hi) as (Hlt & E & _).
    rewrite Hlt, E. simpl_res. unfold best_step, is_function. replace (Z.of_nat i + 1) with (Z.of_nat (S i)) by lia.
    destruct (Z.land (st_info sym) 15 =? 2); cbn [negb andb]; [|done]. by case_match.
  - intros b. by rewrite (past_symbols m t _ Hsyms).
Qed.

(** ** Witnesses *)

Definition demo_sym (name info value : Z) : list Z :=
  [name; 0; 0; 0; info; 0; 0; 0; value; 0; 0; 0; 0; 0; 0; 0; 0; 0; 0; 0; 0; 0; 0; 0].

(** The null symbol and the functions "ab" at 16 and "cd" at 32. *)
Definition demo_elf : mem :=
  write_bytes (write_bytes (write_bytes ∅ 0x1000 (demo_sym 0 0 0 ++ demo_sym 1 18 16 ++ demo_sym 4 18 32))
    0x2000 [0; 97; 98; 0; 99; 100; 0]) 0x3000 [99; 100; 0].

Definition demo_tables : elf_tables := ElfTables 0x1000 3 0x2000.
Definition demo_symbols : list (Elf64_Sym * list Z) :=
  [(Sym 0 0 0, []); (Sym 1 18 16, [97; 98]); (Sym 4 18 32, [99; 100])].

(** The three symbols in a memory that computes. *)
Ltac solve_demo_symbols :=
  split_and!; [done..|]; intros [|[|[|i]]] s Hs; [| | |done]; injection Hs as <-; cbn [fst snd];
    (split; [by vm_compute|]); eapply cstring_at_decide with (n := _); try (by vm_compute);
    [instantiate (1 := 1%nat)|instantiate (1 := 3%nat)|instantiate (1 := 3%nat)]; by vm_compute.

Lemma demo_symbols_at : symbols_at demo_elf demo_tables demo_symbols.
Proof. solve_demo_symbols. Qed.

