(* ===== verification/Log.v ===== *)
(** * Log lines, panics and assertions

    lethe-kernel/terminal/log.c, misc/utils.c, include/utils.h,
    lethe-libc/assert.c, stdlib.c and the log of the AML parser
    (lethe-aml/aml/helpers.c), on [printf] (Printf.v) and the stack walk
    (Trace.v).  The format literals lie in memory at addresses that are
    arguments; the lemmas say what a reader sees. *)
From S2P Require Import Prelude LibString Printf Trace.

(** ** Definitions *)

(** The members are addresses of strings and a line number. *)
Record source_location := Location { file : Z; function : Z; line : Z }.

(** How a call ends: it returns, or the machine stops for good; [shown] is what
    was printed before. *)
Inductive ended (A : Type) := Returned (a : A) (shown : list Z) | Stopped (shown : list Z).
Arguments Returned {A} a shown.
Arguments Stopped {A} shown.

(** [cli], then [hlt] for ever. *)
Definition halt {A : Type} (shown : list Z) : ended A := Stopped shown.

Definition abort {A : Type} (shown : list Z) : ended A := halt shown.

Section log.
Context (fuel : nat) (m : mem).

(** The first format is [[%s:%d] ].  The returned count is that of the message
    alone. *)
Definition __kernel_log (prefix : Z) (location : source_location) (fmt : Z) (args : list Z) : res (list Z * Z) :=
  '(shown, _) ← printf fuel m prefix [function location; line location];
  '(text, written) ← vprintf fuel m fmt args;
  Ok (shown ++ text, written).

Definition __aml_log (prefix : Z) (location : source_location) (fmt : Z) (args : list Z) : res (list Z * Z) :=
  '(shown, _) ← printf fuel m prefix [function location; line location];
  '(text, written) ← vprintf fuel m fmt args;
  Ok (shown ++ text, written).

(** The stack trace is the list of return addresses with their names. *)
Definition __panic (kernel_file_address lit_strtab : Z) (st : option elf_tables) (frame format msg : Z)
    (location : source_location) : res (ended unit * list (Z * option Z)) :=
  '(shown, _) ← printf fuel m format [file location; line location; function location; msg];
  '(trace, _) ← walk_stack kernel_file_address lit_strtab fuel m st frame;
  Ok (halt shown, trace).

Definition __assert (format : Z) (expr : bool) (location : source_location) (expr_str : Z) : res (ended unit) :=
  if negb expr then
    '(shown, _) ← printf fuel m format [expr_str; file location; line location; function location];
    Ok (abort shown)
  else Ok (Returned tt []).
End log.

(** ** Lemmas *)

(** A string argument of a format. *)
Definition text_at (fuel : nat) (m : mem) (p : Z) (bs : list Z) : Prop := piece_ok fuel m (Str p bs).

Lemma printf_shows fuel m p xs :
  Forall (piece_ok fuel m) xs → bytes_at m p (concat (map piece_format xs) ++ [0]) →
  (sum_list (map piece_rounds xs) < fuel)%nat →
  printf fuel m p (concat (map piece_args xs)) =
  Ok (concat (map piece_shown xs), s32 (Z.of_nat (length (concat (map piece_shown xs))))).
Proof.
  intros Hok Hb Hf. destruct fuel as [|fuel]; [lia|]. unfold printf.
  rewrite <- (app_nil_r (concat (map piece_args xs))). apply vprintf_pieces_shown; [done..|lia].
Qed.

(** The pieces of the three formats. *)
Definition log_prefix (location : source_location) (fn : list Z) : list piece :=
  [Text [91]; Str (function location) fn; Text [58]; Dec (line location); Text [93; 32]].

Definition panic_text (location : source_location) (fl fn : list Z) (msg : Z) (text : list Z) : list piece :=
  [Text [80; 97; 110; 105; 99; 107; 101; 100; 32; 97; 116; 32]; Str (file location) fl; Text [58]; Dec (line location);
   Text [32; 40]; Str (function location) fn; Text [41; 58; 32]; Str msg text].

Definition assert_text (location : source_location) (fl fn : list Z) (expr : Z) (text : list Z) : list piece :=
  [Text [65; 115; 115; 101; 114; 116; 105; 111; 110; 32]; Str expr text;
   Text [32; 102; 97; 105; 108; 101; 100; 32; 97; 116; 32]; Str (file location) fl; Text [58]; Dec (line location);
   Text [32; 40]; Str (function location) fn; Text [41; 10]].

(** Constant text has no percent sign and no terminator. *)
Ltac plain_text := repeat (apply Forall_cons_2; [unfold is_byte; lia|]); apply Forall_nil_2.
Ltac pieces := repeat (apply Forall_cons; split); first [apply Forall_nil_2|assumption|cbn; unfold is_byte; lia|plain_text].

(** A line of the log: [[function:line] message], with the count of the
    message. *)
Lemma kernel_log_line fuel m prefix location fn fmt xs :
  text_at fuel m (function location) fn → 0 ≤ line location < 2 ^ 31 →
  bytes_at m prefix (concat (map piece_format (log_prefix location fn)) ++ [0]) →
  Forall (piece_ok fuel m) xs → bytes_at m fmt (concat (map piece_format xs) ++ [0]) →
  (6 < fuel)%nat → (sum_list (map piece_rounds xs) < fuel)%nat →
  __kernel_log fuel m prefix location fmt (concat (map piece_args xs)) =
  Ok ([91] ++ fn ++ [58] ++ numeral_of 10 (line location) ++ [93; 32] ++ concat (map piece_shown xs),
      s32 (Z.of_nat (length (concat (map piece_shown xs))))).
Proof.
  intros Hfn Hl Hp Hxs Hb Hf1 Hf2. unfold __kernel_log.
  assert (Ea : [function location; line location] = concat (map piece_args (log_prefix location fn))).
  { cbn. unfold u64. by rewrite wrap_small by lia. }
  rewrite Ea, (printf_shows fuel m prefix (log_prefix location fn)); [|pieces|done|cbn; lia]. simpl_res.
  change (vprintf fuel m fmt) with (printf fuel m fmt). rewrite (printf_shows fuel m fmt xs) by done. simpl_res.
  do 2 f_equal. cbn [log_prefix map concat piece_shown]. rewrite (proj2 (Z.ltb_ge (line location) 0)), Z.abs_eq by lia.
  rewrite app_nil_r, <- !app_assoc. done.
Qed.

Lemma panic_message fuel m kfa lit st frame format msg location fl fn text trace st' :
  text_at fuel m (file location) fl → text_at fuel m (function location) fn → text_at fuel m msg text →
  0 ≤ line location < 2 ^ 31 →
  bytes_at m format (concat (map piece_format (panic_text location fl fn msg text)) ++ [0]) → (22 < fuel)%nat →
  walk_stack kfa lit fuel m st frame = Ok (trace, st') →
  __panic fuel m kfa lit st frame format msg location =
  Ok (Stopped (concat (map piece_shown (panic_text location fl fn msg text))), trace).
Proof.
  intros Hfl Hfn Ht Hl Hp Hf Hw. unfold __panic.
  assert (Ea : [file location; line location; function location; msg] =
    concat (map piece_args (panic_text location fl fn msg text))) by (cbn; unfold u64; by rewrite wrap_small by lia).
  rewrite Ea, printf_shows; [|pieces|done|cbn; lia]. simpl_res. by rewrite Hw.
Qed.

(** A failed assertion names itself and stops; one that holds is silent. *)
Lemma assert_message fuel m format (expr : bool) location fl fn expr_str text :
  text_at fuel m (file location) fl → text_at fuel m (function location) fn → text_at fuel m expr_str text →
  0 ≤ line location < 2 ^ 31 →
  bytes_at m format (concat (map piece_format (assert_text location fl fn expr_str text)) ++ [0]) → (30 < fuel)%nat →
  __assert fuel m format expr location expr_str =
  Ok (if expr then Returned tt [] else Stopped (concat (map piece_shown (assert_text location fl fn expr_str text)))).
Proof.
  intros Hfl Hfn Ht Hl Hp Hf. unfold __assert. destruct expr; [done|]. cbn [negb].
  assert (Ea : [expr_str; file location; line location; function location] =
    concat (map piece_args (assert_text location fl fn expr_str text))) by (cbn; unfold u64; by rewrite wrap_small by lia).
  by rewrite Ea, printf_shows; [|pieces|done|cbn; lia].
Qed.
