(* ===== verification/Input.v ===== *)
(** * Keyboard and kernel shell (lethe-kernel/misc/keyboard.c, misc/shell.c)

    The shell edits one command line in a heap block and runs the kernel
    function of that name.  [machine] is the state both files share with the
    heap (LibAlloc.v), the data memory and the symbol cache (Trace.v); what goes
    to the terminal, the log and the called functions is returned as a list of
    [output]s.  Port reads are arguments.  The reference is a line editor with a
    US keyboard of its own ([us_keyboard], [line_step]), which knows nothing of
    the tables of the code. *)
From Stdlib Require Strings.String Strings.Ascii.
From S2P Require Import Prelude LibString LibAlloc Realloc Trace.
Import (notations) String.

(** ** Definitions *)

(** *** include/scancodes.h *)

Definition SC1_LOWER_CHARS : list Z :=
  [0; 0; 49; 50; 51; 52; 53; 54; 55; 56; 57; 48; 45; 61; 8; 9; 113; 119; 101; 114; 116; 121; 117; 105; 111;
   112; 91; 93; 10; 0; 97; 115; 100; 102; 103; 104; 106; 107; 108; 59; 39; 96; 0; 92; 122; 120; 99; 118;
   98; 110; 109; 44; 46; 47; 0; 42; 0; 32].

Definition SC1_UPPER_CHARS : list Z :=
  [0; 0; 33; 64; 35; 36; 37; 94; 38; 42; 40; 41; 95; 43; 8; 9; 81; 87; 69; 82; 84; 89; 85; 73; 79; 80; 123;
   125; 10; 0; 65; 83; 68; 70; 71; 72; 74; 75; 76; 58; 34; 126; 0; 124; 90; 88; 67; 86; 66; 78; 77; 60; 62;
   63; 0; 42; 0; 32].

Definition ASCII_SCANCODE_1 : list Z :=
  [0; 0; 0; 0; 0; 0; 0; 0; 0; 0; 0; 0; 0; 0; 0; 0; 0; 0; 0; 0; 0; 0; 0; 0; 0; 0; 0; 0; 0; 0; 0; 0; 57; 2;
   40; 4; 5; 6; 8; 40; 10; 11; 9; 13; 51; 12; 52; 53; 11; 2; 3; 4; 5; 6; 7; 8; 9; 10; 39; 39; 51; 13; 52;
   53; 3; 30; 48; 46; 32; 18; 33; 34; 35; 23; 36; 37; 38; 50; 49; 24; 25; 16; 19; 31; 20; 22; 47; 17; 45;
   21; 44; 26; 43; 27; 7; 12; 41].

(** [a\[i\]] of an array of known length. *)
Definition array_get (a : list Z) (i : Z) : res Z :=
  if i <? 0 then Err Undefined else of_option Undefined (a !! Z.to_nat i).

Definition array_set (a : list Z) (i v : Z) : res (list Z) :=
  if (0 <=? i) && (i <? Z.of_nat (length a)) then Ok (<[Z.to_nat i := v]> a) else Err Undefined.

(** *** keyboard.c *)

Definition is_key_pressed (KB_STATUS : list Z) (ascii_key : Z) : res Z :=
  if (ascii_key <? 32) || (96 <? ascii_key) then Ok 0
  else
    scancode ← array_get ASCII_SCANCODE_1 ascii_key;
    array_get KB_STATUS (u8 scancode).

(** [kb i]: the status at the [i]th look; ten milliseconds pass in between. *)
Definition naive_key_released (kb : nat → list Z) (ascii_key : Z) : res Z :=
  if (ascii_key <? 32) || (96 <? ascii_key) then Ok 0
  else
    scancode ← array_get ASCII_SCANCODE_1 ascii_key;
    first_read ← array_get (kb 0%nat) (u8 scancode);
    if first_read =? 0 then Ok 0
    else
      iter 51 (λ sleep_counter,
        if sleep_counter <? 50 then
          second_read ← array_get (kb (S (Z.to_nat sleep_counter))) (u8 scancode);
          if second_read =? 0 then Ok (Done 1) else Ok (Next (sleep_counter + 1))
        else Ok (Done 0)) 0.

Definition scancode_to_char (KB_STATUS : list Z) (byte : Z) : res Z :=
  r ← array_get KB_STATUS 0x36;
  l ← array_get KB_STATUS 0x2A;
  let shift := Z.lor r l in
  if byte <? 58 then
    if shift =? 1 then array_get SC1_UPPER_CHARS byte else array_get SC1_LOWER_CHARS byte
  else Ok 0.

(** The array has 88 elements; index 88 and negative ones are outside. *)
Definition kb_update (KB_STATUS : list Z) (byte : Z) : res (list Z) :=
  if byte <=? 0x58 then array_set KB_STATUS byte 1
  else if (0x58 <? byte) && (byte <=? 0xD8) then array_set KB_STATUS (byte - 0x80) 0
  else Ok KB_STATUS.

(** The bytes the controller delivers; [None] while it waits for more. *)
Fixpoint getch (KB_STATUS : list Z) (bytes : list Z) : res (option (Z * list Z)) :=
  match bytes with
  | [] => Ok None
  | byte :: bytes =>
      ch ← scancode_to_char KB_STATUS byte;
      if ch =? 0 then getch KB_STATUS bytes else Ok (Some (ch, bytes))
  end.

(** *** shell.c *)

Record shell_t := Shell { shell_cmd : Z; shell_size : Z; shell_cur : Z; enabled : bool }.

Record machine (P : Type) := Machine {
  pages : P; kheap : heap; data : mem; symbols : option elf_tables; shell : shell_t; KB_STATUS : list Z
}.
Arguments Machine {P}.
Arguments pages {P}.
Arguments kheap {P}.
Arguments data {P}.
Arguments symbols {P}.
Arguments shell {P}.
Arguments KB_STATUS {P}.

Inductive output :=
| Putchar (ch : Z)
| Tty_delc
| Klog (s : Z)
| Call_function (rip : Z)
| Function_name (s : Z).

Section shell.
Context {P : Type} `{PageSource P} (kernel_file_address lit_strtab : Z).
Implicit Types (s : machine P).

Definition with_shell s (m : mem) (sh : shell_t) : machine P :=
  Machine (pages s) (kheap s) m (symbols s) sh (KB_STATUS s).

Definition push_char (fuel : nat) s (ch : Z) : res (machine P * list output) :=
  let sh := shell s in
  s ← (if shell_size sh <=? shell_cur sh then
         size ← int_ok (shell_size sh + 80);
         '(p, ps, h, m) ← realloc fuel (pages s) (kheap s) (data s) (shell_cmd sh) (u64 size);
         Ok (Machine ps h m (symbols s) (Shell p size (shell_cur sh) (enabled sh)) (KB_STATUS s))
       else Ok s);
  let sh := shell s in
  m ← store8 (data s) (shell_cmd sh + shell_cur sh) ch;
  cur ← int_ok (shell_cur sh + 1);
  Ok (with_shell s m (Shell (shell_cmd sh) (shell_size sh) cur (enabled sh)), [Putchar ch]).

Definition del_char s : res (machine P * list output) :=
  let sh := shell s in
  cur ← int_ok (shell_cur sh - 1);
  m ← store8 (data s) (shell_cmd sh + cur) 0;
  Ok (with_shell s m (Shell (shell_cmd sh) (shell_size sh) cur (enabled sh)), [Tty_delc]).

Definition init_shell (fuel : nat) s : res (machine P * list output) :=
  '(p, ps, h) ← LibAlloc.malloc fuel (pages s) (kheap s) 80;
  Ok (Machine ps h (data s) (symbols s) (Shell p 80 0 true) (KB_STATUS s), [Putchar 62]).

(** [shell_cur = 0; shell_cmd = memset(shell_cmd, 0, shell_size);] *)
Definition clear_line s : res (machine P) :=
  let sh := shell s in
  '(p, m) ← LibString.memset (data s) (shell_cmd sh) 0 (u64 (shell_size sh));
  Ok (with_shell s m (Shell p (shell_size sh) 0 (enabled sh))).

(** Call the function the line names, or list the functions. *)
Definition run_command (fuel : nat) (m : mem) (st : option elf_tables) (cmd : Z) :
    res (list output * option elf_tables) :=
  '(rip, st) ← resolve_function_address kernel_file_address lit_strtab fuel m st cmd;
  if negb (rip =? 0) then Ok ([Klog cmd; Call_function rip], st)
  else
    '(names, st) ← dump_function_names kernel_file_address lit_strtab m st;
    Ok (Klog cmd :: map Function_name names, st).

Definition execute_command (fuel : nat) s : res (machine P * list output) :=
  let sh := shell s in
  if negb (enabled sh) then s ← clear_line s; Ok (s, [])
  else
    '(s, out) ← (if shell_cur sh =? 0 then Ok (s, [])
      else
        m ← store8 (data s) (shell_cmd sh + shell_cur sh) 0;
        cur ← int_ok (shell_cur sh + 1);
        let sh := Shell (shell_cmd sh) (shell_size sh) cur (enabled sh) in
        '(out, st) ← run_command fuel m (symbols s) (shell_cmd sh);
        Ok (Machine (pages s) (kheap s) m st sh (KB_STATUS s), out));
    s ← clear_line s;
    Ok (s, [Putchar 10] ++ out ++ [Putchar 62]).

(** keyboard.c: [status] and [byte] are read from the ports 0x64 and 0x60. *)
Definition kb_handle_key (fuel : nat) s (status byte : Z) : res (machine P * list output) :=
  if negb (Z.land status 1 =? 1) then Ok (s, [])
  else
    kb ← kb_update (KB_STATUS s) byte;
    let s := Machine (pages s) (kheap s) (data s) (symbols s) (shell s) kb in
    ch ← scancode_to_char kb byte;
    if negb (ch =? 0) then
      if ch =? 10 then execute_command fuel s
      else if ch =? 8 then del_char s
      else push_char fuel s ch
    else Ok (s, []).

(** One interrupt per byte. *)
Definition kb_feed (fuel : nat) s (bytes : list Z) : res (machine P * list output) :=
  foldl (λ r byte,
    '(s, out) ← r; '(s, o) ← kb_handle_key fuel s 1 byte; Ok (s, out ++ o)) (Ok (s, [])) bytes.
End shell.

(** [checkpoint] waits for the key 'y'; [kb i] is the status at the [i]th look. *)
Definition checkpoint (fuel : nat) (kb : nat → list Z) : res (list output) :=
  iter fuel (λ i,
    y ← is_key_pressed (kb i) 121;
    if negb (y =? 0) then Ok (Done [Tty_delc; Putchar 10]) else Ok (Next (S i))) 0%nat.

Definition is_digit16 (c : Z) : bool :=
  ((48 <=? c) && (c <=? 57)) || ((65 <=? c) && (c <=? 70)) || ((97 <=? c) && (c <=? 102)).

(** A local array: [None] is an element that has not been written. *)
Definition local_get (a : list (option Z)) (i : Z) : res Z :=
  if i <? 0 then Err Undefined else of_option Undefined (mjoin (a !! Z.to_nat i)).

Definition naive_atoi16 (str : list (option Z)) (len : Z) : res Z :=
  iter (S (Z.to_nat len)) (λ '(i, value),
    if i <? len then
      p ← local_get str i;
      if p =? 0 then Ok (Done value)
      else if negb (is_digit16 p) then Ok (Done value)
      else
        let value := if p <=? 57 then u64 (u64 (value * 16) + (p - 48)) else value in
        let value := if 65 <=? p
                     then u64 (u64 (value * 16) + Z.land (p - 65) (Z.lnot (Z.lxor 97 65)) + 10)
                     else value in
        Ok (Next (i + 1, value))
    else Ok (Done value)) (0, 0).

(** [chars]: what the four calls of [getch] return. *)
Definition shell_prompt_hex (chars : list Z) : res Z :=
  input ← iter 5 (λ '(i, input),
    if i <? 4 then
      ch ← of_option Undefined (chars !! Z.to_nat i);
      if ch =? 10 then Ok (Done input) else Ok (Next (i + 1, <[Z.to_nat i := Some ch]> input))
    else Ok (Done input)) (0, replicate 4 None);
  value ← naive_atoi16 input 4;
  Ok (s32 value).

(** *** The reference line editor *)

Definition chars (text : String.string) : list Z :=
  (λ a, Z.of_nat (Ascii.nat_of_ascii a)) <$> String.list_ascii_of_string text.
#[local] Arguments chars _%_string_scope.

(** The keys of the US keyboard that type a character, row by row: the scan code
    (set 1) of the first key of the row, what the keys type, and what they type
    with shift.  34 is the double quote, 9 the tabulator. *)
Definition us_keyboard : list (Z * list Z * list Z) :=
  [(0x02, chars "1234567890-=", chars "!@#$%^&*()_+");
   (0x0F, [9], [9]);
   (0x10, chars "qwertyuiop[]", chars "QWERTYUIOP{}");
   (0x1E, chars "asdfghjkl;'`", chars "ASDFGHJKL:" ++ [34] ++ chars "~");
   (0x2B, chars "\zxcvbnm,./", chars "|ZXCVBNM<>?");
   (0x37, chars "*", chars "*");
   (0x39, chars " ", chars " ")].

Definition key_char (shift : bool) (code : Z) : option Z :=
  head (omap (λ '(first, plain, shifted),
    if first <=? code then (if shift then shifted else plain : list Z) !! Z.to_nat (code - first) else None) us_keyboard).

(** The right or the left shift key. *)
Definition shift_held (held : gset Z) : bool := bool_decide (0x36 ∈ held ∨ 0x2A ∈ held).

(** One byte of the keyboard: the press of the key [byte], or the release of
    the key [byte - 0x80].  [held]: the keys that are down; the line grows to at
    most [limit] characters.  [None]: the return key, backspace on an empty
    line, a line that is too long, and the bytes that stand for no key
    below 0x58. *)
Definition line_step (limit : Z) (r : option (gset Z * list Z * list output)) (byte : Z) :
    option (gset Z * list Z * list output) :=
  match r with
  | None => None
  | Some (held, line, out) =>
      if (0 <=? byte) && (byte <? 0x58) then
        let held := {[byte]} ∪ held in
        if byte =? 0x1C then None
        else if byte =? 0x0E then
          if decide (line = []) then None else Some (held, take (length line - 1) line, out ++ [Tty_delc])
        else
          match key_char (shift_held held) byte with
          | Some ch => if Z.of_nat (length line) <? limit then Some (held, line ++ [ch], out ++ [Putchar ch]) else None
          | None => Some (held, line, out)
          end
      else if (0x80 <=? byte) && (byte <? 0xD8) then Some (held ∖ {[byte - 0x80]}, line, out)
      else if (0xD8 <? byte) && (byte <? 0x100) then Some (held, line, out)
      else None
  end.

(** The status array says which keys are down. *)
Definition keys_held (kb : list Z) (held : gset Z) : Prop :=
  length kb = 88%nat ∧ ∀ i, 0 ≤ i < 88 → kb !! Z.to_nat i = Some (if decide (i ∈ held) then 1 else 0).

(** The buffer of the shell holds [line]. *)
Record typed {P : Type} (s : machine P) (line : list Z) : Prop := Typed {
  typed_cur : shell_cur (shell s) = Z.of_nat (length line);
  typed_fits : Z.of_nat (length line) ≤ shell_size (shell s) < 2 ^ 31 - 1;
  typed_mapped : mapped (data s) (shell_cmd (shell s)) (Z.to_nat (shell_size (shell s)));
  typed_bytes : bytes_at (data s) (shell_cmd (shell s)) line
}.

(** Between [s] and [s'] only the buffer and what is said of it changed. *)
Record edited {P : Type} (s s' : machine P) : Prop := Edited {
  edited_symbols : symbols s' = symbols s;
  edited_cmd : shell_cmd (shell s') = shell_cmd (shell s);
  edited_size : shell_size (shell s') = shell_size (shell s);
  edited_enabled : enabled (shell s') = enabled (shell s);
  edited_data a : a < shell_cmd (shell s) ∨ shell_cmd (shell s) + shell_size (shell s) ≤ a →
    data s' !! a = data s !! a;
  edited_pages : pages s' = pages s;
  edited_heap : kheap s' = kheap s;
  edited_domain a : is_Some (data s !! a) → is_Some (data s' !! a)
}.

(** The buffer is a live block of the heap, of the size the shell takes it to
    have; the regions of the heap are mapped memory, NULL is not. *)
Record buffer_ok {P : Type} `{PageMemory P} (s : machine P) (L : gset Z) : Prop := BufferOk {
  buffer_heap : heap_inv (pages s) (kheap s) L;
  buffer_live : ∃ n, live (kheap s) L (shell_cmd (shell s)) n ∧ shell_size (shell s) ≤ n;
  buffer_size : LibAlloc.size (kheap s) (shell_cmd (shell s) - sizeof_tag) = shell_size (shell s);
  buffer_least : 80 ≤ shell_size (shell s);
  buffer_backed : backed (pages s) (data s);
  buffer_null : data s !! 0 = None
}.

(** The other blocks stay live and keep their bytes. *)
Definition others_kept {P : Type} (s : machine P) (L : gset Z) (s' : machine P) (L' : gset Z) : Prop :=
  ∀ q n bs, live (kheap s) L q n → 0 < n → q ≠ shell_cmd (shell s) → Z.of_nat (length bs) ≤ n →
    bytes_at (data s) q bs →
    live (kheap s') L' q n ∧ q ≠ shell_cmd (shell s') ∧ bytes_at (data s') q bs.

(** What typing shows: the echo, and no function is called. *)
Definition is_echo (o : output) : bool := match o with Putchar _ | Tty_delc => true | _ => false end.

(** The addresses of the names of the functions. *)
Definition function_names (t : elf_tables) (syms : list (Elf64_Sym * list Z)) : list Z :=
  (λ s, strtab t + st_name s.1) <$> filter (λ s, is_function s.1 = true) syms.

(** What running the line [nm] at [cmd] shows. *)
Definition command_output (t : elf_tables) (syms : list (Elf64_Sym * list Z)) (cmd : Z) (nm : list Z) : list output :=
  let rip := match head (filter (λ s, is_function s.1 = true ∧ s.2 = nm) syms) with
             | Some s => st_value s.1 | None => 0 end in
  if rip =? 0 then Klog cmd :: map Function_name (function_names t syms)
  else [Klog cmd; Call_function rip].

(** ** Lemmas *)

Lemma array_get_byte a i v : Forall is_byte a → array_get a i = Ok v → is_byte v.
Proof.
  unfold array_get. intros Ha. case_match; [done|]. destruct (a !! Z.to_nat i) eqn:E; [|done].
  intros [= <-]. by eapply Forall_lookup_1.
Qed.

Lemma tables_bytes : Forall is_byte SC1_LOWER_CHARS ∧ Forall is_byte SC1_UPPER_CHARS.
Proof.
  assert (H : ∀ l, forallb (λ b, (0 <=? b) && (b <? 256)) l = true → Forall is_byte l).
  { intros l Hl. apply Forall_forall. intros b Hin. rewrite forallb_forall in Hl.
    specialize (Hl b (proj1 (list_elem_of_In _ _) Hin)). unfold is_byte. lia. }
  split; by apply H.
Qed.

Lemma scancode_to_char_byte kb byte ch : scancode_to_char kb byte = Ok ch → is_byte ch.
Proof.
  unfold scancode_to_char. intros Hs. destruct tables_bytes as [Hl Hu].
  destruct (array_get kb 0x36); simpl_res; [|done]. destruct (array_get kb 0x2A); simpl_res; [|done].
  destruct (byte <? 58).
  - case_match; by eapply array_get_byte in Hs.
  - injection Hs as <-. by unfold is_byte.
Qed.

(** Every character of the table has a key that types it. *)
Lemma ascii_scancode_chars c :
  32 ≤ c ≤ 96 → ∃ sc, array_get ASCII_SCANCODE_1 c = Ok sc ∧
    (array_get SC1_LOWER_CHARS sc = Ok c ∨ array_get SC1_UPPER_CHARS sc = Ok c).
Proof.
  intros Hc.
  assert (G : Forall (λ c, ∃ sc, array_get ASCII_SCANCODE_1 c = Ok sc ∧
    (array_get SC1_LOWER_CHARS sc = Ok c ∨ array_get SC1_UPPER_CHARS sc = Ok c)) (seqZ 32 65)).
  { repeat (apply Forall_cons_2; [eexists; split; [reflexivity|]; (by left) || (by right)|]). apply Forall_nil_2. }
  rewrite Forall_forall in G. apply G. apply elem_of_seqZ. lia.
Qed.

(** *** The tables decode the keyboard *)

Lemma keys_held_none : keys_held (replicate 88 0) ∅.
Proof. split; [done|]. intros i Hi. rewrite decide_False by set_solver. apply lookup_replicate_2. lia. Qed.

Lemma keys_held_press kb held i :
  keys_held kb held → 0 ≤ i < 88 → keys_held (<[Z.to_nat i := 1]> kb) ({[i]} ∪ held).
Proof.
  intros [Hl Hk] Hi. split; [by rewrite length_insert|]. intros j Hj. destruct (decide (j = i)) as [->|Hne].
  - rewrite list_lookup_insert_eq by lia. rewrite decide_True by set_solver. done.
  - rewrite list_lookup_insert_ne by lia. rewrite Hk by done. do 2 f_equal. apply decide_ext. set_solver.
Qed.

Lemma keys_held_release kb held i :
  keys_held kb held → 0 ≤ i < 88 → keys_held (<[Z.to_nat i := 0]> kb) (held ∖ {[i]}).
Proof.
  intros [Hl Hk] Hi. split; [by rewrite length_insert|]. intros j Hj. destruct (decide (j = i)) as [->|Hne].
  - rewrite list_lookup_insert_eq by lia. rewrite decide_False by set_solver. done.
  - rewrite list_lookup_insert_ne by lia. rewrite Hk by done. do 2 f_equal. apply decide_ext. set_solver.
Qed.

(** What the code makes of a key, given the state of shift. *)
Definition decoded (shift : bool) (byte : Z) : Z :=
  if byte =? 0x1C then 10 else if byte =? 0x0E then 8 else default 0 (key_char shift byte).

Lemma tables_decode (shift : bool) byte :
  0 ≤ byte < 0x58 →
  (if byte <? 58 then if shift then array_get SC1_UPPER_CHARS byte else array_get SC1_LOWER_CHARS byte else Ok 0) =
  Ok (decoded shift byte).
Proof.
  intros Hb. pattern byte. revert byte Hb.
  assert (G : ∀ P : Z → Prop, Forall P (seqZ 0 0x58) → ∀ b, 0 ≤ b < 0x58 → P b).
  { intros P HP b Hb. rewrite Forall_forall in HP. apply HP, elem_of_seqZ. lia. }
  apply G. destruct shift; repeat (apply Forall_cons_2; [reflexivity|]); apply Forall_nil_2.
Qed.

Lemma scancode_decoded kb held byte :
  keys_held kb held → 0 ≤ byte < 0x58 → scancode_to_char kb byte = Ok (decoded (shift_held held) byte).
Proof.
  intros [Hl Hk] Hb. rewrite <- tables_decode by done. unfold scancode_to_char, array_get.
  change (0x36 <? 0) with false. change (0x2A <? 0) with false. cbv iota.
  rewrite !Hk by lia. simpl_res.
  assert (E : shift_held held = (Z.lor (if decide (54 ∈ held) then 1 else 0) (if decide (42 ∈ held) then 1 else 0) =? 1)).
  { unfold shift_held. destruct (decide (54 ∈ held)), (decide (42 ∈ held));
      case_bool_decide; first [reflexivity|tauto]. }
  by rewrite E.
Qed.

Lemma key_char_typed (shift : bool) code ch :
  0 ≤ code < 0x58 → key_char shift code = Some ch → code ≠ 0x1C ∧ code ≠ 0x0E ∧ is_byte ch ∧ ch ≠ 0 ∧ ch ≠ 8 ∧ ch ≠ 10.
Proof.
  intros Hb. revert ch.
  assert (G : Forall (λ c, match key_char shift c with
    | Some ch => negb (c =? 0x1C) && negb (c =? 0x0E) && (0 <=? ch) && (ch <? 256) && negb (ch =? 0) && negb (ch =? 8) &&
                 negb (ch =? 10) = true
    | None => True end) (seqZ 0 0x58)).
  { destruct shift; repeat (apply Forall_cons_2; [first [reflexivity|exact I]|]); apply Forall_nil_2. }
  rewrite Forall_forall in G. specialize (G code ltac:(apply elem_of_seqZ; lia)). cbv beta in G.
  intros ch E. rewrite E in G. unfold is_byte. lia.
Qed.

(** One byte: how the code decodes it, and what the reference editor does. *)
Lemma kb_decode limit kb held line byte o held' line' out :
  keys_held kb held → line_step limit (Some (held, line, o)) byte = Some (held', line', out) →
  ∃ kb' ch, kb_update kb byte = Ok kb' ∧ keys_held kb' held' ∧ scancode_to_char kb' byte = Ok ch ∧
    (ch = 0 ∧ line' = line ∧ out = o ∨
     ch = 8 ∧ line ≠ [] ∧ line' = take (length line - 1) line ∧ out = o ++ [Tty_delc] ∨
     is_byte ch ∧ ch ≠ 0 ∧ ch ≠ 8 ∧ ch ≠ 10 ∧ Z.of_nat (length line) < limit ∧ line' = line ++ [ch] ∧
       out = o ++ [Putchar ch]).
Proof.
  intros Hk Hs. pose proof Hk as [Hl _]. cbn [line_step] in Hs. unfold kb_update, array_set. rewrite Hl.
  change (Z.of_nat 88) with 88.
  destruct (Z.leb_spec 0 byte) as [H0|H0], (Z.ltb_spec byte 0x58) as [H58|H58]; cbn [andb] in Hs.
  - rewrite (proj2 (Z.leb_le byte 0x58)) by lia. cbn [andb].
    exists (<[Z.to_nat byte := 1]> kb), (decoded (shift_held ({[byte]} ∪ held)) byte).
    pose proof (keys_held_press _ _ byte Hk ltac:(lia)) as Hk1.
    rewrite (scancode_decoded _ _ byte Hk1) by lia. split; [done|]. unfold decoded.
    destruct (byte =? 0x1C); [done|]. destruct (byte =? 0x0E).
    + case_decide; [done|]. injection Hs as <- <- <-. split_and!; [done..|]. right. left. by split_and!.
    + destruct (key_char _ byte) as [ch|] eqn:Ek.
      * destruct (Z.ltb_spec (Z.of_nat (length line)) limit); [|done]. injection Hs as <- <- <-.
        split_and!; [done..|]. right. right. apply key_char_typed in Ek; [|lia]. cbn [default]. by split_and!; try apply Ek.
      * injection Hs as <- <- <-. split_and!; [done..|]. left. by split_and!.
  - rewrite (proj2 (Z.leb_gt byte 0x58)) by (destruct (Z.eq_dec byte 0x58) as [->|]; [done|lia]).
    rewrite (proj2 (Z.ltb_lt 0x58 byte)) by (destruct (Z.eq_dec byte 0x58) as [->|]; [done|lia]). cbn [andb].
    assert (Ec : ∀ kb', keys_held kb' held' → scancode_to_char kb' byte = Ok 0).
    { intros kb' [_ Hk']. unfold scancode_to_char, array_get. change (0x36 <? 0) with false. change (0x2A <? 0) with false.
      cbv iota. rewrite !Hk' by lia. simpl_res. by rewrite (proj2 (Z.ltb_ge byte 58)) by lia. }
    destruct (Z.leb_spec 0x80 byte), (Z.ltb_spec byte 0xD8); cbn [andb] in Hs.
    + injection Hs as <- <- <-. rewrite (proj2 (Z.leb_le byte 0xD8)), (proj2 (Z.leb_le 0 (byte - 0x80))),
        (proj2 (Z.ltb_lt (byte - 0x80) 88)) by lia. cbn [andb].
      pose proof (keys_held_release _ _ (byte - 0x80) Hk ltac:(lia)) as Hk1.
      eexists _, 0. split_and!; [done|done|by apply Ec|]. left. by split_and!.
    + destruct (Z.ltb_spec 0xD8 byte), (Z.ltb_spec byte 0x100); cbn [andb] in Hs; try done. injection Hs as <- <- <-.
      rewrite (proj2 (Z.leb_gt byte 0xD8)) by lia. exists kb, 0. split_and!; [done|done|by apply Ec|]. left. by split_and!.
    + by rewrite (proj2 (Z.ltb_ge 0xD8 byte)) in Hs by lia.
    + lia.
  - by rewrite (proj2 (Z.leb_gt 0x80 byte)), (proj2 (Z.ltb_ge 0xD8 byte)) in Hs by lia.
  - lia.
Qed.

Section edit.
Context {P : Type} `{PageSource P} (kfa lit : Z).
Implicit Types (s : machine P).

Lemma push_char_appends fuel s line ch :
  typed s line → is_byte ch → Z.of_nat (length line) < shell_size (shell s) →
  ∃ s', push_char fuel s ch = Ok (s', [Putchar ch]) ∧ typed s' (line ++ [ch]) ∧
    KB_STATUS s' = KB_STATUS s ∧ edited s s'.
Proof.
  intros [Hc Hf Hm Hb] Hch Hl. unfold push_char. cbv zeta. rewrite (proj2 (Z.leb_gt _ _)) by lia. simpl_res.
  rewrite Hc. rewrite store8_Ok by (done || apply Hm; lia). simpl_res. rewrite int_ok_Ok by lia. simpl_res.
  eexists. split; [reflexivity|]. split; [|split; [done|]].
  2:{ split; try done; intros a Ha; cbn; [by rewrite lookup_insert_ne by lia|]. apply lookup_insert_is_Some'. by right. }
  split; cbn.
  - rewrite length_app. cbn. lia.
  - rewrite length_app. cbn. lia.
  - intros i Hi. destruct (decide (shell_cmd (shell s) + Z.of_nat (length line) = shell_cmd (shell s) + Z.of_nat i)) as [->|].
    + rewrite lookup_insert_eq. by eexists.
    + rewrite lookup_insert_ne by done. by apply Hm.
  - apply bytes_at_app. split.
    + intros i b Hi. apply lookup_lt_Some in Hi as Hlt. rewrite lookup_insert_ne by lia. by apply Hb.
    + apply bytes_at_cons. split; [by rewrite lookup_insert_eq|apply bytes_at_nil].
Qed.

Lemma del_char_removes s line :
  typed s line → line ≠ [] →
  ∃ s', del_char s = Ok (s', [Tty_delc]) ∧ typed s' (take (length line - 1) line) ∧
    KB_STATUS s' = KB_STATUS s ∧ edited s s'.
Proof.
  intros [Hc Hf Hm Hb] Hne. assert (0 < length line)%nat by (destruct line; [done|cbn; lia]).
  unfold del_char. cbv zeta. rewrite Hc, int_ok_Ok by lia. simpl_res.
  replace (Z.of_nat (length line) - 1) with (Z.of_nat (length line - 1)) by lia.
  rewrite store8_Ok by (by unfold is_byte || apply Hm; lia). simpl_res.
  eexists. split; [reflexivity|]. split; [|split; [done|]].
  2:{ split; try done; intros a Ha; cbn; [by rewrite lookup_insert_ne by lia|]. apply lookup_insert_is_Some'. by right. }
  split; cbn.
  - rewrite length_take. lia.
  - rewrite length_take. lia.
  - intros i Hi. destruct (decide (shell_cmd (shell s) + Z.of_nat (length line - 1) = shell_cmd (shell s) + Z.of_nat i)) as [->|].
    + rewrite lookup_insert_eq. by eexists.
    + rewrite lookup_insert_ne by done. by apply Hm.
  - intros i b Hi. apply lookup_take_Some in Hi as [Hi Hlt]. rewrite lookup_insert_ne by lia. by apply Hb.
Qed.

(** One interrupt does one step of the reference editor. *)
Lemma kb_step fuel s limit held line byte held' line' out o :
  typed s line → keys_held (KB_STATUS s) held → limit ≤ shell_size (shell s) →
  line_step limit (Some (held, line, o)) byte = Some (held', line', out) →
  ∃ s' o', kb_handle_key kfa lit fuel s 1 byte = Ok (s', o') ∧ out = o ++ o' ∧ typed s' line' ∧
    keys_held (KB_STATUS s') held' ∧ edited s s' ∧ Forall (λ o, is_echo o = true) o'.
Proof.
  intros Hty Hk Hlim Hs. destruct (kb_decode limit _ _ _ _ _ _ _ _ Hk Hs) as (kb & ch & E1 & Hk' & E2 & He).
  unfold kb_handle_key. change (Z.land 1 1 =? 1) with true. cbn [negb]. rewrite E1. simpl_res. rewrite E2. simpl_res.
  set (s1 := Machine _ _ _ _ _ kb). assert (Hty1 : typed s1 line) by (by destruct Hty; split).
  destruct He as [(-> & -> & ->)|[(-> & Hl & -> & ->)|(Hch & H0 & H8 & H10 & Hl & -> & ->)]]; cbn [Z.eqb Pos.eqb negb].
  - exists s1, []. rewrite app_nil_r. split_and!; [done..|by split|done].
  - destruct (del_char_removes s1 line Hty1 Hl) as (s' & E & Hty' & Hks & []).
    exists s', [Tty_delc]. rewrite Hks. split_and!; [done..|by split|by repeat constructor].
  - rewrite !(proj2 (Z.eqb_neq ch _)) by done. cbn [negb].
    destruct (push_char_appends fuel s1 line ch Hty1 Hch) as (s' & E & Hty' & Hks & []); [cbn; lia|].
    exists s', [Putchar ch]. rewrite Hks. split_and!; [done..|by split|by repeat constructor].
Qed.
End edit.

(** *** A full buffer grows *)

Lemma line_step_None limit bytes : foldl (line_step limit) None bytes = None.
Proof. by induction bytes. Qed.

Section grow.
Context {P : Type} `{PageMemory P} (kfa lit : Z).
Implicit Types (s : machine P) (L : gset Z).

Lemma buffer_nonnull s L : buffer_ok s L → shell_cmd (shell s) ≠ 0.
Proof.
  intros [Hi (n & Hl & Hn) _ Hz Hb Hnull] E.
  pose proof (live_mapped _ _ _ _ _ _ (shell_size (shell s)) Hb Hi Hl Hn 0%nat ltac:(lia)) as [v Hv].
  by rewrite Z.add_0_r, E, Hnull in Hv.
Qed.

(** A change inside the buffer. *)
Lemma buffer_written s s' L : buffer_ok s L → edited s s' → buffer_ok s' L ∧ others_kept s L s' L.
Proof.
  intros [Hi (n & Hl & Hn) Hs Hz Hb Hnull] [_ Ec Es _ Hd Ep Eh Hdom]. split.
  - split; rewrite ?Ep, ?Eh, ?Ec, ?Es; [done|by exists n|done|done|by eapply backed_mapped|].
    rewrite Hd; [done|]. destruct Hi as [[Hblk _ _ _ _ _ _ _] _ _ _], Hl as (Hin & _).
    destruct (Hblk _ Hin) as (? & _). unfold sizeof_tag in *. lia.
  - intros q k bs Hq Hk Hne Hlen Hbs. rewrite Eh, Ec. split; [done|]. split; [done|].
    intros i b Hi'. apply lookup_lt_Some in Hi' as Hlt. rewrite Hd; [by apply Hbs|].
    destruct (live_disjoint _ _ _ _ _ _ _ Hi Hl Hq); try lia; congruence.
Qed.

Lemma push_char_grows fuel s L line ch :
  typed s line → Forall is_byte line → is_byte ch → buffer_ok s L → Z.of_nat (length line) = shell_size (shell s) →
  shell_size (shell s) + 80 < 2 ^ 30 → (S (base.size L) < fuel)%nat →
  match push_char fuel s ch with
  | Ok (s', o) => o = [Putchar ch] ∧ ∃ L', typed s' (line ++ [ch]) ∧ KB_STATUS s' = KB_STATUS s ∧
      buffer_ok s' L' ∧ (base.size L' ≤ S (S (base.size L)))%nat ∧ others_kept s L s' L'
  | Err e => e = Undefined ∧ liballoc_alloc (pages s) (pages_for (shell_size (shell s) + 80)) = None
  end.
Proof.
  intros Hty Hby Hch Hbuf Hfull Hsz Hf. pose proof (buffer_nonnull _ _ Hbuf) as Hnn.
  destruct Hty as [Hc _ Hm Hb], Hbuf as [Hi (n & Hl & Hn) Hs Hz Hbk Hnull].
  unfold push_char. cbv zeta. rewrite (proj2 (Z.leb_le _ _)) by lia. rewrite int_ok_Ok by lia. simpl_res.
  set (size := shell_size (shell s) + 80) in *. assert (Hsize : size = shell_size (shell s) + 80) by done.
  assert (Eu : u64 size = size) by (apply wrap_small; lia). rewrite Eu.
  destruct (malloc_spec (pages s) (kheap s) L size fuel) as (q & ps1 & h1 & L1 & Em & Hi1 & _ & Hps & Hcase);
    [done|lia|lia|].
  destruct Hcase as [(-> & Ha & _)|(_ & k & Hk & Hg)].
  { rewrite (realloc_no_memory (pages s) (kheap s) fuel (data s) (shell_cmd (shell s)) size line ps1 h1)
      by (done || lia). done. }
  assert (Hm1 : mapped (data s) q (Z.to_nat size)).
  { apply (live_mapped ps1 h1 L1 _ _ k); [by eapply backed_malloc|done|apply Hg; by right|done]. }
  pose proof Hg as (Hq & _ & Hdisj).
  destruct (realloc_spec (pages s) (kheap s) L fuel (data s) (shell_cmd (shell s)) n size line q ps1 h1)
    as (ps' & h' & L' & k' & -> & Hi' & Hk' & Hl' & Hs' & HL' & Hps'); try (done || lia).
  simpl_res. unfold with_shell.
  cbn [pages kheap data symbols shell KB_STATUS shell_cmd shell_size shell_cur enabled]. rewrite Hc.
  rewrite store8_Ok by (done || apply write_bytes_mapped, Hm1; lia). simpl_res. rewrite int_ok_Ok by lia. simpl_res.
  split; [done|]. exists L'.
  assert (Hdom : ∀ a, is_Some (data s !! a) →
    is_Some (<[q + Z.of_nat (length line) := ch]> (write_bytes (data s) q line) !! a)).
  { intros a Hsome. apply lookup_insert_is_Some'. right. by apply write_bytes_mapped. }
  assert (Hbk' : backed ps' (<[q + Z.of_nat (length line) := ch]> (write_bytes (data s) q line))).
  { eapply backed_mapped; [|exact Hdom]. eapply backed_released; [by eapply backed_malloc|done]. }
  assert (Hlq : live h' L' q k') by (apply Hl'; by right).
  split; [|split; [done|split; [|split; [done|]]]].
  - split; cbn.
    + rewrite length_app. cbn. lia.
    + rewrite length_app. cbn. lia.
    + intros i Hi0. apply Hdom, Hm1. lia.
    + apply bytes_at_app. split.
      * intros i b Hi0. apply lookup_lt_Some in Hi0 as Hlt. rewrite lookup_insert_ne by lia. by apply write_bytes_at.
      * apply bytes_at_cons. split; [by rewrite lookup_insert_eq|apply bytes_at_nil].
  - split; cbn; [done|by exists k'|done|lia|done|].
    destruct Hi' as [[Hblk _ _ _ _ _ _ _] _ _ _]. destruct (Hblk _ (proj1 Hlq)) as (? & _).
    unfold sizeof_tag in *. rewrite lookup_insert_ne by lia. rewrite write_bytes_lookup, decide_False by lia. done.
  - intros r j bs Hr Hj Hne Hlen Hbs. cbn. pose proof (Hdisj _ _ Hr) as Hd. split; [apply Hl'; by left|]. split; [lia|].
    intros i b Hi0. apply lookup_lt_Some in Hi0 as Hlt. rewrite lookup_insert_ne by lia.
    rewrite write_bytes_lookup, decide_False by lia. by apply Hbs.
Qed.

(** One interrupt, with the growth of the buffer: it fails only when a full buffer
    has to grow and the page source has no pages. *)
Lemma kb_step_grow fuel s L limit held line byte held' line' out o :
  typed s line → Forall is_byte line → keys_held (KB_STATUS s) held → buffer_ok s L → limit + 80 < 2 ^ 30 →
  (S (base.size L) < fuel)%nat →
  line_step limit (Some (held, line, o)) byte = Some (held', line', out) →
  (∃ s' o' L', kb_handle_key kfa lit fuel s 1 byte = Ok (s', o') ∧ out = o ++ o' ∧ typed s' line' ∧
     Forall is_byte line' ∧ keys_held (KB_STATUS s') held' ∧ buffer_ok s' L' ∧
     (base.size L' ≤ S (S (base.size L)))%nat ∧ others_kept s L s' L') ∨
  kb_handle_key kfa lit fuel s 1 byte = Err Undefined ∧ shell_cur (shell s) = shell_size (shell s) ∧
    liballoc_alloc (pages s) (pages_for (shell_size (shell s) + 80)) = None.
Proof.
  intros Hty Hby Hk Hbuf Hlim Hf Hs. destruct (kb_decode limit _ _ _ _ _ _ _ _ Hk Hs) as (kb & ch & E1 & Hk' & E2 & He).
  unfold kb_handle_key. change (Z.land 1 1 =? 1) with true. cbn [negb]. rewrite E1. simpl_res. rewrite E2. simpl_res.
  set (s1 := Machine _ _ _ _ _ kb). assert (Hty1 : typed s1 line) by (by destruct Hty; split).
  assert (Hbuf1 : buffer_ok s1 L) by (by destruct Hbuf; split).
  assert (HL0 : (base.size L ≤ S (S (base.size L)))%nat) by lia.
  destruct He as [(-> & -> & ->)|[(-> & Hl & -> & ->)|(Hch & Hne0 & Hne8 & Hne10 & Hl & -> & ->)]]; cbn [Z.eqb Pos.eqb negb].
  - left. exists s1, [], L. rewrite app_nil_r. split_and!; try done.
  - left. destruct (del_char_removes s1 line Hty1 Hl) as (s' & E & Hty' & Hks & Hed).
    destruct (buffer_written s1 s' L Hbuf1 Hed) as [Hb' Ho].
    exists s', [Tty_delc], L. rewrite Hks. split_and!; try done. by apply Forall_take.
  - rewrite !(proj2 (Z.eqb_neq ch _)) by done. cbn [negb].
    destruct (decide (Z.of_nat (length line) < shell_size (shell s))) as [Hlt|Hge].
    + left. destruct (push_char_appends fuel s1 line ch Hty1 Hch Hlt) as (s' & E & Hty' & Hks & Hed).
      destruct (buffer_written s1 s' L Hbuf1 Hed) as [Hb' Ho].
      exists s', [Putchar ch], L. rewrite Hks. split_and!; try done.
      apply Forall_app_2; [done|by apply Forall_singleton].
    + pose proof (typed_fits _ _ Hty). pose proof (typed_cur _ _ Hty).
      assert (Hfull : Z.of_nat (length line) = shell_size (shell s1)) by (cbn; lia).
      pose proof (push_char_grows fuel s1 L line ch Hty1 Hby Hch Hbuf1 Hfull ltac:(cbn; lia) Hf) as Hg.
      destruct (push_char fuel s1 ch) as [[s' o']|e].
      * destruct Hg as (-> & L' & Hty' & Hks & Hb' & HL & Ho). left. exists s', [Putchar ch], L'. rewrite Hks.
        split_and!; try done. apply Forall_app_2; [done|by apply Forall_singleton].
      * destruct Hg as [-> Ha]. right. split; [done|]. split; [lia|done].
Qed.

Lemma others_kept_trans s1 L1 s2 L2 s3 L3 :
  others_kept s1 L1 s2 L2 → others_kept s2 L2 s3 L3 → others_kept s1 L1 s3 L3.
Proof.
  intros H12 H23 q n bs Hq Hn Hne Hlen Hbs. destruct (H12 q n bs Hq Hn Hne Hlen Hbs) as (Hq2 & Hne2 & Hbs2).
  by apply H23.
Qed.

Lemma feed_err fuel e bytes :
  foldl (λ r byte, '(s, out) ← r; '(s, o) ← kb_handle_key kfa lit fuel s 1 byte; Ok (s, out ++ o))
    (Err e : res (machine P * list output)) bytes = Err e.
Proof. by induction bytes. Qed.

Lemma kb_feed_edit fuel limit bytes s L held line o held' line' out :
  typed s line → Forall is_byte line → keys_held (KB_STATUS s) held → buffer_ok s L → limit + 80 < 2 ^ 30 →
  (S (base.size L + 2 * length bytes) < fuel)%nat →
  foldl (line_step limit) (Some (held, line, o)) bytes = Some (held', line', out) →
  let feed bytes := foldl (λ r byte, '(s, out) ← r; '(s, o) ← kb_handle_key kfa lit fuel s 1 byte; Ok (s, out ++ o))
    (Ok (s, o)) bytes in
  match feed bytes with
  | Ok (s', o') => o' = out ∧ typed s' line' ∧ keys_held (KB_STATUS s') held' ∧
      ∃ L', buffer_ok s' L' ∧ others_kept s L s' L'
  | Err e => e = Undefined ∧ ∃ before byte after s1 o1, bytes = before ++ byte :: after ∧ feed before = Ok (s1, o1) ∧
      shell_cur (shell s1) = shell_size (shell s1) ∧
      liballoc_alloc (pages s1) (pages_for (shell_size (shell s1) + 80)) = None
  end.
Proof.
  cbv zeta. revert s L held line o.
  induction bytes as [|byte bytes IH]; intros s L held line o Hty Hby Hk Hbuf Hlim Hf Hs; cbn [foldl length] in *.
  - injection Hs as <- <- <-. split_and!; try done. exists L. split; [done|]. by intros q n bs Hq _ Hne _ Hbs.
  - destruct (line_step limit _ byte) as [[[held1 line1] out1]|] eqn:E1; [|by rewrite line_step_None in Hs].
    destruct (kb_step_grow fuel s L limit held line byte held1 line1 out1 o)
      as [(s1 & o1 & L1 & E & -> & Hty1 & Hby1 & Hk1 & Hbuf1 & HL & Ho)|(E & Hfull & Ha)]; try (done || lia);
      cbn [mbind res_bind]; rewrite E; cbn [mbind res_bind].
    + specialize (IH s1 L1 held1 line1 (o ++ o1) Hty1 Hby1 Hk1 Hbuf1 Hlim ltac:(lia) Hs).
      destruct (foldl _ (Ok (s1, o ++ o1)) bytes) as [[s' o']|e].
      * destruct IH as (-> & Hty' & Hk' & L' & Hbuf' & Ho'). split_and!; try done. exists L'. split; [done|].
        by eapply others_kept_trans.
      * destruct IH as (-> & before & b & after & s2 & o2 & -> & Eb & Hrest). split; [done|].
        exists (byte :: before), b, after, s2, o2. split; [done|]. split; [|done]. cbn [foldl mbind res_bind].
        rewrite E. exact Eb.
    + rewrite feed_err. split; [done|]. by exists [], byte, bytes, s, o.
Qed.
End grow.

Lemma memset_line m p c n :
  mapped m p n → is_byte c → LibString.memset m p c (Z.of_nat n) = Ok (p, write_bytes m p (replicate n c)).
Proof.
  intros Hm Hc. unfold LibString.memset. rewrite Nat2Z.id.
  assert (G : ∀ k i, (i + k = n)%nat →
    iter (S k) (λ '(i, m), if i <? Z.of_nat n then m ← store8 m (p + i) c; Ok (Next (i + 1, m)) else Ok (Done m))
      (Z.of_nat i, write_bytes m p (replicate i c)) = Ok (write_bytes m p (replicate n c))).
  { induction k as [|k IH]; intros i Hi; cbn [iter].
    - rewrite (proj2 (Z.ltb_ge _ _)) by lia. simpl_res. by replace i with n by lia.
    - rewrite (proj2 (Z.ltb_lt _ _)) by lia.
      rewrite store8_Ok by (done || apply write_bytes_mapped, Hm; lia). simpl_res.
      replace (Z.of_nat i + 1) with (Z.of_nat (S i)) by lia. rewrite <- (IH (S i)) by lia. do 2 f_equal.
      rewrite replicate_S_end, write_bytes_snoc, length_replicate. done. }
  rewrite <- (Z.add_0_r 0). setoid_rewrite (G n 0%nat); [done|lia].
Qed.

Lemma clear_line_typed {P : Type} (s : machine P) :
  0 ≤ shell_size (shell s) < 2 ^ 31 - 1 → mapped (data s) (shell_cmd (shell s)) (Z.to_nat (shell_size (shell s))) →
  ∃ s', clear_line s = Ok s' ∧ typed s' [].
Proof.
  intros Hz Hm. unfold clear_line. cbv zeta.
  assert (E : u64 (shell_size (shell s)) = Z.of_nat (Z.to_nat (shell_size (shell s))))
    by (rewrite Z2Nat.id by lia; apply wrap_small; lia).
  rewrite E, memset_line by (done || by unfold is_byte). simpl_res.
  eexists. split; [reflexivity|]. split; cbn; [done|lia| |apply bytes_at_nil].
  intros i Hi. by apply write_bytes_mapped, Hm.
Qed.

(** The functions are listed in the order of the table. *)
Lemma dump_names kfa lit m t syms :
  symbols_at m t syms → dump_function_names kfa lit m (Some t) = Ok (function_names t syms, Some t).
Proof.
  intros Hsyms. unfold dump_function_names. cbn [tables_of mbind res_bind].
  rewrite (tables_nonzero m t syms Hsyms).
  rewrite (sym_loop m t syms Hsyms _ (λ i out, (Z.of_nat i, out)) (λ out, out)
    (λ out s n, inr (if is_function s then out ++ [strtab t + st_name s] else out)) []).
  - simpl_res. do 2 f_equal. unfold function_names.
    assert (G : ∀ (l : list (Elf64_Sym * list Z)) (acc : list Z),
      foldl (λ (a : list Z + list Z) s, match a with
        | inl r => inl r | inr a => inr (if is_function s.1 then a ++ [strtab t + st_name s.1] else a) end) (inr acc) l =
      inr (acc ++ ((λ s, strtab t + st_name s.1) <$> filter (λ s, is_function s.1 = true) l))).
    { induction l as [|s l IH]; intros acc; cbn [foldl]; [by rewrite app_nil_r|].
      rewrite filter_cons. destruct (is_function s.1) eqn:E.
      - rewrite decide_True by done. rewrite IH, fmap_cons. by rewrite <- (assoc_L (++)).
      - rewrite decide_False by done. apply IH. }
    by rewrite G.
  - intros i out sym n Hi. destruct (read_symbol m t syms Hsyms i sym n Hi) as (Hlt & E & _).
    rewrite Hlt, E. simpl_res. unfold is_function. replace (Z.of_nat i + 1) with (Z.of_nat (S i)) by lia.
    by destruct (Z.land (st_info sym) 15 =? 2).
  - intros out. by rewrite (past_symbols m t syms Hsyms).
Qed.

Lemma run_command_output kfa lit fuel m st t syms cmd nm :
  tables_of kfa lit m st = Ok t → symbols_at m t syms → cstring_at m cmd nm → Forall is_byte nm → (length nm < fuel)%nat →
  Forall (λ s, length s.2 < fuel)%nat syms →
  run_command kfa lit fuel m st cmd = Ok (command_output t syms cmd nm, Some t).
Proof.
  intros Hst Hsyms Hn Hb Hf Hfs. unfold run_command, command_output. cbv zeta.
  assert (Er : resolve_function_address kfa lit fuel m st cmd = resolve_function_address kfa lit fuel m (Some t) cmd)
    by (unfold resolve_function_address; by rewrite Hst).
  rewrite Er, (resolve_address kfa lit fuel m t syms cmd nm) by done. simpl_res.
  set (rip := match _ with Some _ => _ | None => _ end). destruct (rip =? 0); cbn [negb]; [|done].
  by rewrite (dump_names _ _ _ _ syms).
Qed.

(** [del_char] on an empty line stores in front of the block. *)
Lemma del_char_empty {P : Type} (s : machine P) :
  shell_cur (shell s) = 0 → is_Some (data s !! (shell_cmd (shell s) - 1)) →
  del_char s = Ok (with_shell s (<[shell_cmd (shell s) - 1 := 0]> (data s))
    (Shell (shell_cmd (shell s)) (shell_size (shell s)) (-1) (enabled (shell s))), [Tty_delc]).
Proof.
  intros Hc Hm. unfold del_char. cbv zeta. rewrite Hc. change (0 - 1) with (-1).
  rewrite int_ok_Ok by lia. simpl_res.
  replace (shell_cmd (shell s) + -1) with (shell_cmd (shell s) - 1) by lia. rewrite store8_Ok by (done || by unfold is_byte). done.
Qed.

(** The bytes 0x58 to 0x7F, and the release of key 0x58, leave the array. *)
Lemma kb_update_outside kb byte :
  length kb = 88%nat → 0x58 ≤ byte < 0x80 ∨ byte = 0xD8 → kb_update kb byte = Err Undefined.
Proof.
  intros Hl Hb. unfold kb_update, array_set. rewrite Hl. change (Z.of_nat 88) with 88.
  destruct (Z.leb_spec byte 0x58).
  - assert (byte = 0x58) as -> by lia. done.
  - rewrite (proj2 (Z.ltb_lt _ _)), (proj2 (Z.leb_le byte 0xD8)) by lia. cbn [andb].
    destruct Hb as [Hb| ->]; [|done]. by rewrite (proj2 (Z.leb_gt _ _)) by lia.
Qed.

Lemma execute_command_line {P : Type} `{PageSource P} kfa lit fuel (s : machine P) line t syms :
  typed s line → enabled (shell s) = true → line ≠ [] → Z.of_nat (length line) < shell_size (shell s) →
  Forall (λ b, b ≠ 0) line → Forall is_byte line →
  tables_of kfa lit (<[shell_cmd (shell s) + Z.of_nat (length line) := 0]> (data s)) (symbols s) = Ok t →
  symbols_at (<[shell_cmd (shell s) + Z.of_nat (length line) := 0]> (data s)) t syms →
  (length line < fuel)%nat → Forall (λ s, length s.2 < fuel)%nat syms →
  ∃ s', execute_command kfa lit fuel s =
      Ok (s', [Putchar 10] ++ command_output t syms (shell_cmd (shell s)) line ++ [Putchar 62]) ∧ typed s' [].
Proof.
  intros [Hc Hf Hm Hb] He Hne Hlt Hnz Hby Hst Hsyms Hfl Hfs. unfold execute_command. cbv zeta. rewrite He. cbn [negb].
  rewrite (proj2 (Z.eqb_neq _ _)) by (rewrite Hc; destruct line; [done|cbn; lia]).
  rewrite Hc, store8_Ok by (by unfold is_byte || apply Hm; lia). simpl_res. rewrite int_ok_Ok by lia. simpl_res.
  set (m1 := <[_ := 0]> (data s)) in *.
  assert (Hstr : cstring_at m1 (shell_cmd (shell s)) line).
  { split; [|done]. apply bytes_at_app. split.
    - intros i b Hi. apply lookup_lt_Some in Hi as Hl. unfold m1. rewrite lookup_insert_ne by lia. by apply Hb.
    - apply bytes_at_cons. split; [by unfold m1; rewrite lookup_insert_eq|apply bytes_at_nil]. }
  cbn [shell_cmd]. rewrite (run_command_output kfa lit fuel m1 _ t syms _ line) by done. simpl_res.
  set (s1 := Machine _ _ m1 _ _ _). destruct (clear_line_typed s1) as (s' & E & Hty).
  - cbn. lia.
  - intros i Hi. cbn. unfold m1.
    destruct (decide (shell_cmd (shell s) + Z.of_nat (length line) = shell_cmd (shell s) + Z.of_nat i)) as [->|].
    + rewrite lookup_insert_eq. by eexists.
    + rewrite lookup_insert_ne by done. by apply Hm.
  - rewrite E. simpl_res. by exists s'.
Qed.

(** The return key, whatever else is pressed. *)
Lemma enter_key kb :
  length kb = 88%nat → ∃ kb', kb_update kb 28 = Ok kb' ∧ scancode_to_char kb' 28 = Ok 10.
Proof.
  intros Hl. exists (<[28%nat := 1]> kb). unfold kb_update, array_set. rewrite Hl. split; [done|].
  unfold scancode_to_char, array_get. cbn [Z.ltb Z.compare].
  destruct (lookup_lt_is_Some_2 (<[28%nat := 1]> kb) (Z.to_nat 54)) as [r Er]; [rewrite length_insert; lia|].
  destruct (lookup_lt_is_Some_2 (<[28%nat := 1]> kb) (Z.to_nat 42)) as [l El]; [rewrite length_insert; lia|].
  rewrite Er, El. simpl_res. by destruct (Z.lor r l =? 1).
Qed.

(** What [init_shell] leaves, when there are pages. *)
Lemma init_shell_ready {P : Type} `{PageMemory P} fuel (s : machine P) L :
  heap_inv (pages s) (kheap s) L → (base.size L < fuel)%nat → backed (pages s) (data s) → data s !! 0 = None →
  liballoc_alloc (pages s) (pages_for 80) ≠ None →
  ∃ s' L', init_shell fuel s = Ok (s', [Putchar 62]) ∧ typed s' [] ∧ buffer_ok s' L' ∧
    (base.size L' ≤ S (S (base.size L)))%nat ∧ KB_STATUS s' = KB_STATUS s.
Proof.
  intros Hi Hf Hb Hnull Ha. unfold init_shell.
  destruct (malloc_spec (pages s) (kheap s) L 80 fuel) as (p & ps & h & L' & -> & Hi' & HL & Hps & Hcase);
    [done|lia|done|]. simpl_res.
  destruct Hcase as [(_ & ? & _)|(Hsz & n & Hn & _ & Hl & _)]; [done|].
  assert (Hlp : live h L' p n) by (apply Hl; by right). pose proof (backed_malloc _ _ _ _ Hb Hps) as Hb'.
  eexists _, L'. split; [done|]. split; [|split; [|done]].
  - split; cbn; [done|lia| |apply bytes_at_nil]. by apply (live_mapped ps h L' _ _ n).
  - split; cbn; [done|by exists n|done|lia|done|done].
Qed.

(** ** Theorems *)

(** C18: The keyboard and the shell refine a line editor with a US keyboard of its
    own: it keeps the set of the keys that are down, types what the key shows,
    the upper character while a shift key is down, and backspace takes the last
    character back.  Typing from an empty line, of any length up to 2^30
    characters: the buffer of the shell holds the edited line, the terminal got
    its echo, the status array says which keys are down, and liballoc satisfies
    its invariant, with every other block live and unchanged; the buffer has
    moved whenever the line had outgrown it.  It fails at one point only: where
    a full buffer has to grow and the page source has no pages, since [krealloc]
    then copies to NULL.  The editor does not take the return key (which is
    [execute_command_runs]), backspace on an empty line (which stores in front
    of the buffer, [del_char_empty]), and the bytes 0x58 to 0x7F, and 0xD8,
    which stand for no key the code keeps (they store behind the status array,
    [kb_update_outside]). *)
Theorem kb_line_edit {P : Type} `{PageMemory P} kfa lit fuel limit (s : machine P) L bytes held held' line' out :
  typed s [] → keys_held (KB_STATUS s) held → buffer_ok s L → limit + 80 < 2 ^ 30 →
  (S (base.size L + 2 * length bytes) < fuel)%nat →
  foldl (line_step limit) (Some (held, [], [])) bytes = Some (held', line', out) →
  match kb_feed kfa lit fuel s bytes with
  | Ok (s', o) => o = out ∧ typed s' line' ∧ keys_held (KB_STATUS s') held' ∧
      ∃ L', buffer_ok s' L' ∧ others_kept s L s' L'
  | Err e => e = Undefined ∧ ∃ before byte after s1 o1, bytes = before ++ byte :: after ∧
      kb_feed kfa lit fuel s before = Ok (s1, o1) ∧ shell_cur (shell s1) = shell_size (shell s1) ∧
      liballoc_alloc (pages s1) (pages_for (shell_size (shell s1) + 80)) = None
  end.
Proof. intros Hty Hk Hbuf Hlim Hf Hs. by apply (kb_feed_edit kfa lit fuel limit bytes s L held [] [] held' line' out). Qed.

(** C19: Entering a line shows a newline, calls the first kernel function of that
    name, or lists all functions when there is none, clears the line and
    prompts again. *)
Theorem execute_command_runs {P : Type} `{PageSource P} kfa lit fuel (s : machine P) line t syms :
  typed s line → enabled (shell s) = true → line ≠ [] → Z.of_nat (length line) < shell_size (shell s) →
  Forall (λ b, b ≠ 0) line → Forall is_byte line →
  tables_of kfa lit (<[shell_cmd (shell s) + Z.of_nat (length line) := 0]> (data s)) (symbols s) = Ok t →
  symbols_at (<[shell_cmd (shell s) + Z.of_nat (length line) := 0]> (data s)) t syms →
  (length line < fuel)%nat → Forall (λ s, length s.2 < fuel)%nat syms →
  ∃ s', execute_command kfa lit fuel s =
      Ok (s', [Putchar 10] ++ command_output t syms (shell_cmd (shell s)) line ++ [Putchar 62]) ∧ typed s' [].
Proof. apply execute_command_line. Qed.

(** Checkpoint asks for a key outside the table of is_key_pressed, so
    whatever is pressed, it never returns. *)
Lemma checkpoint_never fuel kb : checkpoint fuel kb = Err OutOfFuel.
Proof.
  unfold checkpoint. generalize 0%nat. induction fuel as [|fuel IH]; intros i; cbn [iter]; [done|].
  change (is_key_pressed (kb i) 121) with (Ok 0 : res Z). simpl_res. apply IH.
Qed.

(** ** Witnesses *)

(** A shell whose 80-byte buffer at 0x5000 starts with [line]. *)
Definition demo_machine (line : list Z) : machine page_bump :=
  Machine pages0 heap0 (write_bytes demo_elf 0x5000 (line ++ replicate (80 - length line) 0)) (Some demo_tables)
    (Shell 0x5000 80 (Z.of_nat (length line)) true) (replicate 88 0).

Lemma demo_typed line : (length line ≤ 80)%nat → typed (demo_machine line) line.
Proof.
  intros Hl. split; [done|cbn; lia| |].
  - assert (E : Z.to_nat (shell_size (shell (demo_machine line))) = length (line ++ replicate (80 - length line) 0))
      by (rewrite length_app, length_replicate; cbn; lia).
    rewrite E. apply bytes_at_mapped, write_bytes_at.
  - pose proof (write_bytes_at demo_elf 0x5000 (line ++ replicate (80 - length line) 0)) as Hb.
    by apply bytes_at_app in Hb as [Hb _].
Qed.

(** A shell that has just started, on two regions: shift down, A, shift up, the
    key B eighty-one times, backspace. *)
Definition typing_pool : page_pool := PagePool 4096 (4096 + 131072) ∅.
Definition typing_start (m : mem) : machine page_pool :=
  Machine typing_pool heap0 m None (Shell 0 0 0 false) (replicate 88 0).
Definition typing : list Z := [0x2A; 0x1E; 0xAA] ++ replicate 81 0x30 ++ [0x0E].
Definition typing_out : list output := Putchar 65 :: replicate 81 (Putchar 98) ++ [Tty_delc].
Definition typing_bytes : nat := Z.to_nat 131072.
Definition typing_memory : mem := write_bytes ∅ 4096 (replicate typing_bytes 0).

Lemma typing_memory_lookup a : is_Some (typing_memory !! a) ↔ 4096 ≤ a < 4096 + 131072.
Proof.
  unfold typing_memory. assert (En : Z.of_nat typing_bytes = 131072) by (apply Z2Nat.id; lia).
  revert En. generalize typing_bytes. intros n En. rewrite write_bytes_lookup, length_replicate, En.
  case_decide as Hr.
  - split; [done|]. intros _. apply lookup_lt_is_Some_2. rewrite length_replicate. lia.
  - rewrite lookup_empty. split; [by intros [? ?]|lia].
Qed.

(** The run on the part of the memory it touches: the line moves to a block of 160
    bytes. *)
Example typing_run :
  match init_shell 2 (typing_start (write_bytes (write_bytes ∅ 4144 (replicate 80 0)) 69680 (replicate 160 0))) with
  | Ok (s, _) =>
      match kb_feed 0 0 200 s typing with
      | Ok (s', o) => shell_cmd (shell s) = 4144 ∧ shell_cmd (shell s') = 69680 ∧ shell_size (shell s') = 160 ∧
          shell_cur (shell s') = 81 ∧ o = typing_out
      | Err _ => False
      end
  | Err _ => False
  end.
Proof. vm_compute. split_and!; done. Qed.

Lemma kb_line_edit_witness :
  ∃ s L, init_shell 2 (typing_start typing_memory) = Ok (s, [Putchar 62]) ∧
  match kb_feed 0 0 200 s typing with
  | Ok (s', o) => o = typing_out ∧ typed s' (65 :: replicate 80 98) ∧
      keys_held (KB_STATUS s') ({[0x0E]} ∪ ({[0x30]} ∪ {[0x1E]})) ∧ ∃ L', buffer_ok s' L' ∧ others_kept s L s' L'
  | Err e => e = Undefined ∧ ∃ before byte after s1 o1, typing = before ++ byte :: after ∧
      kb_feed 0 0 200 s before = Ok (s1, o1) ∧ shell_cur (shell s1) = shell_size (shell s1) ∧
      liballoc_alloc (pages s1) (pages_for (shell_size (shell s1) + 80)) = None
  end.
Proof.
  assert (Hnull : typing_memory !! 0 = None) by (apply eq_None_not_Some; rewrite typing_memory_lookup; lia).
  assert (Hb : backed typing_pool typing_memory).
  { split; [|by apply map_Forall_empty]. intros a Ha. apply typing_memory_lookup. cbn in Ha. lia. }
  revert Hnull Hb. generalize typing_memory. intros m Hnull Hb.
  destruct (init_shell_ready 2 (typing_start m) ∅) as (s & L & E & Hty & Hbuf & HL & Hk);
    [split; [split|split|..]; try set_solver; done|vm_compute; lia|exact Hb|exact Hnull|vm_compute; discriminate|].
  exists s, L. split; [exact E|].
  apply (kb_line_edit 0 0 200 1000 s L typing ∅); [exact Hty|rewrite Hk; exact keys_held_none|exact Hbuf|lia| |].
  - rewrite size_empty in HL. change (length typing) with 85%nat. lia.
  - vm_compute. reflexivity.
Defined.

Lemma execute_command_runs_witness :
  ∃ s', execute_command 0 0 4 (demo_machine [99; 100]) =
      Ok (s', [Putchar 10; Klog 0x5000; Call_function 32; Putchar 62]) ∧ typed s' [].
Proof.
  apply (execute_command_runs 0 0 4 (demo_machine [99; 100]) [99; 100] demo_tables demo_symbols);
    try done; try (cbn; lia).
  - apply demo_typed. cbn. lia.
  - repeat (apply Forall_cons_2; [lia|]). apply Forall_nil_2.
  - repeat (apply Forall_cons_2; [by unfold is_byte|]). apply Forall_nil_2.
  - solve_demo_symbols.
  - repeat (apply Forall_cons_2; [cbn; lia|]). apply Forall_nil_2.
Defined.
