(* ===== verification/Aml.v ===== *)
(** * The AML front end (lethe-aml/aml)

    The byte code lies in memory [m]; [ns->code] is an address in it.
    Namespaces live in a store by number, 0 being the root; their two hash maps
    are the finite maps that HashMap.v shows them to be, from four-byte names.
    Parsers of values take the code pointer and return it advanced; the parsers
    of definitions change the [code] field of the namespace they work in.
    [AML_EXIT], [debug_exit] and failed assertions stop the machine; malloc is
    taken to succeed.  The recursion follows the byte code, so it takes fuel. *)
From S2P Require Import Prelude LibString.

(** ** Definitions *)

(** *** include/opcodes.h *)

Definition EXT_OP_PREFIX : Z := 0x5B.
Definition BYTE_PREFIX : Z := 0x0A.
Definition WORD_PREFIX : Z := 0x0B.
Definition DWORD_PREFIX : Z := 0x0C.
Definition QWORD_PREFIX : Z := 0x0E.
Definition STRING_PREFIX : Z := 0x0D.
Definition ZERO_OP : Z := 0x00.
Definition ONE_OP : Z := 0x01.
Definition ONES_OP : Z := 0xFF.
Definition LNOT_OP : Z := 0x92.
Definition LEQUAL_OP : Z := 0x93.
Definition LAND_OP : Z := 0x90.
Definition LLESS_OP : Z := 0x95.
Definition LGREATER_OP : Z := 0x94.
Definition BUFFER_OP : Z := 0x11.
Definition PACKAGE_OP : Z := 0x12.
Definition VAR_PACKAGE_OP : Z := 0x13.
Definition ALIAS_OP : Z := 0x06.
Definition NAME_OP : Z := 0x08.
Definition SCOPE_OP : Z := 0x10.
Definition IF_OP : Z := 0xA0.
Definition ELSE_OP : Z := 0xA1.
Definition EXT_DEVICE_OP : Z := 0x82.
Definition EXT_FIELD_OP : Z := 0x81.
Definition EXT_INDEX_FIELD_OP : Z := 0x86.
Definition EXT_MUTEX_OP : Z := 0x01.
Definition EXT_OP_REGION_OP : Z := 0x80.
Definition METHOD_OP : Z := 0x14.
Definition CREATE_WORDFIELD_OP : Z := 0x8B.
Definition KEY_LEN : Z := 4.

(** *** include/types.h *)

(** [data_type] with the union behind it; the elements of a package are
    pointers to nameless variables. *)
Inductive aml_variable :=
| DATA_UNINIT (string : list Z)
| DATA_BYTE (byte : Z)
| DATA_SHORT (short_int : Z)
| DATA_INT (integer : Z)
| DATA_LONG (long_int : Z)
| DATA_STR (string : list Z)
| DATA_PKG (elements : list aml_variable)
| DATA_BUF (buffer : list Z).

Record aml_operation_region_t := Region { region_name : list Z; region_space : Z; region_offset : Z; region_len : Z }.

Record aml_field_t := Field { access_type : Z; should_lock : bool; update_rule : Z; region : aml_operation_region_t }.

Record aml_named_field_t := NamedField { nf_offset : Z; nf_len : Z; nf_name : list Z; nf_parent : aml_field_t }.

Record aml_method_t := Method { method_name : list Z; method_flags : Z; method_len : Z; method_code : Z; method_scope : nat }.

(** [aml_ptr_t]: the type with what the pointer points to. *)
Inductive aml_ptr_t :=
| TYPE_METHOD (method : aml_method_t)
| TYPE_REGION (r : aml_operation_region_t)
| TYPE_NAME (label : list Z) (variable : aml_variable)
| TYPE_FIELD_OFFSET (field : aml_named_field_t)
| TYPE_MUTEX (name : list Z) (sync_flags : Z)
| TYPE_WORD_FIELD (name : list Z) (buffer : list Z) (byte_index : Z).

Record aml_namespace_t := Namespace {
  parent : option nat; ns_name : list Z; code : Z;
  children : gmap (list Z) aml_ptr_t; namespaces : gmap (list Z) nat
}.

Abbreviation store := (gmap nat aml_namespace_t).

Definition root : nat := 0.

(** Following a namespace pointer. *)
Definition get_ns (st : store) (ns : nat) : res aml_namespace_t := of_option Undefined (st !! ns).

Definition set_code (st : store) (ns : nat) (c : Z) : res store :=
  n ← get_ns st ns;
  Ok (<[ns := Namespace (parent n) (ns_name n) c (children n) (namespaces n)]> st).

Definition set_parent (st : store) (ns p : nat) : res store :=
  n ← get_ns st ns;
  Ok (<[ns := Namespace (Some p) (ns_name n) (code n) (children n) (namespaces n)]> st).

Definition get_code (st : store) (ns : nat) : res Z := n ← get_ns st ns; Ok (code n).

(** *** namespace.c *)

Definition push_namespace (st : store) (p : nat) (key : list Z) (this : nat) : res store :=
  n ← get_ns st p;
  Ok (<[p := Namespace (parent n) (ns_name n) (code n) (children n) (<[key := this]> (namespaces n))]> st).

Definition create_namespace (st : store) (p : option nat) (key : list Z) (c : Z) : res (nat * store) :=
  let id := fresh (dom st) in
  let st := <[id := Namespace p key c ∅ ∅]> st in
  match p with
  | Some p => st ← push_namespace st p key id; Ok (id, st)
  | None => Ok (id, st)
  end.

Definition add_child_to_namespace (st : store) (ns : nat) (key : list Z) (data : aml_ptr_t) : res store :=
  n ← get_ns st ns;
  Ok (<[ns := Namespace (parent n) (ns_name n) (code n) (<[key := data]> (children n)) (namespaces n)]> st).

(** The names "_GPE", "_PR_", "_SB_", "_SI_" and "_TZ_" under the root. *)
Definition init_aml_namespaces : res store :=
  let st := {[root := Namespace None [92; 95; 95; 95] 0 ∅ ∅]} in
  '(_, st) ← create_namespace st (Some root) [95; 71; 80; 69] 0;
  '(_, st) ← create_namespace st (Some root) [95; 80; 82; 95] 0;
  '(_, st) ← create_namespace st (Some root) [95; 83; 66; 95] 0;
  '(_, st) ← create_namespace st (Some root) [95; 83; 73; 95] 0;
  '(_, st) ← create_namespace st (Some root) [95; 84; 90; 95] 0;
  Ok st.

(** *** helpers.c: names *)

(** A character of a name segment; [char] is signed, so bytes above 127 are
    below 'A'. *)
Definition name_char (b : Z) : bool :=
  ((65 <=? s8 b) && (s8 b <=? 90)) || ((48 <=? s8 b) && (s8 b <=? 57)) || (s8 b =? 95).

(** On an empty name the code reads a byte behind its block, which does not
    change the result. *)
Definition valid_name (inner : list Z) : bool :=
  match inner with
  | [] => true
  | b :: rest => forallb name_char (if (b =? 92) || (b =? 94) then rest else inner)
  end.

Abbreviation located := (option (nat + aml_ptr_t)).

(** [hm_get] on one of the two maps of a namespace. *)
Definition lookup_in (n : aml_namespace_t) (namespace : bool) (key : list Z) : located :=
  if namespace then inl <$> namespaces n !! key else inr <$> children n !! key.

Definition stage3 (fuel : nat) (st : store) (ns : nat) (static_key : list Z) (namespace : bool) : res located :=
  iter fuel (λ current,
    n ← get_ns st current;
    match lookup_in n namespace static_key with
    | Some p => Ok (Done (Some p))
    | None =>
        match parent n with
        | None => Ok (Done None)
        | Some p => Ok (Next p)
        end
    end) ns.

Definition resolve_scope (st : store) (ns : nat) (static_key : list Z) : res (option nat) :=
  if negb (Z.of_nat (length static_key) mod KEY_LEN =? 0) then Ok None
  else
    next_ns ← iter (S (length static_key)) (λ '(rem, next_ns),
      match rem with
      | [] => Ok (Done (Some next_ns))
      | _ =>
          n ← get_ns st next_ns;
          match namespaces n !! take 4 rem with
          | None => Ok (Done None)
          | Some p => Ok (Next (drop 4 rem, p))
          end
      end) (static_key, ns);
    match next_ns with
    | None => Ok None
    | Some next_ns => Ok (if decide (next_ns = ns) then None else Some next_ns)
    end.

(** [len] below [KEY_LEN] makes [len - KEY_LEN] wrap around. *)
Definition stage2 (st : store) (ns : nat) (static_key : list Z) (namespace : bool) : res located :=
  let len := length static_key in
  if Z.of_nat len =? KEY_LEN then n ← get_ns st ns; Ok (lookup_in n namespace static_key)
  else if Z.of_nat len <? KEY_LEN then Err Undefined
  else
    scope ← resolve_scope st ns (take (len - 4) static_key);
    match scope with
    | None => Ok None
    | Some scope => n ← get_ns st scope; Ok (lookup_in n namespace (drop (len - 4) static_key))
    end.

(** With the key as it is left behind: a prefix character is removed by moving
    the rest down, so the last byte appears twice. *)
Definition locate_object (fuel : nat) (st : store) (ns : nat) (static_key : list Z) (namespace : bool) :
    res (located * list Z) :=
  let len := Z.of_nat (length static_key) in
  if len =? 1 then Ok (Some (inl root), static_key)
  else if negb (valid_name static_key) then Err Halted
  else if len =? KEY_LEN then r ← stage3 fuel st ns static_key namespace; Ok (r, static_key)
  else
    match static_key with
    | [] => Err Undefined
    | b :: rest =>
        let moved := rest ++ take 1 (reverse static_key) in
        if b =? 94 then
          n ← get_ns st ns;
          match parent n with
          | None => Ok (None, static_key)
          | Some p => r ← stage2 st p rest namespace; Ok (r, moved)
          end
        else if b =? 92 then r ← stage2 st root rest namespace; Ok (r, moved)
        else r ← stage2 st ns static_key namespace; Ok (r, static_key)
    end.

(** *** helpers.c: values *)

Section values.
Context (m : mem).

Definition parse_length (code : Z) : res (Z * Z) :=
  lead_byte ← load8 m code;
  let byte_count := Z.land (Z.shiftr lead_byte 6) 3 in
  let length := Z.land lead_byte 0x3F in
  if byte_count =? 0 then Ok (length, code + 1)
  else
    b1 ← load8 m (code + 1);
    let length := Z.lor length (Z.shiftl b1 4) in
    if byte_count =? 1 then Ok (length, code + 2)
    else
      b2 ← load8 m (code + 2);
      let length := Z.lor length (Z.shiftl b2 12) in
      if byte_count =? 2 then Ok (length, code + 3)
      else
        b3 ← load8 m (code + 3);
        Ok (Z.lor length (Z.shiftl b3 20), code + 4).

(** [n] bytes, as memcpy takes them. *)
Definition take_bytes (code : Z) (n : nat) : res (list Z) := of_option Undefined (read_bytes m code n).

(** name.c: all prefix characters count as one, the first. *)
Definition skip_prefix (fuel : nat) (code : Z) : res (Z * option Z) :=
  iter fuel (λ '(copy, char_prefix),
    b ← load8 m copy;
    if (b =? 92) || (b =? 94)
    then Ok (Next (copy + 1, Some (default b char_prefix)))
    else Ok (Done (copy, char_prefix))) (code, None).

Definition parse_namestring (fuel : nat) (code : Z) : res (list Z * Z) :=
  '(copy, char_prefix) ← skip_prefix fuel code;
  prefix ← load8 m copy;
  '(seg_count, copy) ← (if prefix =? 0x2E then Ok (2, copy + 1)
    else if prefix =? 0x2F then n ← load8 m (copy + 1); Ok (n, copy + 2)
    else if prefix =? 0 then Ok (0, copy + 1)
    else Ok (1, copy));
  segs ← take_bytes copy (Z.to_nat (seg_count * KEY_LEN));
  Ok (match char_prefix with Some b => b :: segs | None => segs end, copy + seg_count * KEY_LEN).

(** Reads of system memory and of ports, by address and width. *)
Context (read_physical read_port : Z → Z → Z).

Definition read_mem (address access_len : Z) : res Z :=
  if (access_len =? 8) || (access_len =? 16) || (access_len =? 32) || (access_len =? 64)
  then Ok (read_physical address access_len) else Err Halted.

Definition read_io (port access_len : Z) : res Z :=
  if (access_len =? 8) || (access_len =? 16) || (access_len =? 32)
  then Ok (read_port (u16 port) access_len) else Err Halted.

(** A field unit: [AnyAcc] and [ByteAcc] read a byte. *)
Definition read_field (data : aml_named_field_t) : res Z :=
  let acc := access_type (nf_parent data) in
  read_len ← (if (acc =? 0) || (acc =? 1) then Ok 8 else if acc =? 2 then Ok 16
              else if acc =? 3 then Ok 32 else if acc =? 4 then Ok 64 else Err Halted);
  let r := region (nf_parent data) in
  let address := u64 (region_offset r + nf_offset data) in
  if region_space r =? 0 then read_mem address read_len
  else if region_space r =? 1 then read_io address read_len
  else Err Halted.

(** The value of a named object; a 64-bit constant is not supported, what is
    neither a name nor a field counts as 0. *)
Definition object_to_int (obj : aml_ptr_t) : res Z :=
  match obj with
  | TYPE_NAME _ (DATA_BYTE v) | TYPE_NAME _ (DATA_SHORT v) | TYPE_NAME _ (DATA_INT v) => Ok v
  | TYPE_NAME _ _ => Err Halted
  | TYPE_FIELD_OFFSET data => read_field data
  | _ => Ok 0
  end.

Definition bool_int (b : bool) : Z := if b then 1 else 0.

Fixpoint term_arg_to_int (fuel : nat) (st : store) (ns : nat) (code : Z) : res (Z * Z) :=
  match fuel with
  | O => Err OutOfFuel
  | S fuel =>
      let two (code : Z) (f : Z → Z → Z) : res (Z * Z) :=
        '(term1, code) ← term_arg_to_int fuel st ns code;
        '(term2, code) ← term_arg_to_int fuel st ns code;
        Ok (f term1 term2, code) in
      op ← load8 m code;
      if op =? ZERO_OP then Ok (0, code + 1)
      else if op =? ONE_OP then Ok (1, code + 1)
      else if op =? ONES_OP then Ok (UINT64_MAX, code + 1)
      else if op =? BYTE_PREFIX then b ← load8 m (code + 1); Ok (b, code + 2)
      else if op =? WORD_PREFIX then w ← load16 m (code + 1); Ok (w, code + 3)
      else if op =? DWORD_PREFIX then w ← load32 m (code + 1); Ok (w, code + 5)
      else if op =? LNOT_OP then
        '(predicate, code) ← term_arg_to_int fuel st ns (code + 1);
        Ok (bool_int (predicate =? 0), code)
      else if op =? LEQUAL_OP then two (code + 1) (λ a b, bool_int (a =? b))
      else if op =? LAND_OP then two (code + 1) (λ a b, bool_int (negb (a =? 0) && negb (b =? 0)))
      else if op =? LLESS_OP then two (code + 1) (λ a b, bool_int (a <? b))
      else if op =? LGREATER_OP then two (code + 1) (λ a b, bool_int (b <? a))
      else
        name ← take_bytes code 4;
        '(obj, _) ← locate_object fuel st ns name false;
        match obj with
        | None => Err Halted
        | Some (inl _) => Err Undefined
        | Some (inr obj) => v ← object_to_int obj; Ok (v, code + 4)
        end
  end.

(** The buffer a name stands for. *)
Definition term_arg_to_buffer (fuel : nat) (st : store) (ns : nat) (code : Z) : res (list Z * Z) :=
  name ← take_bytes code 4;
  '(obj, _) ← locate_object fuel st ns name false;
  match obj with
  | Some (inr (TYPE_NAME _ (DATA_BUF buffer))) => Ok (buffer, code + KEY_LEN)
  | Some (inr _) => Err Halted
  | _ => Err Undefined
  end.

(** name.c: the absolute name of [key] in [ns]. *)
Definition resolve_name (fuel : nat) (st : store) (ns : nat) (key : list Z) : res (list Z) :=
  first ← of_option Undefined (head key);
  if first =? 94 then Err Halted
  else if bool_decide (ns = root) || (first =? 92) then Ok key
  else
    path ← iter fuel (λ '(current, path),
      n ← get_ns st current;
      match parent n with
      | None => if decide (current = root) then Ok (Done path) else Err Halted
      | Some p => Ok (Next (p, ns_name n ++ path))
      end) (ns, []);
    Ok (92 :: path ++ key).

Definition parse_string (fuel : nat) (code : Z) : res (list Z * Z) :=
  iter fuel (λ '(code, s),
    b ← load8 m code;
    if b =? 0 then Ok (Done (s, code + 1)) else Ok (Next (code + 1, s ++ [b]))) (code, []).

(** Elements that do not start with a name are data objects, [parse_data]
    being the recursive call. *)
Definition populate_package (fuel : nat) (parse_data : Z → res (aml_variable * Z)) (st : store) (ns : nat)
    (num_elements code : Z) : res (list aml_variable * Z) :=
  iter (S (Z.to_nat num_elements)) (λ '(i, elements, code),
    if i <? num_elements then
      '(name, after) ← parse_namestring fuel code;
      '(variable, code) ← (if negb (valid_name name) || bool_decide (name = [])
        then parse_data code
        else s ← resolve_name fuel st ns name; Ok (DATA_UNINIT s, after));
      Ok (Next (i + 1, elements ++ [variable], code))
    else Ok (Done (elements, code))) (0, [], code).

Fixpoint parse_data_object (fuel : nat) (st : store) (ns : nat) (code : Z) : res (aml_variable * Z) :=
  match fuel with
  | O => Err OutOfFuel
  | S fuel =>
      op ← load8 m code;
      let code := code + 1 in
      if op =? ZERO_OP then Ok (DATA_BYTE 0, code)
      else if op =? ONE_OP then Ok (DATA_BYTE 1, code)
      else if op =? ONES_OP then Ok (DATA_BYTE 0xFF, code)
      else if op =? BYTE_PREFIX then b ← load8 m code; Ok (DATA_BYTE b, code + 1)
      else if op =? WORD_PREFIX then w ← load16 m code; Ok (DATA_SHORT w, code + 2)
      else if op =? DWORD_PREFIX then w ← load32 m code; Ok (DATA_INT w, code + 4)
      else if op =? QWORD_PREFIX then w ← load64 m code; Ok (DATA_LONG w, code + 8)
      else if op =? STRING_PREFIX then '(s, code) ← parse_string fuel code; Ok (DATA_STR s, code)
      else if (op =? VAR_PACKAGE_OP) || (op =? PACKAGE_OP) then
        '(pkg_len, code) ← parse_length code;
        '(num_elements, code) ← (if op =? PACKAGE_OP then n ← load8 m code; Ok (n, code + 1)
          else '(n, code) ← term_arg_to_int fuel st ns code; Ok (u8 n, code));
        '(elements, code) ← populate_package fuel (parse_data_object fuel st ns) st ns num_elements code;
        Ok (DATA_PKG elements, code)
      else if op =? BUFFER_OP then
        '(buf_len, code) ← parse_length code;
        '(buffer_size, code) ← term_arg_to_int fuel st ns code;
        buffer ← take_bytes code (Z.to_nat buffer_size);
        Ok (DATA_BUF buffer, code + buffer_size)
      else Err Halted
  end.

(** *** defs.c: [parse_termlist] is the recursive call, [fuel] that of the
    parsers of values. *)

(** The last four bytes of a name. *)
Definition last_segment (name : list Z) : res (list Z) :=
  if (length name <? 4)%nat then Err Undefined else Ok (drop (length name - 4) name).

Section defs.
Context (fuel : nat) (parse_termlist : store → nat → Z → Z → res store).

Definition def_if_else (st : store) (ns : nat) : res store :=
  code_copy ← get_code st ns;
  '(if_len, code) ← parse_length code_copy;
  '(predicate, code) ← term_arg_to_int fuel st ns code;
  st ← set_code st ns code;
  st ← (if negb (predicate =? 0) then parse_termlist st ns code_copy (code_copy + if_len)
        else set_code st ns (code_copy + if_len));
  code ← get_code st ns;
  op ← load8 m code;
  if op =? ELSE_OP then
    let code_copy := code + 1 in
    '(else_len, code) ← parse_length code_copy;
    st ← set_code st ns code;
    st ← (if predicate =? 0 then parse_termlist st ns code_copy (code_copy + else_len) else Ok st);
    set_code st ns (code_copy + if_len)
  else Ok st.

Definition def_method (st : store) (ns : nat) : res store :=
  code_copy ← get_code st ns;
  '(len, code) ← parse_length code_copy;
  '(full_name, code) ← parse_namestring fuel code;
  flags ← load8 m code;
  let code := code + 1 in
  name ← last_segment full_name;
  '(method_ns, st) ← create_namespace st None name code;
  n ← get_ns st ns;
  scope ← (if (length full_name =? 4)%nat || (length full_name =? 5)%nat then
             first ← of_option Undefined (head full_name);
             if first =? 92 then Ok root
             else if first =? 94 then of_option Halted (parent n)
             else Ok ns
           else
             '(r, _) ← locate_object fuel st ns (take (length full_name - 4) full_name) true;
             match r with
             | Some (inl scope) => Ok scope
             | Some (inr _) => Err Undefined
             | None => Err Halted
             end);
  st ← add_child_to_namespace st scope name
         (TYPE_METHOD (Method name flags (u64 (len - (code - code_copy))) code method_ns));
  st ← set_parent st method_ns scope;
  set_code st ns (code_copy + len).

Definition def_name (st : store) (ns : nat) : res store :=
  code ← get_code st ns;
  '(name, code) ← parse_namestring fuel code;
  if negb (length name =? 4)%nat then Err Halted
  else
    '(variable, code) ← parse_data_object fuel st ns code;
    st ← set_code st ns code;
    add_child_to_namespace st ns name (TYPE_NAME name variable).

Definition def_op_region (st : store) (ns : nat) : res store :=
  code ← get_code st ns;
  '(name, code) ← parse_namestring fuel code;
  if negb (length name =? 4)%nat then Err Halted
  else
    space ← load8 m code;
    '(offset, code) ← term_arg_to_int fuel st ns (code + 1);
    '(len, code) ← term_arg_to_int fuel st ns code;
    st ← set_code st ns code;
    add_child_to_namespace st ns name (TYPE_REGION (Region name space offset len)).

(** One element: [None] when the next bytes are no field name, else what the
    code takes for its length. *)
Definition parse_next_field_elem (st : store) (ns : nat) (offset : Z) (field : aml_field_t) :
    res (option Z * store) :=
  code_copy ← get_code st ns;
  op ← load8 m code_copy;
  if op =? 0x00 then
    '(len, code) ← parse_length (code_copy + 1);
    st ← set_code st ns code; Ok (Some len, st)
  else if op =? 0x01 then st ← set_code st ns (code_copy + 3); Ok (Some 2, st)
  else if op =? 0x02 then Err Halted
  else if op =? 0x03 then st ← set_code st ns (code_copy + 4); Ok (Some 3, st)
  else
    name ← take_bytes code_copy 4;
    if negb (valid_name name) then Ok (None, st)
    else
      '(len, code) ← parse_length (code_copy + 4);
      st ← set_code st ns code;
      st ← add_child_to_namespace st ns name (TYPE_FIELD_OFFSET (NamedField offset (s32 len) name field));
      Ok (Some (code - code_copy), st).

Definition def_field (st : store) (ns : nat) : res store :=
  code_copy ← get_code st ns;
  '(field_len, code) ← parse_length code_copy;
  '(name, code) ← parse_namestring fuel code;
  '(obj, _) ← locate_object fuel st ns name false;
  flags ← load8 m code;
  r ← (match obj with
       | Some (inr (TYPE_REGION r)) => Ok r
       | Some (inl _) => Err Undefined
       | _ => Err Halted
       end);
  let field := Field (Z.land flags 0xF) (negb (Z.land flags 0x10 =? 0)) (Z.shiftr (Z.land flags 0xC0) 6) r in
  if negb (Z.land flags 0x80 =? 0) then Err Halted
  else
    st ← set_code st ns (code + 1);
    st ← iter fuel (λ '(offset, st),
           '(len, st) ← parse_next_field_elem st ns offset field;
           match len with
           | None => Ok (Done st)
           | Some len => Ok (Next (s32 (offset + len), st))
           end) (0, st);
    set_code st ns (code_copy + field_len).

Definition def_index_field (st : store) (ns : nat) : res store :=
  code_copy ← get_code st ns;
  '(index_field_len, _) ← parse_length code_copy;
  set_code st ns (code_copy + index_field_len).

Definition def_scope (st : store) (ns : nat) : res store :=
  code_copy ← get_code st ns;
  '(scope_len, code) ← parse_length code_copy;
  let end_ := code_copy + scope_len in
  '(name, code) ← parse_namestring fuel code;
  st ← set_code st ns code;
  scope ← (match name with
           | [] => Ok root
           | _ =>
               '(r, _) ← locate_object fuel st ns name true;
               match r with
               | Some (inl scope) => Ok scope
               | Some (inr _) => Err Undefined
               | None => Err Halted
               end
           end);
  st ← parse_termlist st scope code end_;
  set_code st ns end_.

(** The key is used again as [locate_object] has left it. *)
Definition def_device (st : store) (ns : nat) : res store :=
  code_copy ← get_code st ns;
  '(device_len, code) ← parse_length code_copy;
  let end_ := code_copy + device_len in
  '(name, code) ← parse_namestring fuel code;
  st ← set_code st ns code;
  '(r, name) ← locate_object fuel st ns name true;
  '(device, st) ← (match r with
    | Some (inl device) => Ok (device, st)
    | Some (inr _) => Err Undefined
    | None =>
        p ← (if (4 <? length name)%nat then
               '(r, _) ← locate_object fuel st ns (take (length name - 4) name) true;
               match r with
               | Some (inr _) => Err Undefined
               | Some (inl p) => Ok (Some p)
               | None => Ok None
               end
             else Ok (Some ns));
        key ← last_segment name;
        create_namespace st p key code
    end);
  st ← parse_termlist st device code end_;
  set_code st ns end_.

Definition def_alias (st : store) (ns : nat) : res store :=
  code ← get_code st ns;
  '(source, code) ← parse_namestring fuel code;
  '(alias, code) ← parse_namestring fuel code;
  if negb ((length source =? 4)%nat && (length alias =? 4)%nat) then Err Halted
  else
    st ← set_code st ns code;
    n ← get_ns st ns;
    match children n !! source with
    | None => Err Halted
    | Some r => add_child_to_namespace st ns alias r
    end.

(** [memcpy(mutex->name, mutex_name + mutex_name->count - KEY_LEN, KEY_LEN)]
    copies from the structure of the name, which starts with its length. *)
Definition def_mutex (st : store) (ns : nat) : res store :=
  code ← get_code st ns;
  '(name, code) ← parse_namestring fuel code;
  if negb (length name =? 4)%nat then Err Halted
  else
    flags ← load8 m code;
    st ← set_code st ns (code + 1);
    let key := [Z.of_nat (length name); 0; 0; 0] in
    add_child_to_namespace st ns key (TYPE_MUTEX key flags).

Definition def_create_word_field (st : store) (ns : nat) : res store :=
  code ← get_code st ns;
  '(buffer, code) ← term_arg_to_buffer fuel st ns code;
  '(byte_index, code) ← term_arg_to_int fuel st ns code;
  '(name, code) ← parse_namestring fuel code;
  if negb (length name =? 4)%nat then Err Halted
  else
    st ← set_code st ns code;
    add_child_to_namespace st ns name (TYPE_WORD_FIELD name buffer byte_index).

(** The case of processors, which the one of word fields runs into. *)
Definition skip_package (st : store) (ns : nat) : res store :=
  copy ← get_code st ns;
  '(len, _) ← parse_length copy;
  set_code st ns (copy + len).

(** The [switch] of [parse_next]; two-byte opcodes have the prefix above. *)
Definition dispatch (op : Z) (st : store) (ns : nat) : res store :=
  let ext (b : Z) := Z.lor (Z.shiftl EXT_OP_PREFIX 8) b in
  if op =? IF_OP then def_if_else st ns
  else if op =? NAME_OP then def_name st ns
  else if op =? METHOD_OP then def_method st ns
  else if op =? ext EXT_OP_REGION_OP then def_op_region st ns
  else if op =? ext EXT_FIELD_OP then def_field st ns
  else if op =? ext EXT_INDEX_FIELD_OP then def_index_field st ns
  else if op =? SCOPE_OP then def_scope st ns
  else if op =? ext EXT_DEVICE_OP then def_device st ns
  else if op =? ext EXT_MUTEX_OP then def_mutex st ns
  else if op =? ALIAS_OP then def_alias st ns
  else if op =? CREATE_WORDFIELD_OP then st ← def_create_word_field st ns; skip_package st ns
  else if op =? ext 0x83 then skip_package st ns
  else Err Halted.
End defs.

Fixpoint parse_next (fuel : nat) (st : store) (ns : nat) : res store :=
  match fuel with
  | O => Err OutOfFuel
  | S fuel =>
      let parse_termlist (st : store) (ns : nat) (start end_ : Z) : res store :=
        copy ← get_code st ns;
        st ← set_code st ns start;
        st ← iter fuel (λ st,
               code ← get_code st ns;
               if code <? end_ then st ← parse_next fuel st ns; Ok (Next st) else Ok (Done st)) st;
        set_code st ns copy in
      code ← get_code st ns;
      b ← load8 m code;
      '(op, code) ← (if b =? EXT_OP_PREFIX
        then c ← load8 m (code + 1); Ok (Z.lor (Z.shiftl EXT_OP_PREFIX 8) c, code + 2)
        else Ok (b, code + 1));
      st ← set_code st ns code;
      dispatch fuel parse_termlist op st ns
  end.

Definition parse_termlist (fuel : nat) (st : store) (ns : nat) (start end_ : Z) : res store :=
  copy ← get_code st ns;
  st ← set_code st ns start;
  st ← iter fuel (λ st,
         code ← get_code st ns;
         if code <? end_ then st ← parse_next fuel st ns; Ok (Next st) else Ok (Done st)) st;
  set_code st ns copy.

(** [data] is the address behind the header, [length] the length field. *)
Definition parse_table (fuel : nat) (st : store) (data length : Z) : res store :=
  st ← set_code st root data;
  parse_termlist fuel st root data (data + u32 (length - 36)).

(** *** interface.c *)

Definition execute_method (fuel : nat) (st : store) (method : aml_method_t) : res store :=
  parse_termlist fuel st (method_scope method) (method_code method) (method_code method + method_len method).
End values.

Definition variable_to_int (variable : aml_variable) : Z :=
  match variable with
  | DATA_BYTE v | DATA_INT v | DATA_SHORT v | DATA_LONG v => v
  | _ => UINT64_MAX
  end.

Definition ACPI_SLEEP : Z := 2 ^ 13.

(** The words written to the two control registers of the FADT. *)
Definition execute_sleep (st : store) (fadt_flags pm1a_control_block pm1b_control_block state : Z) :
    res (list (Z * Z)) :=
  if negb (state =? 5) then Err Halted
  else
    n ← get_ns st root;
    match children n !! [95; 83; 53; 95] with
    | Some (TYPE_NAME _ (DATA_PKG elements)) =>
        a ← of_option Undefined (elements !! 0%nat);
        b ← of_option Undefined (elements !! 1%nat);
        let slp_typa := variable_to_int a in
        let slp_typb := variable_to_int b in
        if (slp_typa =? UINT64_MAX) || (slp_typb =? UINT64_MAX) then Err Halted
        else if negb (Z.land fadt_flags (2 ^ 20) =? 0) then Err Halted
        else Ok [(u16 pm1a_control_block, u16 (Z.lor (Z.shiftl slp_typa 10) ACPI_SLEEP));
                 (u16 pm1b_control_block, u16 (Z.lor (Z.shiftl slp_typb 10) ACPI_SLEEP))]
    | _ => Err Halted
    end.
