(* ===== verification/AmlCorrect.v ===== *)
(** * What the AML front end promises

    Reference encodings of package lengths, integer terms, data objects and
    tables of names, written from the standard; the parsers of Aml.v read them
    back.  [finds] and [evals] give scoping and evaluation as rules.  Results
    hold for every fuel above a bound that depends on the byte code. *)
From S2P Require Import Prelude LibString Aml.

(** ** The reference encodings *)

(** A package length below [2^28], in as few bytes as possible. *)
Definition encode_length (n : Z) : list Z :=
  if n <? 2 ^ 6 then [n]
  else if n <? 2 ^ 12 then [0x40 + n mod 16; n / 16]
  else if n <? 2 ^ 20 then [0x80 + n mod 16; n / 16 mod 256; n / 2 ^ 12]
  else [0xC0 + n mod 16; n / 16 mod 256; n / 2 ^ 12 mod 256; n / 2 ^ 20].

(** A body behind its package length, which counts itself. *)
Definition with_length (body : list Z) : list Z :=
  let n := Z.of_nat (length body) in
  encode_length (if n + 1 <? 2 ^ 6 then n + 1 else if n + 2 <? 2 ^ 12 then n + 2
                 else if n + 3 <? 2 ^ 20 then n + 3 else n + 4) ++ body.

(** Integer terms. *)
Inductive expr :=
| EZero | EOne | EOnes | EByte (b : Z) | EWord (w : Z) | EDWord (d : Z)
| ELNot (e : expr) | ELEqual (a b : expr) | ELAnd (a b : expr) | ELLess (a b : expr) | ELGreater (a b : expr)
| EName (seg : list Z).

Fixpoint encode_expr (e : expr) : list Z :=
  match e with
  | EZero => [ZERO_OP]
  | EOne => [ONE_OP]
  | EOnes => [ONES_OP]
  | EByte b => [BYTE_PREFIX; b]
  | EWord w => WORD_PREFIX :: le_bytes 2 w
  | EDWord d => DWORD_PREFIX :: le_bytes 4 d
  | ELNot e => LNOT_OP :: encode_expr e
  | ELEqual a b => LEQUAL_OP :: encode_expr a ++ encode_expr b
  | ELAnd a b => LAND_OP :: encode_expr a ++ encode_expr b
  | ELLess a b => LLESS_OP :: encode_expr a ++ encode_expr b
  | ELGreater a b => LGREATER_OP :: encode_expr a ++ encode_expr b
  | EName seg => seg
  end.

(** A name segment. *)
Definition segment (seg : list Z) : Prop := length seg = 4%nat ∧ forallb name_char seg = true ∧ Forall is_byte seg.

(** Lookup from a namespace outwards. *)
Inductive finds (st : store) (key : list Z) (namespace : bool) : nat → nat + aml_ptr_t → Prop :=
| finds_here ns n p : st !! ns = Some n → lookup_in n namespace key = Some p → finds st key namespace ns p
| finds_outside ns n ns' p :
    st !! ns = Some n → lookup_in n namespace key = None → parent n = Some ns' →
    finds st key namespace ns' p → finds st key namespace ns p.

Inductive evals (rp ri : Z → Z → Z) (st : store) (ns : nat) : expr → Z → Prop :=
| evals_zero : evals rp ri st ns EZero 0
| evals_one : evals rp ri st ns EOne 1
| evals_ones : evals rp ri st ns EOnes (2 ^ 64 - 1)
| evals_byte b : is_byte b → evals rp ri st ns (EByte b) b
| evals_word w : 0 ≤ w < 2 ^ 16 → evals rp ri st ns (EWord w) w
| evals_dword d : 0 ≤ d < 2 ^ 32 → evals rp ri st ns (EDWord d) d
| evals_not e v : evals rp ri st ns e v → evals rp ri st ns (ELNot e) (if decide (v = 0) then 1 else 0)
| evals_equal a b v w : evals rp ri st ns a v → evals rp ri st ns b w →
    evals rp ri st ns (ELEqual a b) (if decide (v = w) then 1 else 0)
| evals_and a b v w : evals rp ri st ns a v → evals rp ri st ns b w →
    evals rp ri st ns (ELAnd a b) (if decide (v ≠ 0 ∧ w ≠ 0) then 1 else 0)
| evals_less a b v w : evals rp ri st ns a v → evals rp ri st ns b w →
    evals rp ri st ns (ELLess a b) (if decide (v < w) then 1 else 0)
| evals_greater a b v w : evals rp ri st ns a v → evals rp ri st ns b w →
    evals rp ri st ns (ELGreater a b) (if decide (w < v) then 1 else 0)
| evals_name seg obj v : segment seg → finds st seg false ns (inr obj) → object_to_int rp ri obj = Ok v →
    evals rp ri st ns (EName seg) v.

(** Constant data; names in packages are left out. *)
Fixpoint encode_data (d : aml_variable) : list Z :=
  match d with
  | DATA_UNINIT _ => []
  | DATA_BYTE b => [BYTE_PREFIX; b]
  | DATA_SHORT w => WORD_PREFIX :: le_bytes 2 w
  | DATA_INT w => DWORD_PREFIX :: le_bytes 4 w
  | DATA_LONG w => QWORD_PREFIX :: le_bytes 8 w
  | DATA_STR s => STRING_PREFIX :: s ++ [0]
  | DATA_PKG ds => PACKAGE_OP :: with_length (Z.of_nat (length ds) :: concat (map encode_data ds))
  | DATA_BUF bs => BUFFER_OP :: with_length (encode_expr (EDWord (Z.of_nat (length bs))) ++ bs)
  end.

Inductive data_ok : aml_variable → Prop :=
| byte_ok b : is_byte b → data_ok (DATA_BYTE b)
| short_ok w : 0 ≤ w < 2 ^ 16 → data_ok (DATA_SHORT w)
| int_ok' w : 0 ≤ w < 2 ^ 32 → data_ok (DATA_INT w)
| long_ok w : 0 ≤ w < 2 ^ 64 → data_ok (DATA_LONG w)
| str_ok s : Forall (λ b, 0 < b < 256) s → data_ok (DATA_STR s)
| pkg_ok ds : Forall data_ok ds → (length ds < 256)%nat →
    Z.of_nat (length (concat (map encode_data ds))) < 2 ^ 28 - 5 → data_ok (DATA_PKG ds)
| buf_ok bs : Forall is_byte bs → Z.of_nat (length bs) < 2 ^ 28 - 9 → data_ok (DATA_BUF bs).

(** ** Lemmas *)

Section lengths.
Context (m : mem).

Lemma lead_byte k lo : 0 ≤ k < 4 → 0 ≤ lo < 64 →
  Z.land (Z.shiftr (64 * k + lo) 6) 3 = k ∧ Z.land (64 * k + lo) 0x3F = lo.
Proof.
  intros Hk Hl. rewrite (land_mask 6), (land_mask 2), Z.shiftr_div_pow2 by lia. change (2 ^ 6) with 64. change (2 ^ 2) with 4.
  rewrite (Z.mul_comm 64), Z.add_comm, Z.div_add, (Z.div_small lo 64), Z.add_0_l, (Z.mod_small k) by lia.
  rewrite Z_mod_plus_full, Z.mod_small by lia. done.
Qed.

Lemma parse_length_encode n code :
  0 ≤ n < 2 ^ 28 → bytes_at m code (encode_length n) →
  parse_length m code = Ok (n, code + Z.of_nat (length (encode_length n))).
Proof.
  intros Hn Hb. unfold parse_length. unfold encode_length in *.
  pose proof (Z.mod_pos_bound n 16) as Hlo.
  assert (E16 : n = 16 * (n / 16) + n mod 16) by (apply Z.div_mod; lia).
  assert (Hdd : n / 16 / 256 = n / 2 ^ 12) by (rewrite Z.div_div by lia; done).
  assert (Hdd2 : n / 2 ^ 12 / 256 = n / 2 ^ 20) by (rewrite Z.div_div by lia; done).
  pose proof (Z.div_mod (n / 16) 256) as D1. pose proof (Z.div_mod (n / 2 ^ 12) 256) as D2.
  pose proof (Z.mod_pos_bound (n / 16) 256). pose proof (Z.mod_pos_bound (n / 2 ^ 12) 256).
  destruct (Z.ltb_spec n (2 ^ 6)); [|destruct (Z.ltb_spec n (2 ^ 12)); [|destruct (Z.ltb_spec n (2 ^ 20))]].
  - apply bytes_at_cons in Hb as [Hb _]. rewrite (proj2 (load8_Ok _ _ _) Hb). simpl_res.
    destruct (lead_byte 0 n) as [E1 E2]; [lia..|]. rewrite Z.mul_0_r, Z.add_0_l in E1, E2. by rewrite E1, E2.
  - apply bytes_at_cons in Hb as [Hb0 Hb]. apply bytes_at_cons in Hb as [Hb1 _].
    rewrite (proj2 (load8_Ok _ _ _) Hb0). simpl_res. change 0x40 with (64 * 1).
    destruct (lead_byte 1 (n mod 16)) as [-> ->]; [lia..|]. cbn [Z.eqb]. rewrite (proj2 (load8_Ok _ _ _) Hb1). simpl_res.
    rewrite lor_shiftl_add by lia. do 2 f_equal. lia.
  - apply bytes_at_cons in Hb as [Hb0 Hb]. apply bytes_at_cons in Hb as [Hb1 Hb]. apply bytes_at_cons in Hb as [Hb2 _].
    rewrite (proj2 (load8_Ok _ _ _) Hb0). simpl_res. change 0x80 with (64 * 2).
    destruct (lead_byte 2 (n mod 16)) as [-> ->]; [lia..|]. cbn [Z.eqb]. rewrite (proj2 (load8_Ok _ _ _) Hb1). simpl_res.
    replace (code + 2) with (code + 1 + 1) by lia. rewrite (proj2 (load8_Ok _ _ _) Hb2). simpl_res.
    rewrite (lor_shiftl_add 4) by lia. rewrite lor_shiftl_add by lia. do 2 f_equal. lia.
  - apply bytes_at_cons in Hb as [Hb0 Hb]. apply bytes_at_cons in Hb as [Hb1 Hb]. apply bytes_at_cons in Hb as [Hb2 Hb].
    apply bytes_at_cons in Hb as [Hb3 _].
    rewrite (proj2 (load8_Ok _ _ _) Hb0). simpl_res. change 0xC0 with (64 * 3).
    destruct (lead_byte 3 (n mod 16)) as [-> ->]; [lia..|]. cbn [Z.eqb]. rewrite (proj2 (load8_Ok _ _ _) Hb1). simpl_res.
    replace (code + 2) with (code + 1 + 1) by lia. rewrite (proj2 (load8_Ok _ _ _) Hb2). simpl_res.
    replace (code + 3) with (code + 1 + 1 + 1) by lia. rewrite (proj2 (load8_Ok _ _ _) Hb3). simpl_res.
    rewrite (lor_shiftl_add 4), (lor_shiftl_add 12) by lia. rewrite lor_shiftl_add by lia. do 2 f_equal. lia.
Qed.
End lengths.

(** [unfold_ops]: the opcodes as numbers. *)
Ltac unfold_ops :=
  unfold EXT_OP_PREFIX, BYTE_PREFIX, WORD_PREFIX, DWORD_PREFIX, QWORD_PREFIX, STRING_PREFIX, ZERO_OP, ONE_OP,
    ONES_OP, LNOT_OP, LEQUAL_OP, LAND_OP, LLESS_OP, LGREATER_OP, BUFFER_OP, PACKAGE_OP, VAR_PACKAGE_OP, ALIAS_OP,
    NAME_OP, SCOPE_OP, IF_OP, ELSE_OP, METHOD_OP, CREATE_WORDFIELD_OP in *.

(** [enough f]: all larger fuels do. *)
Definition enough {A : Type} (run : nat → res A) (r : A) : Prop :=
  ∃ f0, ∀ fuel, (f0 ≤ fuel)%nat → run fuel = Ok r.

Lemma name_char_range b : is_byte b → name_char b = true → 48 ≤ b ≤ 57 ∨ 65 ≤ b ≤ 90 ∨ b = 95.
Proof.
  unfold is_byte, name_char. intros Hb Hc.
  assert (E : s8 b = if b <? 128 then b else b - 256).
  { unfold s8, swrap. change (2 ^ 8) with 256. change (2 ^ (8 - 1)) with 128. by rewrite Z.mod_small by lia. }
  rewrite E in Hc. destruct (Z.ltb_spec b 128); lia.
Qed.

Lemma segment_cons seg :
  segment seg → ∃ a b c d, seg = [a; b; c; d] ∧ (48 ≤ a ≤ 57 ∨ 65 ≤ a ≤ 90 ∨ a = 95).
Proof.
  intros (Hl & Hc & Hb). destruct seg as [|a [|b [|c [|d [|e seg]]]]]; try discriminate Hl.
  exists a, b, c, d. split; [done|]. cbn [forallb] in Hc. apply andb_prop in Hc as [Hc _].
  apply Forall_cons in Hb as [Hb _]. by apply name_char_range.
Qed.

Lemma segment_valid seg : segment seg → valid_name seg = true.
Proof.
  intros Hs. destruct (segment_cons seg Hs) as (a & b & c & d & -> & Ha). destruct Hs as (_ & Hc & _).
  unfold valid_name. by rewrite !(proj2 (Z.eqb_neq a _)) by lia.
Qed.

Lemma stage3_finds st key namespace ns p :
  finds st key namespace ns p → enough (λ fuel, stage3 fuel st ns key namespace) (Some p).
Proof.
  induction 1 as [ns n p Hn Hl|ns n ns' p Hn Hl Hp _ [f0 IH]].
  - exists 1%nat. intros [|fuel] Hf; [lia|]. unfold stage3. cbn [iter]. unfold get_ns. rewrite Hn. simpl_res.
    by rewrite Hl.
  - exists (S f0). intros [|fuel] Hf; [lia|]. assert (E : get_ns st ns = Ok n) by (unfold get_ns; by rewrite Hn).
    etransitivity; [|apply (IH fuel); lia]. unfold stage3. cbn [iter]. rewrite E. simpl_res.
    rewrite Hl. simpl_res. by rewrite Hp.
Qed.

Lemma locate_segment st seg namespace ns p :
  segment seg → finds st seg namespace ns p →
  enough (λ fuel, locate_object fuel st ns seg namespace) (Some p, seg).
Proof.
  intros Hs Hf. destruct (stage3_finds _ _ _ _ _ Hf) as [f0 H0]. exists f0. intros fuel Hfuel.
  unfold locate_object. rewrite segment_valid by done. destruct Hs as (-> & _). cbn [negb].
  change (Z.of_nat 4 =? 1) with false. change (Z.of_nat 4 =? KEY_LEN) with true. by rewrite H0.
Qed.

Lemma take_bytes_at m code bs : bytes_at m code bs → take_bytes m code (length bs) = Ok bs.
Proof. intros Hb. unfold take_bytes. by rewrite (proj2 (read_bytes_at m code (length bs) bs)). Qed.

Section terms.
Context (m : mem) (rp ri : Z → Z → Z) (st : store) (ns : nat).

Abbreviation evaluates code e v :=
  (enough (λ fuel, term_arg_to_int m rp ri fuel st ns code) (v, code + Z.of_nat (length (encode_expr e)))).

Lemma bytes_at_tail code b bs : bytes_at m code (b :: bs) → load8 m code = Ok b ∧ bytes_at m (code + 1) bs.
Proof. intros Hb. apply bytes_at_cons in Hb as [Hb Hb']. split; [by apply load8_Ok|done]. Qed.

(** An operator and its two operands. *)
Lemma two_operands op (f : Z → Z → Z) code a b v w r :
  bytes_at m code (op :: encode_expr a ++ encode_expr b) →
  (∀ code, bytes_at m code (encode_expr a) → evaluates code a v) →
  (∀ code, bytes_at m code (encode_expr b) → evaluates code b w) →
  (∀ fuel c, load8 m c = Ok op → term_arg_to_int m rp ri (S fuel) st ns c =
     ('(term1, code) ← term_arg_to_int m rp ri fuel st ns (c + 1);
      '(term2, code) ← term_arg_to_int m rp ri fuel st ns code; Ok (f term1 term2, code))) →
  r = f v w →
  enough (λ fuel, term_arg_to_int m rp ri fuel st ns code)
    (r, code + Z.of_nat (length (op :: encode_expr a ++ encode_expr b))).
Proof.
  intros Hb Ha Hb' Hop ->. destruct (bytes_at_tail _ _ _ Hb) as [E Ht].
  apply bytes_at_app in Ht as [Hta Htb]. destruct (Ha _ Hta) as [f1 H1], (Hb' _ Htb) as [f2 H2].
  exists (S (f1 + f2)). intros [|fuel] Hf; [lia|]. rewrite Hop by done. rewrite H1 by lia. simpl_res.
  rewrite H2 by lia. simpl_res. do 2 f_equal. cbn [length]. rewrite length_app. lia.
Qed.

Lemma term_arg_evaluates e v code :
  evals rp ri st ns e v → bytes_at m code (encode_expr e) → evaluates code e v.
Proof.
  intros He. revert code. induction He as [| | |b Hb|w Hw|d Hd|e v _ IH|a b v w _ IHa _ IHb|a b v w _ IHa _ IHb
    |a b v w _ IHa _ IHb|a b v w _ IHa _ IHb|seg obj v Hs Hf Hv]; intros code Hc; cbn [encode_expr] in *.
  - destruct (bytes_at_tail _ _ _ Hc) as [E _]. exists 1%nat. intros [|fuel] Hfu; [lia|]. cbn [term_arg_to_int].
    by rewrite E.
  - destruct (bytes_at_tail _ _ _ Hc) as [E _]. exists 1%nat. intros [|fuel] Hfu; [lia|]. cbn [term_arg_to_int].
    by rewrite E.
  - destruct (bytes_at_tail _ _ _ Hc) as [E _]. exists 1%nat. intros [|fuel] Hfu; [lia|]. cbn [term_arg_to_int].
    by rewrite E.
  - destruct (bytes_at_tail _ _ _ Hc) as [E Hc1]. destruct (bytes_at_tail _ _ _ Hc1) as [E1 _].
    exists 1%nat. intros [|fuel] Hfu; [lia|]. cbn [term_arg_to_int]. rewrite E. simpl_res. cbn.
    by rewrite E1.
  - destruct (bytes_at_tail _ _ _ Hc) as [E Hc1]. exists 1%nat. intros [|fuel] Hfu; [lia|]. cbn [term_arg_to_int].
    rewrite E. simpl_res. cbn -[load16 le_bytes]. unfold load16. rewrite (load_le_bytes 2 m (code + 1) w) by done. done.
  - destruct (bytes_at_tail _ _ _ Hc) as [E Hc1]. exists 1%nat. intros [|fuel] Hfu; [lia|]. cbn [term_arg_to_int].
    rewrite E. simpl_res. cbn -[load32 le_bytes]. unfold load32. rewrite (load_le_bytes 4 m (code + 1) d) by done. done.
  - destruct (bytes_at_tail _ _ _ Hc) as [E Hc1]. destruct (IH _ Hc1) as [f0 H0].
    exists (S f0). intros [|fuel] Hfu; [lia|]. cbn [term_arg_to_int]. rewrite E. simpl_res.
    cbn -[term_arg_to_int]. rewrite H0 by lia. simpl_res.
    do 2 f_equal; [|cbn [length]; lia]. unfold bool_int. case_decide; destruct (Z.eqb_spec v 0); lia.
  - apply (two_operands LEQUAL_OP (λ a b, bool_int (a =? b)) code a b v w); try done.
    + intros fuel c E. cbn [term_arg_to_int]. rewrite E. done.
    + unfold bool_int. case_decide; destruct (Z.eqb_spec v w); lia.
  - apply (two_operands LAND_OP (λ a b, bool_int (negb (a =? 0) && negb (b =? 0))) code a b v w); try done.
    + intros fuel c E. cbn [term_arg_to_int]. rewrite E. done.
    + unfold bool_int. case_decide; destruct (Z.eqb_spec v 0), (Z.eqb_spec w 0); cbn [negb andb]; lia.
  - apply (two_operands LLESS_OP (λ a b, bool_int (a <? b)) code a b v w); try done.
    + intros fuel c E. cbn [term_arg_to_int]. rewrite E. done.
    + unfold bool_int. case_decide; destruct (Z.ltb_spec v w); lia.
  - apply (two_operands LGREATER_OP (λ a b, bool_int (b <? a)) code a b v w); try done.
    + intros fuel c E. cbn [term_arg_to_int]. rewrite E. done.
    + unfold bool_int. case_decide; destruct (Z.ltb_spec w v); lia.
  - destruct (locate_segment _ _ _ _ _ Hs Hf) as [f0 H0]. exists (S f0). intros [|fuel] Hfu; [lia|].
    destruct (segment_cons seg Hs) as (a & b & c & d & -> & Ha). destruct (bytes_at_tail _ _ _ Hc) as [E _].
    cbn [term_arg_to_int]. rewrite E. simpl_res. unfold_ops. rewrite !(proj2 (Z.eqb_neq a _)) by lia.
    change 4%nat with (length [a; b; c; d]). rewrite take_bytes_at by done. simpl_res. rewrite H0 by lia. simpl_res.
    by rewrite Hv.
Qed.
End terms.

(** ** Data objects *)

Lemma with_length_parse m code body :
  Z.of_nat (length body) < 2 ^ 28 - 4 → bytes_at m code (with_length body) →
  ∃ k c, parse_length m code = Ok (k, c) ∧ bytes_at m c body ∧
    code + k = code + Z.of_nat (length (with_length body)) ∧
    c + Z.of_nat (length body) = code + Z.of_nat (length (with_length body)).
Proof.
  intros Hlen Hb. unfold with_length in *.
  set (n := Z.of_nat (length body)) in *. set (k := if n + 1 <? 2 ^ 6 then _ else _) in *.
  apply bytes_at_app in Hb as [He Hb]. exists k, (code + Z.of_nat (length (encode_length k))).
  assert (Hk : 0 ≤ k < 2 ^ 28 ∧ k = Z.of_nat (length (encode_length k)) + n).
  { unfold k, encode_length. repeat match goal with |- context [?a <? ?b] => destruct (Z.ltb_spec a b) end; cbn [length]; lia. }
  rewrite length_app, Nat2Z.inj_add. fold n. split; [apply parse_length_encode; tauto|]. split; [done|]. fold n. lia.
Qed.

Lemma parse_string_reads m code s :
  Forall (λ b, 0 < b < 256) s → bytes_at m code (s ++ [0]) →
  enough (λ fuel, parse_string m fuel code) (s, code + Z.of_nat (length s) + 1).
Proof.
  intros Hs Hb. unfold parse_string.
  enough (G : ∀ acc, enough (λ fuel, iter fuel (λ '(code, s), b ← load8 m code;
      if b =? 0 then Ok (Done (s, code + 1)) else Ok (Next (code + 1, s ++ [b]))) (code, acc))
      (acc ++ s, code + Z.of_nat (length s) + 1)) by apply (G []).
  revert code Hb. induction Hs as [|b s Hb Hs IH]; intros code Hm acc; cbn [app] in Hm; apply bytes_at_tail in Hm as [E Hm].
  - exists 1%nat. intros [|fuel] Hf; [lia|]. cbn [iter]. rewrite E. simpl_res. cbn. rewrite app_nil_r. do 2 f_equal. lia.
  - destruct (IH (code + 1) Hm (acc ++ [b])) as [f0 H0]. exists (S f0). intros [|fuel] Hf; [lia|]. etransitivity.
    + cbn [iter]. rewrite E. simpl_res. rewrite (proj2 (Z.eqb_neq b 0)) by lia. apply H0. lia.
    + rewrite <- app_assoc. cbn [length app]. do 2 f_equal. lia.
Qed.

(** A byte below '0' that is no prefix of names is not read as a name. *)
Lemma no_name m code b bs fuel :
  0 < b < 0x2E → (4 ≤ length (b :: bs))%nat → (0 < fuel)%nat → bytes_at m code (b :: bs) →
  ∃ name, parse_namestring m fuel code = Ok (name, code + 4) ∧ valid_name name = false.
Proof.
  intros Hb Hl Hf Hm. destruct (bytes_at_tail _ _ _ _ Hm) as [E _]. destruct fuel as [|fuel]; [lia|].
  destruct bs as [|c [|d [|e bs]]]; cbn [length] in Hl; try lia. exists [b; c; d; e].
  change (b :: c :: d :: e :: bs) with ([b; c; d; e] ++ bs) in Hm. apply bytes_at_app in Hm as [Hm _]. split.
  - unfold parse_namestring, skip_prefix. cbn [iter]. rewrite E. simpl_res.
    rewrite !(proj2 (Z.eqb_neq b _)) by lia. cbn [orb]. simpl_res. rewrite E. simpl_res.
    rewrite !(proj2 (Z.eqb_neq b _)) by lia. simpl_res.
    change (Z.to_nat (1 * KEY_LEN)) with (length [b; c; d; e]). by rewrite take_bytes_at.
  - unfold valid_name. rewrite !(proj2 (Z.eqb_neq b _)) by lia. cbn [orb forallb].
    assert (name_char b = false) as ->; [|done]. apply not_true_iff_false. intros Hc.
    apply name_char_range in Hc; unfold is_byte; lia.
Qed.

Lemma encode_data_lead d :
  data_ok d → ∃ b bs, encode_data d = b :: bs ∧ 0 < b < 0x2E ∧ bs ≠ [].
Proof.
  intros [| | | | | |]; cbn [encode_data le_bytes]; (eexists _, _; split; [done|split]); try (unfold_ops; lia); try done.
  - destruct s; done.
  - unfold with_length, encode_length. by repeat case_match.
  - unfold with_length, encode_length. by repeat case_match.
Qed.

Section data.
Context (m : mem) (rp ri : Z → Z → Z) (st : store) (ns : nat).

(** [d] is read back wherever two more bytes are mapped behind it. *)
Abbreviation reads_back d :=
  (∀ code pad, (2 ≤ length pad)%nat → bytes_at m code (encode_data d ++ pad) →
     enough (λ fuel, parse_data_object m rp ri fuel st ns code) (d, code + Z.of_nat (length (encode_data d)))).

Lemma populate_reads ds code pad :
  Forall data_ok ds → Forall (λ d, reads_back d) ds → (2 ≤ length pad)%nat →
  bytes_at m code (concat (map encode_data ds) ++ pad) →
  enough (λ fuel, populate_package m fuel (parse_data_object m rp ri fuel st ns) st ns (Z.of_nat (length ds)) code)
    (ds, code + Z.of_nat (length (concat (map encode_data ds)))).
Proof.
  intros Hok Hrd Hpad Hm. unfold populate_package. rewrite Nat2Z.id.
  match goal with |- enough (λ fuel, iter _ (@?body fuel) _) _ =>
    enough (G : ∀ done_ ds code, Forall data_ok ds → Forall (λ d, reads_back d) ds →
      bytes_at m code (concat (map encode_data ds) ++ pad) → ∀ total, total = Z.of_nat (length done_ + length ds) →
      enough (λ fuel, iter (S (length ds)) (λ '(i, elements, code),
          if i <? total then
            '(name, after) ← parse_namestring m fuel code;
            '(variable, code) ← (if negb (valid_name name) || bool_decide (name = [])
              then parse_data_object m rp ri fuel st ns code
              else s ← resolve_name fuel st ns name; Ok (DATA_UNINIT s, after));
            Ok (Next (i + 1, elements ++ [variable], code))
          else Ok (Done (elements, code))) (Z.of_nat (length done_), done_, code))
        (done_ ++ ds, code + Z.of_nat (length (concat (map encode_data ds)))))
      by (apply (G [] ds code); auto)
  end.
  clear - Hpad. intros done_ ds. revert done_. induction ds as [|d ds IH]; intros done_ code Hok Hrd Hm total ->.
  - exists 0%nat. intros fuel _. cbn [length iter]. rewrite (proj2 (Z.ltb_ge _ _)) by lia.
    cbn. rewrite app_nil_r. do 2 f_equal. lia.
  - apply Forall_cons in Hok as [Hd Hok], Hrd as [Hrd1 Hrd].
    cbn [map concat] in Hm. rewrite <- app_assoc in Hm. pose proof Hm as Hm'. apply bytes_at_app in Hm' as [_ Hm'].
    destruct (IH (done_ ++ [d]) _ Hok Hrd Hm' (Z.of_nat (length done_ + length (d :: ds)))) as [f1 H1].
    { rewrite length_app. cbn [length]. lia. }
    destruct (Hrd1 code (concat (map encode_data ds) ++ pad) ltac:(rewrite length_app; lia) Hm) as [f2 H2].
    destruct (encode_data_lead d Hd) as (b & bs & Ed & Hb & Hbs).
    exists (S (f1 + f2)). intros fuel Hf. etransitivity; [|etransitivity; [apply (H1 fuel); lia|]].
    + destruct (no_name m code b (bs ++ concat (map encode_data ds) ++ pad) fuel) as (name & En & Hv);
        [done|destruct bs; [done|]; cbn [length app]; rewrite !length_app; lia|lia|by rewrite Ed in Hm|].
      cbn [iter length]. rewrite (proj2 (Z.ltb_lt _ _)) by lia. rewrite En. simpl_res. rewrite Hv. cbn [negb orb].
      rewrite H2 by lia. simpl_res.
      assert (Z.of_nat (length (done_ ++ [d])) = Z.of_nat (length done_) + 1) as -> by (rewrite length_app; cbn [length]; lia).
      reflexivity.
    + rewrite <- app_assoc. cbn [map concat app]. rewrite length_app. do 2 f_equal. lia.
Qed.

Lemma encode_data_element ds d :
  d ∈ ds → (length (encode_data d) < length (encode_data (DATA_PKG ds)))%nat.
Proof.
  intros Hd. cbn [encode_data]. unfold with_length. rewrite length_cons, length_app. cbn [length].
  apply list_elem_of_split in Hd as (l1 & l2 & ->). rewrite map_app, concat_app. cbn [map concat].
  rewrite !length_app. lia.
Qed.

Lemma parse_data_object_reads d code pad :
  data_ok d → (2 ≤ length pad)%nat → bytes_at m code (encode_data d ++ pad) →
  enough (λ fuel, parse_data_object m rp ri fuel st ns code) (d, code + Z.of_nat (length (encode_data d))).
Proof.
  intros Hd Hpad. revert code pad Hpad.
  induction d as [d IH] using (induction_ltof1 _ (λ d, length (encode_data d))). unfold ltof in IH.
  intros code pad Hpad Hm. destruct Hd as [b Hb|w Hw|w Hw|w Hw|s Hs|ds Hds Hn Hlen|bs Hbs Hlen].
  all: cbn [encode_data app] in Hm; apply bytes_at_tail in Hm as [E Hm]; rewrite ?app_comm_cons in Hm.
  - apply bytes_at_tail in Hm as [E1 _]. exists 1%nat. intros [|fuel] Hf; [lia|]. cbn [parse_data_object].
    rewrite E. simpl_res. cbn. rewrite E1. simpl_res. do 2 f_equal. lia.
  - apply bytes_at_app in Hm as [Hm _]. exists 1%nat. intros [|fuel] Hf; [lia|]. cbn [parse_data_object].
    rewrite E. simpl_res. cbn -[load16 le_bytes]. unfold load16. rewrite (load_le_bytes 2 m _ w) by done.
    simpl_res. do 2 f_equal. cbn. lia.
  - apply bytes_at_app in Hm as [Hm _]. exists 1%nat. intros [|fuel] Hf; [lia|]. cbn [parse_data_object].
    rewrite E. simpl_res. cbn -[load32 le_bytes]. unfold load32. rewrite (load_le_bytes 4 m _ w) by done.
    simpl_res. do 2 f_equal. cbn. lia.
  - apply bytes_at_app in Hm as [Hm _]. exists 1%nat. intros [|fuel] Hf; [lia|]. cbn [parse_data_object].
    rewrite E. simpl_res. cbn -[load64 le_bytes]. unfold load64. rewrite (load_le_bytes 8 m _ w) by done.
    simpl_res. do 2 f_equal. cbn. lia.
  - apply bytes_at_app in Hm as [Hm _]. destruct (parse_string_reads m (code + 1) s Hs Hm) as [f0 H0].
    exists (S f0). intros [|fuel] Hf; [lia|]. cbn [parse_data_object]. rewrite E. simpl_res.
    cbn -[parse_string]. rewrite H0 by lia. simpl_res. do 2 f_equal. rewrite length_app. cbn [length]. lia.
  - pose proof Hm as Hm'. apply bytes_at_app in Hm' as [Hl _].
    destruct (with_length_parse m (code + 1) (Z.of_nat (length ds) :: concat (map encode_data ds)) ltac:(cbn [length]; lia) Hl) as (k & c & Ek & Hc & _ & Ec).
    cbn [length] in Ec. rewrite bytes_at_app in Hm. destruct Hm as [_ Hp]. rewrite <- Ec in Hp.
    apply bytes_at_tail in Hc as [En Hc].
    destruct (populate_reads ds (c + 1) pad) as [f0 H0]; [done| |done| |].
    + apply Forall_forall. intros d Hd code' pad' Hpad' Hm'. apply (IH d (encode_data_element _ _ Hd)) with pad'; [|done..].
      by eapply Forall_forall.
    + apply bytes_at_app. split; [done|].
      by replace (c + 1 + _) with (c + Z.of_nat (S (length (concat (map encode_data ds))))) by lia.
    + exists (S f0). intros [|fuel] Hf; [lia|]. cbn [parse_data_object]. rewrite E. simpl_res.
      cbn -[parse_length populate_package]. rewrite Ek. simpl_res. rewrite En. simpl_res. rewrite H0 by lia. simpl_res.
      do 2 f_equal. lia.
  - apply bytes_at_app in Hm as [Hl _].
    destruct (with_length_parse m (code + 1) (encode_expr (EDWord (Z.of_nat (length bs))) ++ bs)
      ltac:(rewrite length_app; cbn [encode_expr le_bytes length]; lia) Hl) as (k & c & Ek & Hc & _ & Ec).
    apply bytes_at_app in Hc as [Hsize Hc].
    destruct (term_arg_evaluates m rp ri st ns _ _ c (evals_dword rp ri st ns (Z.of_nat (length bs)) ltac:(lia)) Hsize) as [f0 H0].
    exists (S f0). intros [|fuel] Hf; [lia|]. cbn [parse_data_object]. rewrite E. simpl_res.
    cbn -[parse_length term_arg_to_int encode_expr]. rewrite Ek. simpl_res. rewrite H0 by lia. simpl_res.
    rewrite Nat2Z.id, take_bytes_at by done. simpl_res. do 2 f_equal. rewrite length_app in Ec. lia.
Qed.
End data.

(** ** Tables *)

(** Definitions of names, and what they add to the children. *)
Definition encode_names (defs : list (list Z * aml_variable)) : list Z :=
  concat (map (λ '(name, d), NAME_OP :: name ++ encode_data d) defs).

Definition with_names (children : gmap (list Z) aml_ptr_t) (defs : list (list Z * aml_variable)) :=
  foldl (λ children '(name, d), <[name := TYPE_NAME name d]> children) children defs.

Definition names_ok (defs : list (list Z * aml_variable)) : Prop :=
  Forall (λ '(name, d), segment name ∧ data_ok d) defs.

(** [n] with another code pointer and other children. *)
Definition changed (n : aml_namespace_t) (c : Z) (children : gmap (list Z) aml_ptr_t) : aml_namespace_t :=
  Namespace (parent n) (ns_name n) c children (namespaces n).

Lemma parse_namestring_segment m fuel code seg :
  segment seg → (0 < fuel)%nat → bytes_at m code seg → parse_namestring m fuel code = Ok (seg, code + 4).
Proof.
  intros Hs Hf Hm. destruct (segment_cons seg Hs) as (a & b & c & d & -> & Ha).
  destruct (bytes_at_tail _ _ _ _ Hm) as [E _]. destruct fuel as [|fuel]; [lia|].
  unfold parse_namestring, skip_prefix. cbn [iter]. rewrite E. simpl_res.
  rewrite !(proj2 (Z.eqb_neq a _)) by lia. cbn [orb]. simpl_res. rewrite E. simpl_res.
  rewrite !(proj2 (Z.eqb_neq a _)) by lia. simpl_res.
  change (Z.to_nat (1 * KEY_LEN)) with (length [a; b; c; d]). by rewrite take_bytes_at.
Qed.

Section tables.
Context (m : mem) (rp ri : Z → Z → Z) (st : store) (ns : nat) (n : aml_namespace_t).

Abbreviation at_ c ch := (<[ns := changed n c ch]> st).

Lemma get_code_at c ch : get_code (at_ c ch) ns = Ok c.
Proof. unfold get_code, get_ns. by rewrite lookup_insert_eq. Qed.

Lemma set_code_at c c' ch : set_code (at_ c ch) ns c' = Ok (at_ c' ch).
Proof. unfold set_code, get_ns. rewrite lookup_insert_eq. simpl_res. by rewrite insert_insert_eq. Qed.

Lemma add_child_at c ch key p :
  add_child_to_namespace (at_ c ch) ns key p = Ok (at_ c (<[key := p]> ch)).
Proof. unfold add_child_to_namespace, get_ns. rewrite lookup_insert_eq. simpl_res. by rewrite insert_insert_eq. Qed.

(** One definition of a name. *)
Lemma parse_next_name name d c ch pad :
  segment name → data_ok d → (2 ≤ length pad)%nat →
  bytes_at m c ((NAME_OP :: name ++ encode_data d) ++ pad) →
  enough (λ fuel, parse_next m rp ri fuel (at_ c ch) ns)
    (at_ (c + Z.of_nat (length (NAME_OP :: name ++ encode_data d))) (<[name := TYPE_NAME name d]> ch)).
Proof.
  intros Hs Hd Hpad Hm. cbn [app] in Hm. apply bytes_at_tail in Hm as [E Hm].
  rewrite <- app_assoc in Hm. apply bytes_at_app in Hm as [Hname Hdata].
  destruct (parse_data_object_reads m rp ri (at_ (c + 1) ch) ns d _ pad Hd Hpad Hdata) as [f0 H0].
  exists (S (S f0)). intros [|fuel] Hf; [lia|]. cbn [parse_next]. rewrite get_code_at. simpl_res. rewrite E. simpl_res.
  change (NAME_OP =? EXT_OP_PREFIX) with false. simpl_res. rewrite set_code_at. simpl_res.
  unfold dispatch. change (NAME_OP =? IF_OP) with false. change (NAME_OP =? NAME_OP) with true. cbv iota.
  unfold def_name. rewrite get_code_at. simpl_res. rewrite (parse_namestring_segment m fuel _ name) by (done || lia). simpl_res.
  pose proof Hs as [Hl _]. rewrite Hl in H0 |- *. cbn [Nat.eqb negb]. change (Z.of_nat 4) with 4 in H0. rewrite H0 by lia. simpl_res.
  rewrite set_code_at. simpl_res. rewrite add_child_at. do 3 f_equal. cbn [length]. rewrite length_app. lia.
Qed.

Abbreviation termlist_step end_ fuel :=
  (λ st, code ← get_code st ns;
         if code <? end_ then st ← parse_next m rp ri fuel st ns; Ok (Next st) else Ok (Done st)).

Lemma termlist_names_loop defs c ch pad end_ :
  names_ok defs → (2 ≤ length pad)%nat → bytes_at m c (encode_names defs ++ pad) →
  end_ = c + Z.of_nat (length (encode_names defs)) →
  ∃ f0, ∀ fuel k, (f0 ≤ fuel)%nat → (f0 ≤ k)%nat →
    iter k (termlist_step end_ fuel) (at_ c ch) = Ok (at_ end_ (with_names ch defs)).
Proof.
  intros Hd Hpad. revert c ch. induction Hd as [|[name d] defs [Hname Hd] Hok IH]; intros c ch Hm He.
  - exists 1%nat. intros fuel [|k] _ Hk; [lia|]. cbn [iter]. rewrite get_code_at. simpl_res. cbn in He.
    assert (end_ = c) as -> by lia. by rewrite Z.ltb_irrefl.
  - change (encode_names ((name, d) :: defs)) with ((NAME_OP :: name ++ encode_data d) ++ encode_names defs) in Hm, He.
    rewrite length_app, Nat2Z.inj_add, Z.add_assoc in He. rewrite <- app_assoc in Hm. pose proof Hm as Hm'. apply bytes_at_app in Hm' as [_ Hm'].
    destruct (parse_next_name name d c ch (encode_names defs ++ pad)) as [f1 H1]; [done|done|rewrite length_app; lia|done|].
    destruct (IH _ (<[name := TYPE_NAME name d]> ch) Hm' He) as [f2 H2].
    exists (S (f1 + f2)). intros fuel [|k] Hf Hk; [lia|].
    etransitivity; [|apply (H2 fuel k); lia].
    cbn [iter]. rewrite get_code_at. simpl_res. rewrite (proj2 (Z.ltb_lt c end_)) by (cbn [length] in He; lia).
    rewrite H1 by lia. done.
Qed.

Lemma parse_termlist_names_at defs c ch start pad :
  names_ok defs → (2 ≤ length pad)%nat → bytes_at m start (encode_names defs ++ pad) →
  enough (λ fuel, parse_termlist m rp ri fuel (at_ c ch) ns start (start + Z.of_nat (length (encode_names defs))))
    (at_ c (with_names ch defs)).
Proof.
  intros Hok Hpad Hm. destruct (termlist_names_loop defs start ch pad _ Hok Hpad Hm eq_refl) as [f0 H0].
  exists f0. intros fuel Hf. unfold parse_termlist. rewrite get_code_at. simpl_res. rewrite set_code_at. simpl_res.
  rewrite H0 by lia. simpl_res. by rewrite set_code_at.
Qed.
End tables.

Lemma parse_table_names_at m rp ri st n data defs pad :
  st !! root = Some n → names_ok defs → Z.of_nat (length (encode_names defs)) < 2 ^ 32 - 36 →
  (2 ≤ length pad)%nat → bytes_at m data (encode_names defs ++ pad) →
  enough (λ fuel, parse_table m rp ri fuel st data (36 + Z.of_nat (length (encode_names defs))))
    (<[root := changed n data (with_names (children n) defs)]> st).
Proof.
  intros Hn Hok Hlen Hpad Hm.
  destruct (parse_termlist_names_at m rp ri st root n defs data (children n) data pad Hok Hpad Hm) as [f0 H0].
  exists f0. intros fuel Hf. unfold parse_table, set_code, get_ns. rewrite Hn. simpl_res.
  assert (u32 (36 + Z.of_nat (length (encode_names defs)) - 36) = Z.of_nat (length (encode_names defs))) as ->.
  { unfold u32. rewrite wrap_small; lia. }
  by apply H0.
Qed.

Lemma with_names_notin ch defs key : (key ∉ map fst defs) → with_names ch defs !! key = ch !! key.
Proof.
  unfold with_names. revert ch. induction defs as [|[name d] defs IH]; intros ch Hk; [done|]. cbn in *.
  rewrite IH by set_solver. apply lookup_insert_ne. set_solver.
Qed.

Lemma with_names_lookup ch defs key d :
  NoDup (map fst defs) → (key, d) ∈ defs → with_names ch defs !! key = Some (TYPE_NAME key d).
Proof.
  revert ch. induction defs as [|[name d'] defs IH]; intros ch Hnd Hin; [by apply elem_of_nil in Hin|].
  cbn [map fst] in Hnd. apply NoDup_cons in Hnd as [Hnew Hnd]. apply elem_of_cons in Hin as [E|Hin].
  - simplify_eq. unfold with_names. cbn [foldl]. fold (with_names (<[name := TYPE_NAME name d']> ch) defs).
    rewrite with_names_notin by done. apply lookup_insert_eq.
  - unfold with_names. cbn [foldl]. by apply IH.
Qed.

(** Evaluation does not depend on the code pointer. *)
Lemma finds_changed st ns n c key namespace ns0 p :
  st !! ns = Some n → finds st key namespace ns0 p →
  finds (<[ns := changed n c (children n)]> st) key namespace ns0 p.
Proof.
  intros Hn. induction 1 as [ns0 n0 p H0 Hl|ns0 n0 ns' p H0 Hl Hp _ IH];
    (destruct (decide (ns0 = ns)) as [->|Hne];
     [assert (n0 = n) as -> by congruence|]).
  - apply (finds_here _ _ _ _ (changed n c (children n))); [apply lookup_insert_eq|done].
  - apply (finds_here _ _ _ _ n0); [by rewrite lookup_insert_ne|done].
  - apply (finds_outside _ _ _ _ (changed n c (children n)) ns'); [apply lookup_insert_eq|done..].
  - apply (finds_outside _ _ _ _ n0 ns'); [by rewrite lookup_insert_ne|done..].
Qed.

Lemma evals_changed rp ri st ns n c e v :
  st !! ns = Some n → evals rp ri st ns e v → evals rp ri (<[ns := changed n c (children n)]> st) ns e v.
Proof.
  intros Hn. induction 1; try (constructor; done).
  econstructor; [done|by apply finds_changed|done].
Qed.

Lemma dispatch_unknown m rp ri fuel ptl op st ns :
  0 ≤ op < 64 → (op ∉ [ALIAS_OP; NAME_OP; SCOPE_OP; METHOD_OP]) → dispatch m rp ri fuel ptl op st ns = Err Halted.
Proof.
  intros Hr Hop. rewrite !not_elem_of_cons in Hop. unfold_ops.
  unfold dispatch. change (IF_OP) with 0xA0. change NAME_OP with 8. change METHOD_OP with 20. change SCOPE_OP with 16.
  change ALIAS_OP with 6. change CREATE_WORDFIELD_OP with 0x8B. change EXT_OP_PREFIX with 0x5B. cbv zeta.
  unfold EXT_OP_REGION_OP, EXT_FIELD_OP, EXT_INDEX_FIELD_OP, EXT_DEVICE_OP, EXT_MUTEX_OP.
  repeat match goal with |- context [op =? ?k] =>
    let v := eval vm_compute in k in change k with v; rewrite (proj2 (Z.eqb_neq op v)) by lia end.
  done.
Qed.

(** The loop of an If with a true predicate starts on the length byte. *)
Lemma if_true_halts m rp ri st ns n c len e v :
  st !! ns = Some n → code n = c → 1 ≤ len < 64 → (len ∉ [ALIAS_OP; NAME_OP; SCOPE_OP; METHOD_OP]) →
  bytes_at m c (IF_OP :: len :: encode_expr e) → evals rp ri st ns e v → v ≠ 0 →
  ∃ f0, ∀ fuel, (f0 ≤ fuel)%nat → parse_next m rp ri fuel st ns = Err Halted.
Proof.
  intros Hn <- Hlen Hop Hm He Hv. unfold_ops.
  apply bytes_at_tail in Hm as [E Hm]. pose proof Hm as Hm'. apply bytes_at_tail in Hm as [E1 Hm].
  assert (Henc : encode_length len = [len]) by (unfold encode_length; by rewrite (proj2 (Z.ltb_lt len (2 ^ 6))) by lia).
  assert (Hself : st = <[ns := changed n (code n) (children n)]> st).
  { symmetry. apply insert_id. rewrite Hn. by destruct n. }
  destruct (term_arg_evaluates m rp ri _ ns e v _ (evals_changed rp ri st ns n (code n + 1) e v Hn He) Hm) as [f0 H0].
  exists (S (S f0)). intros [|[|fuel]] Hf; [lia..|]. rewrite Hself. cbn [parse_next]. rewrite get_code_at. simpl_res.
  rewrite E. simpl_res. change (0xA0 =? EXT_OP_PREFIX) with false. simpl_res. rewrite set_code_at. simpl_res.
  unfold dispatch at 1. change (0xA0 =? IF_OP) with true. cbv iota.
  unfold def_if_else. rewrite get_code_at. simpl_res.
  rewrite (parse_length_encode m len) by (lia || (rewrite Henc; apply (bytes_at_app _ _ [len]) in Hm'; apply Hm')).
  rewrite Henc.
  simpl_res. cbn [length]. change (Z.of_nat 1) with 1. rewrite H0 by lia. simpl_res.
  rewrite set_code_at. simpl_res. rewrite (proj2 (Z.eqb_neq v 0)) by done. cbn [negb].
  rewrite get_code_at. simpl_res. rewrite set_code_at. simpl_res. cbn [iter]. rewrite get_code_at. simpl_res.
  rewrite (proj2 (Z.ltb_lt _ _)) by lia. rewrite E1. simpl_res.
  assert ((len =? EXT_OP_PREFIX) = false) as -> by (apply Z.eqb_neq; unfold EXT_OP_PREFIX; lia). simpl_res.
  rewrite set_code_at. simpl_res. by rewrite dispatch_unknown by (lia || done).
Qed.

(** ** Properties *)

(** C21: Every data object in the coding of the standard (numbers, strings,
    buffers and packages of such, nested to any depth) is read back, and the
    code pointer ends behind it.  Two bytes must be mapped behind a package:
    its elements are first taken for names. *)
Theorem parse_data_object_round_trip m rp ri st ns d code pad :
  data_ok d → (2 ≤ length pad)%nat → bytes_at m code (encode_data d ++ pad) →
  ∃ f0, ∀ fuel, (f0 ≤ fuel)%nat →
    parse_data_object m rp ri fuel st ns code = Ok (d, code + Z.of_nat (length (encode_data d))).
Proof. intros. by eapply parse_data_object_reads. Qed.

(** A package with a string, a buffer and a package in it. *)
Definition sample_data : aml_variable :=
  DATA_PKG [DATA_STR [65; 95]; DATA_BUF [1; 2; 3]; DATA_PKG [DATA_LONG (2 ^ 63); DATA_BYTE 7]].

Lemma sample_data_ok : data_ok sample_data.
Proof.
  repeat first [apply Forall_nil_2 | apply Forall_cons_2; [unfold is_byte; try lia|] | constructor | unfold is_byte; lia | by vm_compute].
Qed.

Lemma parse_data_object_round_trip_witness :
  let m := write_bytes ∅ 100 (encode_data sample_data ++ [0; 0]) in
  ∃ f0, ∀ fuel, (f0 ≤ fuel)%nat → parse_data_object m (λ _ _, 0) (λ _ _, 0) fuel ∅ root 100 = Ok (sample_data, 131).
Proof.
  intros m. apply (parse_data_object_round_trip m (λ _ _, 0) (λ _ _, 0) ∅ root sample_data 100 [0; 0]).
  - apply sample_data_ok.
  - cbn. lia.
  - apply write_bytes_at.
Defined.

(** C22: An integer term evaluates to its value under the operators and the
    named objects in scope, for every address at which its encoding lies, and
    the code pointer ends behind it. *)
Theorem term_arg_to_int_evaluates m rp ri st ns e v code :
  evals rp ri st ns e v → bytes_at m code (encode_expr e) →
  ∃ f0, ∀ fuel, (f0 ≤ fuel)%nat →
    term_arg_to_int m rp ri fuel st ns code = Ok (v, code + Z.of_nat (length (encode_expr e))).
Proof. intros. by apply term_arg_evaluates. Qed.

(** Two namespaces; the outer one has an object [OSYS]. *)
Definition sample_root : aml_namespace_t :=
  Namespace None [92; 95; 95; 95] 100 {[ [79; 83; 89; 83] := TYPE_NAME [79; 83; 89; 83] (DATA_SHORT 2015) ]} ∅.

Definition sample_store : store :=
  {[0%nat := sample_root;
    1%nat := Namespace (Some 0%nat) [95; 83; 66; 95] 100 ∅ ∅]}.

Lemma term_arg_to_int_evaluates_witness :
  let e := ELNot (ELLess (EName [79; 83; 89; 83]) (EWord 2015)) in
  ∃ f0, ∀ fuel, (f0 ≤ fuel)%nat →
    term_arg_to_int (write_bytes ∅ 100 (encode_expr e)) (λ _ _, 0) (λ _ _, 0) fuel sample_store 1 100 = Ok (1, 109).
Proof.
  intros e.
  apply (term_arg_to_int_evaluates _ _ _ _ _ e 1 100); [|apply write_bytes_at].
  apply (evals_not _ _ _ _ _ 0), (evals_less _ _ _ _ _ _ 2015 2015); [|constructor; lia].
  apply (evals_name _ _ _ _ _ (TYPE_NAME [79; 83; 89; 83] (DATA_SHORT 2015))); [|
    apply (finds_outside _ _ _ _ (Namespace (Some 0%nat) [95; 83; 66; 95] 100 ∅ ∅) 0%nat); [done..|]; by eapply finds_here|done].
  split; [done|]. split; [by vm_compute|]. repeat constructor; unfold is_byte; lia.
Defined.

(** C20: A table of name definitions adds exactly those names, with their data,
    to the children of the root; nothing else in the namespaces changes. *)
Theorem parse_table_names m rp ri st n data defs pad :
  st !! root = Some n → names_ok defs → Z.of_nat (length (encode_names defs)) < 2 ^ 32 - 36 →
  (2 ≤ length pad)%nat → bytes_at m data (encode_names defs ++ pad) →
  ∃ f0, ∀ fuel, (f0 ≤ fuel)%nat →
    parse_table m rp ri fuel st data (36 + Z.of_nat (length (encode_names defs))) =
      Ok (<[root := changed n data (with_names (children n) defs)]> st).
Proof. apply parse_table_names_at. Qed.

(** [_S5_] as firmware defines it, behind another name. *)
Definition sample_names : list (list Z * aml_variable) :=
  [([79; 83; 89; 83], DATA_SHORT 2015); ([95; 83; 53; 95], DATA_PKG [DATA_BYTE 5; DATA_BYTE 3; DATA_BYTE 0])].

Lemma sample_names_ok : names_ok sample_names.
Proof.
  unfold names_ok, sample_names, segment.
  repeat first [apply Forall_nil_2 | apply Forall_cons_2 | constructor | unfold is_byte; lia | by vm_compute].
Qed.

Lemma parse_table_names_witness :
  let m := write_bytes ∅ 100 (encode_names sample_names ++ [0; 0]) in
  ∃ f0, ∀ fuel, (f0 ≤ fuel)%nat →
    parse_table m (λ _ _, 0) (λ _ _, 0) fuel sample_store 100 58 =
      Ok (<[root := changed sample_root 100 (with_names (children sample_root) sample_names)]> sample_store).
Proof.
  intros m. apply (parse_table_names m (λ _ _, 0) (λ _ _, 0) sample_store sample_root
    100 sample_names [0; 0]); [done|apply sample_names_ok|vm_compute; done|cbn; lia|apply write_bytes_at].
Defined.

(** C23: Soft-off: when a table defines [_S5_] as a package that starts with two
    integers, entering sleep state 5 after the table is parsed writes these
    sleep types with the enable bit to the two control ports. *)
Theorem execute_sleep_soft_off m rp ri st n data defs pad a b rest flags pm1a pm1b :
  st !! root = Some n → names_ok defs → NoDup (map fst defs) →
  ([95; 83; 53; 95], DATA_PKG (a :: b :: rest)) ∈ defs →
  variable_to_int a ≠ UINT64_MAX → variable_to_int b ≠ UINT64_MAX → Z.land flags (2 ^ 20) = 0 →
  Z.of_nat (length (encode_names defs)) < 2 ^ 32 - 36 →
  (2 ≤ length pad)%nat → bytes_at m data (encode_names defs ++ pad) →
  ∃ f0, ∀ fuel, (f0 ≤ fuel)%nat →
    (st ← parse_table m rp ri fuel st data (36 + Z.of_nat (length (encode_names defs)));
     execute_sleep st flags pm1a pm1b 5) =
    Ok [(u16 pm1a, u16 (Z.lor (Z.shiftl (variable_to_int a) 10) ACPI_SLEEP));
        (u16 pm1b, u16 (Z.lor (Z.shiftl (variable_to_int b) 10) ACPI_SLEEP))].
Proof.
  intros Hn Hok Hnd Hs5 Ha Hb Hf Hlen Hpad Hm.
  destruct (parse_table_names_at m rp ri st n data defs pad Hn Hok Hlen Hpad Hm) as [f0 H0].
  exists f0. intros fuel Hfuel. rewrite H0 by done. simpl_res. unfold execute_sleep, get_ns.
  rewrite lookup_insert_eq. simpl_res. unfold changed at 1. cbn [children].
  rewrite (with_names_lookup _ _ _ _ Hnd Hs5). simpl_res.
  change (negb (5 =? 5)) with false. cbn [lookup list_lookup of_option]. simpl_res.
  rewrite !(proj2 (Z.eqb_neq _ UINT64_MAX)) by done. by rewrite Hf.
Qed.

Lemma execute_sleep_soft_off_witness :
  let m := write_bytes ∅ 100 (encode_names sample_names ++ [0; 0]) in
  ∃ f0, ∀ fuel, (f0 ≤ fuel)%nat →
    (st ← parse_table m (λ _ _, 0) (λ _ _, 0) fuel sample_store 100 58; execute_sleep st 0 0x404 0x405 5) =
    Ok [(0x404, 0x3400); (0x405, 0x2C00)].
Proof.
  intros m. apply (execute_sleep_soft_off m (λ _ _, 0) (λ _ _, 0) sample_store sample_root
    100 sample_names [0; 0] (DATA_BYTE 5) (DATA_BYTE 3) [DATA_BYTE 0] 0 0x404 0x405);
    [done|apply sample_names_ok| | |done|done|done|by vm_compute|cbn; lia|apply write_bytes_at].
  - apply (bool_decide_unpack (NoDup (map fst sample_names))). by vm_compute.
  - apply list_elem_of_further, list_elem_of_here.
Defined.

(** C24: An If with a true predicate is not executed: its term list is taken to
    start on the length byte, and unless that byte is itself the opcode of a
    definition the interpreter stops there. *)
Theorem def_if_else_true_halts m rp ri st ns n len e v :
  st !! ns = Some n → 1 ≤ len < 64 → (len ∉ [ALIAS_OP; NAME_OP; SCOPE_OP; METHOD_OP]) →
  bytes_at m (code n) (IF_OP :: len :: encode_expr e) → evals rp ri st ns e v → v ≠ 0 →
  ∃ f0, ∀ fuel, (f0 ≤ fuel)%nat → parse_next m rp ri fuel st ns = Err Halted.
Proof. intros. by eapply if_true_halts. Qed.

(** [If (One) { Name (...) }], ten bytes long. *)
Lemma def_if_else_true_halts_witness :
  let m := write_bytes ∅ 100 [IF_OP; 10; ONE_OP; NAME_OP; 79; 83; 89; 83; BYTE_PREFIX; 1] in
  ∃ f0, ∀ fuel, (f0 ≤ fuel)%nat → parse_next m (λ _ _, 0) (λ _ _, 0) fuel sample_store 0 = Err Halted.
Proof.
  intros m. eapply (def_if_else_true_halts m (λ _ _, 0) (λ _ _, 0) sample_store 0 _ 10 EOne 1);
    [done|lia|apply (bool_decide_unpack (10 ∉ [ALIAS_OP; NAME_OP; SCOPE_OP; METHOD_OP])); by vm_compute| |constructor|lia].
  apply (bytes_at_app _ _ [IF_OP; 10; ONE_OP] [NAME_OP; 79; 83; 89; 83; BYTE_PREFIX; 1]), write_bytes_at.
Defined.
