(* ===== verification/Main.v ===== *)
(** * The whole of kmain (lethe-kernel/kernel.c)

    [system] is one state of the kernel and its machine; the PCI scan (Pci.v),
    the AHCI driver (Ahci.v) over the kernel heap (KernelHeap.v), the shell
    (Input.v) and the power-off (Aml.v) act on their parts of it, in the order
    of [kmain], after the start of Kernel.v.  The theorems compose those of the
    components: a disk keeps [kmain] from its shell, and the command [kexit]
    leaves the last loop but does not turn the machine off. *)
From S2P Require Import Prelude FrameAlloc Paging LibAlloc Heap KernelHeap Terminal ListAlloc Acpi Tasks Cpu Kernel.
From S2P Require Import Pci Ahci LibString Trace Input Aml.

(** ** Definitions *)

(** The start left [boot]; [hw]: configuration space and the registers of
    devices; [memory]: data as the kernel sees it; [pages] and [heap]: liballoc
    and its page source; then the statics of the drivers and of the shell. *)
Record system (E H P : Type) := System {
  boot : Kernel.kernel E; hw : H; memory : mem; pages : P; heap : LibAlloc.heap;
  pci_devices : list pci_device; ahci_devices : gmap Z ahci_dev_t; ahci_list : Z; abar : Z;
  symbols : option elf_tables; shell : shell_t; KB_STATUS : list Z; kexit_flag : bool
}.
Arguments System {E H P}.
Arguments boot {E H P}.
Arguments hw {E H P}.
Arguments memory {E H P}.
Arguments pages {E H P}.
Arguments heap {E H P}.
Arguments pci_devices {E H P}.
Arguments ahci_devices {E H P}.
Arguments ahci_list {E H P}.
Arguments abar {E H P}.
Arguments symbols {E H P}.
Arguments shell {E H P}.
Arguments KB_STATUS {E H P}.
Arguments kexit_flag {E H P}.

Section kmain.
Context {E H P : Type} `{Cpu.Machine E} `{Mmio H} `{PageSource P}.
Context (cfg_read : H → Z → Z) (cfg_write : H → Z → Z → H) (junk : Z → Z).
(** The page tables, the literal ".strtab" and the function [kexit]. *)
Context (root lit_strtab kexit_address : Z).

Abbreviation system := (system E H P).

(** *** The parts of the state *)

Definition ahci_of (fuel : nat) (s : system) : ahci_state H frame_allocator_t (liballoc P) :=
  Ahci.State (hw s) (Kernel.frame_allocator E (boot s)) (Kernel.page_tables E (boot s)) (memory s)
    (Liballoc (pages s) (heap s) fuel) (ahci_devices s) (ahci_list s) (abar s).

Definition with_ahci (s : system) (a : ahci_state H frame_allocator_t (liballoc P)) : system :=
  let k := boot s in
  System (Kernel.Kernel (Kernel.gdt E k) (Kernel.idt E k) (Kernel.tss E k) (Kernel.hhdm_mapping k)
            (Kernel.kernel_file_address E k) (Kernel.screen E k) (Ahci.frames a) (Ahci.tables a) (Kernel.runs E k)
            (Kernel.acpi E k) (Kernel.cpu k))
    (Ahci.hw a) (Ahci.memory a) (source (Ahci.kheap a)) (tags (Ahci.kheap a)) (pci_devices s) (Ahci.devices a)
    (Ahci.device_list a) (Ahci.abar a) (symbols s) (shell s) (KB_STATUS s) (kexit_flag s).

Definition shell_of (s : system) : Input.machine P :=
  Input.Machine (pages s) (heap s) (memory s) (symbols s) (shell s) (KB_STATUS s).

Definition with_machine (s : system) (m : Input.machine P) : system :=
  System (boot s) (hw s) (Input.data m) (Input.pages m) (Input.kheap m) (pci_devices s) (ahci_devices s) (ahci_list s)
    (abar s) (Input.symbols m) (Input.shell m) (Input.KB_STATUS m) (kexit_flag s).

(** *** pci.c, ahci.c and shell.c, on the whole state *)

Definition init_pci (fuel : nat) (s : system) : res system :=
  devs ← scan_pci_space cfg_read junk fuel (hw s);
  Ok (System (boot s) (hw s) (memory s) (pages s) (heap s) devs (ahci_devices s) (ahci_list s) (abar s) (symbols s)
        (shell s) (KB_STATUS s) (kexit_flag s)).

Definition init_disks (fuel : nat) (s : system) : res system :=
  let k := boot s in
  a ← Ahci.init_ahci root (Kernel.hhdm_mapping k) cfg_read cfg_write fuel (pci_devices s)
        (lapic_addr_phys (lapic_addr (Kernel.acpi E k)) (Kernel.hhdm_mapping k)) (ahci_of fuel s);
  Ok (with_ahci s a).

Definition start_shell (fuel : nat) (s : system) : res (system * list output) :=
  '(m, out) ← Input.init_shell fuel (shell_of s);
  Ok (with_machine s m, out).

(** [kexit] is called through its address, like every command. *)
Definition kexit (s : system) : system :=
  System (boot s) (hw s) (memory s) (pages s) (heap s) (pci_devices s) (ahci_devices s) (ahci_list s) (abar s)
    (symbols s) (shell s) (KB_STATUS s) true.

Definition is_kexit (o : output) : bool := if o is Call_function rip then rip =? kexit_address else false.

(** The handler of the keyboard; of the functions a command may call only
    [kexit] is followed. *)
Definition keyboard_isr (fuel : nat) (s : system) (status byte : Z) : res (system * list output) :=
  '(m, out) ← kb_handle_key (Kernel.kernel_file_address E (boot s)) lit_strtab fuel (shell_of s) status byte;
  let s := with_machine s m in
  Ok (if existsb is_kexit out then kexit s else s, out).

(** [while (kernel_config.kexit == 0) hlt]: each wake-up is an interrupt with
    the status and the byte of the keyboard (status 0 for other interrupts).
    Without another wake-up the processor sleeps on. *)
Fixpoint idle (fuel : nat) (s : system) (wakes : list (Z * Z)) : res (system * list output) :=
  if kexit_flag s then Ok (s, [])
  else
    match wakes with
    | [] => Err OutOfFuel
    | (status, byte) :: wakes =>
        '(s, out) ← keyboard_isr fuel s status byte;
        '(s, out') ← idle fuel s wakes;
        Ok (s, out ++ out')
    end.

(** *** acpi.c: [parse_table] is commented out *)

Definition acpi_late_init (s : system) : Z * system := (0, s).

(** The first use of [root()] makes the namespaces.  The FADT is read when the
    values to write are known. *)
Definition shutdown (fadt_flags pm1a_control_block pm1b_control_block : Z) : res (list (Z * Z)) :=
  st ← init_aml_namespaces;
  execute_sleep st fadt_flags pm1a_control_block pm1b_control_block 5.

(** *** kernel.c *)

(** From [init_pci] on, the statics of the drivers and the shell still zero.
    [ps] and [hp]: liballoc as the calls before have left it ([init_tasks] and
    [init_mcfg] allocate; so does each device the scan finds). *)
Definition kmain_devices (fuel : nat) (k : Kernel.kernel E) (h : H) (m : mem) (ps : P) (hp : LibAlloc.heap) :
    res (system * list output) :=
  let s := System k h m ps hp [] ∅ 0 0 None (Shell 0 0 0 false) (replicate 88 0) false in
  let '(_, s) := acpi_late_init s in
  s ← init_pci fuel s;
  s ← init_disks fuel s;
  start_shell fuel s.

(** The end of [kmain]: the writes that turn the machine off; then it halts. *)
Definition kmain_end (fuel : nat) (s : system) (wakes : list (Z * Z)) (flags pm1a pm1b : Z) :
    res (system * list output * list (Z * Z)) :=
  '(s, out) ← idle fuel s wakes;
  writes ← shutdown flags pm1a pm1b;
  Ok (s, out, writes).

Context (get_cpuid : Z → option (Z * Z * Z * Z)) (isr_stub_table : list Z) (tss_address : Z).
Context (task_switch_handler pic_timer_handler apic_timer_handler keyboard_handler : Z) (dsdt_lit facp_lit apic_lit mcfg_lit : Z).

Definition kmain (fuel : nat) (kernel_end : Z) (m : mem) (ph : phys) (r : limine_responses) (c : Cpu.state E) (h : H)
    (ps : P) (hp : LibAlloc.heap) (wakes : list (Z * Z)) (flags pm1a pm1b : Z) : res (system * list output * list (Z * Z)) :=
  k ← Kernel.kmain_start get_cpuid isr_stub_table tss_address task_switch_handler pic_timer_handler apic_timer_handler
        dsdt_lit facp_lit apic_lit mcfg_lit keyboard_handler fuel kernel_end root m ph r c;
  '(s, prompt) ← kmain_devices fuel k h m ps hp;
  '(s, out, writes) ← kmain_end fuel s wakes flags pm1a pm1b;
  Ok (s, prompt ++ out, writes).
End kmain.

(** ** Lemmas *)

Section run.
Context {E H P : Type} `{Cpu.Machine E} `{Mmio H} `{PageSource P}.
Context (lit_strtab kexit_address : Z).
Implicit Types (s : system E H P).

(** Typing does not leave the loop, and keeps the state of the editor. *)
Lemma idle_typing fuel limit bytes s held line held' line' o out wakes :
  kexit_flag s = false → typed (shell_of s) line → keys_held (KB_STATUS s) held → limit ≤ shell_size (shell s) →
  foldl (line_step limit) (Some (held, line, o)) bytes = Some (held', line', out) →
  ∃ s' out', out = o ++ out' ∧ kexit_flag s' = false ∧ typed (shell_of s') line' ∧ keys_held (KB_STATUS s') held' ∧
    edited (shell_of s) (shell_of s') ∧ boot s' = boot s ∧
    idle lit_strtab kexit_address fuel s (((λ b, (1, b)) <$> bytes) ++ wakes) =
    ('(s2, out2) ← idle lit_strtab kexit_address fuel s' wakes; Ok (s2, out' ++ out2)).
Proof.
  revert s held line o. induction bytes as [|b bytes IH]; intros s held line o Hk Hty Hkb Hlim Hs; cbn [foldl fmap list_fmap app] in *.
  - injection Hs as <- <- <-. exists s, []. rewrite app_nil_r. split_and!; try done.
    by destruct (idle _ _ _ s wakes) as [[s2 out2]|].
  - destruct (line_step _ _ b) as [[[held1 line1] out1]|] eqn:E1; [|by rewrite line_step_None in Hs].
    destruct (kb_step (Kernel.kernel_file_address E (boot s)) lit_strtab fuel (shell_of s) limit held line b held1 line1 out1 o
      Hty Hkb Hlim E1) as (m1 & o1 & Eh & -> & Hty1 & Hkb1 & [E3 E4 E5 E6 E7 E8 E9 E10] & Hecho).
    assert (Hkx : existsb (is_kexit kexit_address) o1 = false).
    { clear -Hecho. induction Hecho as [|[] l Ho _ IH]; cbn in *; (done || exact IH). }
    set (s1 := with_machine s m1).
    assert (Hv : shell_of s1 = m1) by (by destruct m1).
    change (shell_size (Input.shell m1) = shell_size (shell s)) in E5. rewrite <- E5 in Hlim.
    change (shell_size (Input.shell m1)) with (shell_size (shell s1)) in Hlim.
    change (Input.KB_STATUS m1) with (KB_STATUS s1) in Hkb1. rewrite <- Hv in Hty1.
    destruct (IH s1 held1 line1 (o ++ o1) Hk Hty1 Hkb1 Hlim Hs)
      as (s' & out' & -> & Hk' & Hty' & Hkb' & [F3 F4 F5 F6 F7 F8 F9 F10] & Fb & Ei).
    exists s', (o1 ++ out'). split; [by rewrite app_assoc|]. split; [done|]. split; [done|]. split; [done|]. split; [|split; [by rewrite Fb|]].
    + rewrite Hv in F3, F4, F5, F6, F7, F8, F9, F10.
      split; [congruence|congruence|etransitivity; [exact F5|exact E5]|congruence| |congruence|congruence|auto].
      intros a Ha. rewrite F7, E7; [done|done|]. rewrite E4. change (Input.shell (shell_of s)) with (shell s) in *. lia.
    + cbn [idle]. rewrite Hk. unfold keyboard_isr. rewrite Eh. simpl_res. rewrite Hkx. fold s1. rewrite Ei.
      destruct (idle _ _ _ s' wakes) as [[s2 out2]|]; simpl_res; [|done]. by rewrite app_assoc.
Qed.

(** No table has been parsed, so there is no [_S5_]. *)
Lemma shutdown_halts flags pm1a pm1b : shutdown flags pm1a pm1b = Err Halted.
Proof. unfold shutdown. vm_compute. reflexivity. Qed.

(** The kernel at its prompt, the line in the block at [p]. *)
Definition prompt_system (k : Kernel.kernel E) (h : H) (m : mem) (ps : P) (hp : LibAlloc.heap) (devs : list pci_device)
    (p : Z) : system E H P :=
  System k h m ps hp devs ∅ 0 0 None (Shell p 80 0 true) (replicate 88 0) false.

Lemma kmain_devices_prompt cfg_read cfg_write junk root fuel (k : Kernel.kernel E) (h : H) m (ps ps' : P) hp0 devs p hp :
  scan_pci_space cfg_read junk fuel h = Ok devs → locate_pci_device devs 1 6 0 = Ok None →
  LibAlloc.malloc fuel ps hp0 80 = Ok (p, ps', hp) →
  kmain_devices cfg_read cfg_write junk root fuel k h m ps hp0 = Ok (prompt_system k h m ps' hp devs p, [Putchar 62]).
Proof.
  intros Hs Hd Hm. unfold kmain_devices, init_pci, init_disks. cbn [acpi_late_init hw]. rewrite Hs. simpl_res.
  unfold Ahci.init_ahci. cbn [pci_devices]. rewrite Hd. simpl_res. cbn [negb]. simpl_res.
  unfold start_shell, Input.init_shell. cbn. rewrite Hm. simpl_res. by destruct k.
Qed.

(** The return key at the end of a line that names a function. *)
Lemma keyboard_isr_enter fuel s line t syms f :
  kexit_flag s = false → typed (shell_of s) line → enabled (shell s) = true → length (KB_STATUS s) = 88%nat →
  line ≠ [] → Z.of_nat (length line) < shell_size (shell s) → Forall (λ b, b ≠ 0) line → Forall is_byte line →
  tables_of (Kernel.kernel_file_address E (boot s)) lit_strtab
    (<[shell_cmd (shell s) + Z.of_nat (length line) := 0]> (memory s)) (symbols s) = Ok t →
  symbols_at (<[shell_cmd (shell s) + Z.of_nat (length line) := 0]> (memory s)) t syms →
  (length line < fuel)%nat → Forall (λ x, length x.2 < fuel)%nat syms →
  hd_error (filter (λ x, is_function x.1 = true ∧ x.2 = line) syms) = Some f →
  st_value f.1 = kexit_address → kexit_address ≠ 0 →
  ∃ s' out, keyboard_isr lit_strtab kexit_address fuel s 1 28 = Ok (s', out) ∧ kexit_flag s' = true.
Proof.
  intros Hk Hty He Hl Hne Hlt Hnz Hby Hst Hsyms Hfl Hfs Hh Hv Hx.
  destruct (enter_key (KB_STATUS s) Hl) as (kb & E1 & E2).
  set (m1 := Input.Machine (pages s) (heap s) (memory s) (symbols s) (shell s) kb).
  destruct (execute_command_line (Kernel.kernel_file_address E (boot s)) lit_strtab fuel m1 line t syms)
    as (m2 & E3 & _); try done; [by destruct Hty; split|].
  assert (Hc : existsb (is_kexit kexit_address)
    ([Putchar 10] ++ command_output t syms (shell_cmd (Input.shell m1)) line ++ [Putchar 62]) = true).
  { unfold command_output. rewrite Hh, Hv. rewrite (proj2 (Z.eqb_neq _ _) Hx). cbn. by rewrite Z.eqb_refl. }
  revert E3 Hc. generalize ([Putchar 10] ++ command_output t syms (shell_cmd (Input.shell m1)) line ++ [Putchar 62]).
  intros o E3 Hc.
  unfold keyboard_isr, kb_handle_key. change (Z.land 1 1 =? 1) with true.
  cbn [shell_of Input.KB_STATUS negb].
  rewrite E1. simpl_res. rewrite E2. simpl_res.
  cbn [Z.eqb Pos.eqb negb shell_of Input.pages Input.kheap Input.data Input.symbols Input.shell].
  fold m1. rewrite E3. simpl_res.
  rewrite Hc. by eexists _, _.
Qed.
End run.

(** ** Properties *)

(** The name a command line must have. *)
Definition kexit_name : list Z := [107; 101; 120; 105; 116].

(** The loop of [kmain] on a state that waits for a command: [m0] is the part of
    memory the kernel file is read from, apart from the buffer of the shell. *)
Lemma idle_kexit {E H P} `{Cpu.Machine E} `{Mmio H} `{PageSource P} lit_strtab kexit_address fuel
    (s : system E H P) limit m0 bytes held held' out t syms f wakes :
  kexit_flag s = false → typed (shell_of s) [] → enabled (shell s) = true → keys_held (KB_STATUS s) held → limit ≤ shell_size (shell s) →
  m0 ⊆ memory s → (∀ a, shell_cmd (shell s) ≤ a < shell_cmd (shell s) + shell_size (shell s) → m0 !! a = None) →
  tables_of (Kernel.kernel_file_address E (boot s)) lit_strtab m0 (symbols s) = Ok t → symbols_at m0 t syms →
  foldl (line_step limit) (Some (held, [], [])) bytes = Some (held', kexit_name, out) →
  5 < shell_size (shell s) → (5 < fuel)%nat → Forall (λ x, length x.2 < fuel)%nat syms →
  hd_error (filter (λ x, is_function x.1 = true ∧ x.2 = kexit_name) syms) = Some f →
  st_value f.1 = kexit_address → kexit_address ≠ 0 →
  ∃ s' out', idle lit_strtab kexit_address fuel s (((λ b, (1, b)) <$> bytes) ++ (1, 28) :: wakes) = Ok (s', out') ∧
    kexit_flag s' = true.
Proof.
  intros Hk Hty He Hl Hlim Hsub Hsep Htab Hsyms Hs Hsz Hfu Hfs Hh Hv Hx.
  destruct (idle_typing lit_strtab kexit_address fuel limit bytes s held [] held' kexit_name [] out ((1, 28) :: wakes) Hk Hty
    Hl Hlim Hs)
    as (s1 & out1 & _ & Hk1 & Hty1 & Hkb & [E3 E4 E5 E6 E7 _ _ _] & Eb & Ei).
  change (symbols s1 = symbols s) in E3. change (shell_cmd (shell s1) = shell_cmd (shell s)) in E4.
  change (shell_size (shell s1) = shell_size (shell s)) in E5. change (enabled (shell s1) = enabled (shell s)) in E6.
  change (∀ a, a < shell_cmd (shell s) ∨ shell_cmd (shell s) + shell_size (shell s) ≤ a →
    memory s1 !! a = memory s !! a) in E7.
  assert (Hsub1 : m0 ⊆ <[shell_cmd (shell s1) + Z.of_nat (length kexit_name) := 0]> (memory s1)).
  { apply map_subseteq_spec. intros a v Ha.
    assert (Ho : a < shell_cmd (shell s) ∨ shell_cmd (shell s) + shell_size (shell s) ≤ a).
    { destruct (decide (shell_cmd (shell s) ≤ a < shell_cmd (shell s) + shell_size (shell s))) as [Hin|]; [|lia].
      by rewrite Hsep in Ha. }
    rewrite E4. cbn [kexit_name length]. rewrite lookup_insert_ne by lia. rewrite E7 by done.
    by eapply lookup_weaken. }
  destruct (keyboard_isr_enter lit_strtab kexit_address fuel s1 kexit_name t syms f) as (s2 & out2 & Ek & Hk2);
    try done; try congruence.
  - by destruct Hkb.
  - rewrite E5. exact Hsz.
  - by repeat constructor.
  - by repeat (constructor; [unfold is_byte; lia|]).
  - rewrite Eb, E3. by eapply tables_of_larger.
  - by eapply symbols_at_larger.
  - exists s2, (out1 ++ out2 ++ []). rewrite Ei. cbn [idle]. rewrite Hk1, Ek. simpl_res.
    destruct wakes as [|[? ?] ?]; cbn [idle]; rewrite Hk2; done.
Qed.

(** C31: [kmain] from its start to its end, where the start succeeds with the
    kernel [k], PCI lists no AHCI controller and there is memory for the line of
    the shell: the kernel comes to its prompt; when what is typed then edits to
    the line [kexit] and the return key follows, the loop ends, with every
    interrupt handled on the way; but the machine is never turned off: the
    namespace is empty, as no table was parsed, so the search for [_S5_] fails
    and the kernel halts without a write to the power registers.  [m0] is the
    kernel file in memory. *)
Theorem kexit_command_halts {E H P} `{Cpu.Machine E} `{Mmio H} `{PageSource P} cfg_read cfg_write junk root lit_strtab
    kexit_address get_cpuid stubs tss task pic apic kb_handler dsdt facp apic_lit mcfg fuel kernel_end ph responses cpu0
    (k : Kernel.kernel E) (h : H) m (ps : P) hp devs p ps' hp' m0 bytes held out t syms f wakes :
  Kernel.kmain_start get_cpuid stubs tss task pic apic dsdt facp apic_lit mcfg kb_handler fuel kernel_end root m ph responses
    cpu0 = Ok k →
  scan_pci_space cfg_read junk fuel h = Ok devs → locate_pci_device devs 1 6 0 = Ok None →
  LibAlloc.malloc fuel ps hp 80 = Ok (p, ps', hp') → mapped m p 80 →
  m0 ⊆ m → (∀ a, p ≤ a < p + 80 → m0 !! a = None) →
  tables_of (Kernel.kernel_file_address E k) lit_strtab m0 None = Ok t → symbols_at m0 t syms →
  foldl (line_step 80) (Some (∅, [], [])) bytes = Some (held, kexit_name, out) →
  (5 < fuel)%nat → Forall (λ x, length x.2 < fuel)%nat syms →
  hd_error (filter (λ x, is_function x.1 = true ∧ x.2 = kexit_name) syms) = Some f →
  st_value f.1 = kexit_address → kexit_address ≠ 0 →
  let typing := ((λ b, (1, b)) <$> bytes) ++ (1, 28) :: wakes in
  (∃ s s' out', kmain_devices cfg_read cfg_write junk root fuel k h m ps hp = Ok (s, [Putchar 62]) ∧
    idle lit_strtab kexit_address fuel s typing = Ok (s', out') ∧ kexit_flag s' = true) ∧
  ∀ flags pm1a pm1b,
    kmain cfg_read cfg_write junk root lit_strtab kexit_address get_cpuid stubs tss task pic apic kb_handler dsdt facp apic_lit
      mcfg fuel kernel_end m ph responses cpu0 h ps hp typing flags pm1a pm1b = Err Halted.
Proof.
  intros Hstart Hscan Hd Hm Hmap Hsub Hsep Htab Hsyms Hs Hfu Hfs Hh Hv Hx typing.
  pose proof (kmain_devices_prompt cfg_read cfg_write junk root fuel k h m ps ps' hp devs p hp' Hscan Hd Hm) as Ep.
  edestruct (idle_kexit lit_strtab kexit_address fuel (prompt_system k h m ps' hp' devs p) 80 m0 bytes ∅ held out t
    syms f wakes)
    as (s' & out' & Ei & Hk'); try done; [exact keys_held_none|].
  split; [by eexists _, s', out'|]. intros flags pm1a pm1b. unfold kmain. rewrite Hstart. simpl_res.
  rewrite Ep. simpl_res. unfold kmain_end, typing. rewrite Ei. simpl_res. by rewrite shutdown_halts.
Qed.

(** C30: a disk keeps the kernel from its shell: when the PCI scan finds an AHCI
    controller whose registers are mapped at [abar], with an ATA disk on one of
    its ports, the part of [kmain] from [init_pci] to [init_shell] does not
    come to its end, however long it runs. *)
Theorem disk_blocks_kmain {E H P} `{Cpu.Machine E} `{Mmio H} `{PageSource P} cfg_read cfg_write junk root fuel
    (k : Kernel.kernel E) (h : H) m (ps : P) hp devs d phys fs ph abar i drive stopped pending r :
  scan_pci_space cfg_read junk fuel h = Ok devs → locate_pci_device devs 1 6 0 = Ok (Some d) →
  pci_compare_value (Some d) 3 0 0x007F0000 = Ok true → register d 9 = Ok phys →
  map_page_nearest fuel (Kernel.hhdm_mapping k) (Kernel.frame_allocator E k) (Kernel.page_tables E k) root
    (u64 (phys + Kernel.hhdm_mapping k)) phys (Z.lor (Z.lor PAGE_PRESENT PAGE_WRITABLE) PAGE_CACHE_DISABLE) =
    Ok (abar, fs, ph) →
  0 ≤ i < 32 → drive_present abar i drive → engine_off (ports abar i) stopped pending →
  (∀ h a v, drive h → drive (cfg_write h a v)) → drive h →
  kmain_devices cfg_read cfg_write junk root fuel k h m ps hp ≠ Ok r.
Proof.
  intros Hscan Hd Hc Hp Hm Hi Hdr Hoff Hcfg Hh Ek. unfold kmain_devices, init_pci, init_disks in Ek.
  cbn [acpi_late_init hw] in Ek. rewrite Hscan in Ek. simpl_res. cbv zeta in Ek.
  destruct (Ahci.init_ahci _ _ _ _ _ _ _ _) as [a|] eqn:Ea; simpl_res; [|done].
  by apply (init_ahci_never root (Kernel.hhdm_mapping k) abar i drive stopped pending Hdr Hoff
    cfg_read cfg_write fuel devs _ d phys fs ph) in Ea.
Qed.

(** ** Witnesses *)

(** A kernel that has started, on the tables of Paging.v; the direct map is at
    0x100000. *)
Definition demo_kernel : Kernel.kernel toggle :=
  Kernel.Kernel load_gdt [] (Tss 0 104) 0x100000 0x200000 (init_fb 0x80000 2560 640 400) demo_frames demo_phys
    (ListState (ListNode 0 0) ∅ 0) (AcpiTables 0 0 0 []) boot_state.

(** A kernel file at 0x200000 with a string table of section names, a symbol
    table with the function kexit at 64, and its string table. *)
Definition kexit_file : mem :=
  let shdr name type offset size :=
    le_bytes 4 name ++ le_bytes 4 type ++ replicate 16 0 ++ le_bytes 8 offset ++ le_bytes 8 size ++ replicate 24 0 in
  let header := replicate 40 0 ++ le_bytes 8 64 ++ replicate 10 0 ++ le_bytes 2 64 ++ le_bytes 2 3 ++ le_bytes 2 0 in
  write_bytes (write_bytes ∅ 0x200000
    (header ++ shdr 0 3 256 8 ++ shdr 1 2 264 24 ++ shdr 0 3 288 7 ++
     [46; 115; 116; 114; 116; 97; 98; 0] ++ demo_sym 1 18 64 ++ 0 :: kexit_name ++ [0]))
    0x210000 [46; 115; 116; 114; 116; 97; 98; 0].

(** An ACPI table: signature, length, checksum and body. *)
Definition acpi_table (sg body : list Z) : list Z :=
  let table c := sg ++ le_bytes 4 (36 + Z.of_nat (length body)) ++ [1; c] ++ replicate 26 0 ++ body in
  table ((256 - foldl Z.add 0 (table 0) mod 256) mod 256).

(** Memory at the start: the kernel file; the block of the shell, as liballoc
    hands it out first; the root pointer, the XSDT and the MADT of the firmware,
    0x100000 higher than their physical addresses; four signatures. *)
Definition boot_memory : mem :=
  write_bytes (write_bytes (write_bytes (write_bytes (kexit_file ∪ write_bytes ∅ 4144 (replicate 80 0))
    0x132000 (replicate 24 0 ++ le_bytes 8 0x30000))
    0x130000 (acpi_table [88; 83; 68; 84] (le_bytes 8 0x31000)))
    0x131000 (acpi_table [65; 80; 73; 67] (le_bytes 4 0xFEE00000 ++ le_bytes 4 0)))
    0x220000 ([68; 83; 68; 84] ++ [70; 65; 67; 80] ++ [65; 80; 73; 67] ++ [77; 67; 70; 71]).

Definition boot_responses : limine_responses :=
  Responses true (Some [LimineFb 0x80000 2560 640 400 32]) (Some [MemmapEntry 0x400000 0x100000 0]) (Some 0x100000)
    (Some 0x132000) (Some 0x200000) (Some 3000000).

Definition kexit_tables : elf_tables := ElfTables 0x200108 1 0x200120.
Definition kexit_symbols : list (Elf64_Sym * list Z) := [(Sym 1 18 64, kexit_name)].

Lemma result_at {F T : Type} (r : res (Z * F * T)) a :
  ('(a, _, _) ← r; Ok a) = Ok a → ∃ x y, r = Ok (a, x, y).
Proof. destruct r as [[[b x] y]|]; [|done]. intros [= ->]. by exists x, y. Qed.

Lemma bind_at {A B : Type} (r : res A) (f : A → res B) b : (r ≫= f) = Ok b → ∃ a, r = Ok a ∧ f a = Ok b.
Proof. destruct r as [a|]; [|done]. intros E. by exists a. Qed.

Lemma boot_memory_file :
  (∀ a, 4144 ≤ a < 4144 + 80 → kexit_file !! a = None) ∧ mapped boot_memory 4144 80 ∧ kexit_file ⊆ boot_memory.
Proof.
  assert (Hf : ∀ a v, kexit_file !! a = Some v → 0x200000 ≤ a < 0x210008).
  { intros a v. unfold kexit_file. cbv zeta. rewrite !write_bytes_lookup. cbn [length app].
    case_decide as H1; [cbn in H1; lia|]. case_decide as H2; [|done]. intros _.
    match type of H2 with _ ∧ _ < _ + ?n => let n' := eval vm_compute in n in change n with n' in H2 end. lia. }
  split; [|split].
  - intros a Ha. apply eq_None_not_Some. intros [v Hv%Hf]. lia.
  - intros i Hi. unfold boot_memory. rewrite !write_bytes_lookup, !decide_False by lia.
    apply lookup_union_is_Some. right. apply (bytes_at_mapped _ 4144 (replicate 80 0)); [apply write_bytes_at|done].
  - apply map_subseteq_spec. intros a v Ha. pose proof (Hf a v Ha). unfold boot_memory.
    rewrite !write_bytes_lookup, !decide_False by (cbn; lia). by apply lookup_union_Some_l.
Qed.

(** The whole run, on a host without devices: the keys K, E, X, I and T, and
    return; then another interrupt, which comes too late. *)
Lemma kexit_command_halts_witness :
  let typing := ((λ b, (1, b)) <$> [0x25; 0x12; 0x2D; 0x17; 0x14]) ++ (1, 28) :: [(0, 0)] in
  kmain (λ h a, 0xFFFFFFFF) (λ h _ _, h) (λ _, 0) 0x1000 0x210000 64 (λ _, None) (replicate 256 0x9000) 0x9100 0x9180 0x9200
    0x9300 0x9400 0x220000 0x220004 0x220008 0x22000C 64 0x300000 boot_memory demo_phys boot_responses boot_state
    (DemoHw 0 0) pages0 heap0 typing 0 0x604 0 = Err Halted.
Proof.
  destruct (result_at (LibAlloc.malloc 64 pages0 heap0 80) 4144) as (ps' & hp & Em); [vm_compute; reflexivity|].
  destruct (bind_at (Kernel.kmain_start (λ _, None) (replicate 256 0x9000) 0x9100 0x9180 0x9200 0x9300 0x220000 0x220004 0x220008
    0x22000C 0x9400 64 0x300000 0x1000 boot_memory demo_phys boot_responses boot_state)
    (λ k, Ok (Kernel.kernel_file_address toggle k)) 0x200000) as (k & Ek & [= Ef]); [vm_compute; reflexivity|].
  assert (Ht : tables_of 0x200000 0x210000 kexit_file None = Ok kexit_tables) by (vm_compute; reflexivity).
  assert (Hs : symbols_at kexit_file kexit_tables kexit_symbols).
  { split_and!; [done..|]. intros [|i] s Hs; [injection Hs as <-|done].
    split; [vm_compute; reflexivity|]. eapply (cstring_at_decide _ _ 6); vm_compute; reflexivity. }
  destruct boot_memory_file as (Hn & Hm & Hsub).
  revert Ek Ht Hs Hn Hm Hsub. generalize kexit_file boot_memory. intros m0 m Ek Ht Hs Hn Hm Hsub. rewrite <- Ef in Ht.
  eapply (kexit_command_halts (λ h a, 0xFFFFFFFF) (λ h _ _, h) (λ _, 0) 0x1000 0x210000 64 (λ _, None)
    (replicate 256 0x9000) 0x9100 0x9180 0x9200 0x9300 0x9400 0x220000 0x220004 0x220008 0x22000C 64 0x300000 demo_phys
    boot_responses boot_state k (DemoHw 0 0) m pages0 heap0 [] 4144 ps' hp m0 [0x25; 0x12; 0x2D; 0x17; 0x14] _ _ kexit_tables
    kexit_symbols (Sym 1 18 64, kexit_name));
    [exact Ek|vm_compute; reflexivity|done|exact Em|exact Hm|exact Hsub|exact Hn|exact Ht|exact Hs|vm_compute; reflexivity
    |lia|repeat constructor|reflexivity|done|done].
Defined.

(** A controller at 0x190000 with a disk on port 0, found behind the host
    bridge; CI is served only while the command engine runs. *)
Definition disk_abar : Z := 0x190000.

Record disk_hw := DiskHw { disk_cmd : Z; disk_ci : Z }.

#[export] Instance disk_mmio : Mmio disk_hw := {|
  mmio_read a h :=
    (if a =? disk_abar + GHC_PI then 1
     else if a =? ports disk_abar 0 + PORT_SSTS then 0x123
     else if a =? ports disk_abar 0 + PORT_SIG then SATA_SIG_ATA
     else if a =? ports disk_abar 0 + PORT_CMD then disk_cmd h
     else if a =? ports disk_abar 0 + PORT_CI then disk_ci h
     else if a =? ports disk_abar 0 + PORT_CLB then 0x40000
     else if a =? ports disk_abar 0 + PORT_FB then 0x41000 else 0, h);
  mmio_write a v h :=
    if a =? ports disk_abar 0 + PORT_CMD then DiskHw v (disk_ci h)
    else if a =? ports disk_abar 0 + PORT_CI then
      DiskHw (disk_cmd h) (if Z.testbit (disk_cmd h) 0 then 0 else Z.lor (disk_ci h) v)
    else h
|}.

Definition disk_cfg (h : disk_hw) (a : Z) : Z :=
  if (a / 2 ^ 11 mod 32 =? 3) && (a / 4 mod 64 =? 9) then 0x90000
  else if (a / 2 ^ 11 mod 32 =? 3) && (a / 4 mod 64 =? 1) then 0 else demo_cfg tt a.

Lemma disk_present : drive_present disk_abar 0 (λ _ : disk_hw, True).
Proof. by split. Qed.

Lemma disk_engine_off :
  engine_off (ports disk_abar 0) (λ h, Z.testbit (disk_cmd h) 0 = false) (λ slot h, Z.testbit (disk_ci h) slot = true).
Proof.
  split; cbn -[ports disk_abar Z.testbit Z.eqb Z.pow Z.lor]; try done.
  - intros a v h Hs Ha. rewrite (proj2 (Z.eqb_neq _ _) Ha). by case_match.
  - intros slot h Hs Hr. change (ports disk_abar 0 + PORT_CI =? ports disk_abar 0 + PORT_CMD) with false.
    rewrite Z.eqb_refl. cbv iota. cbn [disk_ci].
    by rewrite Hs, Z.lor_spec, Z.pow2_bits_true, orb_true_r by lia.
Qed.

Definition disk_devices : list pci_device :=
  match scan_pci_space disk_cfg (λ _, 0) 1 (DiskHw 0 0) with Ok devs => devs | Err _ => [] end.

Definition disk_found : pci_device_descriptor := get_device_descriptor disk_cfg (λ _, 0) (DiskHw 0 0) 0 3 0.

(** The command list of the port and a command table at 0x8000, both seen
    0x100000 higher. *)
Definition disk_memory : mem :=
  write_bytes (write_bytes ∅ 0x140000 (replicate 8 0 ++ le_bytes 4 0x8000 ++ replicate 20 0)) 0x108000 (replicate 144 7).

(** The example gets to the loop at the end of [send_cmd], and stays there. *)
Lemma disk_blocks_kmain_witness :
  kmain_devices disk_cfg (λ h _ _, h) (λ _, 0) 0x1000 5 demo_kernel (DiskHw 0 0) disk_memory pages0 heap0 = Err OutOfFuel ∧
  ∀ r, kmain_devices disk_cfg (λ h _ _, h) (λ _, 0) 0x1000 5 demo_kernel (DiskHw 0 0) disk_memory pages0 heap0 ≠ Ok r.
Proof.
  split; [vm_compute; reflexivity|]. intros r.
  assert (Hm : ∃ fs ph, map_page_nearest 5 0x100000 demo_frames demo_phys 0x1000 (u64 (0x90000 + 0x100000)) 0x90000
    (Z.lor (Z.lor PAGE_PRESENT PAGE_WRITABLE) PAGE_CACHE_DISABLE) = Ok (disk_abar, fs, ph)).
  { apply (result_at _ disk_abar). vm_compute. reflexivity. }
  destruct Hm as (fs & ph & Em).
  apply (disk_blocks_kmain disk_cfg (λ h _ _, h) (λ _, 0) 0x1000 5 demo_kernel (DiskHw 0 0) disk_memory pages0 heap0 disk_devices
    disk_found 0x90000 fs ph disk_abar 0 (λ _, True) (λ h, Z.testbit (disk_cmd h) 0 = false)
    (λ slot h, Z.testbit (disk_ci h) slot = true) r);
    [vm_compute; reflexivity|vm_compute; reflexivity|vm_compute; reflexivity|vm_compute; reflexivity|exact Em|lia
    |exact disk_present|exact disk_engine_off|done|done].
Defined.
